(* ===== verification/_CoqProject ===== *)
-Q . S2P
Prelude.v
Machine.v
Loop.v
Device.v
Layout.v
IndexScan.v
PackedTable.v
Interval.v
Replay.v
DirectIO.v
DeviceState.v
DeviceInv.v
DeviceOps.v
DiskStore.v
Crash.v
Gate.v
Float.v
Chd.v
Fragmentation.v
Text.v
Path.v
Config.v
MultiDisk.v
Reader.v
Server.v
Pool.v
Serve.v
ServeConc.v
Compact.v
CompactRun.v
Backup.v
Trim.v
TrimIndex.v
TrimWrite.v
TrimStore.v
TrimPack.v
TrimCompact.v
TrimCollect.v
TrimRun.v
TrimDisk.v
TrimCrash.v
TrimRead.v
PoolTrim.v
IndexFind.v
PackedScrub.v
Flag.v
Init.v
Find.v
Snapshot.v
SnapshotFlush.v
Recovery.v
KernelRecovery.v
PoolMap.v
Client.v
Service.v
ServerService.v
Smoke.v
Cdc.v
CdcRun.v
CdcRoundtrip.v
Upload.v
Cli.v
Daemon.v
Lifecycle.v
BlkCli.v
