(* ===== verification/Prelude.v ===== *)
(** * BSOS: a verified model of a write-once object store

    BSOS keeps immutable objects under 64-bit fids, on raw devices without a file system.  A daemon
    (internal/daemon) serves Put, Get, Head, Health and Bonnie over gRPC from several disks; each disk
    has the on-disk format of internal/blk: a master header, an append-only index of 16-byte entries
    and a grid of 4 KiB slots.  A fid is the xxh3 hash of its content and fixes the address of its
    object; when that extent is taken, the client (pkg/client) retries under the hash of the content
    and one more byte, and registers an alias.  Larger streams are cut into chunks by content and
    described by a manifest object.

    ** The parts and the files that model them

    Foundations.
    - [Prelude] (this file): errors, the result type [res] of fallible Go functions, the state and
      error monad [M], and the lemmas about them.  [Machine]: 64-bit integers, bytes, little endian.
      [Loop]: loops with binary fuel and the total-correctness rule for them.  [Float]: the float64
      values of the configuration.
    - [Device]: byte buffers and the file behind a device, with scripted faults and what a power
      failure may leave of the writes since the last sync.

    The on-disk format (internal/blk).
    - [Layout] (layout.go, addr.go, header.go, index_v2.go, buildHeader of init.go), [IndexScan]
      (index.go, scanIndexStream), [PackedTable] (internal/daemon/packed_table.go).
    - [Compact] and [CompactRun] (index_compact.go): the rewriting of an index to its live records.
      [Backup] (index_backup.go, index_restore.go): copying the header and the index to a file and back.
      [PackedScrub] (index_packed_scrub.go): removing the anchors of broken packed tables.  [Init]
      (init.go, info.go): formatting a device.  [Find] (find.go): listing the devices of the host.
      [BlkCli]: the command lines of the first three.

    One disk (internal/daemon).
    - [Interval] (interval.go), [Replay] (index_state.go), [DirectIO] (directio.go and the buffered
      path of state.go), [DeviceState] (state.go).
    - [DeviceInv] and [DeviceOps]: the invariant [Inv], by which the maps in memory are what replaying
      the index would rebuild, and every operation's outcome on every branch under arbitrary faults.
      [DiskStore]: the refinement of a disk to a write-once map from fids to bytes.  [Crash]: power
      failures.
    - [Fragmentation] (fragmentation.go) and [Trim] (trim.go): packing small objects into containers.
      The proofs follow the steps: [TrimIndex] (what an anchor and a tombstone do to the mirrored
      index), [TrimWrite] (the invariant [ready] and registering an object), [TrimStore] (writing the
      container and the table), [TrimPack] (anchor, registration, tombstones), [TrimCompact] (the
      in-place compaction), [TrimCollect] (which objects are chosen), [TrimRun] (the whole job) and
      [TrimDisk] (trims between the steps of puts on one disk).  [TrimCrash]: power failures during
      the compaction.  [TrimRead]: reads that puts and trims overtake.  [IndexFind]: the index search of
      the tools (FindLatestIndexEntry) against the index the daemon holds in memory.

    The pool of disks (internal/daemon).
    - [Gate] (gate.go), [Chd] (chd.go), [Text] and [Path] (internal/pan and the Go string functions),
      [Config] (config.go), [MultiDisk] (multidisk.go), [Reader] (the stalling chunk reader of
      server.go), [Server] (the handlers and NewServer of server.go), [PoolMap] (pool_mapping.go).
    - [Pool]: the Put handlers of any number of concurrent calls, interleaved at the locks the code
      takes; the invariant [PoolInv] of all reachable states, and the linearisation to one map.
      [Serve]: reading through the pool, and reopening it.  [ServeConc]: the Get handler while Puts of
      other calls go on.  [PoolTrim]: the trim scheduler over all disks while puts are in flight.

    The process (cmd/bsosd).
    - [Flag] (Go's flag package, for every command), [Daemon]: from the command line to the
      configuration and the exit status.  [Lifecycle]: the goroutines that serve, wait for signals,
      close the server and trim, as a step relation over the class [GrpcServer] of the library's
      listening, serving and stopping.

    The zram tiers (internal/zram).
    - [Snapshot] and [SnapshotFlush] (flush.go and the snapshot files): saving a tier to a compressed
      image and the line that guards it.  [Recovery] (recovery.go): resolving configured tiers to live
      devices or snapshots, over the class [recoveryBackend].  [KernelRecovery] (zram.go, create.go,
      load.go): the backend of the host, over the class [Host] of its devices and files.

    The client (pkg/client, pkg/cdc, pkg/manifest).
    - [Client] (client.go) over the class [BSOSClient] of the generated stub's methods; [Service]: the
      class [PoolService] of what the client relies on, and the client's theorems against it;
      [ServerService]: the modelled server discharges the class, so they hold of the whole system.
    - [Cdc] (cdc.go, chunker.go, manifest.go), [CdcRun] and [CdcRoundtrip]: the goroutines of PutCDC
      as a transition function, and every interleaving of them.
    - [Cli] (cmd/bsos/ops.go, main.go): the commands over the client.  [Upload] (cmd/bsos/upload.go):
      uploading through an HTTP gateway, over the class [Gateway] of its answers, of which no law is
      assumed.  [Smoke] (scripts/vps-smoke): the test of a deployed daemon, over the wire
      and through the indexes of its devices.

    ** How the model reads

    A method that mutates its receiver is a function in the monad [M], or takes the state and gives it
    back; a Go error is a value of [error].  The code under a mutex is one atomic step.  What the
    program cannot decide (the outcome of a system call, when a context ends, in which order a fan-out
    answers, how the scheduler interleaves) is an argument, and the theorems quantify over it.
    uint64 arithmetic is written with [u64] where it can wrap.

    ** What the theorems show

    - A put that is answered is readable, with its alias, and only it has changed ([Serve.put_get_rpc],
      [Pool.put_rpc]); every interleaving of concurrent puts keeps the invariant and is some sequence
      of atomic additions ([Pool.pool_reachable], [Pool.pool_linearizable]), and a Get that runs among
      them answers as at one instant of its call ([ServeConc.concurrent_get]); a restart finds the same
      pool ([Serve.restart_pool]).
    - A disk refines a write-once map ([DiskStore.commit_refines_store]); a power failure after any call
      of a commit leaves it with or without the object, and with it when the commit was answered
      ([Crash.commit_crash_atomic]), except that an alias pair torn between two units of the device
      makes it unreadable ([Crash.torn_alias_pair]).
    - A compacted index replays to the same state ([CompactRun.compact_preserves_replay]); a backup of
      the index brings a disk back, from one command line to the other
      ([Backup.backup_restore_roundtrip], [BlkCli.backup_restore_commands]); a scrub reads tables as the
      daemon does and makes a disk with broken ones open again ([PackedScrub.scrub_agrees_with_decoder],
      [PackedScrub.scrub_recovers]); an initialised device opens as an empty disk ([Init.init_formats]),
      and discovery lists exactly the readable ones ([Find.find_lists_devices]).  The index search of the
      tools finds what the daemon reads directly, and no deleted object
      ([IndexFind.find_agrees_with_daemon]).
    - Trims keep every object and free the slots of what they pack, wherever they stop
      ([TrimDisk.trim_packs_objects]), also between the steps of puts in flight on every disk of the
      pool ([TrimDisk.history_keeps_objects], [PoolTrim.pool_trims_keep_objects],
      [PoolTrim.trim_tick_keeps_pool]).  They need an index of less than half a scan chunk, because
      of [IndexScan.zero_run_truncates_scan], tables and containers that do not hash to 0
      ([TrimRun.nonzero_fids]), because replay refuses an anchor of fid 0, and, in a pool, table and
      container fids that no other disk holds: a trim does not ask the gate, and any fid it registers
      that is on another disk keeps the server from starting again ([PoolTrim.trim_bypasses_gate]).  The compaction that ends
      one is atomic under power failures when the index lies in one unit of the device
      ([TrimCrash.compact_crash_atomic]); in a longer index it is not, and a failure can leave a disk
      that does not open ([TrimCrash.torn_compaction]).  A read that a trim overtakes is right unless the
      trim packs its very object ([TrimRead.late_read]); then it returns the bytes of whatever object was
      put at the old address ([TrimRead.stale_read]).
    - A graceful stop closes no disk while a handler runs, starts none afterwards, and ends
      ([Lifecycle.drained_shutdown], [Lifecycle.shutdown_terminates]); a signal that comes too early
      and a trim in flight escape it ([Lifecycle.shutdown_races]).
      Flags override the configuration file one by one ([Daemon.daemon_config_flags]), without its
      checks ([Daemon.flags_bypass_checks]).
    - A flush leaves a snapshot that validates and decodes to the device, or the old one, whichever open,
      read or write of it fails ([SnapshotFlush.flush_then_validate], [SnapshotFlush.flush_failure]); what a start restores
      ([Recovery.restore_pool]), that a second start restores nothing
      ([Recovery.restart_restores_nothing]), that a device in use is never overwritten
      ([KernelRecovery.restore_protects]), and that flushing and restoring gives the bytes back
      ([KernelRecovery.flush_restore_roundtrip]).  pan.json is replaced whole or not at all
      ([PoolMap.persist_atomic]).
    - The client's retry, reading and verification over any service with the laws of [PoolService], by
      which a put that fails may have stored its object when only the answer was lost
      ([ServerService.put_with_jump_retry] and its neighbours); PutCDC ends under every schedule without
      a cancellation and GetCDC reads back what it stored ([CdcRoundtrip.put_cdc_terminates],
      [CdcRoundtrip.cdc_roundtrip]); what [bsos put] reports stored can be read ([Cli.put_get_commands]),
      and when [bsos upload] reports success its gateway has confirmed every piece of the input
      ([Upload.upload_complete]).  The hash is asked to be injective only on the finitely many contents
      of one run, and no other call in flight to hold their fids.  The smoke test passes exactly on a pool that
      holds its fixtures outside packed tables ([Smoke.smoke_verify]), and a seed that passed has stored
      them ([Smoke.seed_sound]).
    - Codecs are inverse to each other, addresses stay inside the grid, capacity and fragmentation
      estimates are what they are meant to be, and the error theorems exhibit inputs on which the code
      does something it should not.

    ** Bounds and fuel

    Loops take binary fuel with a proved bound: the index has 16,776,960 entries, a payload at most
    2^64 bytes, a bisection 64 steps.  The measure of a PutCDC run is 262 actions per chunk, one per
    worker and two.

    ** Not modelled

    Opening devices and their ioctls (the answers of the operating system are arguments), the page
    alignment of O_DIRECT buffers, the gRPC transport and the generated protobuf code, the xxh3 hash,
    SHA-256, the FastCDC algorithm, zstd, and the TOML, JSON and URL libraries (parameters, with what
    the code relies on as hypotheses); the text the commands print and the contents of error messages
    beyond what the code tests; the semaphore of acquireIO, of which the model keeps the error;
    logicalFileSizes, which nothing calls; the examples and the end-to-end and stress programs under
    examples and scripts, which print what a running daemon answers. *)

From stdpp Require Export base tactics option list numbers gmap sorting strings.
From Stdlib Require Export ZArith Lia.
From Stdlib Require Import Strings.Byte.
#[global] Open Scope Z_scope.

(** ** Errors

    Go's [error] values.  The sentinels are the package variables the code compares against with
    [errors.Is] or [==]; [EMsg] is [fmt.Errorf] without a wrapped error and [EWrap] is
    [fmt.Errorf] with [%w].  [EDevice] is what the operating system returns when an operation on
    an open file fails.  [EPanic] is a run-time panic, which the caller does not see as an error
    value.  [EFuel] is no error of the program: a loop of the model returns it when
    its fuel runs out, and each loop has a theorem that it never does. *)
Inductive error :=
  | EConflict
  | ENotFound
  | EIndexFull
  | EIndexNotFound
  | EOutOfRange
  | ENotNBSS
  | EEOF
  | EUnexpectedEOF
  | EShortWrite
  | EDevice
  | ECanceled
  | EMsg (msg : string)
  | EWrap (msg : string) (e : error)
  | EPanic (msg : string)
  | EFuel.

#[export] Instance error_eq_dec : EqDecision error.
Proof. solve_decision. Defined.

(** [errors.Is]: the error itself or anything it wraps. *)
Fixpoint errors_Is (e target : error) : bool :=
  bool_decide (e = target) ||
  match e with
  | EWrap _ e' => errors_Is e' target
  | _ => false
  end.

(** ** Results *)
Inductive res (A : Type) :=
  | Ok (a : A)
  | Err (e : error).
Arguments Ok {A} _.
Arguments Err {A} _.

#[export] Instance res_ret : MRet res := λ A a, Ok a.
#[export] Instance res_bind : MBind res := λ A B k m,
  match m with Ok a => k a | Err e => Err e end.

Definition wrap_err {A} (msg : string) (m : res A) : res A :=
  match m with Ok a => Ok a | Err e => Err (EWrap msg e) end.

Definition is_ok {A} (m : res A) : bool :=
  match m with Ok _ => true | Err _ => false end.

Lemma res_bind_Ok {A B} (k : A → res B) (m : res A) b :
  m ≫= k = Ok b ↔ ∃ a, m = Ok a ∧ k a = Ok b.
Proof. destruct m; cbn; naive_solver. Qed.

(** A left fold that stops at the first error, as a Go loop over a slice that returns the
    callback's error. *)
Fixpoint foldM {A B} (f : A → B → res A) (a : A) (l : list B) : res A :=
  match l with
  | [] => Ok a
  | b :: l' => a' ← f a b; foldM f a' l'
  end.

Lemma foldM_app {A B} (f : A → B → res A) a l1 l2 :
  foldM f a (l1 ++ l2) = a' ← foldM f a l1; foldM f a' l2.
Proof.
  revert a. induction l1 as [|b l1 IH]; intros a; [done|].
  cbn. destruct (f a b); cbn; [apply IH|done].
Qed.

Lemma foldM_snoc {A B} (f : A → B → res A) a l b :
  foldM f a (l ++ [b]) = a' ← foldM f a l; f a' b.
Proof. rewrite foldM_app. destruct (foldM f a l); cbn; [|done]. by destruct (f _ _). Qed.

(** Rule induction for [foldM]: what every step preserves holds at the end. *)
Lemma foldM_invariant {A B} (P : A → Prop) (f : A → B → res A) a l a' :
  P a → (∀ x y z, P x → y ∈ l → f x y = Ok z → P z) → foldM f a l = Ok a' → P a'.
Proof.
  revert a. induction l as [|b l IH]; cbn; intros a Ha Hstep Hf.
  - by injection Hf as <-.
  - apply res_bind_Ok in Hf as (z & Hz & Hf).
    eapply (IH z); [|by intros x y z' ? ?; apply Hstep; [done|right]|exact Hf].
    by eapply Hstep; [|left|].
Qed.

(** ** The state and error monad

    [M S A] is a Go function that updates an object of type [S] through a pointer and returns
    [(A, error)].  The updated object survives an error return: what was already written stays
    written. *)
Definition M (S A : Type) : Type := S → res A * S.

#[export] Instance M_ret {S} : MRet (M S) := λ A a s, (Ok a, s).
#[export] Instance M_bind {S} : MBind (M S) := λ A B k m s,
  match m s with (Ok a, s') => k a s' | (Err e, s') => (Err e, s') end.

Definition mfail {S A} (e : error) : M S A := λ s, (Err e, s).
Definition mget {S} : M S S := λ s, (Ok s, s).
Definition mput {S} (s : S) : M S unit := λ _, (Ok tt, s).
Definition mlift {S A} (m : res A) : M S A := λ s, (m, s).
Definition mwrap {S A} (msg : string) (m : M S A) : M S A := λ s,
  let '(r, s') := m s in (wrap_err msg r, s').
(** Run [m] and hand its outcome, error included, to the continuation. *)
Definition mcatch {S A} (m : M S A) : M S (res A) := λ s,
  let '(r, s') := m s in (Ok r, s').

Lemma M_bind_Ok {S A B} (k : A → M S B) (m : M S A) s b s'' :
  (m ≫= k) s = (Ok b, s'') ↔ ∃ a s', m s = (Ok a, s') ∧ k a s' = (Ok b, s'').
Proof. unfold mbind, M_bind. destruct (m s) as [[a|e] s']; naive_solver. Qed.
