(* ===== verification/Loop.v ===== *)
(** * Loops with binary fuel

    A Go [for] loop is a step function that either continues with a new loop state ([inl]) or
    leaves the loop with a result ([inr]).  The fuel is a [positive] consumed in binary, so that
    bounds such as the 16,776,960 entries of an index cost nothing when the loop leaves early.
    [loop_total] is the total-correctness rule (invariant and measure) every bounded loop of the
    development uses; [mloop] is the same loop inside the monad of [Prelude]. *)

From S2P Require Import Prelude.

Section loop.
Context {S R : Type}.
Implicit Types (f : S → S + R) (s : S).

Fixpoint loop (p : positive) f s : S + R :=
  match p with
  | xH => f s
  | xO p => match loop p f s with inl s' => loop p f s' | inr r => inr r end
  | xI p =>
      match f s with
      | inl s' => match loop p f s' with inl s'' => loop p f s'' | inr r => inr r end
      | inr r => inr r
      end
  end.

(** The same loop with unary fuel, for proofs by induction. *)
Fixpoint loop_nat (n : nat) f s : S + R :=
  match n with
  | O => inl s
  | Datatypes.S n => match f s with inl s' => loop_nat n f s' | inr r => inr r end
  end.

Lemma loop_nat_add n m f s :
  loop_nat (n + m) f s =
  match loop_nat n f s with inl s' => loop_nat m f s' | inr r => inr r end.
Proof. revert s. induction n as [|n IH]; intros s; cbn; [done|]. by destruct (f s). Qed.

Lemma loop_nat_eq p f s : loop p f s = loop_nat (Pos.to_nat p) f s.
Proof.
  revert s. induction p as [p IH|p IH|]; intros s; cbn [loop].
  - rewrite Pos2Nat.inj_xI. cbn [loop_nat]. destruct (f s) as [s'|]; [|done].
    replace (2 * Pos.to_nat p)%nat with (Pos.to_nat p + Pos.to_nat p)%nat by lia.
    rewrite loop_nat_add, !IH. destruct (loop_nat _ f s'); [apply IH|done].
  - rewrite Pos2Nat.inj_xO.
    replace (2 * Pos.to_nat p)%nat with (Pos.to_nat p + Pos.to_nat p)%nat by lia.
    rewrite loop_nat_add, !IH. destruct (loop_nat _ f s); [apply IH|done].
  - change (Pos.to_nat 1) with 1%nat. cbn. by destruct (f s).
Qed.

(** Once the loop has left, more fuel changes nothing. *)
Lemma loop_nat_mono n m f s r :
  (n ≤ m)%nat → loop_nat n f s = inr r → loop_nat m f s = inr r.
Proof.
  intros Hle H. replace m with (n + (m - n))%nat by lia. by rewrite loop_nat_add, H.
Qed.

Lemma loop_mono p q f s r : (p ≤ q)%positive → loop p f s = inr r → loop q f s = inr r.
Proof. rewrite !loop_nat_eq. intros. eapply loop_nat_mono; [|done]. lia. Qed.

(** Total correctness: an invariant, a measure that decreases while the loop continues, and
    fuel above the measure. *)
Lemma loop_total (I : S → Prop) (μ : S → Z) (Q : R → Prop) p f s :
  I s → 0 ≤ μ s < Zpos p →
  (∀ s, I s → 0 ≤ μ s →
    match f s with inl s' => I s' ∧ 0 ≤ μ s' < μ s | inr r => Q r end) →
  ∃ r, loop p f s = inr r ∧ Q r.
Proof.
  rewrite loop_nat_eq. intros HI Hμ Hstep.
  assert (Hn : μ s < Z.of_nat (Pos.to_nat p)) by lia.
  revert s HI Hμ Hn. generalize (Pos.to_nat p) as n. intros n.
  induction n as [|n IH]; intros s HI Hμ Hn; [lia|]. cbn.
  specialize (Hstep s HI ltac:(lia)). destruct (f s) as [s'|r]; [|by eauto].
  destruct Hstep as (HI' & Hμ'). apply IH; [done|lia|lia].
Qed.

(** Two step functions that agree on the states the invariant allows run alike. *)
Lemma loop_ext p f g s : (∀ s, f s = g s) → loop p f s = loop p g s.
Proof.
  intros H. rewrite !loop_nat_eq. revert s. induction (Pos.to_nat p) as [|n IH]; intros s; [done|].
  cbn. rewrite H. by destruct (g s).
Qed.
End loop.

(** A loop in the monad of [Prelude]: an error of the body leaves the loop, keeping the state
    reached.  Out of fuel is [EFuel]. *)
Definition mloop {S A R} (p : positive) (body : A → M S (A + R)) (a : A) : M S R := λ s,
  match loop p (λ '(a, s),
      match body a s with
      | (Ok (inl a'), s') => inl (a', s')
      | (Ok (inr r), s') => inr (Ok r, s')
      | (Err e, s') => inr (Err e, s')
      end) (a, s) with
  | inl (_, s') => (Err EFuel, s')
  | inr x => x
  end.

Lemma mloop_total {S A R} (I : A → S → Prop) (μ : A → Z) (Q : res R → S → Prop)
    p (body : A → M S (A + R)) a s :
  I a s → 0 ≤ μ a < Zpos p →
  (∀ a s, I a s → 0 ≤ μ a →
    match body a s with
    | (Ok (inl a'), s') => I a' s' ∧ 0 ≤ μ a' < μ a
    | (Ok (inr r), s') => Q (Ok r) s'
    | (Err e, s') => Q (Err e) s'
    end) →
  Q (mloop p body a s).1 (mloop p body a s).2.
Proof.
  intros HI Hμ Hstep. unfold mloop.
  edestruct (loop_total (λ '(a, s), I a s) (λ '(a, _), μ a) (λ '(r, s), Q r s) p)
    as ([r s'] & -> & HQ); [exact HI|exact Hμ| |exact HQ].
  intros [a' s'] HI' Hμ'. specialize (Hstep a' s' HI' Hμ').
  by destruct (body a' s') as [[[?|?]|?] ?].
Qed.

(** Two loops in lockstep, the state of the second mapped to that of the first. *)
Lemma mloop_map {S S' A R} (h : S' → S) p (body : A → M S (A + R)) (body' : A → M S' (A + R)) a s :
  (∀ a s, body a (h s) = let '(r, s') := body' a s in (r, h s')) →
  mloop p body a (h s) = let '(r, s') := mloop p body' a s in (r, h s').
Proof.
  intros H. unfold mloop. rewrite !loop_nat_eq. revert a s.
  induction (Pos.to_nat p) as [|n IH]; intros a s; [done|]. cbn. rewrite H.
  destruct (body' a s) as [[[a'|r]|e] s']; [apply IH|done|done].
Qed.
