(* ===== verification/Device.v ===== *)
(** * Byte buffers and the file behind a device

    The [deviceFile] interface of internal/daemon/state.go ([io.ReaderAt], [io.WriterAt],
    [Sync]), as [os.File] implements it.  A [buf] is a Go byte slice given by its length and its
    bytes, so that a 256 MiB zero fill or a region copied from another file is a value of constant
    size.  A [file] separates what a completed [Sync] made durable ([f_base]) from the writes
    issued since ([f_dirty]); [f_data] is what reads see, and [crash] is what a power failure may
    leave.  [f_faults] scripts the failures of the environment: every operation consumes one
    outcome, and an empty script never fails. *)

From S2P Require Import Prelude Machine.
From Stdlib Require Import Strings.Byte.

(** ** Buffers *)
Record buf := Buf { blen : Z; bat : Z → byte }.

Definition buf_of (l : list byte) : buf :=
  Buf (Z.of_nat (length l)) (λ i, default x00 (l !! Z.to_nat i)).
Definition zeros (n : Z) : buf := Buf n (λ _, x00).
Definition buf_slice (b : buf) (lo hi : Z) : buf := Buf (hi - lo) (λ i, bat b (lo + i)).
Definition region (g : Z → byte) (off n : Z) : buf := Buf n (λ i, g (off + i)).
Definition buf_list (b : buf) : list byte := bat b <$> seqZ 0 (blen b).
Definition buf_app (a b : buf) : buf :=
  Buf (blen a + blen b) (λ i, if i <? blen a then bat a i else bat b (i - blen a)).

(** [n] bytes of [g] from [off], as a list. *)
Definition bytes_at (g : Z → byte) (off : Z) (n : nat) : list byte :=
  (λ i, g (off + Z.of_nat i)) <$> seq 0 n.

(** ** Address spaces *)
Definition upd (g : Z → byte) (off : Z) (b : buf) : Z → byte := λ a,
  if (off <=? a) && (a <? off + blen b) then bat b (a - off) else g a.

Definition apply_writes (g : Z → byte) (ws : list (Z * buf)) : Z → byte :=
  foldl (λ g w, upd g w.1 w.2) g ws.

(** ** Files *)
Inductive fault :=
  | FNone
  | FFail (n : Z).  (* fails after transferring n bytes *)

Record file := File {
  f_base : Z → byte;
  f_dirty : list (Z * buf);
  f_size : Z;
  f_grow : bool;  (* a regular file grows when written past its end, a block device does not *)
  f_faults : list fault
}.

Definition f_data (f : file) : Z → byte := apply_writes (f_base f) (f_dirty f).

Definition next_fault (f : file) : fault * file :=
  match f_faults f with
  | [] => (FNone, f)
  | x :: l => (x, File (f_base f) (f_dirty f) (f_size f) (f_grow f) l)
  end.

Definition clamp (lo hi x : Z) : Z := Z.max lo (Z.min hi x).

(** [os.File.ReadAt] into a buffer of [n] bytes: the bytes read and the error. *)
Definition ReadAt (off n : Z) (f : file) : (buf * option error) * file :=
  if off <? 0 then ((Buf 0 (λ _, x00), Some (EMsg "negative offset")), f) else
  let '(flt, f1) := next_fault f in
  let avail := clamp 0 n (f_size f - off) in
  match flt with
  | FNone => ((region (f_data f) off avail, if avail <? n then Some EEOF else None), f1)
  | FFail k => ((region (f_data f) off (clamp 0 avail k), Some EDevice), f1)
  end.

Definition f_write (off : Z) (b : buf) (f : file) : file :=
  File (f_base f) (f_dirty f ++ [(off, b)])
       (if f_grow f then Z.max (f_size f) (off + blen b) else f_size f) (f_grow f) (f_faults f).

(** [os.File.WriteAt]: the number of bytes written and the error.  A count below the length comes
    with an error. *)
Definition WriteAt (b : buf) (off : Z) (f : file) : (Z * option error) * file :=
  if off <? 0 then ((0, Some (EMsg "negative offset")), f) else
  let '(flt, f1) := next_fault f in
  let avail := if f_grow f then blen b else clamp 0 (blen b) (f_size f - off) in
  match flt with
  | FNone => ((avail, if avail <? blen b then Some EDevice else None),
              f_write off (buf_slice b 0 avail) f1)
  | FFail k => let n := clamp 0 avail k in
               ((n, Some EDevice), f_write off (buf_slice b 0 n) f1)
  end.

Definition f_synced (f : file) : file :=
  File (f_data f) [] (f_size f) (f_grow f) (f_faults f).

Definition Sync (f : file) : option error * file :=
  let '(flt, f1) := next_fault f in
  match flt with
  | FNone => (None, f_synced f1)
  | FFail _ => (Some EDevice, f1)
  end.

(** [if _, err := f.WriteAt(b, off); err != nil { return err }] *)
Definition must_write (b : buf) (off : Z) : M file unit := λ f,
  let '((_, err), f') := WriteAt b off f in
  match err with Some e => (Err e, f') | None => (Ok tt, f') end.

(** [n, err := f.ReadAt(b, off)] where both an error and a short count fail. *)
Definition must_read (off n : Z) : M file buf := λ f,
  let '((b, err), f') := ReadAt off n f in
  match err with
  | Some e => (Err e, f')
  | None => if blen b =? n then (Ok b, f') else (Err EUnexpectedEOF, f')
  end.

Definition must_sync : M file unit := λ f,
  let '(err, f') := Sync f in
  match err with Some e => (Err e, f') | None => (Ok tt, f') end.

(** ** Power failure

    The device writes units of [u] bytes atomically: each unit holds the durable content with some
    of the unsynced writes applied, chosen independently per unit. *)
Definition crash (u : Z) (f : file) (g : Z → byte) : Prop :=
  ∀ k, ∃ ws, ws `sublist_of` f_dirty f ∧
    ∀ a, u * k ≤ a < u * (k + 1) → g a = apply_writes (f_base f) ws a.

(** ** Lemmas *)
Lemma upd_in g off b a : off ≤ a < off + blen b → upd g off b a = bat b (a - off).
Proof. intros. unfold upd. destruct (_ && _) eqn:E; [done|]. lia. Qed.

Lemma upd_out g off b a : a < off ∨ off + blen b ≤ a → upd g off b a = g a.
Proof. intros. unfold upd. destruct (_ && _) eqn:E; [|done]. lia. Qed.

Lemma apply_writes_snoc g ws off b :
  apply_writes g (ws ++ [(off, b)]) = upd (apply_writes g ws) off b.
Proof. unfold apply_writes. by rewrite foldl_app. Qed.

Lemma f_data_write off b f : f_data (f_write off b f) = upd (f_data f) off b.
Proof. unfold f_data. cbn. apply apply_writes_snoc. Qed.

Lemma f_data_synced f : f_data (f_synced f) = f_data f.
Proof. done. Qed.

Lemma f_data_next_fault f : f_data (next_fault f).2 = f_data f.
Proof. unfold next_fault. by destruct (f_faults f). Qed.

Lemma clamp_spec lo hi x : lo ≤ hi → lo ≤ clamp lo hi x ≤ hi.
Proof. unfold clamp. lia. Qed.

Lemma length_bytes_at g off n : length (bytes_at g off n) = n.
Proof. unfold bytes_at. by rewrite length_fmap, length_seq. Qed.

Lemma bytes_at_ext g g' off n :
  (∀ a, off ≤ a < off + Z.of_nat n → g a = g' a) → bytes_at g off n = bytes_at g' off n.
Proof.
  intros H. unfold bytes_at. apply list_fmap_ext. intros i k Hk.
  apply lookup_seq in Hk. apply H. lia.
Qed.

Lemma lookup_bytes_at g off n i :
  (i < n)%nat → bytes_at g off n !! i = Some (g (off + Z.of_nat i)).
Proof. intros. unfold bytes_at. rewrite list_lookup_fmap, lookup_seq_lt by lia. done. Qed.

Lemma bytes_at_buf_of l : bytes_at (bat (buf_of l)) 0 (length l) = l.
Proof.
  apply list_eq_same_length with (length l); [done|apply length_bytes_at|].
  intros i x y Hi Hx Hy. rewrite lookup_bytes_at in Hx by done.
  unfold buf_of in Hx. cbn [bat] in Hx. rewrite Z.add_0_l, Nat2Z.id, Hy in Hx.
  cbn in Hx. congruence.
Qed.

Lemma bytes_at_app g off n m :
  bytes_at g off (n + m) = bytes_at g off n ++ bytes_at g (off + Z.of_nat n) m.
Proof.
  unfold bytes_at. rewrite seq_app, fmap_app. f_equal.
  replace (0 + n)%nat with (n + 0)%nat by lia.
  rewrite <- (fmap_add_seq n 0 m), <- list_fmap_compose. apply list_fmap_ext.
  intros. cbn. f_equal. lia.
Qed.

Lemma bytes_at_upd_of g off l : bytes_at (upd g off (buf_of l)) off (length l) = l.
Proof.
  rewrite <- (bytes_at_buf_of l) at 3. unfold bytes_at. apply list_fmap_ext.
  intros i k Hk. apply lookup_seq in Hk. rewrite upd_in by (cbn; lia).
  do 2 f_equal. lia.
Qed.

Lemma length_buf_list b : length (buf_list b) = Z.to_nat (blen b).
Proof. unfold buf_list. by rewrite length_fmap, length_seqZ. Qed.

Lemma buf_list_bytes_at b : buf_list b = bytes_at (bat b) 0 (Z.to_nat (blen b)).
Proof.
  unfold buf_list, bytes_at, seqZ. rewrite <- list_fmap_compose. apply list_fmap_ext.
  intros. cbn. f_equal. lia.
Qed.

Lemma buf_list_of l : buf_list (buf_of l) = l.
Proof. rewrite buf_list_bytes_at. cbn. rewrite Nat2Z.id. apply bytes_at_buf_of. Qed.

Lemma buf_list_region g off n : buf_list (region g off n) = bytes_at g off (Z.to_nat n).
Proof.
  rewrite buf_list_bytes_at. unfold bytes_at. apply list_fmap_ext. intros. cbn. f_equal.
Qed.

(** Operations that meet no fault. *)
Section fault_free.
Context (f : file) (Hf : f_faults f = []).

Lemma ReadAt_ok off n :
  0 ≤ off → 0 ≤ n → off + n ≤ f_size f →
  ReadAt off n f = ((region (f_data f) off n, None), f).
Proof using Hf.
  intros. unfold ReadAt, next_fault. rewrite Hf.
  destruct (Z.ltb_spec off 0); [lia|].
  replace (clamp 0 n (f_size f - off)) with n by (unfold clamp; lia).
  by rewrite Z.ltb_irrefl.
Qed.

Lemma must_read_ok off n :
  0 ≤ off → 0 ≤ n → off + n ≤ f_size f →
  must_read off n f = (Ok (region (f_data f) off n), f).
Proof using Hf. intros. unfold must_read. rewrite ReadAt_ok by done. cbn. by rewrite Z.eqb_refl. Qed.

Lemma WriteAt_ok b off :
  0 ≤ off → 0 ≤ blen b → off + blen b ≤ f_size f →
  WriteAt b off f = ((blen b, None), f_write off (buf_slice b 0 (blen b)) f).
Proof using Hf.
  intros. unfold WriteAt, next_fault. rewrite Hf.
  destruct (Z.ltb_spec off 0); [lia|].
  replace (if f_grow f then blen b else clamp 0 (blen b) (f_size f - off)) with (blen b)
    by (unfold clamp; destruct (f_grow f); lia).
  by rewrite Z.ltb_irrefl.
Qed.

Lemma Sync_ok : Sync f = (None, f_synced f).
Proof using Hf. unfold Sync, next_fault. by rewrite Hf. Qed.
End fault_free.

(** Writing the whole of a buffer, however the write is sliced. *)
Lemma upd_slice_full g off b a :
  upd g off (buf_slice b 0 (blen b)) a = upd g off b a.
Proof.
  unfold upd. cbn. rewrite Z.sub_0_r. by destruct (_ && _).
Qed.

(** What any write, failed or not, can change: a prefix of the buffer at its offset. *)
Lemma WriteAt_data b off f n err f' :
  0 ≤ blen b → WriteAt b off f = ((n, err), f') →
  0 ≤ n ≤ blen b ∧ (err = None → n = blen b) ∧
  ∀ a, f_data f' a = if (off <=? a) && (a <? off + n) then bat b (a - off) else f_data f a.
Proof.
  intros Hb H. unfold WriteAt in H. destruct (Z.ltb_spec off 0).
  { injection H as <- <- <-. split; [lia|]. split; [done|]. intros a.
    destruct (_ && _) eqn:E; [lia|done]. }
  pose proof (f_data_next_fault f) as Hnf.
  destruct (next_fault f) as [flt f1]. cbn in Hnf.
  set (avail := if f_grow f then blen b else clamp 0 (blen b) (f_size f - off)) in *.
  assert (0 ≤ avail ≤ blen b) by (unfold avail, clamp; destruct (f_grow f); lia).
  destruct flt as [|k]; injection H as <- <- <-.
  - split; [lia|]. split.
    + destruct (Z.ltb_spec avail (blen b)); [done|lia].
    + intros a. rewrite f_data_write, Hnf. unfold upd, buf_slice. cbn [blen bat].
      by rewrite Z.sub_0_r.
  - assert (0 ≤ clamp 0 avail k ≤ avail) by (unfold clamp; lia).
    split; [lia|]. split; [done|].
    intros a. rewrite f_data_write, Hnf. unfold upd, buf_slice. cbn [blen bat].
      by rewrite Z.sub_0_r.
Qed.

Lemma WriteAt_size b off f n err f' :
  WriteAt b off f = ((n, err), f') → off + blen b ≤ f_size f → 0 ≤ blen b →
  f_size f' = f_size f ∧ f_grow f' = f_grow f.
Proof.
  intros H Hle Hb. unfold WriteAt, next_fault, clamp in H.
  destruct (Z.ltb_spec off 0); [by injection H as <- <- <-|].
  destruct (f_faults f) as [|[|k] l]; injection H as <- <- <-; cbn;
    destruct (f_grow f); split; try done; lia.
Qed.

Lemma Sync_data f err f' : Sync f = (err, f') →
  (∀ a, f_data f' a = f_data f a) ∧ f_size f' = f_size f ∧ f_grow f' = f_grow f.
Proof.
  unfold Sync, next_fault. destruct (f_faults f) as [|[|k] l]; intros [= <- <-]; done.
Qed.

Lemma ReadAt_data off n f b err f' : ReadAt off n f = ((b, err), f') →
  (∀ a, f_data f' a = f_data f a) ∧ f_size f' = f_size f ∧ f_grow f' = f_grow f.
Proof.
  unfold ReadAt, next_fault. destruct (off <? 0); [by intros [= <- <- <-]|].
  destruct (f_faults f) as [|[|k] l]; intros [= <- <- <-]; done.
Qed.

(** A crash right after a completed [Sync] loses nothing. *)
Lemma crash_synced u f g : 0 < u → f_dirty f = [] → crash u f g → ∀ a, g a = f_data f a.
Proof.
  intros Hu Hd Hc a. destruct (Hc (a / u)) as (ws & Hws & Hg).
  rewrite Hd in Hws. apply sublist_nil_r in Hws as ->. unfold f_data. rewrite Hd.
  apply Hg. pose proof (Z.mul_div_le a u Hu). pose proof (Z.mul_succ_div_gt a u Hu). lia.
Qed.
