(* ===== verification/Layout.v ===== *)
(** * On-disk layout (internal/blk: layout.go, addr.go, header.go, index_v2.go, buildHeader)

    Slot addressing, the master header and the 16-byte index entry, with their round trips and
    bounds.  All integers are [uint64] unless said otherwise. *)

From S2P Require Import Prelude Machine Loop Device.
From Stdlib Require Import Strings.Byte.

(** ** layout.go *)
Definition HeaderBytes : Z := 4096.
Definition GridStart : Z := 0x10000000.
Definition IndexStart : Z := HeaderBytes.
Definition IndexBytes : Z := GridStart - HeaderBytes.
Definition SlotSize : Z := 4096.
Definition FormatVersion : Z := 2.
Definition IndexEntrySize : Z := 16.

(** Entries an index region holds. *)
Definition index_capacity : Z := 16776960.

Ltac layout_unfold :=
  unfold index_capacity, IndexBytes, IndexStart, HeaderBytes, GridStart, SlotSize, FormatVersion,
    IndexEntrySize in *.
Ltac llia := layout_unfold; lia.

(** ** addr.go *)
Definition AddrForFID (diskBytes fid sizeBytes : Z) : res (Z * Z * Z) :=
  let slots := u64 (diskBytes - GridStart) / SlotSize in
  if slots =? 0 then Err EOutOfRange else
  let slotsNeeded := u64 (sizeBytes + SlotSize - 1) / SlotSize in
  if (slotsNeeded =? 0) || (slots <? slotsNeeded) then Err EOutOfRange else
  let slotIndex := fid `mod` u64 (slots - slotsNeeded + 1) in
  if slots <? u64 (slotIndex + slotsNeeded) then Err EOutOfRange else
  Ok (u64 (GridStart + slotIndex * SlotSize), slotIndex, slotsNeeded).

(** Slots of a disk and slots of an object, without machine arithmetic. *)
Definition disk_slots (diskBytes : Z) : Z := (diskBytes - GridStart) / SlotSize.
Definition slots_for (sizeBytes : Z) : Z := (sizeBytes + SlotSize - 1) / SlotSize.

(** A device whose data grid is addressable: what [OpenDevice] accepts. *)
Definition disk_ok (diskBytes : Z) : Prop := GridStart < diskBytes < 2 ^ 63.

Lemma disk_slots_range d : disk_ok d → 0 ≤ disk_slots d < 2 ^ 51.
Proof.
  unfold disk_ok, disk_slots. layout_unfold. intros. split.
  - apply Z.div_pos; lia.
  - apply Z.div_lt_upper_bound; lia.
Qed.

Lemma slots_for_pos n : 0 < n → 0 < slots_for n.
Proof. intros. unfold slots_for. layout_unfold. apply Z.div_str_pos. lia. Qed.

Lemma slots_for_cover n : 0 ≤ n → n ≤ slots_for n * SlotSize < n + SlotSize.
Proof.
  intros. unfold slots_for. layout_unfold.
  pose proof (Z.div_mod (n + 4096 - 1) 4096 ltac:(lia)).
  pose proof (Z.mod_pos_bound (n + 4096 - 1) 4096 ltac:(lia)). lia.
Qed.

(** On an addressable disk and a size whose rounding does not wrap, the machine arithmetic of
    [AddrForFID] is the mathematical one. *)
Lemma AddrForFID_eq d fid n :
  disk_ok d → 0 ≤ fid → 0 ≤ n → n + SlotSize < 2 ^ 64 →
  AddrForFID d fid n =
  if (0 <? n) && (slots_for n <=? disk_slots d) then
    let i := fid `mod` (disk_slots d - slots_for n + 1) in
    Ok (GridStart + i * SlotSize, i, slots_for n)
  else Err EOutOfRange.
Proof.
  intros Hd Hfid Hn Hwrap. unfold AddrForFID.
  pose proof (disk_slots_range d Hd) as Hs. unfold disk_ok in Hd.
  assert (E1 : u64 (d - GridStart) / SlotSize = disk_slots d)
    by (rewrite u64_small by llia; done).
  assert (E2 : u64 (n + SlotSize - 1) / SlotSize = slots_for n).
  { rewrite u64_small by llia. done. }
  rewrite E1, E2. destruct (Z.ltb_spec 0 n) as [Hn0|Hn0]; cbn [andb].
  - pose proof (slots_for_pos n Hn0) as Hsp.
    destruct (Z.leb_spec (slots_for n) (disk_slots d)).
    + rewrite (proj2 (Z.eqb_neq (disk_slots d) 0)) by lia.
      rewrite (proj2 (Z.eqb_neq (slots_for n) 0)) by lia.
      rewrite (proj2 (Z.ltb_ge _ _)) by lia. cbn [orb].
      rewrite (u64_small (disk_slots d - slots_for n + 1)) by lia.
      pose proof (Z.mod_pos_bound fid (disk_slots d - slots_for n + 1) ltac:(lia)).
      set (i := fid `mod` _) in *. rewrite (u64_small (i + _)) by lia.
      rewrite (proj2 (Z.ltb_ge _ _)) by lia.
      rewrite u64_small by llia. done.
    + destruct (_ =? 0); [done|]. rewrite (proj2 (Z.ltb_lt (disk_slots d) _)) by lia.
      by rewrite orb_true_r.
  - replace n with 0 by lia. change (slots_for 0) with 0. cbn. by destruct (_ =? 0).
Qed.

(** The extent of an object: inside the grid, inside the disk, slot aligned, large enough, and no
    larger than the padding requires. *)
Lemma AddrForFID_Ok d fid n addr i k :
  disk_ok d → 0 ≤ fid → 0 ≤ n → n + SlotSize < 2 ^ 64 →
  AddrForFID d fid n = Ok (addr, i, k) →
  addr = GridStart + i * SlotSize ∧ 0 ≤ i ∧ 0 < k ∧ i + k ≤ disk_slots d ∧
  0 < n ≤ k * SlotSize ∧ k * SlotSize < n + SlotSize ∧ k = slots_for n ∧
  GridStart + (i + k) * SlotSize ≤ d.
Proof.
  intros Hd Hfid Hn Hwrap H. rewrite AddrForFID_eq in H by done.
  pose proof (disk_slots_range d Hd).
  destruct (Z.ltb_spec 0 n) as [Hn0|]; [|done].
  destruct (Z.leb_spec (slots_for n) (disk_slots d)); [|done]. cbn in H.
  injection H as <- <- <-.
  pose proof (Z.mod_pos_bound fid (disk_slots d - slots_for n + 1) ltac:(lia)).
  pose proof (slots_for_pos n Hn0). pose proof (slots_for_cover n ltac:(lia)).
  assert (disk_slots d * SlotSize ≤ d - GridStart).
  { unfold disk_slots. rewrite Z.mul_comm. apply Z.mul_div_le. llia. }
  repeat split; try llia.
Qed.

(** ** index_v2.go *)
Definition IndexJumpSentinel : Z := 2 ^ 56 - 1.
Definition IndexPackedSentinel : Z := 2 ^ 56 - 2.
Definition PackedAnchorCode : Z := 0xFF.

Record IndexEntry := mkEntry { FID : Z; Size : Z; JumpCode : Z }.

#[export] Instance IndexEntry_eq_dec : EqDecision IndexEntry.
Proof. solve_decision. Defined.

Definition DecodeSize7 (buf : list byte) : Z :=
  if (length buf <? 7)%nat then 0 else
  let b i := byte_val (default x00 (buf !! i)) in
  Z.lor (Z.lor (Z.lor (Z.lor (Z.lor (Z.lor (b 0%nat)
    (Z.shiftl (b 1%nat) 8)) (Z.shiftl (b 2%nat) 16)) (Z.shiftl (b 3%nat) 24))
    (Z.shiftl (b 4%nat) 32)) (Z.shiftl (b 5%nat) 40)) (Z.shiftl (b 6%nat) 48).

(** The seven bytes stored into [dst[0..6]]. *)
Definition EncodeSize7 (size : Z) : list byte :=
  [byte_of size; byte_of (Z.shiftr size 8); byte_of (Z.shiftr size 16);
   byte_of (Z.shiftr size 24); byte_of (Z.shiftr size 32); byte_of (Z.shiftr size 40);
   byte_of (Z.shiftr size 48)].

Definition ParseIndexEntry (entry : list byte) : res IndexEntry :=
  if (length entry <? 16)%nat then Err (EMsg "entry size") else
  Ok (mkEntry (le_val (take 8 entry)) (DecodeSize7 (take 7 (drop 8 entry)))
              (byte_val (default x00 (entry !! 15%nat)))).

Definition IsJumpIndicator (e : IndexEntry) : bool :=
  negb (JumpCode e =? 0) && (Size e =? IndexJumpSentinel).
Definition IsPackedAnchor (e : IndexEntry) : bool :=
  (JumpCode e =? PackedAnchorCode) && (Size e =? IndexPackedSentinel).
Definition IsTombstone (e : IndexEntry) : bool :=
  (JumpCode e =? 0) && (Size e =? 0).

Definition BuildIndexEntry (fid size jumpCode : Z) : res (list byte) :=
  if IndexJumpSentinel <? size then Err (EMsg "size exceeds 56-bit limit") else
  if negb (jumpCode =? 0) &&
     negb (size =? IndexJumpSentinel) &&
     negb ((jumpCode =? PackedAnchorCode) && (size =? IndexPackedSentinel))
  then Err (EMsg "non-zero jumpcode requires reserved sentinel")
  else Ok (le_bytes 8 fid ++ EncodeSize7 size ++ [byte_of jumpCode]).

(** An entry's fields at their width. *)
Definition entry_ok (e : IndexEntry) : Prop :=
  is_u64 (FID e) ∧ 0 ≤ Size e < 2 ^ 56 ∧ 0 ≤ JumpCode e < 256.

Lemma lor_shift_add x y k :
  0 ≤ k → 0 ≤ x < 2 ^ k → Z.lor x (Z.shiftl y k) = x + y * 2 ^ k.
Proof.
  intros Hk Hx. rewrite <- (Z.shiftl_mul_pow2 y k) by done.
  symmetry. apply Z.add_nocarry_lor. apply Z.bits_inj'. intros i Hi.
  rewrite Z.land_spec, Z.bits_0, Z.shiftl_spec by done. destruct (Z.ltb_spec i k).
  - rewrite (Z.testbit_neg_r y) by lia. apply andb_false_r.
  - replace x with (x `mod` 2 ^ k) by (apply Z.mod_small; lia).
    by rewrite Z.mod_pow2_bits_high by lia.
Qed.

(** The shifts and masks of the size codec are little-endian bytes. *)
Lemma EncodeSize7_le size : EncodeSize7 size = le_bytes 7 size.
Proof.
  unfold EncodeSize7. cbn [le_bytes].
  rewrite !Z.shiftr_div_pow2 by lia. rewrite !Z.div_div by lia. done.
Qed.

Lemma DecodeSize7_le l : length l = 7%nat → DecodeSize7 l = le_val l.
Proof.
  do 7 (destruct l as [|? l]; [done|]). destruct l; [|done]. intros _.
  unfold DecodeSize7. cbn [length Nat.ltb Nat.leb lookup list_lookup default from_option id le_val].
  repeat match goal with |- context [byte_val ?b] =>
    let x := fresh "v" in pose proof (byte_val_range b); set (x := byte_val b) in * end.
  cbn [length Nat.ltb Nat.leb].
  rewrite (lor_shift_add _ _ 8), (lor_shift_add _ _ 16), (lor_shift_add _ _ 24),
    (lor_shift_add _ _ 32), (lor_shift_add _ _ 40), (lor_shift_add _ _ 48) by lia. lia.
Qed.

Definition entry_bytes (e : IndexEntry) : list byte :=
  le_bytes 8 (FID e) ++ le_bytes 7 (Size e) ++ [byte_of (JumpCode e)].

Lemma length_entry_bytes e : length (entry_bytes e) = 16%nat.
Proof. unfold entry_bytes. by rewrite !length_app, !length_le_bytes. Qed.

(** [ParseIndexEntry] in terms of [le_val] only. *)
Lemma ParseIndexEntry_le l :
  length l = 16%nat →
  ParseIndexEntry l =
    Ok (mkEntry (le_val (take 8 l)) (le_val (take 7 (drop 8 l))) (le_val (drop 15 l))).
Proof.
  intros Hl. unfold ParseIndexEntry. rewrite Hl. cbn [Nat.ltb Nat.leb].
  rewrite DecodeSize7_le by (rewrite length_take, length_drop; lia).
  do 2 f_equal. do 16 (destruct l as [|? l]; [done|]). destruct l; [|done].
  cbn. lia.
Qed.

Lemma ParseIndexEntry_entry_ok l e : ParseIndexEntry l = Ok e → length l = 16%nat → entry_ok e.
Proof.
  intros H Hl. rewrite ParseIndexEntry_le in H by done. injection H as <-.
  pose proof (le_val_range (take 8 l)). pose proof (le_val_range (take 7 (drop 8 l))).
  pose proof (le_val_range (drop 15 l)).
  rewrite ?length_take, ?length_drop, Hl in *. unfold entry_ok, is_u64. cbn in *. lia.
Qed.

(** The codec is a bijection between the entries in range and the 16-byte strings. *)
Lemma parse_entry_bytes e : entry_ok e → ParseIndexEntry (entry_bytes e) = Ok e.
Proof.
  intros (H1 & H2 & H3). rewrite ParseIndexEntry_le by apply length_entry_bytes.
  unfold entry_bytes. destruct e as [a b c]. cbn [FID Size JumpCode] in *.
  rewrite take_app_length' by (by rewrite length_le_bytes).
  rewrite drop_app_length' by (by rewrite length_le_bytes).
  rewrite take_app_length' by (by rewrite length_le_bytes).
  change 15%nat with (8 + 7)%nat at 1. rewrite <- drop_drop.
  rewrite drop_app_length' by (by rewrite length_le_bytes).
  rewrite drop_app_length' by (by rewrite length_le_bytes).
  unfold is_u64 in H1. rewrite !le_val_bytes_small by (cbn; lia).
  cbn [le_val]. rewrite byte_val_of, Z.mod_small by lia. do 2 f_equal. lia.
Qed.

Lemma entry_bytes_parse l e :
  length l = 16%nat → ParseIndexEntry l = Ok e → entry_bytes e = l.
Proof.
  intros Hl H. rewrite ParseIndexEntry_le in H by done. injection H as <-.
  unfold entry_bytes. cbn [FID Size JumpCode].
  rewrite !le_bytes_val_len by (rewrite ?length_take, ?length_drop; lia).
  do 16 (destruct l as [|? l]; [done|]). destruct l; [|done].
  cbn. by rewrite Z.add_0_r, byte_of_val.
Qed.

Lemma BuildIndexEntry_Ok fid size jc l :
  BuildIndexEntry fid size jc = Ok l →
  l = entry_bytes (mkEntry fid size jc) ∧ size ≤ IndexJumpSentinel ∧
  (jc = 0 ∨ size = IndexJumpSentinel ∨ (jc = PackedAnchorCode ∧ size = IndexPackedSentinel)).
Proof.
  unfold BuildIndexEntry. destruct (Z.ltb_spec IndexJumpSentinel size); [done|].
  destruct (negb _ && _ && _) eqn:E; [done|]. intros [= <-].
  split; [unfold entry_bytes; cbn [FID Size JumpCode]; by rewrite <- EncodeSize7_le|].
  split; [lia|]. lia.
Qed.

Lemma BuildIndexEntry_plain fid size :
  size ≤ IndexJumpSentinel → BuildIndexEntry fid size 0 = Ok (entry_bytes (mkEntry fid size 0)).
Proof.
  intros. unfold BuildIndexEntry. destruct (Z.ltb_spec IndexJumpSentinel size); [lia|].
  cbn [Z.eqb negb andb]. unfold entry_bytes. cbn [FID Size JumpCode]. by rewrite EncodeSize7_le.
Qed.

(** Every 16-byte record is exactly one of: jump indicator, packed anchor, tombstone, other. *)
Lemma entry_kinds_exclusive e :
  (IsJumpIndicator e = true → IsPackedAnchor e = false ∧ IsTombstone e = false) ∧
  (IsPackedAnchor e = true → IsTombstone e = false).
Proof.
  unfold IsJumpIndicator, IsPackedAnchor, IsTombstone, PackedAnchorCode,
    IndexJumpSentinel, IndexPackedSentinel. lia.
Qed.

(** The all-zero entry, which terminates the index stream: a tombstone for fid 0. *)
Definition zero_entry : IndexEntry := mkEntry 0 0 0.

Lemma entry_bytes_zero : entry_bytes zero_entry = replicate 16 x00.
Proof. reflexivity. Qed.

(** ** header.go and buildHeader (init.go) *)
Record Header := mkHeader {
  h_Version : Z; h_CapacityGB : Z; h_DiskID : Z; h_NoteLen : Z
}.

Definition magic_NBSS : list byte := [x4e; x42; x53; x53].

(** [copy(dst[off:off+len], src)]: at most [len] bytes are copied. *)
Definition put (b : buf) (off : Z) (l : list byte) : buf :=
  Buf (blen b) (upd (bat b) off (buf_of l)).
Definition copy_at (b : buf) (off len : Z) (l : list byte) : buf :=
  put b off (take (Z.to_nat len) l).

(** The [noteLen] loop: count the bytes from 16 up to the first zero byte. *)
Definition note_len (b : buf) : Z :=
  match loop 4096 (λ '(i, n),
      if i <? HeaderBytes then
        if byte_val (bat b i) =? 0 then inr n else inl (i + 1, n + 1)
      else inr n) (16, 0) with
  | inr n => n
  | inl (_, n) => n
  end.

Definition ParseHeader (b : buf) : res Header :=
  if blen b <? HeaderBytes then Err (EMsg "header buffer too small") else
  if negb (bool_decide (bytes_at (bat b) 0 4 = magic_NBSS)) then Err (EMsg "magic mismatch") else
  Ok (mkHeader (le_val (bytes_at (bat b) 4 2)) (le_val (bytes_at (bat b) 6 2))
               (le_val (bytes_at (bat b) 8 8)) (note_len b)).

Definition buildHeader (capacityGB diskID : Z) (note : list byte) : buf :=
  let header := zeros HeaderBytes in
  let header := copy_at header 0 4 magic_NBSS in
  let header := put header 4 (le_bytes 2 FormatVersion) in
  let header := put header 6 (le_bytes 2 capacityGB) in
  let header := put header 8 (le_bytes 8 diskID) in
  copy_at header 16 (HeaderBytes - 16) note.

(** Reading back the fields of a buffer assembled with [put]. *)
Lemma bytes_at_put_same b off l n :
  n = length l → bytes_at (bat (put b off l)) off n = l.
Proof. intros ->. apply bytes_at_upd_of. Qed.

Lemma bytes_at_put_other b off l off' n :
  off' + Z.of_nat n ≤ off ∨ off + Z.of_nat (length l) ≤ off' →
  bytes_at (bat (put b off l)) off' n = bytes_at (bat b) off' n.
Proof. intros. apply bytes_at_ext. intros a Ha. cbn. apply upd_out. cbn. lia. Qed.

Lemma note_len_spec b k :
  0 ≤ k ≤ HeaderBytes - 16 →
  (∀ i, 16 ≤ i < 16 + k → bat b i ≠ x00) →
  (k < HeaderBytes - 16 → bat b (16 + k) = x00) →
  note_len b = k.
Proof.
  intros Hk Hnz Hz. unfold note_len.
  edestruct (loop_total
    (λ '(i, n), i = 16 + n ∧ 0 ≤ n ≤ k) (λ '(i, _), HeaderBytes - i) (λ n, n = k) 4096)
    as (r & -> & Hr); [| |intros [i n] (-> & Hn) _|exact Hr].
  - split; llia.
  - llia.
  - cbn beta iota. destruct (Z.ltb_spec (16 + n) HeaderBytes).
    + destruct (Z.eqb_spec (byte_val (bat b (16 + n))) 0) as [E|E].
      * apply byte_val_x00 in E. destruct (decide (n = k)); [done|].
        exfalso. apply (Hnz (16 + n)); [lia|done].
      * destruct (decide (n = k)) as [->|]; [|repeat split; llia].
        exfalso. apply E, byte_val_x00, Hz. llia.
    + llia.
Qed.

(** C34: on an addressable disk, whatever fid and size a client declares (the rounding of the size may
    wrap around 2^64), an address returned by [AddrForFID] is slot aligned, its extent lies inside
    the data grid and inside the disk, holds the object, and wastes less than one slot. *)
Theorem addr_for_fid_in_bounds d fid n addr i k :
  disk_ok d → is_u64 fid → 0 ≤ n < 2 ^ 64 →
  AddrForFID d fid n = Ok (addr, i, k) →
  GridStart ≤ addr ∧ addr `mod` SlotSize = 0 ∧ addr = GridStart + i * SlotSize ∧
  0 < n ≤ k * SlotSize ∧ k * SlotSize < n + SlotSize ∧ addr + k * SlotSize ≤ d.
Proof.
  intros Hd Hfid Hn H.
  assert (n + SlotSize < 2 ^ 64) as Hw.
  { destruct (Z.lt_ge_cases (n + SlotSize) (2 ^ 64)) as [|Hge]; [done|exfalso].
    unfold AddrForFID in H. destruct (u64 (d - GridStart) / SlotSize =? 0); [done|].
    assert (u64 (n + SlotSize - 1) / SlotSize = 0 ∨ n + SlotSize = 2 ^ 64) as [E|E].
    { destruct (decide (n + SlotSize = 2 ^ 64)); [by right|left]. apply Z.div_small.
      assert (u64 (n + SlotSize - 1) = n + SlotSize - 1 - 2 ^ 64) as ->; [|llia].
      unfold u64. rewrite <- (Z.mod_add _ (-1)) by lia. rewrite Z.mod_small; llia. }
    - by rewrite E in H.
    - rewrite E in H. pose proof (disk_slots_range d Hd) as Hs. unfold disk_ok in Hd.
      rewrite (u64_small (d - GridStart)) in H by llia.
      change ((d - GridStart) / SlotSize) with (disk_slots d) in H.
      rewrite u64_small in H by lia.
      assert (disk_slots d <? (2 ^ 64 - 1) / SlotSize = true) as El
        by (apply Z.ltb_lt; change ((2 ^ 64 - 1) / SlotSize) with 4503599627370495; lia).
      rewrite El, orb_true_r in H. done. }
  unfold is_u64 in Hfid. apply AddrForFID_Ok in H; [|done|lia|lia|done].
  destruct H as (-> & Hi & Hk & Hik & Hnk & Hk' & _ & Hd').
  repeat split; try llia. layout_unfold. rewrite <- (Z.mul_comm 4096).
  change 0x10000000 with (4096 * 65536). rewrite <- Z.mul_add_distr_l, Z.mul_comm.
  apply Z.mod_mul. lia.
Qed.

Lemma addr_for_fid_in_bounds_witness :
  AddrForFID (GridStart + 8 * SlotSize) 21 5000 = Ok (GridStart + 0 * SlotSize, 0, 2) ∧
  GridStart + 0 * SlotSize + 2 * SlotSize ≤ GridStart + 8 * SlotSize.
Proof.
  assert (H : AddrForFID (GridStart + 8 * SlotSize) 21 5000 = Ok (GridStart + 0 * SlotSize, 0, 2))
    by reflexivity.
  split; [exact H|].
  eapply (addr_for_fid_in_bounds (GridStart + 8 * SlotSize) 21 5000);
    [unfold disk_ok; llia|unfold is_u64; lia|lia|exact H].
Defined.

(** The index entry codec: what [BuildIndexEntry] accepts is what [ParseIndexEntry] reads back,
    field by field; a non-zero jump code is accepted only with the sentinel size of its kind; and no
    two entries share an encoding. *)
Theorem index_entry_roundtrip fid size jc l :
  is_u64 fid → 0 ≤ size < 2 ^ 64 → 0 ≤ jc < 256 →
  BuildIndexEntry fid size jc = Ok l →
  length l = 16%nat ∧ ParseIndexEntry l = Ok (mkEntry fid size jc) ∧
  (jc ≠ 0 → IsJumpIndicator (mkEntry fid size jc) = true ∨
            IsPackedAnchor (mkEntry fid size jc) = true) ∧
  ∀ fid' size' jc', entry_ok (mkEntry fid' size' jc') →
    BuildIndexEntry fid' size' jc' = Ok l → mkEntry fid' size' jc' = mkEntry fid size jc.
Proof.
  intros Hf Hs Hj H. apply BuildIndexEntry_Ok in H as (-> & Hsz & Hk).
  assert (Hok : entry_ok (mkEntry fid size jc)).
  { unfold entry_ok. cbn. unfold IndexJumpSentinel in Hsz. split; [done|]. lia. }
  split; [apply length_entry_bytes|]. split; [by apply parse_entry_bytes|]. split.
  - unfold IsJumpIndicator, IsPackedAnchor. cbn [FID Size JumpCode]. lia.
  - intros fid' size' jc' Hok' H. apply BuildIndexEntry_Ok in H as (E & _).
    pose proof (parse_entry_bytes _ Hok') as P'. rewrite <- E, parse_entry_bytes in P' by done.
    by injection P' as -> -> ->.
Qed.

Lemma index_entry_roundtrip_witness :
  ParseIndexEntry (entry_bytes (mkEntry 7 IndexJumpSentinel 1)) =
    Ok (mkEntry 7 IndexJumpSentinel 1).
Proof.
  refine (proj1 (proj2 (index_entry_roundtrip 7 IndexJumpSentinel 1 _ _ _ _ _)));
    [unfold is_u64; lia|unfold IndexJumpSentinel; lia|lia|reflexivity].
Defined.

(** A header written by [buildHeader] is accepted by [ParseHeader] with the same version,
    capacity and disk id, and the note length it reports is the length of the note. *)
Theorem header_roundtrip cap diskID note :
  0 ≤ cap < 2 ^ 16 → is_u64 diskID →
  Z.of_nat (length note) ≤ HeaderBytes - 16 → x00 ∉ note →
  ParseHeader (buildHeader cap diskID note) =
    Ok (mkHeader FormatVersion cap diskID (Z.of_nat (length note))).
Proof.
  unfold is_u64. intros Hc Hd Hn Hz. unfold ParseHeader.
  change (blen (buildHeader cap diskID note) <? HeaderBytes) with false.
  unfold buildHeader, copy_at. rewrite (take_ge note) by lia.
  change (take (Z.to_nat 4) magic_NBSS) with magic_NBSS.
  assert (Hnote : ∀ b, note_len (put b 16 note) = Z.of_nat (length note) ∨
    ∃ i, 16 + Z.of_nat (length note) ≤ i < HeaderBytes ∧ bat b i ≠ x00).
  { intros b. destruct (decide (Z.of_nat (length note) < HeaderBytes - 16)) as [Hlt|];
      [destruct (decide (bat b (16 + Z.of_nat (length note)) = x00));
       [left|right; exists (16 + Z.of_nat (length note)); split; [lia|done]]|left].
    all: apply note_len_spec; [lia| |intros; try lia].
    1,3: intros i Hi; cbn; rewrite upd_in by (cbn; lia); cbn;
      destruct (lookup_lt_is_Some_2 note (Z.to_nat (i - 16))) as [x Hx]; [lia|];
      rewrite Hx; cbn; intros ->; apply Hz; by eapply list_elem_of_lookup_2.
    cbn. by rewrite upd_out by (cbn; lia). }
  do 4 rewrite (bytes_at_put_other _ 16 note) by (cbn; lia).
  rewrite !(bytes_at_put_other _ 8) by (rewrite ?length_le_bytes; lia).
  rewrite !(bytes_at_put_other _ 6) by (rewrite ?length_le_bytes; lia).
  rewrite !(bytes_at_put_other _ 4) by (rewrite ?length_le_bytes; lia).
  rewrite !bytes_at_put_same by (by rewrite ?length_le_bytes).
  rewrite bool_decide_eq_true_2 by done. cbn [negb].
  rewrite !le_val_bytes_small by (unfold FormatVersion; cbn; lia).
  do 2 f_equal. edestruct Hnote as [->|(i & Hi & Hne)]; [done|exfalso]. apply Hne.
  cbn. rewrite !upd_out by (cbn; rewrite ?length_le_bytes; lia). done.
Qed.

Lemma header_roundtrip_witness :
  ParseHeader (buildHeader 500 0xABCDEF [x6e; x31]) = Ok (mkHeader FormatVersion 500 0xABCDEF 2).
Proof.
  apply (header_roundtrip 500 0xABCDEF [x6e; x31]); [lia|unfold is_u64; lia|cbn; llia|].
  vm_compute. intros H. inversion H as [|? ? ? H1]; subst. inversion H1 as [|? ? ? H2]; subst.
  inversion H2.
Defined.
