(* ===== verification/IndexScan.v ===== *)
(** * Reading the index stream (internal/blk/index.go, scanIndexStream of index_compact.go)

    Four functions of the program walk the index region in 4 MiB chunks and stop at the first
    all-zero entry.  [scan_stream] is that loop, with the three points on which they differ as
    parameters.  [index_log] is the abstract view: the list of entries before the terminator.  The
    theorems say when the loop is a left fold over that list, and when it is not. *)

From S2P Require Import Prelude Machine Loop Device Layout.
From Stdlib Require Import Strings.Byte.

Definition chunkSize : Z := 4 * 1024 * 1024.
(** Entries of a full chunk. *)
Definition chunk_entries : Z := 262144.

(** The loop of [isZeroEntry], and of the [allZero] test written out in index.go. *)
Fixpoint isZeroEntry (entry : list byte) : bool :=
  match entry with
  | [] => true
  | b :: entry => if negb (byte_val b =? 0) then false else isZeroEntry entry
  end.

Section scan.
Context {St : Type} (onEntry : St → IndexEntry → res St).

(** The inner loop over one chunk: the position of the terminator, if it is in this chunk, and
    the callback's state. *)
Definition scan_chunk (b : buf) (limit : Z) (st : St) : res (option Z * St) :=
  match loop 4194305 (λ '(i, st),
      if i + IndexEntrySize <=? limit then
        let entry := bytes_at (bat b) i 16 in
        if isZeroEntry entry then inr (Ok (Some i, st)) else
        match (parsed ← ParseIndexEntry entry; onEntry st parsed) with
        | Ok st' => inl (i + IndexEntrySize, st')
        | Err e => inr (Err e)
        end
      else inr (Ok (None, st))) (0, st) with
  | inr r => r
  | inl _ => Err EFuel
  end.

(** The second inner loop of [scanIndexStream]: [None] when sixteen consecutive zero bytes were
    seen, the run carried to the next chunk otherwise. *)
Definition zero_run (b : buf) (n zeroRun : Z) : option Z :=
  match loop 4194305 (λ '(i, zr),
      if i <? n then
        if byte_val (bat b i) =? 0 then
          if IndexEntrySize <=? zr + 1 then inr None else inl (i + 1, zr + 1)
        else inl (i + 1, 0)
      else inr (Some zr)) (0, zeroRun) with
  | inr r => r
  | inl _ => None
  end.

(** The outer loop.  [strict]: any read error or short read fails, under the prefix of
    [replayIndex]; otherwise [io.EOF] is tolerated and an empty read ends the scan.  [runs]: the zero-run test of
    [scanIndexStream] is made after each chunk. *)
Definition scan_stream (strict runs : bool) (st : St) : M file (option Z * St) :=
  mloop 268435456 (λ '(offset, zr, st) f,
    if offset <? IndexBytes then
      let remaining := IndexBytes - offset in
      let readSize := if remaining <? chunkSize then remaining else chunkSize in
      let '((b, err), f) := ReadAt (IndexStart + offset) readSize f in
      let fault :=
        match err with
        | Some e =>
            if strict then Some (EWrap "read index" e)
            else if errors_Is e EEOF then None else Some e
        | None => if strict && negb (blen b =? readSize) then Some EUnexpectedEOF else None
        end in
      match fault with
      | Some e => (Err e, f)
      | None =>
          let n := blen b in
          if n =? 0 then (Ok (inr (None, st)), f) else
          match scan_chunk b (n - n `mod` IndexEntrySize) st with
          | Err e => (Err e, f)
          | Ok (Some i, st') => (Ok (inr (Some (IndexStart + offset + i), st')), f)
          | Ok (None, st') =>
              match (if runs then zero_run b n zr else Some zr) with
              | None => (Ok (inr (None, st')), f)
              | Some zr' => (Ok (inl (offset + n, zr', st')), f)
              end
          end
      end
    else (Ok (inr (None, st)), f)) (0, 0, st).
End scan.

(** [scanIndexStream(r, onEntry)]: the callback's final state. *)
Definition scanIndexStream {St} (onEntry : St → IndexEntry → res St) (st : St) : M file St :=
  '(_, st') ← scan_stream onEntry false true st; mret st'.

(** [FindIndexEnd]: the callback does nothing. *)
Definition FindIndexEnd : M file Z :=
  '(stop, _) ← scan_stream (λ _ _, Ok tt) false false tt;
  match stop with Some a => mret a | None => mfail EIndexFull end.

(** ** FindLatestIndexEntry *)
Record latest := mkLatest {
  l_logicSize : Z; l_actualFID : Z; l_actualSize : Z; l_found : bool; l_jump : bool;
  l_pending : option IndexEntry
}.

Definition latest0 : latest := mkLatest 0 0 0 false false None.

Definition latest_step (fid : Z) (st : latest) (parsed : IndexEntry) : res latest :=
  st ← match l_pending st with
       | None => Ok st
       | Some p =>
           if negb (JumpCode parsed =? 0) || (Size parsed =? 0)
           then Err (EMsg "invalid jump pair")
           else if FID p =? fid
           then Ok (mkLatest (Size parsed - 1) (FID parsed) (Size parsed) true true None)
           else Ok (mkLatest (l_logicSize st) (l_actualFID st) (l_actualSize st)
                             (l_found st) (l_jump st) None)
       end;
  if IsJumpIndicator parsed then
    Ok (mkLatest (l_logicSize st) (l_actualFID st) (l_actualSize st)
                 (l_found st) (l_jump st) (Some parsed))
  else if FID parsed =? fid then
    if IsTombstone parsed then Ok (mkLatest 0 0 0 true false (l_pending st))
    else Ok (mkLatest (Size parsed) (FID parsed) (Size parsed) true false (l_pending st))
  else Ok st.

(** The results: logical size, physical fid, physical size, found, jump. *)
Definition FindLatestIndexEntry (fid : Z) : M file (Z * Z * Z * bool * bool) :=
  '(stop, st) ← scan_stream (latest_step fid) false false latest0;
  let answer := (l_logicSize st, l_actualFID st, l_actualSize st, l_found st, l_jump st) in
  match stop with
  | Some _ =>
      if l_found st && (l_logicSize st =? 0) then mfail EIndexNotFound else mret answer
  | None =>
      if l_found st && (l_logicSize st =? 0) then mfail EIndexNotFound
      else if negb (l_found st) then mfail EIndexNotFound else mret answer
  end.

(** ** The abstract index *)

(** The entry stored at an address. *)
Definition entry_at (g : Z → byte) (off : Z) : IndexEntry :=
  mkEntry (le_val (bytes_at g off 8)) (le_val (bytes_at g (off + 8) 7))
          (le_val (bytes_at g (off + 15) 1)).

(** [es] is the contents of the index of [g]: the entries before the first all-zero one. *)
Record index_log (g : Z → byte) (es : list IndexEntry) : Prop := {
  log_capacity : Z.of_nat (length es) ≤ index_capacity;
  log_entries : ∀ k e, es !! k = Some e →
    entry_at g (IndexStart + 16 * Z.of_nat k) = e ∧ e ≠ zero_entry;
  log_stop : Z.of_nat (length es) < index_capacity →
    entry_at g (IndexStart + 16 * Z.of_nat (length es)) = zero_entry
}.

(** The address just after the last entry. *)
Definition log_end (es : list IndexEntry) : Z := IndexStart + 16 * Z.of_nat (length es).

(** No sixteen consecutive zero bytes inside the entries: what the zero-run test of
    [scanIndexStream] takes for the end of the index. *)
Definition no_zero_run (g : Z → byte) (es : list IndexEntry) : Prop :=
  ∀ a, IndexStart ≤ a → a + 16 ≤ log_end es → ∃ i, a ≤ i < a + 16 ∧ g i ≠ x00.

(** An index the zero-run test does not cut short. *)
Definition scannable (g : Z → byte) (es : list IndexEntry) : Prop :=
  Z.of_nat (length es) < chunk_entries ∨ no_zero_run g es.

(** ** Lemmas *)
Lemma isZeroEntry_spec l : isZeroEntry l = true ↔ l = replicate (length l) x00.
Proof.
  induction l as [|b l IH]; [done|]. cbn. destruct (Z.eqb_spec (byte_val b) 0) as [E|E]; cbn.
  - apply byte_val_x00 in E as ->. rewrite IH. split; [congruence|]. by intros [= ?].
  - split; [done|]. intros [= Hb _]. by apply byte_val_x00 in Hb.
Qed.

Lemma bytes_at_16 g off :
  bytes_at g off 16 = bytes_at g off 8 ++ bytes_at g (off + 8) 7 ++ bytes_at g (off + 15) 1.
Proof.
  change 16%nat with (8 + (7 + 1))%nat. rewrite !bytes_at_app.
  do 3 f_equal; lia.
Qed.

Lemma entry_bytes_entry_at g off : entry_bytes (entry_at g off) = bytes_at g off 16.
Proof.
  unfold entry_bytes, entry_at. cbn [FID Size JumpCode].
  rewrite !le_bytes_val_len by apply length_bytes_at. rewrite bytes_at_16. do 2 f_equal.
  unfold bytes_at. cbn. by rewrite Z.add_0_r, byte_of_val.
Qed.

Lemma entry_at_ok g off : entry_ok (entry_at g off).
Proof.
  unfold entry_ok, is_u64, entry_at. cbn [FID Size JumpCode].
  pose proof (le_val_range (bytes_at g off 8)). pose proof (le_val_range (bytes_at g (off + 8) 7)).
  pose proof (le_val_range (bytes_at g (off + 15) 1)).
  rewrite !length_bytes_at in *. cbn in *. lia.
Qed.

Lemma parse_entry_at g off : ParseIndexEntry (bytes_at g off 16) = Ok (entry_at g off).
Proof. rewrite <- entry_bytes_entry_at. apply parse_entry_bytes, entry_at_ok. Qed.

Lemma entry_at_bytes g off e :
  entry_ok e → bytes_at g off 16 = entry_bytes e → entry_at g off = e.
Proof.
  intros He H. pose proof (parse_entry_at g off) as P. rewrite H, parse_entry_bytes in P by done.
  by injection P.
Qed.

Lemma entry_at_ext g g' off :
  (∀ a, off ≤ a < off + 16 → g a = g' a) → entry_at g off = entry_at g' off.
Proof.
  intros H. unfold entry_at.
  rewrite (bytes_at_ext g g' off 8), (bytes_at_ext g g' (off + 8) 7),
    (bytes_at_ext g g' (off + 15) 1); [done|intros; apply H; lia..].
Qed.

Lemma entry_at_shift g off d : entry_at (λ a, g (d + a)) off = entry_at g (d + off).
Proof.
  apply entry_at_bytes; [apply entry_at_ok|]. rewrite entry_bytes_entry_at.
  unfold bytes_at. apply list_fmap_ext. intros. cbn. f_equal. lia.
Qed.

Lemma isZeroEntry_entry_at g off :
  isZeroEntry (bytes_at g off 16) = bool_decide (entry_at g off = zero_entry).
Proof.
  apply eq_true_iff_eq. rewrite isZeroEntry_spec, length_bytes_at, bool_decide_eq_true.
  split.
  - intros H. apply entry_at_bytes; [by unfold entry_ok, is_u64; cbn|]. by rewrite H.
  - intros H. by rewrite <- entry_bytes_entry_at, H.
Qed.

Lemma zero_entry_bytes g off :
  entry_at g off = zero_entry ↔ ∀ a, off ≤ a < off + 16 → g a = x00.
Proof.
  rewrite <- (bool_decide_eq_true (entry_at g off = zero_entry)), <- isZeroEntry_entry_at,
    isZeroEntry_spec, length_bytes_at. split.
  - intros H a Ha. pose proof (lookup_bytes_at g off 16 (Z.to_nat (a - off)) ltac:(lia)) as L.
    rewrite H, lookup_replicate_2 in L by lia. injection L as L. rewrite L. f_equal. lia.
  - intros H. apply list_eq_same_length with 16%nat; [by rewrite length_replicate
      |apply length_bytes_at|]. intros i x y Hi Hx Hy.
    rewrite lookup_bytes_at in Hx by done. rewrite lookup_replicate_2 in Hy by done.
    injection Hx as <-. injection Hy as <-. apply H. lia.
Qed.

(** ** The inner loop over a list of entries *)
Section scan_list.
Context {St : Type} (onEntry : St → IndexEntry → res St).

Fixpoint scan_list (es : list IndexEntry) (i : Z) (st : St) : res (option Z * St) :=
  match es with
  | [] => Ok (None, st)
  | e :: es =>
      if bool_decide (e = zero_entry) then Ok (Some i, st) else
      st' ← onEntry st e; scan_list es (i + 16) st'
  end.

(** The [m] entries of a region. *)
Definition entries_at (g : Z → byte) (off : Z) (m : nat) : list IndexEntry :=
  (λ k, entry_at g (off + 16 * Z.of_nat k)) <$> seq 0 m.

Lemma entries_at_cons g off m :
  entries_at g off (S m) = entry_at g off :: entries_at g (off + 16) m.
Proof.
  unfold entries_at. cbn [seq fmap list_fmap]. f_equal; [f_equal; lia|].
  rewrite <- (fmap_S_seq 0 m), <- list_fmap_compose. apply list_fmap_ext.
  intros. cbn [compose]. f_equal. lia.
Qed.

Lemma scan_chunk_list b m st :
  16 * Z.of_nat m ≤ chunkSize →
  scan_chunk onEntry b (16 * Z.of_nat m) st = scan_list (entries_at (bat b) 0 m) 0 st.
Proof.
  intros Hm. unfold scan_chunk.
  edestruct (loop_total
    (λ '(i, st'), ∃ k, i = 16 * k ∧ 0 ≤ k ≤ Z.of_nat m ∧
      scan_list (entries_at (bat b) 0 m) 0 st =
      scan_list (entries_at (bat b) i (m - Z.to_nat k)) i st')
    (λ '(i, _), 16 * Z.of_nat m - i)
    (λ r, r = scan_list (entries_at (bat b) 0 m) 0 st) 4194305)
    as (r & -> & Hr); [| |intros [i st'] (k & -> & Hk & Heq) _|exact Hr].
  - exists 0. rewrite Nat.sub_0_r. repeat split; lia.
  - unfold chunkSize in Hm. lia.
  - cbn beta iota. unfold IndexEntrySize. destruct (Z.leb_spec (16 * k + 16) (16 * Z.of_nat m)).
    + rewrite Heq, isZeroEntry_entry_at, parse_entry_at.
      replace (m - Z.to_nat k)%nat with (S (m - Z.to_nat (k + 1))) by lia.
      rewrite entries_at_cons. cbn [scan_list]. case_bool_decide; [done|]. cbn [mbind res_bind].
      destruct (onEntry st' _) as [st''|]; [|done]. split; [|lia].
      exists (k + 1). repeat split; try lia.
    + replace k with (Z.of_nat m) in * by lia.
      by rewrite Heq, Nat2Z.id, Nat.sub_diag.
Qed.

Lemma scan_list_app es1 es2 i st :
  Forall (λ e, e ≠ zero_entry) es1 →
  scan_list (es1 ++ es2) i st =
    st' ← foldM onEntry st es1; scan_list es2 (i + 16 * Z.of_nat (length es1)) st'.
Proof.
  revert i st. induction es1 as [|e es1 IH]; intros i st Hnz.
  - cbn. f_equal. lia.
  - inversion Hnz; subst. cbn [app scan_list foldM length].
    rewrite bool_decide_eq_false_2 by done.
    destruct (onEntry st e) as [st'|]; cbn; [|done]. rewrite IH by done.
    destruct (foldM onEntry st' es1); cbn; [f_equal; lia|done].
Qed.

Lemma length_entries_at g off m : length (entries_at g off m) = m.
Proof. unfold entries_at. by rewrite length_fmap, length_seq. Qed.
End scan_list.

(** ** Facts about the log *)
Lemma index_log_nonzero g es : index_log g es → Forall (λ e, e ≠ zero_entry) es.
Proof. intros H. apply Forall_lookup. intros k e Hk. by apply (log_entries _ _ H) in Hk as []. Qed.

(** The entries of a region inside the log, and of a region that reaches its terminator. *)
Lemma entries_at_log g es k m :
  index_log g es → (k + m ≤ length es)%nat →
  entries_at g (IndexStart + 16 * Z.of_nat k) m = take m (drop k es).
Proof.
  intros H Hle. apply list_eq_same_length with m.
  - rewrite length_take, length_drop. lia.
  - apply length_entries_at.
  - intros i x y Hi Hx Hy. unfold entries_at in Hx.
    rewrite list_lookup_fmap, lookup_seq_lt in Hx by lia. injection Hx as <-.
    rewrite lookup_take_lt, lookup_drop in Hy by lia.
    apply (log_entries _ _ H) in Hy as [<- _]. f_equal. lia.
Qed.

Lemma entries_at_add g off m n :
  entries_at g off (m + n) = entries_at g off m ++ entries_at g (off + 16 * Z.of_nat m) n.
Proof.
  revert off. induction m as [|m IH]; intros off.
  - cbn [Nat.add]. change (entries_at g off 0) with (@nil IndexEntry). cbn [app].
    replace (off + 16 * Z.of_nat 0) with off by lia. done.
  - cbn [Nat.add]. rewrite !entries_at_cons, IH. cbn [app].
    replace (off + 16 + 16 * Z.of_nat m) with (off + 16 * Z.of_nat (S m)) by lia. done.
Qed.

Lemma scan_list_log {St} (onEntry : St → IndexEntry → res St) g es k m st :
  index_log g es → (k ≤ length es)%nat → Z.of_nat (k + m) ≤ index_capacity →
  scan_list onEntry (entries_at g (IndexStart + 16 * Z.of_nat k) m) 0 st =
  if decide (k + m ≤ length es)%nat
  then st' ← foldM onEntry st (take m (drop k es)); Ok (None, st')
  else st' ← foldM onEntry st (drop k es); Ok (Some (16 * Z.of_nat (length es - k)), st').
Proof.
  intros H Hk Hcap. pose proof (index_log_nonzero g es H) as Hnz. case_decide.
  - rewrite (entries_at_log g es) by done.
    rewrite <- (app_nil_r (take m (drop k es))), scan_list_app.
    + rewrite app_nil_r. done.
    + by apply Forall_take, Forall_drop.
  - replace m with (length es - k + S (m - (length es - k) - 1))%nat by lia.
    rewrite entries_at_add, (entries_at_log g es) by (done || lia).
    rewrite take_ge by (rewrite length_drop; lia).
    rewrite scan_list_app by (by apply Forall_drop).
    destruct (foldM onEntry st (drop k es)); cbn [mbind res_bind]; [|done].
    rewrite entries_at_cons. cbn [scan_list]. rewrite length_drop.
    rewrite bool_decide_eq_true_2; [do 3 f_equal; lia|].
    rewrite <- (log_stop _ _ H) by lia. f_equal. lia.
Qed.

(** The zero-run test passes over a region without sixteen consecutive zero bytes. *)
Lemma zero_run_passes g off n zr lo hi :
  0 ≤ n ≤ chunkSize → 0 ≤ zr < 16 → lo ≤ off - zr → off + n ≤ hi →
  (∀ a, off - zr ≤ a < off → g a = x00) →
  (∀ a, lo ≤ a → a + 16 ≤ hi → ∃ i, a ≤ i < a + 16 ∧ g i ≠ x00) →
  ∃ zr', zero_run (region g off n) n zr = Some zr' ∧ 0 ≤ zr' < 16 ∧ lo ≤ off + n - zr' ∧
    ∀ a, off + n - zr' ≤ a < off + n → g a = x00.
Proof.
  intros Hn Hzr Hlo Hhi Hrun Hclean. unfold zero_run.
  edestruct (loop_total
    (λ '(i, z), 0 ≤ i ≤ n ∧ 0 ≤ z < 16 ∧ lo ≤ off + i - z ∧
       ∀ a, off + i - z ≤ a < off + i → g a = x00)
    (λ '(i, _), n - i)
    (λ r, ∃ zr', r = Some zr' ∧ 0 ≤ zr' < 16 ∧ lo ≤ off + n - zr' ∧
       ∀ a, off + n - zr' ≤ a < off + n → g a = x00) 4194305)
    as (r & -> & Hr); [| |intros [i z] (Hi & Hz & Hl & Hg) _|exact Hr].
  - repeat split; try lia. intros. apply Hrun. lia.
  - unfold chunkSize in Hn. lia.
  - cbn beta iota. destruct (Z.ltb_spec i n).
    + cbn [bat region]. destruct (Z.eqb_spec (byte_val (g (off + i))) 0) as [E|E].
      * apply byte_val_x00 in E.
        assert (Hg' : ∀ a, off + (i + 1) - (z + 1) ≤ a < off + (i + 1) → g a = x00).
        { intros a Ha. destruct (decide (a = off + i)) as [->|]; [done|]. apply Hg. lia. }
        unfold IndexEntrySize. destruct (Z.leb_spec 16 (z + 1)).
        -- exfalso. destruct (Hclean (off + (i + 1) - (z + 1))) as (j & Hj & Hnz); [lia|lia|].
           apply Hnz, Hg'. lia.
        -- repeat split; try lia. done.
      * repeat split; try lia.
    + replace i with n in * by lia. eauto 10.
Qed.

Lemma index_capacity_eq : IndexBytes = 16 * index_capacity.
Proof. reflexivity. Qed.

Lemma scan_stream_log {St} (onEntry : St → IndexEntry → res St) strict runs st f es :
  f_faults f = [] → GridStart ≤ f_size f → index_log (f_data f) es →
  (runs = true → scannable (f_data f) es) →
  scan_stream onEntry strict runs st f =
    (st' ← foldM onEntry st es;
     Ok (if Z.of_nat (length es) <? index_capacity then Some (log_end es) else None, st'), f).
Proof.
  intros Hf Hsize Hlog Hruns. set (g := f_data f) in *.
  pose proof (log_capacity _ _ Hlog) as Hcap. pose proof index_capacity_eq as Hcapeq.
  set (target := st' ← foldM onEntry st es;
    Ok (if Z.of_nat (length es) <? index_capacity then Some (log_end es) else None, st')).
  unfold scan_stream.
  match goal with |- mloop ?p ?b ?a f = _ => set (body := b); set (init := a) end.
  enough ((mloop 268435456 body init f).1 = target ∧ (mloop 268435456 body init f).2 = f)
    as [E1 E2] by (rewrite (surjective_pairing (mloop _ _ _ _)), E1, E2; done).
  apply (mloop_total
    (λ '(offset, zr, st') f', f' = f ∧ ∃ k : nat, offset = 16 * Z.of_nat k ∧
       (k ≤ length es)%nat ∧ (k = 0%nat ∨ chunk_entries ≤ Z.of_nat k) ∧
       foldM onEntry st es = foldM onEntry st' (drop k es) ∧
       0 ≤ zr < 16 ∧ IndexStart ≤ IndexStart + offset - zr ∧
       (∀ a, IndexStart + offset - zr ≤ a < IndexStart + offset → runs = true → g a = x00))
    (λ '(offset, _, _), IndexBytes - offset) (λ r f', r = target ∧ f' = f)).
  - split; [done|]. exists 0%nat. repeat split; try lia; by rewrite ?drop_0.
  - unfold init. llia.
  - intros [[offset zr] st'] f' (-> & k & -> & Hk & Hk0 & Hfold & Hzr & Hzl & Hzg) Hμ.
    unfold body. cbn beta iota. destruct (Z.ltb_spec (16 * Z.of_nat k) IndexBytes) as [Hlt|Hge].
    2: { (* the index is full *)
      split; [|done]. unfold target. rewrite Hfold.
      rewrite drop_ge by lia. cbn. rewrite (proj2 (Z.ltb_ge _ _)) by lia. done. }
    set (readSize := if _ <? chunkSize then _ else chunkSize).
    assert (Hm : ∃ m : nat, readSize = 16 * Z.of_nat m ∧ (0 < m)%nat ∧ readSize ≤ chunkSize ∧
      Z.of_nat (k + m) ≤ index_capacity ∧ (k = 0%nat → Z.of_nat m = chunk_entries)).
    { unfold readSize. destruct (Z.ltb_spec (IndexBytes - 16 * Z.of_nat k) chunkSize) as [Hs|Hs].
      - exists (Z.to_nat (index_capacity - Z.of_nat k)). unfold chunkSize, chunk_entries in *.
        repeat split; try lia. intros ->. unfold index_capacity in *. lia.
      - exists (Z.to_nat chunk_entries). unfold chunkSize, chunk_entries in *.
        repeat split; try lia. }
    destruct Hm as (m & Hrs & Hm0 & Hrc & Hkm & Hm1).
    rewrite ReadAt_ok by (done || llia). fold g. cbn [blen region].
    rewrite Z.eqb_refl, andb_false_r. cbn [negb].
    rewrite (proj2 (Z.eqb_neq readSize 0)) by lia.
    replace (readSize - readSize `mod` IndexEntrySize) with (16 * Z.of_nat m)
      by (rewrite Hrs; unfold IndexEntrySize; rewrite (Z.mul_comm 16), Z.mod_mul; lia).
    rewrite scan_chunk_list by lia.
    assert (Eb : entries_at (bat (region g (IndexStart + 16 * Z.of_nat k) readSize)) 0 m
             = entries_at g (IndexStart + 16 * Z.of_nat k) m).
    { unfold entries_at. apply list_fmap_ext. intros. cbn [bat region].
      rewrite entry_at_shift. f_equal. }
    rewrite Eb, (scan_list_log _ g es) by done. case_decide as Hcase.
    + (* a chunk without terminator *)
      destruct (foldM onEntry st' (take m (drop k es))) as [st''|e] eqn:Ef; cbn [mbind res_bind].
      2: { split; [|done]. unfold target. rewrite Hfold, <- (take_drop m (drop k es)), foldM_app, Ef.
           done. }
      assert (Hfold' : foldM onEntry st es = foldM onEntry st'' (drop (k + m) es)).
      { rewrite Hfold, <- (take_drop m (drop k es)), foldM_app, Ef, drop_drop. done. }
      destruct runs.
      * destruct (Hruns eq_refl) as [Hsc|Hsc]; [unfold chunk_entries in *; lia|].
        destruct (zero_run_passes g (IndexStart + 16 * Z.of_nat k) readSize zr
          IndexStart (log_end es)) as (zr' & -> & Hz' & Hl' & Hg'); try done; try lia;
          [unfold log_end; lia|intros; apply Hzg; [lia|done]|].
        split; [|lia]. split; [done|]. exists (k + m)%nat.
        repeat split; try done; try lia. intros. apply Hg'. lia.
      * split; [|lia]. split; [done|]. exists (k + m)%nat.
        repeat split; try done; try lia.
    + (* the terminator is in this chunk *)
      destruct (foldM onEntry st' (drop k es)) as [st''|e] eqn:Ef; cbn [mbind res_bind];
        (split; [|done]); unfold target; rewrite Hfold; cbn [mbind res_bind]; [|done].
      rewrite (proj2 (Z.ltb_lt _ _)) by lia. unfold log_end. do 3 f_equal. lia.
Qed.

(** ** Appending to the log *)
Definition tail_zero (g : Z → byte) (off : Z) : Prop := ∀ a, off ≤ a < GridStart → g a = x00.

Definition encode_entries (es : list IndexEntry) : list byte := concat (entry_bytes <$> es).

Lemma length_encode_entries es : length (encode_entries es) = (16 * length es)%nat.
Proof.
  induction es as [|e es IH]; [done|].
  change (encode_entries (e :: es)) with (entry_bytes e ++ encode_entries es).
  rewrite length_app, length_entry_bytes, IH. cbn [length]. lia.
Qed.

Lemma encode_entries_app es1 es2 :
  encode_entries (es1 ++ es2) = encode_entries es1 ++ encode_entries es2.
Proof. unfold encode_entries. by rewrite fmap_app, concat_app. Qed.

Lemma bytes_at_take g off n m :
  (m ≤ n)%nat → bytes_at g off m = take m (bytes_at g off n).
Proof.
  intros. replace n with (m + (n - m))%nat by lia. rewrite bytes_at_app.
  by rewrite take_app_length' by (by rewrite length_bytes_at).
Qed.

Lemma bytes_at_drop g off n m :
  (m ≤ n)%nat → bytes_at g (off + Z.of_nat m) (n - m) = drop m (bytes_at g off n).
Proof.
  intros. replace n with (m + (n - m))%nat at 2 by lia. rewrite bytes_at_app.
  by rewrite drop_app_length' by (by rewrite length_bytes_at).
Qed.

(** A region that holds the encoding of [es] holds the entries [es]. *)
Lemma entry_at_encoded g off es k e :
  bytes_at g off (16 * length es) = encode_entries es → Forall entry_ok es →
  es !! k = Some e → entry_at g (off + 16 * Z.of_nat k) = e.
Proof.
  revert off k. induction es as [|e' es IH]; intros off k Hb Hok Hk; [done|].
  inversion Hok; subst. cbn [length] in Hb.
  replace (16 * S (length es))%nat with (16 + 16 * length es)%nat in Hb by lia.
  rewrite bytes_at_app in Hb. change (encode_entries (e' :: es))
    with (entry_bytes e' ++ encode_entries es) in Hb.
  apply app_inj_1 in Hb as [Hb1 Hb2]; [|by rewrite length_bytes_at, length_entry_bytes].
  destruct k as [|k].
  - injection Hk as ->. replace (off + 16 * Z.of_nat 0) with off by lia.
    by apply entry_at_bytes.
  - replace (off + 16 * Z.of_nat (S k)) with (off + Z.of_nat 16 + 16 * Z.of_nat k) by lia.
    by apply IH.
Qed.

Lemma index_log_append g g' es new :
  index_log g es → tail_zero g (log_end es) →
  Forall (λ e, entry_ok e ∧ e ≠ zero_entry) new →
  Z.of_nat (length es + length new) ≤ index_capacity →
  (∀ a, IndexStart ≤ a < GridStart → g' a = upd g (log_end es) (buf_of (encode_entries new)) a) →
  index_log g' (es ++ new) ∧ tail_zero g' (log_end (es ++ new)).
Proof.
  intros Hlog Htail Hnew Hcap Hg'.
  assert (Hlen : blen (buf_of (encode_entries new)) = 16 * Z.of_nat (length new))
    by (cbn; rewrite length_encode_entries; lia).
  pose proof index_capacity_eq as Hce. unfold IndexBytes in Hce.
  assert (Hend : log_end (es ++ new) = log_end es + 16 * Z.of_nat (length new))
    by (unfold log_end; rewrite length_app; lia).
  assert (Htail' : tail_zero g' (log_end (es ++ new))).
  { intros a Ha. rewrite Hg' by (unfold log_end in *; rewrite ?length_app in *; llia).
    rewrite upd_out by lia. apply Htail. lia. }
  split; [|done]. constructor.
  - rewrite length_app. done.
  - intros k e Hk. apply lookup_app_Some in Hk as [Hk|[Hge Hk]].
    + pose proof (lookup_lt_Some _ _ _ Hk) as Hlt.
      destruct (log_entries _ _ Hlog _ _ Hk) as [He Hne]. split; [|done]. rewrite <- He.
      apply entry_at_ext. intros a Ha. rewrite Hg' by (unfold log_end in *; llia).
      rewrite upd_out; [done|unfold log_end; lia].
    + pose proof (lookup_lt_Some _ _ _ Hk) as Hlt.
      rewrite Forall_lookup in Hnew. destruct (Hnew _ _ Hk) as [_ Hne]. split; [|done].
      replace (IndexStart + 16 * Z.of_nat k)
        with (log_end es + 16 * Z.of_nat (k - length es)) by (unfold log_end; lia).
      apply (entry_at_encoded _ _ new); [|apply Forall_lookup; intros i x Hi; apply (Hnew i x Hi)|done].
      rewrite <- length_encode_entries. etrans; [|apply (bytes_at_upd_of g (log_end es))].
      apply bytes_at_ext. intros a Ha. rewrite length_encode_entries in Ha. apply Hg'.
      unfold log_end in *. llia.
  - intros Hlt. apply zero_entry_bytes. intros a Ha. apply Htail'.
    rewrite length_app in *. unfold log_end. rewrite length_app. llia.
Qed.

Lemma index_log_nil g : tail_zero g IndexStart → index_log g [].
Proof.
  intros H. constructor; cbn; [unfold index_capacity; lia|done|].
  intros _. apply zero_entry_bytes. intros. apply H. llia.
Qed.

Lemma index_log_ext g g' es :
  (∀ a, IndexStart ≤ a < GridStart → g a = g' a) → index_log g es → index_log g' es.
Proof.
  intros Hg H. pose proof (log_capacity _ _ H) as Hcap. constructor; [done| |].
  - intros k e Hk. pose proof (lookup_lt_Some _ _ _ Hk). apply (log_entries _ _ H) in Hk as [<- ?].
    split; [|done]. symmetry. apply entry_at_ext. intros. apply Hg.
    pose proof index_capacity_eq. llia.
  - intros Hlt. rewrite <- (log_stop _ _ H Hlt). symmetry. apply entry_at_ext. intros. apply Hg.
    pose proof index_capacity_eq. llia.
Qed.

(** The log of a region is unique: two lists that describe it agree. *)
Lemma index_log_unique g es es' : index_log g es → index_log g es' → es = es'.
Proof.
  assert (Hpre : ∀ es es', index_log g es → index_log g es' → (length es ≤ length es')%nat).
  { intros l l' H H'. destruct (Nat.le_gt_cases (length l) (length l')) as [|Hlt]; [done|].
    destruct (lookup_lt_is_Some_2 l (length l') Hlt) as [e He].
    pose proof (log_capacity _ _ H). apply (log_entries _ _ H) in He as [He Hne].
    rewrite (log_stop _ _ H') in He by lia. congruence. }
  intros H H'. apply list_eq_same_length with (length es).
  - pose proof (Hpre _ _ H H'). pose proof (Hpre _ _ H' H). lia.
  - done.
  - intros i x y _ Hx Hy. apply (log_entries _ _ H) in Hx as [<- _].
    by apply (log_entries _ _ H') in Hy as [<- _].
Qed.

(** A device image holding a given log, for the witnesses. *)
Definition image_of (es : list IndexEntry) : Z → byte :=
  upd (λ _, x00) IndexStart (buf_of (encode_entries es)).

Lemma image_of_log es :
  Forall (λ e, entry_ok e ∧ e ≠ zero_entry) es → Z.of_nat (length es) ≤ index_capacity →
  index_log (image_of es) es ∧ tail_zero (image_of es) (log_end es).
Proof.
  intros Hok Hcap. apply (index_log_append (λ _, x00) _ [] es); try done.
Qed.

Definition plain_file (g : Z → byte) (size : Z) : file := File g [] size false [].

(** ** What the readers of the index compute *)

(** On an index without sixteen consecutive zero bytes inside its entries, or shorter than one
    chunk, [scanIndexStream] hands its callback every entry before the terminator exactly once and
    in order, and returns the callback's error if one arises. *)
Theorem scan_index_stream_fold {St} (onEntry : St → IndexEntry → res St) st f es :
  f_faults f = [] → GridStart ≤ f_size f → index_log (f_data f) es → scannable (f_data f) es →
  scanIndexStream onEntry st f = (foldM onEntry st es, f).
Proof.
  intros Hf Hs Hlog Hsc. unfold scanIndexStream. unfold mbind at 1, M_bind.
  rewrite (scan_stream_log _ _ _ _ _ es) by done. by destruct (foldM onEntry st es).
Qed.

Definition three_entries : list IndexEntry := [mkEntry 5 10 0; mkEntry 6 0 0; mkEntry 5 20 0].

Lemma three_entries_log :
  index_log (image_of three_entries) three_entries ∧
  tail_zero (image_of three_entries) (log_end three_entries).
Proof.
  apply image_of_log; [|unfold index_capacity; cbn; lia].
  repeat (constructor; [split; [unfold entry_ok, is_u64; cbn; lia|done]|]). constructor.
Qed.

Lemma scan_index_stream_fold_witness :
  let f := plain_file (image_of three_entries) GridStart in
  scanIndexStream (λ l e, Ok (l ++ [e])) [] f = (Ok three_entries, f).
Proof.
  intros f.
  rewrite (scan_index_stream_fold (λ l e, Ok (l ++ [e])) [] f three_entries);
    [reflexivity|reflexivity|unfold f; cbn; lia|apply three_entries_log|].
  left. unfold chunk_entries. cbn. lia.
Defined.

(** [FindIndexEnd] returns the address just after the last entry of the index, which is where
    the next entry goes, and [ErrIndexFull] exactly when all 16,776,960 entries are in use. *)
Theorem find_index_end_spec f es :
  f_faults f = [] → GridStart ≤ f_size f → index_log (f_data f) es →
  FindIndexEnd f =
    (if Z.of_nat (length es) <? index_capacity then Ok (log_end es) else Err EIndexFull, f).
Proof.
  intros Hf Hs Hlog. unfold FindIndexEnd. unfold mbind at 1, M_bind.
  rewrite (scan_stream_log _ _ _ _ _ es) by done.
  assert (E : ∀ l : list IndexEntry, foldM (λ _ _, Ok tt) tt l = Ok tt).
  { induction l as [|e l IH]; [done|]. apply IH. }
  rewrite E. cbn. by destruct (_ <? _).
Qed.

Lemma find_index_end_spec_witness :
  let f := plain_file (image_of three_entries) GridStart in
  FindIndexEnd f = (Ok (IndexStart + 48), f).
Proof.
  intros f. rewrite (find_index_end_spec f three_entries);
    [reflexivity|reflexivity|unfold f; cbn; lia|apply three_entries_log].
Defined.

(** The zero-run test stops inside a region that holds a run. *)
Lemma zero_run_stops g off n a :
  0 ≤ n ≤ chunkSize → off ≤ a → a + 16 ≤ off + n → (∀ i, a ≤ i < a + 16 → g i = x00) →
  zero_run (region g off n) n 0 = None.
Proof.
  intros Hn Hlo Hhi Hrun. unfold zero_run.
  edestruct (loop_total
    (λ '(i, z), 0 ≤ i ≤ n ∧ 0 ≤ z < 16 ∧ (a ≤ off + i → off + i - a ≤ z ∧ off + i < a + 16))
    (λ '(i, _), n - i) (λ r : option Z, r = None) 4194305)
    as (r & -> & Hr); [| |intros [i z] (Hi & Hz & Hq) _|exact Hr].
  - repeat split; lia.
  - unfold chunkSize in Hn. lia.
  - cbn beta iota. unfold IndexEntrySize. destruct (Z.ltb_spec i n); [|lia].
    cbn [bat region]. destruct (Z.eqb_spec (byte_val (g (off + i))) 0) as [E|E].
    + destruct (Z.leb_spec 16 (z + 1)); [done|]. repeat split; lia.
    + assert (¬ (a ≤ off + i < a + 16)) by (intros Hr; apply E; by rewrite Hrun).
      repeat split; lia.
Qed.

(** Sixteen consecutive zero bytes anywhere in the first 4 MiB of the index, aligned to an
    entry or not, end [scanIndexStream] after that chunk: every later entry is silently dropped,
    and no error is reported. *)
Theorem zero_run_truncates_scan {St} (onEntry : St → IndexEntry → res St) st f es a :
  f_faults f = [] → GridStart ≤ f_size f → index_log (f_data f) es →
  chunk_entries ≤ Z.of_nat (length es) →
  IndexStart ≤ a → a + 16 ≤ IndexStart + chunkSize → (∀ i, a ≤ i < a + 16 → f_data f i = x00) →
  scanIndexStream onEntry st f = (foldM onEntry st (take (Z.to_nat chunk_entries) es), f).
Proof.
  intros Hf Hs Hlog Hlen Ha1 Ha2 Hrun. unfold scanIndexStream. unfold mbind at 1, M_bind.
  assert (Hcap : index_capacity = 16776960) by done.
  assert (Hch : chunkSize = 16 * chunk_entries) by done.
  unfold scan_stream, mloop. rewrite loop_nat_eq.
  destruct (Pos2Nat.is_succ 268435456) as [n ->]. cbn [loop_nat].
  change (0 <? IndexBytes) with true. change (IndexBytes - 0 <? chunkSize) with false.
  cbn match. rewrite ReadAt_ok by (done || unfold chunkSize; llia). cbn match. cbn [andb blen region].
  change (chunkSize =? 0) with false. change (chunkSize - chunkSize `mod` IndexEntrySize)
    with (16 * chunk_entries). cbn match.
  assert (Hm : chunk_entries = Z.of_nat (Z.to_nat chunk_entries))
    by (rewrite Z2Nat.id; [done|unfold chunk_entries; lia]).
  revert Hm. generalize (Z.to_nat chunk_entries) as m. intros m Hm.
  rewrite Hm. rewrite scan_chunk_list by (rewrite <- Hm; done).
  assert (Eb : entries_at (bat (region (f_data f) (IndexStart + 0) chunkSize)) 0 m
           = entries_at (f_data f) (IndexStart + 16 * Z.of_nat 0) m).
  { unfold entries_at. apply list_fmap_ext. intros. cbn [bat region].
    rewrite entry_at_shift. f_equal. }
  rewrite Eb, (scan_list_log _ (f_data f) es) by (try done; unfold chunk_entries in *; lia).
  rewrite decide_True by lia. rewrite drop_0.
  destruct (foldM onEntry st (take m es)) as [st'|e]; cbn [mbind res_bind]; [|done].
  rewrite (zero_run_stops (f_data f) (IndexStart + 0) chunkSize a); try done; lia.
Qed.

Lemma log_bytes_2 g es e1 e2 :
  index_log g es → es !! 0%nat = Some e1 → es !! 1%nat = Some e2 →
  bytes_at g IndexStart 32 = entry_bytes e1 ++ entry_bytes e2.
Proof.
  intros Hlog H1 H2. apply (log_entries _ _ Hlog) in H1 as [<- _], H2 as [<- _].
  rewrite !entry_bytes_entry_at. change 32%nat with (16 + 16)%nat. rewrite bytes_at_app.
  do 2 f_equal; lia.
Qed.

(** An index whose first two entries, size 1 for fid 5 and size 256 for fid 0, put sixteen zero
    bytes side by side, followed by enough entries to pass the first chunk. *)
Definition run_entries (n : nat) : list IndexEntry :=
  mkEntry 5 1 0 :: mkEntry 0 256 0 :: replicate n (mkEntry 7 7 0).

Lemma run_entries_zero g :
  bytes_at g IndexStart 32 = entry_bytes (mkEntry 5 1 0) ++ entry_bytes (mkEntry 0 256 0) →
  ∀ i, IndexStart + 9 ≤ i < IndexStart + 9 + 16 → g i = x00.
Proof.
  intros Hb i Hi. replace i with (IndexStart + Z.of_nat (Z.to_nat (i - IndexStart))) by lia.
  assert (E : ∃ k, (k < 16)%nat ∧ Z.to_nat (i - IndexStart) = (9 + k)%nat).
  { exists (Z.to_nat (i - IndexStart - 9)). lia. }
  destruct E as (k & Hk & ->). clear Hi.
  pose proof (lookup_bytes_at g IndexStart 32 (9 + k) ltac:(lia)) as L. rewrite Hb in L.
  revert L. generalize (g (IndexStart + Z.of_nat (9 + k))) as x. intros x L.
  do 16 (destruct k as [|k]; [vm_compute in L; by injection L|]). lia.
Qed.

Lemma length_run_entries n : length (run_entries n) = (n + 2)%nat.
Proof. unfold run_entries. cbn [length]. rewrite length_replicate. lia. Qed.

Lemma run_entries_log n :
  Z.of_nat n + 2 ≤ index_capacity → index_log (image_of (run_entries n)) (run_entries n).
Proof.
  intros Hn. apply image_of_log; [|rewrite length_run_entries; lia].
  constructor; [split; [unfold entry_ok, is_u64; cbn; lia|done]|].
  constructor; [split; [unfold entry_ok, is_u64; cbn; lia|done]|].
  apply Forall_replicate. split; [unfold entry_ok, is_u64; cbn; lia|done].
Qed.

Lemma zero_run_truncates_scan_witness : ∃ n : nat,
  let f := plain_file (image_of (run_entries n)) GridStart in
  Z.of_nat (length (run_entries n)) = chunk_entries + 2 ∧
  scanIndexStream (λ n e, Ok (n + 1)) 0 f =
    (foldM (λ n e, Ok (n + 1)) 0 (take (Z.to_nat chunk_entries) (run_entries n)), f).
Proof.
  destruct (Z_of_nat_complete chunk_entries) as [n Hn]; [done|]. symmetry in Hn.
  exists n. intros f. split; [rewrite length_run_entries; lia|].
  assert (Hlog : index_log (image_of (run_entries n)) (run_entries n)).
  { apply run_entries_log. rewrite Hn. done. }
  apply (zero_run_truncates_scan (λ n e, Ok (n + 1)) 0 f (run_entries n) (IndexStart + 9)).
  - reflexivity.
  - unfold f. cbn. lia.
  - exact Hlog.
  - rewrite length_run_entries. lia.
  - lia.
  - unfold chunkSize. lia.
  - exact (run_entries_zero _ (log_bytes_2 _ _ _ _ Hlog eq_refl eq_refl)).
Defined.
