(* ===== verification/PackedTable.v ===== *)
(** * Packed tables (internal/daemon/packed_table.go)

    The blob that maps the fids of packed objects to slices of their container.  The decoder is a
    left inverse of the encoder and accepts nothing else ([decode_encode], [encode_decode]); its
    two arithmetic checks wrap ([entry_count_wrap_panics], [entry_bound_wraps]). *)

From S2P Require Import Prelude Machine Loop Device.
From Stdlib Require Import Strings.Byte.

Definition packedTableMagic : list byte := [x4e; x42; x50; x54].
Definition packedTableVersion : Z := 1.
Definition packedTableHeaderSize : Z := 48.
Definition packedTableEntrySize : Z := 24.

Record packedRecord := mkPackedRecord {
  containerFID : Z; containerSize : Z; pr_offset : Z; logicSize : Z; tableFID : Z; tableSize : Z
}.

Record packedTableHeader := mkTableHeader {
  h_diskID : Z; h_containerFID : Z; h_containerSize : Z; h_entryCount : Z; h_reserved : Z
}.

Record packedTableEntry := mkTableEntry { e_fid : Z; e_offset : Z; e_size : Z }.

#[export] Instance packedRecord_eq_dec : EqDecision packedRecord.
Proof. solve_decision. Defined.
#[export] Instance packedTableEntry_eq_dec : EqDecision packedTableEntry.
Proof. solve_decision. Defined.

Definition encode_table_entry (entry : packedTableEntry) : list byte :=
  le_bytes 8 (e_fid entry) ++ le_bytes 8 (e_offset entry) ++ le_bytes 8 (e_size entry).

(** [encodePackedTable]: the count written is the length of the slice, not the header's field. *)
Definition encodePackedTable (header : packedTableHeader) (entries : list packedTableEntry) :
    list byte :=
  packedTableMagic ++ le_bytes 2 packedTableVersion ++ le_bytes 2 packedTableHeaderSize ++
  le_bytes 8 (h_diskID header) ++ le_bytes 8 (h_containerFID header) ++
  le_bytes 8 (h_containerSize header) ++ le_bytes 8 (u64 (Z.of_nat (length entries))) ++
  le_bytes 8 (h_reserved header) ++ concat (encode_table_entry <$> entries).

(** The integer of [n] bytes at [off] of a slice. *)
Definition uint_at (blob : list byte) (off n : nat) : Z := le_val (take n (drop off blob)).

(** The loop over the entries, [n] of them left, at [offset]. *)
Fixpoint decode_entries (containerSize : Z) (n : nat) (blob : list byte) (offset : nat) :
    res (list packedTableEntry) :=
  match n with
  | O => Ok []
  | S n =>
      let entry := mkTableEntry (uint_at blob offset 8) (uint_at blob (offset + 8) 8)
                                (uint_at blob (offset + 16) 8) in
      if e_size entry =? 0 then Err (EMsg "packed table entry has zero size") else
      if containerSize <? u64 (e_offset entry + e_size entry)
      then Err (EMsg "packed table entry exceeds container size") else
      rest ← decode_entries containerSize n blob (offset + 24);
      Ok (entry :: rest)
  end.

(** What [make] can allocate: 2^48 bytes of address space. *)
Definition maxAlloc : Z := 2 ^ 48.

Definition decodePackedTable (blob : list byte) :
    res (packedTableHeader * list packedTableEntry) :=
  if Z.of_nat (length blob) <? packedTableHeaderSize then Err (EMsg "packed table too small") else
  if negb (bool_decide (take 4 blob = packedTableMagic))
  then Err (EMsg "invalid packed table magic") else
  if negb (uint_at blob 4 2 =? packedTableVersion)
  then Err (EMsg "unsupported packed table version") else
  if negb (uint_at blob 6 2 =? packedTableHeaderSize)
  then Err (EMsg "invalid packed table header size") else
  let header := mkTableHeader (uint_at blob 8 8) (uint_at blob 16 8) (uint_at blob 24 8)
                              (uint_at blob 32 8) (uint_at blob 40 8) in
  let expectedLen :=
    int64 (u64 (packedTableHeaderSize + u64 (h_entryCount header * packedTableEntrySize))) in
  if negb (Z.of_nat (length blob) =? expectedLen)
  then Err (EMsg "packed table length mismatch") else
  if maxAlloc <? h_entryCount header * packedTableEntrySize
  then Err (EPanic "makeslice: cap out of range") else
  entries ← decode_entries (h_containerSize header) (Z.to_nat (h_entryCount header)) blob 48;
  Ok (header, entries).

(** ** What the decoder accepts *)
Definition header_ok (h : packedTableHeader) : Prop :=
  is_u64 (h_diskID h) ∧ is_u64 (h_containerFID h) ∧ is_u64 (h_containerSize h) ∧
  is_u64 (h_reserved h).

(** The test of the decoder: the sum is reduced modulo 2^64 before it is compared. *)
Definition table_entry_ok (containerSize : Z) (e : packedTableEntry) : Prop :=
  is_u64 (e_fid e) ∧ is_u64 (e_offset e) ∧ is_u64 (e_size e) ∧
  e_size e ≠ 0 ∧ u64 (e_offset e + e_size e) ≤ containerSize.

(** ** Lemmas *)
Lemma uint_at_le blob off n z rest :
  drop off blob = le_bytes n z ++ rest → 0 ≤ z < 256 ^ Z.of_nat n → uint_at blob off n = z.
Proof.
  intros H Hz. unfold uint_at. rewrite H, take_app_length' by (by rewrite length_le_bytes).
  by apply le_val_bytes_small.
Qed.

Lemma le_bytes_uint_at blob off n :
  (off + n ≤ length blob)%nat → le_bytes n (uint_at blob off n) = take n (drop off blob).
Proof.
  intros H. unfold uint_at. apply le_bytes_val_len. rewrite length_take, length_drop. lia.
Qed.

Lemma uint_at_u64 blob off : is_u64 (uint_at blob off 8).
Proof.
  unfold is_u64, uint_at. pose proof (le_val_range (take 8 (drop off blob))) as H.
  assert (256 ^ Z.of_nat (length (take 8 (drop off blob))) ≤ 256 ^ 8); [|lia].
  apply Z.pow_le_mono_r; [lia|]. rewrite length_take. lia.
Qed.

(** One field after another: the fields of a blob put back together give its tail. *)
Lemma field_drop blob off n off' :
  (off + n ≤ length blob)%nat → off' = (off + n)%nat →
  le_bytes n (uint_at blob off n) ++ drop off' blob = drop off blob.
Proof.
  intros H ->. rewrite le_bytes_uint_at by done. rewrite <- (drop_drop blob n off).
  apply take_drop.
Qed.

Lemma length_encode_table_entries es :
  length (concat (encode_table_entry <$> es)) = (24 * length es)%nat.
Proof.
  induction es as [|e es IH]; [done|]. cbn [fmap list_fmap concat].
  rewrite length_app, IH. unfold encode_table_entry. rewrite !length_app, !length_le_bytes.
  cbn [length]. lia.
Qed.

Lemma length_encodePackedTable h es :
  length (encodePackedTable h es) = (48 + 24 * length es)%nat.
Proof.
  unfold encodePackedTable. rewrite !length_app, !length_le_bytes, length_encode_table_entries.
  cbn [length packedTableMagic]. lia.
Qed.

Lemma decode_entries_encode cs es blob off :
  Forall (table_entry_ok cs) es → drop off blob = concat (encode_table_entry <$> es) →
  decode_entries cs (length es) blob off = Ok es.
Proof.
  revert off. induction es as [|e es IH]; intros off Hok Hd; [done|].
  inversion Hok as [|? ? (Hf & Ho & Hs & Hnz & Hle) Hok']; subst.
  cbn [fmap list_fmap concat] in Hd. unfold encode_table_entry in Hd at 1.
  rewrite <- !app_assoc in Hd. unfold is_u64 in *.
  assert (Hd1 : drop (off + 8) blob =
    le_bytes 8 (e_offset e) ++ le_bytes 8 (e_size e) ++ concat (encode_table_entry <$> es)).
  { rewrite <- drop_drop, Hd. apply drop_app_length'. by rewrite length_le_bytes. }
  assert (Hd2 : drop (off + 16) blob = le_bytes 8 (e_size e) ++ concat (encode_table_entry <$> es)).
  { replace (off + 16)%nat with (off + 8 + 8)%nat by lia. rewrite <- drop_drop, Hd1.
    apply drop_app_length'. by rewrite length_le_bytes. }
  cbn [length decode_entries].
  rewrite (uint_at_le blob off 8 (e_fid e) _ Hd) by (cbn; lia).
  rewrite (uint_at_le blob (off + 8) 8 (e_offset e) _ Hd1) by (cbn; lia).
  rewrite (uint_at_le blob (off + 16) 8 (e_size e) _ Hd2) by (cbn; lia).
  cbn [e_size e_offset]. rewrite (proj2 (Z.eqb_neq _ _)) by done.
  rewrite (proj2 (Z.ltb_ge _ _)) by done. rewrite IH; [by destruct e|done|].
  replace (off + 24)%nat with (off + 16 + 8)%nat by lia. rewrite <- drop_drop, Hd2.
  apply drop_app_length'. by rewrite length_le_bytes.
Qed.

Lemma decode_entries_Ok cs n blob off es :
  decode_entries cs n blob off = Ok es → (off + 24 * n = length blob)%nat →
  length es = n ∧ Forall (table_entry_ok cs) es ∧
  concat (encode_table_entry <$> es) = drop off blob.
Proof.
  revert off es. induction n as [|n IH]; intros off es H Hlen.
  - injection H as <-. split; [done|]. split; [done|]. symmetry. apply drop_ge. lia.
  - cbn [decode_entries e_size e_offset] in H.
    destruct (Z.eqb_spec (uint_at blob (off + 16) 8) 0); [done|].
    destruct (Z.ltb_spec cs (u64 (uint_at blob (off + 8) 8 + uint_at blob (off + 16) 8))); [done|].
    apply res_bind_Ok in H as (rest & H & [= <-]). apply IH in H as (Hl & Hok & Hc); [|lia].
    split; [cbn; by rewrite Hl|]. split.
    + constructor; [|done]. repeat split; try apply uint_at_u64; done.
    + cbn [fmap list_fmap concat]. unfold encode_table_entry at 1. cbn [e_fid e_offset e_size].
      rewrite Hc, <- !app_assoc.
      rewrite (field_drop blob (off + 16) 8) by lia. rewrite (field_drop blob (off + 8) 8) by lia.
      apply field_drop; lia.
Qed.

(** The decoder run on an encoding. *)
Lemma decode_encoded h es :
  header_ok h → Forall (table_entry_ok (h_containerSize h)) es →
  Z.of_nat (length es) * 24 ≤ maxAlloc →
  decodePackedTable (encodePackedTable h es) =
    Ok (mkTableHeader (h_diskID h) (h_containerFID h) (h_containerSize h)
          (Z.of_nat (length es)) (h_reserved h), es).
Proof.
  intros (Hd & Hc & Hs & Hr) Hes Hn. unfold maxAlloc in Hn. unfold is_u64 in *.
  set (blob := encodePackedTable h es).
  assert (Hlen : length blob = (48 + 24 * length es)%nat) by apply length_encodePackedTable.
  assert (F : uint_at blob 4 2 = 1 ∧ uint_at blob 6 2 = 48 ∧ uint_at blob 8 8 = h_diskID h ∧
    uint_at blob 16 8 = h_containerFID h ∧ uint_at blob 24 8 = h_containerSize h ∧
    uint_at blob 32 8 = Z.of_nat (length es) ∧ uint_at blob 40 8 = h_reserved h).
  { repeat split; (eapply uint_at_le; [reflexivity|cbn; rewrite ?u64_small; lia]) || idtac.
    rewrite <- (u64_small (Z.of_nat (length es))) by lia.
    eapply uint_at_le; [reflexivity|]. rewrite u64_small by lia. cbn. lia. }
  destruct F as (F4 & F6 & F8 & F16 & F24 & F32 & F40).
  unfold decodePackedTable. rewrite F4, F6, F8, F16, F24, F32, F40, Hlen.
  cbn [h_entryCount h_containerSize].
  unfold packedTableHeaderSize, packedTableVersion, packedTableEntrySize, maxAlloc.
  rewrite (proj2 (Z.ltb_ge _ _)) by lia.
  change (take 4 blob) with packedTableMagic. rewrite bool_decide_eq_true_2 by done.
  cbn [negb Z.eqb Pos.eqb]. u64_simpl. rewrite int64_small by lia.
  rewrite (proj2 (Z.eqb_eq _ _)) by lia. rewrite (proj2 (Z.ltb_ge _ _)) by lia.
  cbn [negb]. rewrite Nat2Z.id. rewrite decode_entries_encode; [done|done|reflexivity].
Qed.

(** Decoding what [encodePackedTable] wrote gives back the header, with the number of entries
    in its count field, and the entries in order, for every table whose entries pass the decoder's
    own test. *)
Theorem decode_encode h es :
  header_ok h → Forall (table_entry_ok (h_containerSize h)) es →
  Z.of_nat (length es) * 24 ≤ maxAlloc →
  decodePackedTable (encodePackedTable h es) =
    Ok (mkTableHeader (h_diskID h) (h_containerFID h) (h_containerSize h)
          (Z.of_nat (length es)) (h_reserved h), es).
Proof. apply decode_encoded. Qed.

Definition sample_header : packedTableHeader := mkTableHeader 7 9 5000 2 0.
Definition sample_entries : list packedTableEntry := [mkTableEntry 1 0 100; mkTableEntry 2 100 4900].

Lemma sample_table_ok :
  header_ok sample_header ∧ Forall (table_entry_ok (h_containerSize sample_header)) sample_entries.
Proof.
  split; [unfold header_ok, is_u64; cbn; lia|].
  repeat (constructor; [unfold table_entry_ok, is_u64; cbn; rewrite ?u64_small; lia|]).
  constructor.
Qed.

Lemma decode_encode_witness :
  decodePackedTable (encodePackedTable sample_header sample_entries) =
    Ok (sample_header, sample_entries).
Proof.
  exact (decode_encode sample_header sample_entries (proj1 sample_table_ok)
    (proj2 sample_table_ok) ltac:(unfold maxAlloc; cbn; lia)).
Defined.

(** Every blob the decoder accepts is exactly the encoding of the header and entries it
    returns, each entry has a non-zero size and passes the bound test, and the count field is the
    number of entries: no two tables share a blob and no trailing or missing byte is accepted. *)
Theorem encode_decode blob h es :
  Z.of_nat (length blob) < 2 ^ 63 → decodePackedTable blob = Ok (h, es) →
  blob = encodePackedTable h es ∧ header_ok h ∧ h_entryCount h = Z.of_nat (length es) ∧
  Forall (table_entry_ok (h_containerSize h)) es.
Proof.
  intros Hmax H. unfold decodePackedTable in H.
  destruct (Z.ltb_spec (Z.of_nat (length blob)) packedTableHeaderSize) as [|H48]; [done|].
  case_bool_decide as Hmagic; [|done]. cbn [negb] in H.
  destruct (Z.eqb_spec (uint_at blob 4 2) packedTableVersion) as [Hver|]; [|done]. cbn [negb] in H.
  destruct (Z.eqb_spec (uint_at blob 6 2) packedTableHeaderSize) as [Hsz|]; [|done].
  cbn [negb h_entryCount h_containerSize] in H.
  destruct (Z.eqb_spec (Z.of_nat (length blob))
    (int64 (u64 (packedTableHeaderSize + u64 (uint_at blob 32 8 * packedTableEntrySize)))))
    as [Hlen|]; [|done]. cbn [negb] in H.
  destruct (Z.ltb_spec maxAlloc (uint_at blob 32 8 * packedTableEntrySize)) as [|Hal]; [done|].
  apply res_bind_Ok in H as (es' & H & [= <- ->]).
  pose proof (uint_at_u64 blob 32) as Hc. unfold is_u64 in Hc.
  unfold packedTableHeaderSize, packedTableVersion, packedTableEntrySize, maxAlloc in *.
  u64_simpl. rewrite int64_small in Hlen by lia.
  apply decode_entries_Ok in H as (Hn & Hok & Hcat); [|lia].
  assert (Hcount : uint_at blob 32 8 = Z.of_nat (length es)) by lia.
  split; [|repeat split; cbn; try apply uint_at_u64; auto].
  unfold encodePackedTable. cbn [h_diskID h_containerFID h_containerSize h_reserved].
  rewrite Hcat, <- Hcount. u64_simpl.
  unfold packedTableVersion, packedTableHeaderSize. rewrite <- Hver, <- Hsz, <- Hmagic.
  rewrite (field_drop blob 40 8), (field_drop blob 32 8), (field_drop blob 24 8),
    (field_drop blob 16 8), (field_drop blob 8 8), (field_drop blob 6 2), (field_drop blob 4 2)
    by lia.
  symmetry. apply (take_drop 4).
Qed.

Lemma encode_decode_witness :
  encodePackedTable sample_header sample_entries = encodePackedTable sample_header sample_entries ∧
  header_ok sample_header ∧ h_entryCount sample_header = Z.of_nat (length sample_entries) ∧
  Forall (table_entry_ok (h_containerSize sample_header)) sample_entries.
Proof.
  apply (encode_decode (encodePackedTable sample_header sample_entries)).
  - rewrite length_encodePackedTable. cbn. lia.
  - vm_compute. reflexivity.
Defined.

(** A blob whose fixed fields are right. *)
Definition well_framed (blob : list byte) : Prop :=
  take 4 blob = packedTableMagic ∧ uint_at blob 4 2 = packedTableVersion ∧
  uint_at blob 6 2 = packedTableHeaderSize.

(** The length check of the decoder multiplies the count by 24 modulo 2^64, so a table whose
    count field is a multiple of 2^61 too large passes it, and the decoder then panics while it
    allocates the entries instead of returning an error. *)
Theorem entry_count_wrap_panics blob (k : nat) j :
  well_framed blob → length blob = (48 + 24 * k)%nat → Z.of_nat k < 2 ^ 40 → 1 ≤ j < 8 →
  uint_at blob 32 8 = Z.of_nat k + j * 2 ^ 61 →
  decodePackedTable blob = Err (EPanic "makeslice: cap out of range").
Proof.
  intros (Hm & H4 & H6) Hlen Hk Hj Hc. unfold decodePackedTable. rewrite H4, H6, Hc, Hlen.
  unfold packedTableHeaderSize, packedTableVersion, packedTableEntrySize, maxAlloc.
  rewrite (proj2 (Z.ltb_ge _ _)) by lia. rewrite bool_decide_eq_true_2 by done.
  cbn [negb Z.eqb Pos.eqb h_entryCount].
  assert (E : u64 ((Z.of_nat k + j * 2 ^ 61) * 24) = 24 * Z.of_nat k).
  { unfold u64. replace ((Z.of_nat k + j * 2 ^ 61) * 24)
      with (24 * Z.of_nat k + (3 * j) * 2 ^ 64) by lia.
    rewrite Z.mod_add by lia. apply Z.mod_small. lia. }
  rewrite E. u64_simpl. rewrite int64_small by lia.
  rewrite (proj2 (Z.eqb_eq _ _)) by lia. rewrite (proj2 (Z.ltb_lt _ _)) by lia. done.
Qed.

(** The 48 bytes of an empty table with 2^61 in the count field. *)
Definition crafted_blob : list byte :=
  packedTableMagic ++ le_bytes 2 1 ++ le_bytes 2 48 ++ le_bytes 8 7 ++ le_bytes 8 9 ++
  le_bytes 8 5000 ++ le_bytes 8 (2 ^ 61) ++ le_bytes 8 0.

Lemma entry_count_wrap_panics_witness :
  decodePackedTable crafted_blob = Err (EPanic "makeslice: cap out of range").
Proof.
  apply (entry_count_wrap_panics crafted_blob 0 1);
    [repeat split; vm_compute; reflexivity|reflexivity|cbn; lia|lia|vm_compute; reflexivity].
Defined.

(** The bound check of an entry adds its offset and size modulo 2^64, so a table with an entry
    that starts near 2^64, far outside its container, decodes without an error. *)
Theorem entry_bound_wraps cs fid off size :
  is_u64 cs → is_u64 fid → is_u64 off → is_u64 size → size ≠ 0 →
  2 ^ 64 ≤ off + size → off + size - 2 ^ 64 ≤ cs →
  ∃ h, decodePackedTable (encodePackedTable (mkTableHeader 0 0 cs 1 0) [mkTableEntry fid off size])
       = Ok (h, [mkTableEntry fid off size]) ∧ h_containerSize h = cs.
Proof.
  unfold is_u64. intros. eexists. split.
  - apply decode_encoded.
    + unfold header_ok, is_u64. cbn. lia.
    + repeat constructor; cbn; unfold is_u64; try lia. unfold u64.
      rewrite <- (Z.mod_add _ (-1)), Z.mod_small; lia.
    + unfold maxAlloc. cbn. lia.
  - done.
Qed.

Lemma entry_bound_wraps_witness :
  ∃ h, decodePackedTable (encodePackedTable (mkTableHeader 0 0 1 1 0)
         [mkTableEntry 3 (2 ^ 64 - 4096) 4097])
       = Ok (h, [mkTableEntry 3 (2 ^ 64 - 4096) 4097]) ∧ h_containerSize h = 1.
Proof. apply (entry_bound_wraps 1 3 (2 ^ 64 - 4096) 4097); unfold is_u64; lia. Defined.
