(* ===== verification/Interval.v ===== *)
(** * Slot intervals (internal/daemon/interval.go)

    Inclusive ranges of slots, the overlap test and the removal loop.  [disjoint_all] is the
    property the reservation protocol keeps: no two extents of a disk share a slot. *)

From S2P Require Import Prelude.

Record interval := mkInterval { start : Z; end_ : Z }.

#[export] Instance interval_eq_dec : EqDecision interval.
Proof. solve_decision. Defined.

Definition overlaps (a b : interval) : bool :=
  (start a <=? end_ b) && (start b <=? end_ a).

(** The loop of [reserveExtent] over one list of extents, and [anyOverlap] of trim.go. *)
Definition anyOverlap (l : list interval) (iv : interval) : bool :=
  existsb (λ e, overlaps e iv) l.

Definition removeInterval (l : list interval) (target : interval) : list interval :=
  filter (λ e, e ≠ target) l.

(** ** Specification *)
Definition in_interval (x : Z) (iv : interval) : Prop := start iv ≤ x ≤ end_ iv.
Definition interval_ok (iv : interval) : Prop := start iv ≤ end_ iv.

Fixpoint disjoint_all (l : list interval) : Prop :=
  match l with
  | [] => True
  | a :: l => Forall (λ b, overlaps a b = false) l ∧ disjoint_all l
  end.

Lemma overlaps_sym a b : overlaps a b = overlaps b a.
Proof. unfold overlaps. apply andb_comm. Qed.

Lemma overlaps_false a b : overlaps a b = false ↔ end_ b < start a ∨ end_ a < start b.
Proof. unfold overlaps. rewrite andb_false_iff, !Z.leb_gt. done. Qed.

(** The overlap test is right: two non-empty intervals overlap when they share a slot. *)
Lemma overlaps_spec a b :
  interval_ok a → interval_ok b → overlaps a b = true ↔ ∃ x, in_interval x a ∧ in_interval x b.
Proof.
  unfold overlaps, interval_ok, in_interval. intros Ha Hb. split.
  - intros H. exists (Z.max (start a) (start b)). lia.
  - intros (x & ? & ?). lia.
Qed.

Lemma overlaps_refl a : interval_ok a → overlaps a a = true.
Proof. unfold interval_ok, overlaps. intros. lia. Qed.

Lemma anyOverlap_false l iv : anyOverlap l iv = false ↔ Forall (λ e, overlaps e iv = false) l.
Proof.
  unfold anyOverlap. induction l as [|a l IH]; cbn; [by split|].
  rewrite orb_false_iff, IH, Forall_cons. done.
Qed.

Lemma anyOverlap_app l1 l2 iv : anyOverlap (l1 ++ l2) iv = anyOverlap l1 iv || anyOverlap l2 iv.
Proof. apply existsb_app. Qed.

Lemma disjoint_all_app l1 l2 :
  disjoint_all (l1 ++ l2) ↔
  disjoint_all l1 ∧ disjoint_all l2 ∧ Forall (λ a, Forall (λ b, overlaps a b = false) l2) l1.
Proof.
  induction l1 as [|a l1 IH]; cbn.
  - split; [intros ?; repeat split; auto|tauto].
  - rewrite Forall_app, Forall_cons, IH. tauto.
Qed.

Lemma disjoint_all_elem l a b : disjoint_all l → a ∈ l → b ∈ l → a = b ∨ overlaps a b = false.
Proof.
  induction l as [|c l IH]; [by intros ? ?%elem_of_nil|]. intros [Hc Hl] Ha Hb.
  rewrite Forall_forall in Hc. apply elem_of_cons in Ha as [->|Ha], Hb as [->|Hb]; auto.
  right. rewrite overlaps_sym. auto.
Qed.

#[export] Instance disjoint_all_perm : Proper ((≡ₚ) ==> iff) disjoint_all.
Proof.
  intros l1 l2 H. induction H as [|x l1 l2 Hp IH|x y l|l1 l2 l3 _ IH1 _ IH2]; cbn; [done| | |].
  - rewrite IH. split; intros [H1 H2]; (split; [|done]).
    + by rewrite <- Hp.
    + by rewrite Hp.
  - rewrite !Forall_cons, (overlaps_sym x y). tauto.
  - by rewrite IH1.
Qed.

#[export] Instance anyOverlap_perm : Proper ((≡ₚ) ==> (=) ==> (=)) anyOverlap.
Proof.
  intros l1 l2 H iv _ <-. apply eq_true_iff_eq. unfold anyOverlap. rewrite !existsb_exists.
  setoid_rewrite <- list_elem_of_In. by setoid_rewrite H.
Qed.

(** Adding an extent that passed both tests keeps all extents disjoint. *)
Lemma disjoint_all_snoc l iv :
  disjoint_all l → anyOverlap l iv = false → disjoint_all (l ++ [iv]).
Proof.
  intros Hl H. apply anyOverlap_false in H. rewrite disjoint_all_app. split; [done|].
  split; [cbn; auto|]. eapply Forall_impl; [exact H|]. intros a Ha. auto.
Qed.

Lemma removeInterval_elem l iv a : a ∈ removeInterval l iv ↔ a ∈ l ∧ a ≠ iv.
Proof. unfold removeInterval. rewrite list_elem_of_filter. tauto. Qed.

Lemma disjoint_all_submseteq l1 l2 : l1 ⊆+ l2 → disjoint_all l2 → disjoint_all l1.
Proof.
  intros [k ->]%submseteq_Permutation. rewrite disjoint_all_app. tauto.
Qed.

(** In a disjoint list an extent occurs once, so removing it removes one occurrence. *)
Lemma removeInterval_cons a l iv :
  removeInterval (a :: l) iv = if decide (a = iv) then removeInterval l iv
                               else a :: removeInterval l iv.
Proof. unfold removeInterval. rewrite filter_cons. by repeat case_decide. Qed.

Lemma removeInterval_notin l iv : iv ∉ l → removeInterval l iv = l.
Proof.
  induction l as [|a l IH]; [done|]. rewrite not_elem_of_cons, removeInterval_cons.
  intros [Hne Hl]. rewrite decide_False by done. by rewrite IH.
Qed.

Lemma removeInterval_perm l iv :
  interval_ok iv → disjoint_all l → iv ∈ l → l ≡ₚ iv :: removeInterval l iv.
Proof.
  intros Hiv. induction l as [|a l IH]; [by intros ? ?%not_elem_of_nil|]. cbn [disjoint_all].
  intros [Ha Hl] Hin. rewrite removeInterval_cons. case_decide as Hd.
  - subst a. rewrite removeInterval_notin; [done|]. intros H. rewrite Forall_forall in Ha.
    apply Ha in H. by rewrite overlaps_refl in H.
  - apply elem_of_cons in Hin as [->|Hin]; [done|].
    rewrite IH at 1 by done. apply Permutation_swap.
Qed.
