(* ===== verification/Replay.v ===== *)
(** * Replaying the index (internal/daemon/index_state.go)

    [OpenDevice] and the compaction of [maybeTrim] rebuild the maps of a disk from its index.
    [replay_entry] is the body of the loop of [replayIndex] for one entry, [finish] the closure that
    expands the packed tables and checks the extents.  [replay_spec] states the whole as a fold over
    the abstract index. *)

From S2P Require Import Prelude Machine Loop Device Layout IndexScan PackedTable Interval.
From Stdlib Require Import Strings.Byte.

Record objectRef := mkRef { r_fid : Z; storedSize : Z; r_size : Z; r_offset : Z; r_packed : bool }.

#[export] Instance objectRef_eq_dec : EqDecision objectRef.
Proof. solve_decision. Defined.

(** The variables of [replayIndex] the loop updates. *)
Record rstate := mkRstate {
  rs_refs : gmap Z objectRef;
  rs_packed : gmap Z packedRecord;
  rs_extents : gmap Z interval;
  rs_alias : option IndexEntry;
  rs_pendingPacked : option IndexEntry;
  rs_tables : list Z
}.

Definition rstate0 : rstate := mkRstate ∅ ∅ ∅ None None [].

(** What the loop does with a plain entry. *)
Definition plain_ref (fid size : Z) : objectRef := mkRef fid size size 0 false.
(** ... and with an alias: the last byte of the target is not part of the object. *)
Definition alias_ref (fid size : Z) : objectRef := mkRef fid size (size - 1) 0 false.

Definition extent_of (diskBytes fid size : Z) : res interval :=
  '(_, slot, count) ← AddrForFID diskBytes fid size;
  Ok (mkInterval slot (u64 (slot + count - 1))).

Section replay.
Context (diskBytes : Z).

(** The loop body of [replayIndex]. *)
Definition replay_entry (st : rstate) (e : IndexEntry) : res rstate :=
  match rs_pendingPacked st with
  | Some _ =>
      if negb (JumpCode e =? 0) || (Size e =? 0)
      then Err (EMsg "invalid packed table entry following anchor") else
      iv ← extent_of diskBytes (FID e) (Size e);
      Ok (mkRstate (<[FID e := plain_ref (FID e) (Size e)]> (rs_refs st)) (rs_packed st)
            (<[FID e := iv]> (rs_extents st)) (rs_alias st) None (rs_tables st ++ [FID e]))
  | None =>
      if IsPackedAnchor e then
        if bool_decide (is_Some (rs_alias st)) || (FID e =? 0)
        then Err (EMsg "invalid packed anchor indicator")
        else Ok (mkRstate (rs_refs st) (rs_packed st) (rs_extents st) (rs_alias st) (Some e)
                   (rs_tables st))
      else if IsJumpIndicator e then
        if bool_decide (is_Some (rs_alias st)) || (FID e =? 0)
        then Err (EMsg "invalid alias indicator")
        else if bool_decide (is_Some (rs_refs st !! FID e))
        then Err (EMsg "duplicate alias fid")
        else Ok (mkRstate (rs_refs st) (rs_packed st) (rs_extents st) (Some e) None (rs_tables st))
      else if IsTombstone e then
        Ok (mkRstate (delete (FID e) (rs_refs st)) (delete (FID e) (rs_packed st))
              (delete (FID e) (rs_extents st)) (rs_alias st) None (rs_tables st))
      else if negb (JumpCode e =? 0) || (Size e =? 0) || (IndexPackedSentinel <=? Size e)
      then Err (EMsg "unsupported or invalid index entry")
      else if bool_decide (is_Some (rs_refs st !! FID e)) then Err (EMsg "duplicate fid") else
      iv ← extent_of diskBytes (FID e) (Size e);
      let refs := <[FID e := plain_ref (FID e) (Size e)]> (rs_refs st) in
      let extents := <[FID e := iv]> (rs_extents st) in
      match rs_alias st with
      | None => Ok (mkRstate refs (rs_packed st) extents None None (rs_tables st))
      | Some a =>
          if (FID a =? FID e) || (Size e <? 2) then Err (EMsg "invalid alias target")
          else Ok (mkRstate (<[FID a := alias_ref (FID e) (Size e)]> refs) (rs_packed st) extents
                     None None (rs_tables st))
      end
  end.

(** The loop over the decoded entries of one table, [s.confirmed] and [s.packed] in
    [loadPackedTablesLocked] and the two maps of [finish]. *)
Definition add_packed (header : packedTableHeader) (tableFID tableSize : Z)
    (maps : gmap Z objectRef * gmap Z packedRecord) (entries : list packedTableEntry) :
    gmap Z objectRef * gmap Z packedRecord :=
  foldl (λ '(refs, packed) entry,
    (<[e_fid entry := mkRef (h_containerFID header) (h_containerSize header)
                        (e_size entry) (e_offset entry) true]> refs,
     <[e_fid entry := mkPackedRecord (h_containerFID header) (h_containerSize header)
                        (e_offset entry) (e_size entry) tableFID tableSize]> packed))
    maps entries.

(** [make([]byte, n)] followed by [ReadAt]. *)
Definition read_blob (addr n : Z) : M file (list byte) :=
  if maxAlloc <? n then mfail (EPanic "makeslice: len out of range") else
  λ f, let '((b, err), f') := ReadAt (int64 addr) n f in
       match err with
       | Some e => (Err (EWrap "read packed table" e), f')
       | None => (Ok (buf_list b), f')
       end.

(** The first loop of [finish]. *)
Fixpoint load_tables (tables : list Z) (maps : gmap Z objectRef * gmap Z packedRecord) :
    M file (gmap Z objectRef * gmap Z packedRecord) :=
  match tables with
  | [] => mret maps
  | t :: tables =>
      match maps.1 !! t with
      | None => load_tables tables maps
      | Some tableRef =>
          '(addr, _, _) ← mlift (AddrForFID diskBytes (r_fid tableRef) (storedSize tableRef));
          blob ← read_blob addr (r_size tableRef);
          '(header, entries) ← mlift (wrap_err "decode packed table" (decodePackedTable blob));
          load_tables tables (add_packed header t (r_size tableRef) maps entries)
      end
  end.

(** [sort.Slice] by start; the map is iterated in the order of [map_to_list], and by
    [sort_extents_unique] no other order gives another answer. *)
Definition start_le (a b : interval) : Prop := start a ≤ start b.
#[global] Instance start_le_dec a b : Decision (start_le a b) := Z.le_dec _ _.

Definition sort_extents (l : list interval) : list interval := merge_sort start_le l.

(** The test of neighbours after the sort. *)
Fixpoint neighbours_overlap (l : list interval) : bool :=
  match l with
  | a :: ((b :: _) as l') => overlaps a b || neighbours_overlap l'
  | _ => false
  end.

Definition replayed : Type := gmap Z objectRef * gmap Z packedRecord * list interval * Z.

Definition finish (st : rstate) (end_ : Z) : M file replayed :=
  if bool_decide (is_Some (rs_alias st)) then mfail (EMsg "incomplete alias pair at index tail")
  else if bool_decide (is_Some (rs_pendingPacked st))
  then mfail (EMsg "incomplete packed anchor pair at index tail") else
  '(refs, packed) ← load_tables (rs_tables st) (rs_refs st, rs_packed st);
  let extents := sort_extents (map_to_list (rs_extents st)).*2 in
  if neighbours_overlap extents then mfail (EMsg "overlapping confirmed extents")
  else mret (refs, packed, extents, end_).

Definition replayIndex : M file replayed :=
  '(stop, st) ← scan_stream replay_entry true false rstate0;
  finish st (default GridStart stop).
End replay.

(** ** Extents after the sort *)
#[export] Instance start_le_trans : Transitive start_le.
Proof. intros a b c. unfold start_le. lia. Qed.
#[export] Instance start_le_total : Total start_le.
Proof. intros a b. unfold start_le. lia. Qed.

Lemma sort_extents_perm l : sort_extents l ≡ₚ l.
Proof. apply merge_sort_Permutation. Qed.

(** On a sorted list the test of neighbours decides whether all extents are disjoint. *)
Lemma neighbours_disjoint l :
  StronglySorted start_le l → Forall interval_ok l →
  neighbours_overlap l = false ↔ disjoint_all l.
Proof.
  induction l as [|a l IH]; [done|]. intros Hs Hok. inversion Hok; subst.
  apply StronglySorted_inv in Hs as [Hs Ha]. destruct l as [|b l]; [by repeat split|].
  cbn [neighbours_overlap]. rewrite orb_false_iff, IH by done.
  cbn [disjoint_all]. rewrite Forall_cons. split; [|tauto].
  intros (Hab & Hb & Hl). repeat split; try done.
  apply Forall_cons in H2 as [Hbok _]. apply Forall_cons in Ha as [Ha0 _].
  apply StronglySorted_inv in Hs as [_ Hb'].
  apply Forall_forall. intros c Hc. rewrite Forall_forall in Hb'. apply Hb' in Hc.
  rewrite overlaps_false in *. unfold start_le, interval_ok in *. lia.
Qed.

Lemma sort_extents_check l :
  Forall interval_ok l → neighbours_overlap (sort_extents l) = false ↔ disjoint_all l.
Proof.
  intros Hl. rewrite neighbours_disjoint, sort_extents_perm; [done| |by rewrite sort_extents_perm].
  apply StronglySorted_merge_sort; apply _.
Qed.

(** The order in which Go iterates over the map does not matter. *)
Lemma sort_extents_unique l1 l2 :
  Forall interval_ok l1 → disjoint_all l1 → l1 ≡ₚ l2 → sort_extents l1 = sort_extents l2.
Proof.
  intros Hok Hd Hp. apply Sorted_unique_strong with start_le; try apply _.
  - intros a b Ha Hb. rewrite sort_extents_perm in Ha, Hb. rewrite <- Hp in Hb.
    intros. destruct (disjoint_all_elem l1 a b) as [|Hf]; try done.
    rewrite Forall_forall in Hok. pose proof (Hok _ Ha). pose proof (Hok _ Hb).
    rewrite overlaps_false in Hf. unfold start_le, interval_ok in *. lia.
  - apply Sorted_merge_sort; apply _.
  - apply Sorted_merge_sort; apply _.
  - by rewrite !sort_extents_perm.
Qed.

(** ** Every image has an index *)
Lemma index_log_exists g : ∃ es, index_log g es.
Proof.
  assert (H : ∀ n : nat, Z.of_nat n ≤ index_capacity →
    (∃ es, index_log g es) ∨ ∃ es, length es = n ∧ ∀ k e, es !! k = Some e →
      entry_at g (IndexStart + 16 * Z.of_nat k) = e ∧ e ≠ zero_entry).
  { induction n as [|n IH]; intros Hn; [right; by exists []|].
    destruct IH as [|(es & Hl & Hes)]; [lia|by left|].
    destruct (decide (entry_at g (IndexStart + 16 * Z.of_nat n) = zero_entry)) as [Hz|Hnz].
    - left. exists es. constructor; [lia|done|by rewrite Hl].
    - right. exists (es ++ [entry_at g (IndexStart + 16 * Z.of_nat n)]).
      split; [rewrite length_app; cbn; lia|]. intros k e Hk.
      apply lookup_app_Some in Hk as [Hk|[Hge Hk]]; [by apply Hes|].
      apply list_lookup_singleton_Some in Hk as [Hk <-].
      replace k with n by lia. done. }
  destruct (H (Z.to_nat index_capacity)) as [|(es & Hl & Hes)]; [|done|].
  - unfold index_capacity. lia.
  - exists es. constructor; [unfold index_capacity in *; lia|done|unfold index_capacity in *; lia].
Qed.

Lemma log_end_full es : Z.of_nat (length es) = index_capacity → log_end es = GridStart.
Proof. unfold log_end. intros ->. reflexivity. Qed.

(** ** The replay as a fold *)
Lemma replay_fold d f es :
  f_faults f = [] → GridStart ≤ f_size f → index_log (f_data f) es →
  replayIndex d f =
    match foldM (replay_entry d) rstate0 es with
    | Ok st => finish d st (log_end es) f
    | Err e => (Err e, f)
    end.
Proof.
  intros Hf Hs Hlog. unfold replayIndex. unfold mbind at 1, M_bind.
  rewrite (scan_stream_log _ _ _ _ _ es) by done.
  destruct (foldM _ rstate0 es) as [st|]; cbn [mbind res_bind]; [|done].
  destruct (Z.ltb_spec (Z.of_nat (length es)) index_capacity); [done|].
  cbn [default]. rewrite log_end_full; [done|].
  pose proof (log_capacity _ _ Hlog). lia.
Qed.

(** ** What a successful replay establishes *)
(** The extent of a registered size, on an addressable disk. *)
Lemma extent_of_Ok d fid size iv :
  disk_ok d → 0 ≤ fid → 0 ≤ size < 2 ^ 57 → extent_of d fid size = Ok iv →
  0 < size ∧ interval_ok iv ∧ 0 ≤ start iv ∧ end_ iv < disk_slots d ∧
  size ≤ (end_ iv - start iv + 1) * SlotSize < size + SlotSize ∧
  AddrForFID d fid size =
    Ok (GridStart + start iv * SlotSize, start iv, end_ iv - start iv + 1).
Proof.
  intros Hd Hf Hs H. unfold extent_of in H.
  apply res_bind_Ok in H as ([[addr i] k] & HA & [= <-]).
  pose proof (disk_slots_range d Hd).
  pose proof (AddrForFID_Ok d fid size addr i k Hd Hf ltac:(lia) ltac:(llia) HA)
    as (-> & Hi & Hk & Hik & Hsz & Hsz' & -> & Hend).
  unfold interval_ok. cbn [start end_]. u64_simpl.
  replace (i + slots_for size - 1 - i + 1) with (slots_for size) by lia.
  repeat split; try lia. done.
Qed.

(** The invariant of the loop: references and extents belong together. *)
Record rstate_ok (d : Z) (st : rstate) : Prop := {
  rs_ref_ok : ∀ fid ref, rs_refs st !! fid = Some ref →
    is_u64 fid ∧ is_u64 (r_fid ref) ∧ r_packed ref = false ∧ r_offset ref = 0 ∧
    0 < r_size ref ≤ storedSize ref ∧ storedSize ref < 2 ^ 56 ∧
    (r_fid ref = fid →
       ref = plain_ref fid (storedSize ref) ∧
       ∃ iv, rs_extents st !! fid = Some iv ∧ extent_of d fid (storedSize ref) = Ok iv);
  rs_ext_ok : ∀ fid iv, rs_extents st !! fid = Some iv →
    is_u64 fid ∧ ∃ size, 0 ≤ size < 2 ^ 56 ∧ extent_of d fid size = Ok iv;
  rs_alias_ok : ∀ a, rs_alias st = Some a → entry_ok a;
  rs_packed_none : rs_packed st = ∅;
  rs_ext_dom : ∀ fid, rs_refs st !! fid = None → rs_extents st !! fid = None
}.

Lemma rstate0_ok d : rstate_ok d rstate0.
Proof. constructor; cbn; intros *; rewrite ?lookup_empty; done. Qed.

Lemma insert_plain_ok d st fid size iv al pp ts :
  rstate_ok d st → is_u64 fid → 0 < size < 2 ^ 56 → extent_of d fid size = Ok iv →
  (∀ a, al = Some a → entry_ok a) →
  rstate_ok d (mkRstate (<[fid := plain_ref fid size]> (rs_refs st)) (rs_packed st)
                 (<[fid := iv]> (rs_extents st)) al pp ts).
Proof.
  intros Hst Hfid Hsize Hext Hal. constructor; cbn [rs_refs rs_extents rs_alias rs_packed].
  - intros fid' ref. destruct (decide (fid' = fid)) as [->|Hne].
    + rewrite !lookup_insert_eq. intros [= <-]. unfold is_u64 in *.
      cbn [r_fid r_packed r_offset r_size storedSize plain_ref].
      repeat (split; [first [done|lia]|]). eauto.
    + rewrite !lookup_insert_ne by done. apply (rs_ref_ok _ _ Hst).
  - intros fid' iv'. destruct (decide (fid' = fid)) as [->|Hne].
    + rewrite lookup_insert_eq. intros [= <-]. split; [done|]. exists size. split; [lia|done].
    + rewrite lookup_insert_ne by done. apply (rs_ext_ok _ _ Hst).
  - done.
  - apply (rs_packed_none _ _ Hst).
  - intros fid' [Hn Hne]%lookup_insert_None. rewrite lookup_insert_ne by done.
    by apply (rs_ext_dom _ _ Hst).
Qed.

Lemma replay_entry_ok d st e st' :
  entry_ok e → rstate_ok d st → replay_entry d st e = Ok st' → rstate_ok d st'.
Proof.
  intros He Hst H. pose proof He as (Hf & Hs & _). unfold replay_entry in H.
  pose proof (rs_alias_ok _ _ Hst) as Hal.
  destruct (rs_pendingPacked st) as [p|].
  { destruct (negb (JumpCode e =? 0) || (Size e =? 0)) eqn:E; [done|].
    apply res_bind_Ok in H as (iv & Hiv & [= <-]). apply insert_plain_ok; try done. lia. }
  destruct (IsPackedAnchor e).
  { destruct (_ || _); [done|]. injection H as <-. destruct Hst. by constructor. }
  destruct (IsJumpIndicator e).
  { destruct (bool_decide (is_Some (rs_alias st)) || _); [done|].
    destruct (bool_decide _); [done|]. injection H as <-. destruct Hst. constructor; try done.
    cbn. intros a [= <-]. done. }
  destruct (IsTombstone e).
  { injection H as <-. constructor; cbn [rs_refs rs_extents rs_alias rs_packed].
    - intros fid ref [Hne Hl]%lookup_delete_Some. rewrite lookup_delete_ne by done.
      by apply (rs_ref_ok _ _ Hst).
    - intros fid iv [Hne Hl]%lookup_delete_Some. by apply (rs_ext_ok _ _ Hst).
    - done.
    - rewrite (rs_packed_none _ _ Hst). apply delete_empty.
    - intros fid. rewrite !lookup_delete_None. pose proof (rs_ext_dom _ _ Hst fid). tauto. }
  destruct (negb (JumpCode e =? 0) || (Size e =? 0) || _) eqn:E; [done|].
  destruct (bool_decide _); [done|].
  apply res_bind_Ok in H as (iv & Hiv & H).
  pose proof (insert_plain_ok d st (FID e) (Size e) iv None None (rs_tables st) Hst Hf
    ltac:(lia) Hiv ltac:(done)) as Hnew.
  destruct (rs_alias st) as [a|]; [|by injection H as <-].
  destruct ((FID a =? FID e) || (Size e <? 2)) eqn:Ea; [done|]. injection H as <-.
  destruct Hnew as [Hr Hx Ha Hp Hn]. constructor; try done; cbn [rs_refs rs_extents] in *.
  2: { intros fid [? _]%lookup_insert_None. by apply Hn. }
  intros fid ref. destruct (decide (fid = FID a)) as [->|Hne].
  - rewrite lookup_insert_eq. intros [= <-]. destruct (Hal _ eq_refl) as (Haf & _).
    unfold is_u64 in *. cbn [r_fid r_packed r_offset r_size storedSize alias_ref].
    repeat (split; [first [done|lia]|]). lia.
  - rewrite lookup_insert_ne by done. apply Hr.
Qed.

Lemma index_log_entries_ok g es : index_log g es → Forall entry_ok es.
Proof.
  intros H. apply Forall_lookup. intros k e Hk. apply (log_entries _ _ H) in Hk as [<- _].
  apply entry_at_ok.
Qed.

Lemma replay_fold_ok d es st :
  Forall entry_ok es → foldM (replay_entry d) rstate0 es = Ok st → rstate_ok d st.
Proof.
  intros Hes. apply (foldM_invariant (rstate_ok d)); [apply rstate0_ok|].
  rewrite Forall_forall in Hes. intros. by eapply replay_entry_ok; [apply Hes| |].
Qed.

(** ** Loading packed tables *)

(** A loaded table only adds packed references. *)
Lemma add_packed_lookup hd t sz es maps fid ref :
  (add_packed hd t sz maps es).1 !! fid = Some ref →
  r_packed ref = true ∨ maps.1 !! fid = Some ref.
Proof.
  revert maps. induction es as [|e es IH]; intros [refs packed]; [by right|].
  cbn [add_packed foldl]. intros H. apply IH in H as [|H]; [by left|].
  cbn [fst] in *. destruct (decide (fid = e_fid e)) as [->|].
  - rewrite lookup_insert_eq in H. injection H as <-. by left.
  - rewrite lookup_insert_ne in H by done. by right.
Qed.

Lemma add_packed_dom hd t sz es maps fid :
  is_Some (maps.1 !! fid) → is_Some ((add_packed hd t sz maps es).1 !! fid).
Proof.
  revert maps. induction es as [|e es IH]; intros [refs packed]; [done|].
  cbn [add_packed foldl]. intros H. apply IH. cbn [fst] in *.
  destruct (decide (fid = e_fid e)) as [->|]; [by rewrite lookup_insert_eq|].
  by rewrite lookup_insert_ne.
Qed.

Lemma load_tables_cons d t ts maps f :
  load_tables d (t :: ts) maps f =
  match maps.1 !! t with
  | None => load_tables d ts maps f
  | Some tableRef =>
      ('(addr, _, _) ← mlift (AddrForFID d (r_fid tableRef) (storedSize tableRef));
       blob ← read_blob addr (r_size tableRef);
       '(header, entries) ← mlift (wrap_err "decode packed table" (decodePackedTable blob));
       load_tables d ts (add_packed header t (r_size tableRef) maps entries)) f
  end.
Proof. cbn. by destruct (maps.1 !! t). Qed.

(** One successful iteration on a table that is registered. *)
Lemma load_tables_step d t ts maps ref f out f' :
  maps.1 !! t = Some ref → load_tables d (t :: ts) maps f = (Ok out, f') →
  ∃ addr i k blob hd es f1,
    AddrForFID d (r_fid ref) (storedSize ref) = Ok (addr, i, k) ∧
    read_blob addr (r_size ref) f = (Ok blob, f1) ∧
    decodePackedTable blob = Ok (hd, es) ∧
    load_tables d ts (add_packed hd t (r_size ref) maps es) f1 = (Ok out, f').
Proof.
  intros Hl H. rewrite load_tables_cons, Hl in H.
  apply M_bind_Ok in H as ([[addr i] k] & f0 & H1 & H). injection H1 as H1 <-.
  apply M_bind_Ok in H as (blob & f1 & H2 & H).
  apply M_bind_Ok in H as ([hd es] & f2 & H3 & H). injection H3 as H3 <-.
  destruct (decodePackedTable blob) as [x|] eqn:E; [|done]. injection H3 as ->.
  by eauto 15.
Qed.

Lemma load_tables_direct d ts maps f out f' fid ref :
  load_tables d ts maps f = (Ok out, f') → out.1 !! fid = Some ref → r_packed ref = false →
  maps.1 !! fid = Some ref.
Proof.
  revert maps f. induction ts as [|t ts IH]; intros maps f H Ho Hp; [by injection H as <- _|].
  destruct (maps.1 !! t) as [tref|] eqn:E.
  - eapply load_tables_step in H as (addr & i & k & blob & hd & es & f1 & _ & _ & _ & H); [|done].
    apply IH in H; [|done..]. apply add_packed_lookup in H as [H|H]; [congruence|done].
  - rewrite load_tables_cons, E in H. eauto.
Qed.

Lemma load_tables_dom d ts maps f out f' fid :
  load_tables d ts maps f = (Ok out, f') → is_Some (maps.1 !! fid) → is_Some (out.1 !! fid).
Proof.
  revert maps f. induction ts as [|t ts IH]; intros maps f H Hs; [by injection H as <- _|].
  destruct (maps.1 !! t) as [tref|] eqn:E.
  - eapply load_tables_step in H as (addr & i & k & blob & hd & es & f1 & _ & _ & _ & H); [|done].
    apply IH in H; [done|]. by apply add_packed_dom.
  - rewrite load_tables_cons, E in H. eauto.
Qed.

(** Reading a blob on a device without faults. *)
Lemma read_blob_ok addr n f :
  f_faults f = [] → 0 ≤ addr → 0 ≤ n ≤ maxAlloc → addr + n ≤ f_size f → f_size f < 2 ^ 63 →
  read_blob addr n f = (Ok (bytes_at (f_data f) addr (Z.to_nat n)), f).
Proof.
  intros Hf Ha Hn Hle Hs. unfold read_blob. rewrite (proj2 (Z.ltb_ge _ _)) by lia.
  rewrite int64_small by lia. rewrite ReadAt_ok by (done || lia). by rewrite buf_list_region.
Qed.

Lemma read_blob_file addr n f r f' :
  f_faults f = [] → read_blob addr n f = (r, f') → f' = f.
Proof.
  intros Hf H. unfold read_blob in H. destruct (maxAlloc <? n); [by injection H|].
  unfold ReadAt, next_fault in H. rewrite Hf in H. destruct (int64 addr <? 0); [by injection H|].
  destruct (_ <? n); by injection H.
Qed.

Lemma load_tables_file d ts maps f r f' :
  f_faults f = [] → load_tables d ts maps f = (r, f') → f' = f.
Proof.
  intros Hf. revert maps. induction ts as [|t ts IH]; intros maps H; [by injection H|].
  rewrite load_tables_cons in H. destruct (maps.1 !! t) as [tref|]; [|eauto].
  unfold mbind, M_bind, mlift in H.
  destruct (AddrForFID d _ _) as [[[addr i] k]|]; [|by injection H].
  destruct (read_blob addr _ f) as [rb f1] eqn:E. apply read_blob_file in E as ->; [|done].
  destruct rb as [blob|]; [|by injection H].
  destruct (decodePackedTable blob) as [[hd es]|]; cbn [wrap_err] in H; [eauto|by injection H].
Qed.

(** ** The result of a replay *)
Definition in_grid (d : Z) (iv : interval) : Prop :=
  interval_ok iv ∧ 0 ≤ start iv ∧ end_ iv < disk_slots d.

Lemma extents_in_grid d st :
  disk_ok d → rstate_ok d st → Forall (in_grid d) (map_to_list (rs_extents st)).*2.
Proof.
  intros Hd Hst. apply Forall_forall. intros iv Hiv. apply list_elem_of_fmap in Hiv as ([k x] & -> & Hx).
  apply elem_of_map_to_list in Hx. apply (rs_ext_ok _ _ Hst) in Hx as ((? & _) & size & Hs & Hx).
  apply extent_of_Ok in Hx; [|done|done|lia]. unfold in_grid. cbn. tauto.
Qed.

Lemma in_grid_ok d l : Forall (in_grid d) l → Forall interval_ok l.
Proof. intros H. eapply Forall_impl; [exact H|]. by intros ? []. Qed.

(** [finish], when it succeeds. *)
Lemma finish_Ok d st e f refs packed exts e' f' :
  disk_ok d → rstate_ok d st → f_faults f = [] →
  finish d st e f = (Ok (refs, packed, exts, e'), f') ↔
  rs_alias st = None ∧ rs_pendingPacked st = None ∧
  load_tables d (rs_tables st) (rs_refs st, rs_packed st) f = (Ok (refs, packed), f) ∧
  exts = sort_extents (map_to_list (rs_extents st)).*2 ∧
  disjoint_all (map_to_list (rs_extents st)).*2 ∧ e' = e ∧ f' = f.
Proof.
  intros Hd Hst Hf. unfold finish.
  rewrite <- sort_extents_check by (eapply in_grid_ok, extents_in_grid; done).
  destruct (rs_alias st) as [a|]; [by split; [|intros (? & _)]|].
  destruct (rs_pendingPacked st) as [p|]; [by split; [|intros (_ & ? & _)]|].
  rewrite !bool_decide_eq_false_2 by (by intros []).
  unfold mbind, M_bind. destruct (load_tables _ _ _ f) as [r f1] eqn:E.
  pose proof (load_tables_file _ _ _ _ _ _ Hf E) as ->.
  destruct r as [[refs' packed']|]; [|naive_solver].
  destruct (neighbours_overlap _).
  - split; [done|]. by intros (_ & _ & _ & _ & ? & _).
  - split.
    + by intros [= -> -> <- <- <-].
    + by intros (_ & _ & [= -> ->] & -> & _ & -> & ->).
Qed.

(** C33: when [replayIndex] accepts the index of a device, the extents it returns are sorted by
    start, lie inside the data grid and do not share a slot; every object that is neither packed
    nor an alias owns one of them, of exactly its registered size; every unpacked reference has a
    size between one and its stored size; and the index end is the entry-aligned position of the
    terminator. *)
Theorem replay_sound d f refs packed exts e f' :
  disk_ok d → f_faults f = [] → GridStart ≤ f_size f →
  replayIndex d f = (Ok (refs, packed, exts, e), f') →
  StronglySorted start_le exts ∧ disjoint_all exts ∧ Forall (in_grid d) exts ∧
  (∀ fid ref, refs !! fid = Some ref → r_packed ref = false →
     0 < r_size ref ≤ storedSize ref ∧
     (r_fid ref = fid → r_size ref = storedSize ref ∧
        ∃ iv, iv ∈ exts ∧ extent_of d fid (storedSize ref) = Ok iv)) ∧
  ∃ es, index_log (f_data f) es ∧ e = log_end es.
Proof.
  intros Hd Hf Hs H. destruct (index_log_exists (f_data f)) as [es Hlog].
  rewrite (replay_fold d f es) in H by done.
  destruct (foldM (replay_entry d) rstate0 es) as [st|] eqn:Efold; [|done].
  apply replay_fold_ok in Efold as Hst; [|by eapply index_log_entries_ok].
  apply finish_Ok in H as (_ & _ & Hload & -> & Hdis & -> & ->); [|done..].
  pose proof (extents_in_grid d st Hd Hst) as Hgrid.
  split; [apply StronglySorted_merge_sort; apply _|].
  rewrite sort_extents_perm. split; [done|].
  split; [done|]. split; [|eauto].
  intros fid ref Hl Hp. pose proof (load_tables_direct _ _ _ _ _ _ fid ref Hload Hl Hp) as Hl'.
  apply (rs_ref_ok _ _ Hst) in Hl' as (_ & _ & _ & _ & Hsz & _ & Hext).
  split; [done|]. intros Hfid. destruct (Hext Hfid) as (-> & iv & Hiv & He).
  split; [done|]. exists iv. split; [|done]. rewrite sort_extents_perm.
  apply list_elem_of_fmap. exists (fid, iv). split; [done|]. by apply elem_of_map_to_list.
Qed.

(** A disk with two objects and an alias of the second. *)
Definition sample_disk : Z := GridStart + 100 * SlotSize.
Definition sample_log : list IndexEntry :=
  [mkEntry 5 10 0; mkEntry 6 IndexJumpSentinel 1; mkEntry 7 5000 0].
Definition sample_file : file := plain_file (image_of sample_log) sample_disk.
Definition sample_refs : gmap Z objectRef :=
  <[6 := alias_ref 7 5000]> (<[7 := plain_ref 7 5000]> (<[5 := plain_ref 5 10]> ∅)).
Definition sample_exts : list interval := [mkInterval 5 5; mkInterval 7 8].

Lemma sample_log_ok :
  index_log (f_data sample_file) sample_log ∧
  tail_zero (f_data sample_file) (log_end sample_log).
Proof.
  apply image_of_log; [|unfold index_capacity; cbn; lia].
  repeat (constructor; [split; [unfold entry_ok, is_u64, IndexJumpSentinel; cbn; lia|done]|]).
  constructor.
Qed.

Lemma sample_replays :
  replayIndex sample_disk sample_file =
    (Ok (sample_refs, ∅, sample_exts, log_end sample_log), sample_file).
Proof.
  rewrite (replay_fold sample_disk sample_file sample_log);
    [reflexivity|done|done|apply sample_log_ok].
Qed.

Lemma replay_sound_witness :
  disjoint_all sample_exts ∧ Forall (in_grid sample_disk) sample_exts.
Proof.
  pose proof (replay_sound sample_disk sample_file sample_refs ∅ sample_exts (log_end sample_log)
    sample_file ltac:(unfold disk_ok, sample_disk; llia) eq_refl
    ltac:(done) sample_replays) as (_ & H1 & H2 & _).
  by split.
Defined.

(** ** Loading is local

    The result depends on the bytes of the tables alone, and references the tables do not mention
    pass through unchanged. *)
Lemma add_packed_registers hd t sz es maps e :
  e ∈ es → is_Some ((add_packed hd t sz maps es).1 !! e_fid e).
Proof.
  revert maps. induction es as [|e' es IH]; intros [refs packed] He; [by apply not_elem_of_nil in He|].
  apply elem_of_cons in He as [->|He]; cbn [add_packed foldl]; [|by apply IH].
  apply (add_packed_dom hd t sz es). cbn [fst]. by rewrite lookup_insert_eq.
Qed.

Lemma add_packed_extra hd t sz es refs packed (extra : gmap Z objectRef) :
  (∀ e, e ∈ es → extra !! e_fid e = None) →
  add_packed hd t sz (extra ∪ refs, packed) es =
    (extra ∪ (add_packed hd t sz (refs, packed) es).1,
     (add_packed hd t sz (refs, packed) es).2).
Proof.
  revert refs packed. induction es as [|e es IH]; intros refs packed He; [done|].
  cbn [add_packed foldl]. rewrite insert_union_r by (apply He; left).
  apply IH. intros. apply He. by right.
Qed.

Lemma int64_nonneg z : is_u64 z → 0 ≤ int64 z → int64 z = z.
Proof.
  unfold is_u64, int64. intros Hz H. destruct (Z.lt_ge_cases z (2 ^ 63)).
  - rewrite Z.mod_small; lia.
  - exfalso. rewrite <- (Z.mod_add _ (-1)), Z.mod_small in H; lia.
Qed.

Lemma AddrForFID_u64 d fid n addr i k : AddrForFID d fid n = Ok (addr, i, k) → is_u64 addr.
Proof.
  unfold AddrForFID. intros H. repeat (case_match; try done). injection H as <- _ _.
  apply u64_range.
Qed.

Lemma read_blob_frame addr n f f2 blob :
  is_u64 addr → f_faults f = [] → f_faults f2 = [] → f_size f2 = f_size f →
  (∀ a, addr ≤ a < addr + n → f_data f2 a = f_data f a) →
  read_blob addr n f = (Ok blob, f) → read_blob addr n f2 = (Ok blob, f2).
Proof.
  intros Ha Hf Hf2 Hs Hg H. unfold read_blob in *. destruct (maxAlloc <? n); [done|].
  unfold ReadAt, next_fault in *. rewrite Hf in H. rewrite Hf2, Hs.
  destruct (Z.ltb_spec (int64 addr) 0) as [|Hpos]; [done|].
  rewrite (int64_nonneg _ Ha Hpos) in *.
  set (av := clamp 0 n (f_size f - addr)) in *.
  destruct (av <? n) eqn:E; [done|]. injection H as H. rewrite <- H. do 2 f_equal.
  rewrite !buf_list_region. apply bytes_at_ext. intros a Hav. apply Hg.
  unfold av, clamp in *. lia.
Qed.

Definition tables_local (d : Z) (ts : list Z) (refs : gmap Z objectRef) (g g2 : Z → byte) : Prop :=
  ∀ t ref, t ∈ ts → refs !! t = Some ref → r_packed ref = false ∧
    ∀ addr i k a, AddrForFID d (r_fid ref) (storedSize ref) = Ok (addr, i, k) →
      addr ≤ a < addr + r_size ref → g2 a = g a.

Lemma load_tables_frame d ts maps f f2 out extra :
  f_faults f = [] → f_faults f2 = [] → f_size f2 = f_size f →
  load_tables d ts maps f = (Ok out, f) →
  tables_local d ts out.1 (f_data f) (f_data f2) →
  (∀ fid, is_Some (extra !! fid) → out.1 !! fid = None ∧ fid ∉ ts) →
  load_tables d ts (extra ∪ maps.1, maps.2) f2 = (Ok (extra ∪ out.1, out.2), f2).
Proof.
  intros Hf Hf2 Hs. revert maps. induction ts as [|t ts IH]; intros maps H Hloc Hex.
  { by injection H as <-. }
  assert (Hloc' : tables_local d ts out.1 (f_data f) (f_data f2)).
  { intros t' ref Ht. apply Hloc. by right. }
  assert (Hex' : ∀ fid, is_Some (extra !! fid) → out.1 !! fid = None ∧ fid ∉ ts).
  { intros fid [H1 H2]%Hex. by apply not_elem_of_cons in H2 as []. }
  assert (Ht : extra !! t = None).
  { apply eq_None_not_Some. intros [_ H2]%Hex. by apply not_elem_of_cons in H2 as []. }
  rewrite load_tables_cons in H |- *. cbn [fst]. rewrite lookup_union_r by done.
  destruct (maps.1 !! t) as [ref|] eqn:E; [|by apply IH].
  unfold mbind, M_bind, mlift in H |- *.
  destruct (AddrForFID d (r_fid ref) (storedSize ref)) as [[[addr i] k]|] eqn:EA; [|done].
  destruct (read_blob addr (r_size ref) f) as [rb f1] eqn:ER.
  pose proof (read_blob_file _ _ _ _ _ Hf ER) as ->.
  destruct rb as [blob|]; [|done].
  destruct (decodePackedTable blob) as [[hd es]|] eqn:ED; cbn [wrap_err] in H; [|done].
  assert (Hreg : ∀ fid, is_Some ((add_packed hd t (r_size ref) maps es).1 !! fid) →
    is_Some (out.1 !! fid)) by (intros fid; by apply (load_tables_dom _ _ _ _ _ _ _ H)).
  assert (Hout : out.1 !! t = Some ref).
  { destruct (Hreg t) as [ref' Href']; [by apply add_packed_dom; rewrite E|].
    destruct (Hloc t ref') as [Hp _]; [by left|done|].
    pose proof (load_tables_direct _ _ _ _ _ _ _ _ H Href' Hp) as Hm.
    apply add_packed_lookup in Hm as [|Hm]; congruence. }
  rewrite (read_blob_frame addr (r_size ref) f f2 blob); try done.
  - rewrite ED. cbn [wrap_err]. destruct maps as [refs packed]. cbn [fst snd].
    rewrite add_packed_extra.
    + specialize (IH (add_packed hd t (r_size ref) (refs, packed) es) H Hloc' Hex').
      exact IH.
    + intros e He. apply eq_None_not_Some. intros [Hn _]%Hex.
      destruct (Hreg (e_fid e)) as [? Hr]; [by apply add_packed_registers|congruence].
  - by eapply AddrForFID_u64.
  - intros a Ha. destruct (Hloc t ref) as [_ Hg]; [by left|done|]. by eapply Hg.
Qed.
