(* ===== verification/DirectIO.v ===== *)
(** * Writing a payload (internal/daemon/directio.go, writeExact and writeZeros of state.go)

    The two ways [WriteFromContext] stores a stream of a declared size: through the page cache
    ([writeExact] then [writeZeros]) and through the O_DIRECT file in slot-aligned chunks
    ([writeStreamDirect]).  On a device without faults both accept exactly the streams of the
    declared length and leave the same bytes; with faults neither touches anything outside the
    extent. *)

From S2P Require Import Prelude Machine Loop Device Layout.
From Stdlib Require Import Strings.Byte.

(** ** Readers

    An [io.Reader] delivers its bytes and then [st_err] ([io.EOF] for a stream that ends well). *)
Record stream := Stream { st_data : buf; st_pos : Z; st_err : error }.

Definition st_remaining (r : stream) : Z := blen (st_data r) - st_pos r.

(** [io.ReadFull] into a buffer of [want] bytes. *)
Definition ReadFull (want : Z) (r : stream) : (buf * option error) * stream :=
  let avail := clamp 0 want (st_remaining r) in
  ((buf_slice (st_data r) (st_pos r) (st_pos r + avail),
    if avail =? want then None
    else Some (if bool_decide (st_err r = EEOF) then if avail =? 0 then EEOF else EUnexpectedEOF
               else st_err r)),
   Stream (st_data r) (st_pos r + avail) (st_err r)).

Definition is_eof (e : error) : bool := bool_decide (e = EEOF) || bool_decide (e = EUnexpectedEOF).

(** The check both paths make after the last declared byte: one more read must give [io.EOF]. *)
Definition check_end : M (file * stream) unit := λ '(f, r),
  let '((extra, err), r) := ReadFull 1 r in
  if 0 <? blen extra then (Err (EMsg "stream carried more than declared"), (f, r)) else
  match err with
  | Some EEOF => (Ok tt, (f, r))
  | Some e => (Err (EWrap "finish stream" e), (f, r))
  | None => (Err (EWrap "finish stream" (EMsg "<nil>")), (f, r))
  end.

(** One [WriteAt] whose short count is an error of its own. *)
Definition write_chunk (b : buf) (addr : Z) (f : file) : res unit * file :=
  let '((count, werr), f) := WriteAt b (int64 (u64 addr)) f in
  match werr with
  | Some e => (Err e, f)
  | None => if count =? blen b then (Ok tt, f) else (Err EShortWrite, f)
  end.

Definition writeChunkSize : Z := 4194304.

Definition writeExact (addr total : Z) : M (file * stream) unit :=
  mloop (Z.to_pos (total + 1)) (λ written '(f, r),
    if written <? total then
      let remaining := total - written in
      let want := if remaining <? writeChunkSize then remaining else writeChunkSize in
      let '((b, err), r) := ReadFull want r in
      let '(werr, f) := if 0 <? blen b then write_chunk b (addr + written) f else (Ok tt, f) in
      match werr with
      | Err e => (Err e, (f, r))
      | Ok _ =>
          match err with
          | Some e => (Err (if is_eof e then EMsg "stream ended early" else e), (f, r))
          | None => (Ok (inl (written + blen b)), (f, r))
          end
      end
    else (Ok (inr tt), (f, r))) 0;;
  check_end.

Definition writeZeros (addr length : Z) : M file unit :=
  mloop (Z.to_pos (length + 1)) (λ written f,
    if written <? length then
      let remaining := length - written in
      let want := if remaining <? writeChunkSize then remaining else writeChunkSize in
      let '(werr, f) := write_chunk (zeros want) (addr + written) f in
      match werr with
      | Err e => (Err e, f)
      | Ok _ => (Ok (inl (written + want)), f)
      end
    else (Ok (inr tt), f)) 0.

(** [writeAllAt]: the slice left to write and its offset. *)
Definition writeAllAt (b : buf) (off : Z) : M file unit :=
  mloop (Z.to_pos (blen b + 1)) (λ '(b, off) f,
    if 0 <? blen b then
      let '((n, err), f) := WriteAt b off f in
      match err with
      | Some e => (Err e, f)
      | None => if n =? 0 then (Err EUnexpectedEOF, f)
                else (Ok (inl (buf_slice b n (blen b), off + n)), f)
      end
    else (Ok (inr tt), f)) (b, off).

Definition directChunkBytes : Z := 1048576.

(** A chunk of the aligned buffer: [b] read into its front, the rest cleared. *)
Definition padded (b : buf) (chunkLen : Z) : buf :=
  Buf chunkLen (λ i, if i <? blen b then bat b i else x00).

(** The part of the loop of [writeStreamDirect] that fills the chunk from the stream. *)
Definition read_chunk (realSize written chunkLen : Z) : M (file * stream) buf := λ '(f, r),
  if written <? realSize then
    let want := if chunkLen <? realSize - written then chunkLen else realSize - written in
    let '((b, err), r) := ReadFull want r in
    if negb (blen b =? want) then
      (Err (match err with
            | Some e => if is_eof e then EMsg "stream ended early" else e
            | None => EMsg "<nil>"
            end), (f, r))
    else if written + want =? realSize
    then let '(c, fr) := check_end (f, r) in
         (match c with Ok _ => Ok b | Err e => Err e end, fr)
    else (Ok b, (f, r))
  else (Ok (zeros 0), (f, r)).

Definition writeStreamDirect (addr realSize total : Z) : M (file * stream) unit :=
  if negb (total `mod` SlotSize =? 0) then mfail (EMsg "direct write size not aligned") else
  if negb (directChunkBytes `mod` SlotSize =? 0) then mfail (EMsg "direct chunk not aligned") else
  mloop (Z.to_pos (total + 1)) (λ written s,
    if written <? total then
      let remaining := total - written in
      let chunkLen := if remaining <? directChunkBytes then remaining else directChunkBytes in
      match read_chunk realSize written chunkLen s with
      | (Err e, s) => (Err e, s)
      | (Ok b, (f, r)) =>
          let '(w, f) := writeAllAt (padded b chunkLen) (int64 (u64 (addr + written))) f in
          match w with
          | Err e => (Err e, (f, r))
          | Ok _ => (Ok (inl (written + chunkLen)), (f, r))
          end
      end
    else (Ok (inr tt), s)) 0.

(** ** What a write leaves behind *)

(** The writes of [f] that are not synced are those of [f0] or lie inside [len] bytes from [addr]. *)
Definition dirty_in (f0 : file) (addr len : Z) (f : file) : Prop :=
  ∀ off b, (off, b) ∈ f_dirty f → (off, b) ∈ f_dirty f0 ∨ addr ≤ off ∧ off + blen b ≤ addr + len.

(** [f] is [f0] with [content] written over [w] bytes from [addr]. *)
Record filled (f0 : file) (content : Z → byte) (addr w : Z) (f : file) : Prop := {
  filled_data : ∀ a, f_data f a =
    if (addr <=? a) && (a <? addr + w) then content (a - addr) else f_data f0 a;
  filled_size : f_size f = f_size f0;
  filled_grow : f_grow f = f_grow f0;
  filled_faults : f_faults f0 = [] → f_faults f = [];
  filled_dirty : dirty_in f0 addr w f
}.

(** [f] is [f0] changed at most inside [len] bytes from [addr]. *)
Record touched (f0 : file) (addr len : Z) (f : file) : Prop := {
  touched_data : ∀ a, a < addr ∨ addr + len ≤ a → f_data f a = f_data f0 a;
  touched_size : f_size f = f_size f0;
  touched_grow : f_grow f = f_grow f0;
  touched_faults : f_faults f0 = [] → f_faults f = [];
  touched_dirty : dirty_in f0 addr len f
}.

Lemma dirty_in_refl f addr len : dirty_in f addr len f.
Proof. by left. Qed.

Lemma dirty_in_mono f0 addr len addr' len' f :
  addr' ≤ addr → addr + len ≤ addr' + len' → dirty_in f0 addr len f → dirty_in f0 addr' len' f.
Proof. intros Ha Hl H off b [|[? ?]]%H; [by left|right; lia]. Qed.

Lemma dirty_in_trans f0 f1 f2 addr len :
  dirty_in f0 addr len f1 → dirty_in f1 addr len f2 → dirty_in f0 addr len f2.
Proof. intros H1 H2 off b [H|H]%H2; [by apply H1|by right]. Qed.

Lemma dirty_in_synced f0 addr len f : f_dirty f = [] → dirty_in f0 addr len f.
Proof. intros Hf off b H. rewrite Hf in H. by apply not_elem_of_nil in H. Qed.

Lemma dirty_in_same f0 addr len f f' : f_dirty f' = f_dirty f → dirty_in f0 addr len f → dirty_in f0 addr len f'.
Proof. intros E H off b. rewrite E. apply H. Qed.

Lemma WriteAt_dirty b off f n err f' :
  0 ≤ blen b → WriteAt b off f = ((n, err), f') → dirty_in f off (blen b) f'.
Proof.
  intros Hb H. unfold WriteAt, next_fault in H. destruct (Z.ltb_spec off 0); [injection H as <- <- <-; apply dirty_in_refl|].
  set (avail := if f_grow f then blen b else clamp 0 (blen b) (f_size f - off)) in *.
  assert (0 ≤ avail ≤ blen b) by (unfold avail, clamp; destruct (f_grow f); lia).
  assert (Hin : ∀ k fl, 0 ≤ k ≤ blen b → dirty_in f off (blen b)
    (f_write off (buf_slice b 0 k) (File (f_base f) (f_dirty f) (f_size f) (f_grow f) fl))).
  { intros k fl Hk off' b' [H'|[= -> ->]%list_elem_of_singleton]%elem_of_app; [by left|right]. cbn [blen buf_slice]. lia. }
  destruct (f_faults f) as [|[|k] l] eqn:Ef; injection H as <- <- <-; try (apply (Hin _ l); unfold clamp; lia).
  destruct f as [fb fd fs fg ff]. cbn in Ef. subst ff. by apply (Hin _ []).
Qed.

Lemma must_write_dirty b off f r f' : 0 ≤ blen b → must_write b off f = (r, f') → dirty_in f off (blen b) f'.
Proof.
  intros Hb. unfold must_write. destruct (WriteAt b off f) as [[n err] f1] eqn:E. apply WriteAt_dirty in E; [|done].
  destruct err; by intros [= _ <-].
Qed.

Lemma filled_0 f content addr : filled f content addr 0 f.
Proof. constructor; [|done..|apply dirty_in_refl]. intros a. destruct (_ && _) eqn:E; [lia|done]. Qed.

Lemma filled_touched f0 c addr w len f : w ≤ len → filled f0 c addr w f → touched f0 addr len f.
Proof.
  intros Hw [Hd ? ? ? Hdi]. constructor; [|done..|apply (dirty_in_mono _ addr w); [lia..|done]]. intros a Ha. rewrite Hd.
  destruct (_ && _) eqn:E; [lia|done].
Qed.

Lemma touched_mono f0 addr len len' f : len ≤ len' → touched f0 addr len f → touched f0 addr len' f.
Proof. intros Hl [Hd ? ? ? Hdi]. constructor; [|done..|apply (dirty_in_mono _ addr len); [lia..|done]]. intros a Ha. apply Hd. lia. Qed.

Lemma touched_refl f addr len : touched f addr len f.
Proof. constructor; [done..|apply dirty_in_refl]. Qed.

Lemma touched_trans f0 f1 f2 addr len :
  touched f0 addr len f1 → touched f1 addr len f2 → touched f0 addr len f2.
Proof.
  intros [H1 ? ? ? D1] [H2 ? ? ? D2]. constructor; try congruence; [|auto|by eapply dirty_in_trans].
  intros a Ha. by rewrite H2, H1.
Qed.

Lemma WriteAt_faults b off f : f_faults f = [] → f_faults (WriteAt b off f).2 = [].
Proof.
  intros Hf. unfold WriteAt, next_fault. rewrite Hf. by destruct (off <? 0).
Qed.

(** A single [WriteAt] inside the device, any faults: what is on the device afterwards, and an
    error only when the device fails. *)
Lemma WriteAt_touched b off f r f' :
  0 ≤ off → 0 ≤ blen b → off + blen b ≤ f_size f → WriteAt b off f = (r, f') →
  touched f off (blen b) f' ∧ (r.2 = None → r.1 = blen b ∧ filled f (bat b) off (blen b) f') ∧
  (f_faults f = [] → r.2 = None).
Proof.
  intros Ho Hb Hs H. destruct r as [n err].
  pose proof (WriteAt_size _ _ _ _ _ _ H Hs Hb) as [Hsz Hgr].
  assert (Hff : f_faults f = [] → f_faults f' = [])
    by (intros Hff; pose proof (WriteAt_faults b off f Hff) as Hx; by rewrite H in Hx).
  pose proof (WriteAt_dirty _ _ _ _ _ _ Hb H) as Hdi.
  pose proof (WriteAt_data _ _ _ _ _ _ Hb H) as (Hn & Hok & Hd). cbn [fst snd]. split_and!.
  - constructor; [|done..]. intros a Ha. rewrite Hd. destruct (_ && _) eqn:E; [lia|done].
  - intros Hnone. specialize (Hok Hnone) as ->. split; [done|]. by constructor.
  - intros Hf. rewrite WriteAt_ok in H by (done || lia). by injection H as _ <-.
Qed.

(** Writing the next bytes of [content]. *)
Lemma filled_extend f0 c addr w f b f' :
  0 ≤ w → 0 ≤ blen b → filled f0 c addr w f → filled f (bat b) (addr + w) (blen b) f' →
  (∀ i, 0 ≤ i < blen b → bat b i = c (w + i)) → filled f0 c addr (w + blen b) f'.
Proof.
  intros Hw Hb [Hd ? ? ? D1] [Hd' ? ? ? D2] Hc. constructor; try congruence; [|auto|].
  2: { eapply dirty_in_trans; [apply (dirty_in_mono _ addr w); [lia..|done]|].
       apply (dirty_in_mono _ (addr + w) (blen b)); [lia..|done]. }
  intros a. rewrite Hd', Hd.
  destruct (_ && _) eqn:E1.
  - rewrite Hc by lia. replace (_ && _) with true by lia. f_equal. lia.
  - destruct ((addr <=? a) && (a <? addr + w)) eqn:E2.
    + by replace (_ && _) with true by lia.
    + by replace (_ && _) with false by lia.
Qed.

Lemma touched_extend f0 c addr w f len b f' :
  0 ≤ w → 0 ≤ len → w + len ≤ b → filled f0 c addr w f → touched f (addr + w) len f' →
  touched f0 addr b f'.
Proof.
  intros Hw Hl Hb Hfl Ht. apply (touched_trans f0 f).
  - apply (filled_touched f0 c addr w); [lia|done].
  - destruct Ht as [Hd ? ? ? Hdi]. constructor; [|done..|apply (dirty_in_mono _ (addr + w) len); [lia..|done]].
    intros a Ha. apply Hd. lia.
Qed.

Definition outcome {A} (f0 : file) (addr len : Z) (post : file → Prop) (r : res A) (f : file) : Prop :=
  match r with
  | Ok _ => post f
  | Err _ => touched f0 addr len f ∧ f_faults f0 ≠ []
  end.

Lemma write_chunk_spec f0 c addr w f b len :
  0 ≤ addr → 0 ≤ w → 0 ≤ blen b → w + blen b ≤ len → addr + len ≤ f_size f0 → f_size f0 < 2 ^ 63 →
  filled f0 c addr w f → (∀ i, 0 ≤ i < blen b → bat b i = c (w + i)) →
  outcome f0 addr len (filled f0 c addr (w + blen b))
    (write_chunk b (addr + w) f).1 (write_chunk b (addr + w) f).2.
Proof.
  intros Ha Hw Hb Hlen Hsz Hmax Hfl Hc. unfold write_chunk.
  rewrite u64_small, int64_small by lia.
  destruct (WriteAt b (addr + w) f) as [[n err] f'] eqn:E.
  pose proof (filled_size _ _ _ _ _ Hfl) as Hfs.
  apply WriteAt_touched in E as (Ht & Hok & Hnf); [|lia..]. cbn [fst snd] in *.
  destruct err as [e|]; cbn [outcome fst snd].
  - split; [eapply touched_extend; [| | |done|done]; lia|].
    intros Hf0. by specialize (Hnf (filled_faults _ _ _ _ _ Hfl Hf0)).
  - destruct (Hok eq_refl) as [-> Hfl']. rewrite Z.eqb_refl. cbn. by apply (filled_extend f0 c addr w f).
Qed.

(** ** The reader *)
Definition payload (r : stream) (i : Z) : byte := bat (st_data r) (st_pos r + i).
(** The bytes an extent holds after a write of [n] bytes of [r]. *)
Definition content (r : stream) (n i : Z) : byte := if i <? n then payload r i else x00.

(** The stream delivers exactly [n] bytes and ends well. *)
Definition exactly (r : stream) (n : Z) : Prop := st_remaining r = n ∧ st_err r = EEOF.

Definition advance (r : stream) (n : Z) : stream := Stream (st_data r) (st_pos r + n) (st_err r).

Lemma st_remaining_advance r n : st_remaining (advance r n) = st_remaining r - n.
Proof. unfold st_remaining. cbn. lia. Qed.

Lemma ReadFull_spec want r :
  0 ≤ want → 0 ≤ st_remaining r →
  ∃ b err, ReadFull want r = ((b, err), advance r (blen b)) ∧
    blen b = Z.min want (st_remaining r) ∧ (∀ i, bat b i = payload r i) ∧
    (err = None ↔ want ≤ st_remaining r).
Proof.
  intros Hw Hr. unfold ReadFull, advance. set (av := clamp 0 want (st_remaining r)).
  assert (Hav : av = Z.min want (st_remaining r)) by (unfold av, clamp; lia).
  exists (buf_slice (st_data r) (st_pos r) (st_pos r + av)).
  eexists. split; [|split; [|split]].
  - cbn [blen buf_slice]. replace (st_pos r + av - st_pos r) with av by lia. reflexivity.
  - cbn [blen buf_slice]. lia.
  - done.
  - destruct (Z.eqb_spec av want); split; intros; done || (exfalso; lia) || lia.
Qed.

Lemma check_end_spec f r :
  0 ≤ st_remaining r →
  ∃ res r', check_end (f, r) = (res, (f, r')) ∧ (is_ok res = true ↔ exactly r 0).
Proof.
  intros Hr. unfold check_end, ReadFull, exactly. set (av := clamp 0 1 (st_remaining r)).
  assert (Hav : av = if st_remaining r =? 0 then 0 else 1)
    by (unfold av, clamp; destruct (Z.eqb_spec (st_remaining r) 0); lia).
  cbn [blen buf_slice]. replace (st_pos r + av - st_pos r) with av by lia. rewrite Hav.
  destruct (Z.eqb_spec (st_remaining r) 0) as [E|E].
  - change (0 <? 0) with false. change (0 =? 1) with false. change (0 =? 0) with true. cbn match.
    case_bool_decide as He; [by eexists _, _|].
    destruct (st_err r) eqn:Ee; (eexists _, _; split; [reflexivity|]); cbn; naive_solver.
  - eexists _, _. split; [reflexivity|]. cbn. naive_solver.
Qed.

(** ** The buffered path *)
Section buffered.
Context (f : file) (addr len : Z).
Context (Haddr : 0 ≤ addr) (Hfit : addr + len ≤ f_size f) (Hmax : f_size f < 2 ^ 63).

Lemma writeExact_spec total r :
  0 ≤ total ≤ len → 0 ≤ st_remaining r →
  let '(res, (f', _)) := writeExact addr total (f, r) in
  match res with
  | Ok _ => filled f (payload r) addr total f' ∧ exactly r total
  | Err _ => touched f addr len f' ∧ (f_faults f = [] → ¬ exactly r total)
  end.
Proof using Haddr Hfit Hmax.
  intros Ht Hr. unfold writeExact.
  match goal with |- context [mloop ?p ?b 0] => set (body := b) end.
  assert (HL : let m := mloop (Z.to_pos (total + 1)) body 0 (f, r) in
    match m.1 with
    | Ok _ => filled f (payload r) addr total m.2.1 ∧ m.2.2 = advance r total ∧
              total ≤ st_remaining r
    | Err _ => touched f addr len m.2.1 ∧ (f_faults f = [] → ¬ exactly r total)
    end).
  { apply (mloop_total
      (λ w '(f1, r1), 0 ≤ w ≤ total ∧ w ≤ st_remaining r ∧ r1 = advance r w ∧
         filled f (payload r) addr w f1)
      (λ w, total - w)
      (λ res s, match res with
         | Ok _ => filled f (payload r) addr total s.1 ∧ s.2 = advance r total ∧
                   total ≤ st_remaining r
         | Err _ => touched f addr len s.1 ∧ (f_faults f = [] → ¬ exactly r total) end)).
    - split_and!; try lia; [unfold advance; rewrite Z.add_0_r; by destruct r|apply filled_0].
    - lia.
    - intros w [f1 r1] (Hw & Hwr & -> & Hfl) _. unfold body.
      destruct (Z.ltb_spec w total); [|by replace w with total in * by lia].
      set (want := if _ <? writeChunkSize then _ else _).
      assert (Hwant : 0 < want ≤ total - w)
        by (unfold want, writeChunkSize; destruct (Z.ltb_spec (total - w) 4194304); lia).
      destruct (ReadFull_spec want (advance r w)) as (b & err & -> & Hb & Hbat & Herr);
        [lia|rewrite st_remaining_advance; lia|]. rewrite st_remaining_advance in Hb, Herr.
      assert (Hadv : advance (advance r w) (blen b) = advance r (w + blen b))
        by (unfold advance; cbn; f_equal; lia).
      assert (Hc : ∀ i, 0 ≤ i < blen b → bat b i = payload r (w + i))
        by (intros; rewrite Hbat; unfold payload, advance; cbn; f_equal; lia).
      pose proof (write_chunk_spec f (payload r) addr w f1 b len) as Hwc.
      destruct (Z.ltb_spec 0 (blen b)) as [Hpos|Hzero].
      + destruct (write_chunk b (addr + w) f1) as [[[]|e] f2]; cbn in Hwc.
        2: { destruct Hwc as [? ?]; try done; lia. }
        specialize (Hwc Haddr ltac:(lia) ltac:(lia) ltac:(lia) Hfit Hmax Hfl Hc).
        destruct err as [e|].
        * split; [by apply (filled_touched f (payload r) addr (w + blen b)); [lia|]|].
          intros _ [Hx _]. assert (want ≤ st_remaining r - w) by lia.
          by apply Herr in H0.
        * rewrite Hadv. split_and!; try done; try lia.
      + destruct err as [e|].
        * split; [by apply (filled_touched f (payload r) addr w); [lia|]|].
          intros _ [Hx _]. lia.
        * assert (want ≤ st_remaining r - w) by (by apply Herr). lia. }
  unfold mbind, M_bind. destruct (mloop _ body 0 (f, r)) as [[[]|e] [f1 r1]];
    cbn [fst snd] in HL; [|done].
  destruct HL as (Hfl & -> & Hle).
  destruct (check_end_spec f1 (advance r total)) as (res & r' & -> & Hce);
    [rewrite st_remaining_advance; lia|].
  assert (Hex : exactly (advance r total) 0 ↔ exactly r total)
    by (unfold exactly; rewrite st_remaining_advance; cbn; intuition lia).
  rewrite Hex in Hce. destruct res; cbn in Hce; [split; [done|by apply Hce]|].
  split; [by apply (filled_touched f (payload r) addr total); [lia|]|].
  intros _ H. by apply Hce in H.
Qed.

Lemma writeZeros_spec c w n f1 :
  0 ≤ w → 0 ≤ n → w + n ≤ len → filled f c addr w f1 → (∀ i, w ≤ i < w + n → c i = x00) →
  let '(res, f') := writeZeros (addr + w) n f1 in
  outcome f addr len (filled f c addr (w + n)) res f'.
Proof using Haddr Hfit Hmax.
  intros Hw Hn Hlen Hfl Hc. unfold writeZeros.
  match goal with |- context [mloop ?p ?b 0] => set (body := b) end.
  enough (HL : let m := mloop (Z.to_pos (n + 1)) body 0 f1 in
    outcome f addr len (filled f c addr (w + n)) m.1 m.2) by (by destruct (mloop _ body 0 f1)).
  apply (mloop_total (λ k f2, 0 ≤ k ≤ n ∧ filled f c addr (w + k) f2) (λ k, n - k)
    (outcome f addr len (filled f c addr (w + n)))).
  - by rewrite Z.add_0_r.
  - lia.
  - intros k f2 (Hk & Hfl2) _. unfold body.
    destruct (Z.ltb_spec k n); [|by replace k with n in * by lia].
    set (want := if _ <? writeChunkSize then _ else _).
    assert (Hwant : 0 < want ≤ n - k)
      by (unfold want, writeChunkSize; destruct (Z.ltb_spec (n - k) 4194304); lia).
    pose proof (write_chunk_spec f c addr (w + k) f2 (zeros want) len Haddr ltac:(lia)
      ltac:(cbn; lia) ltac:(cbn; lia) Hfit Hmax Hfl2) as Hwc.
    rewrite Z.add_assoc in Hwc.
    destruct (write_chunk (zeros want) (addr + w + k) f2) as [[[]|e] f3]; cbn in Hwc |- *.
    + split; [|lia]. split; [lia|]. rewrite Z.add_assoc. apply Hwc.
      intros i Hi. symmetry. apply Hc. lia.
    + apply Hwc. intros i Hi. symmetry. apply Hc. lia.
Qed.

(** ** The direct path *)
Lemma writeAllAt_spec c w b f1 :
  0 ≤ w → 0 ≤ blen b → w + blen b ≤ len → filled f c addr w f1 →
  (∀ i, 0 ≤ i < blen b → bat b i = c (w + i)) →
  let m := writeAllAt b (addr + w) f1 in
  outcome f addr len (filled f c addr (w + blen b)) m.1 m.2.
Proof using Haddr Hfit Hmax.
  intros Hw Hb Hlen Hfl Hc. unfold writeAllAt.
  apply (mloop_total (λ '(b', off) f2, ∃ k, 0 ≤ k ≤ blen b ∧ blen b' = blen b - k ∧
      (∀ i, bat b' i = bat b (k + i)) ∧ off = addr + w + k ∧ filled f c addr (w + k) f2)
    (λ '(b', _), blen b') (outcome f addr len (filled f c addr (w + blen b)))).
  - exists 0. rewrite Z.add_0_r. split_and!; try lia; [done|by rewrite Z.add_0_r].
  - lia.
  - intros [b' off] f2 (k & Hk & Hb' & Hbat & -> & Hfl2) _.
    destruct (Z.ltb_spec 0 (blen b')); [|by replace k with (blen b) in * by lia].
    pose proof (filled_size _ _ _ _ _ Hfl2) as Hfs. rewrite <- Z.add_assoc.
    destruct (WriteAt b' (addr + (w + k)) f2) as [[n err] f3] eqn:E.
    apply WriteAt_touched in E as (Ht & Hok & Hnf); [|lia..]. cbn [fst snd] in *.
    destruct err as [e|].
    + split; [eapply touched_extend; [| | |done|done]; lia|].
      intros Hf0. by specialize (Hnf (filled_faults _ _ _ _ _ Hfl2 Hf0)).
    + destruct (Hok eq_refl) as [-> Hfl3]. rewrite (proj2 (Z.eqb_neq _ _)) by lia.
      cbn [blen bat buf_slice]. split; [|lia]. exists (blen b). split_and!; try lia.
      * intros i. rewrite Hbat. f_equal. lia.
      * replace (w + blen b) with (w + k + blen b') by lia.
        apply (filled_extend f c addr (w + k) f2 b'); try done; try lia.
        intros i Hi. rewrite Hbat, Hc by lia. f_equal. lia.
Qed.

(** The chunk at [w]: what is read continues the stream, and the last byte is accepted only if
    the stream ends there. *)
Definition at_chunk (r : stream) (realSize w : Z) (r1 : stream) : Prop :=
  if w <? realSize then r1 = advance r w ∧ w ≤ st_remaining r else exactly r realSize.

Lemma padded_content r realSize w chunkLen b :
  0 ≤ w → (∀ i, 0 ≤ i < blen b → bat b i = payload r (w + i)) →
  blen b = Z.max 0 (Z.min chunkLen (realSize - w)) →
  ∀ i, 0 ≤ i < chunkLen → bat (padded b chunkLen) i = content r realSize (w + i).
Proof.
  intros Hw Hbat Hb i Hi. unfold padded, content. cbn [bat].
  destruct (Z.ltb_spec i (blen b)), (Z.ltb_spec (w + i) realSize); try done; try lia.
  apply Hbat. lia.
Qed.

Lemma read_chunk_spec r r1 realSize w chunkLen f1 :
  0 < realSize → 0 ≤ w → 0 < chunkLen → at_chunk r realSize w r1 →
  let '(res, (f2, r2)) := read_chunk realSize w chunkLen (f1, r1) in
  f2 = f1 ∧
  match res with
  | Ok b => at_chunk r realSize (w + chunkLen) r2 ∧
      ∀ i, 0 ≤ i < chunkLen → bat (padded b chunkLen) i = content r realSize (w + i)
  | Err _ => ¬ exactly r realSize
  end.
Proof.
  intros Hreal Hw Hch Hat. unfold read_chunk, at_chunk in *.
  destruct (Z.ltb_spec w realSize) as [Hlt|Hge].
  2: { split; [done|]. rewrite (proj2 (Z.ltb_ge _ _)) by lia. split; [done|].
       apply padded_content; [done|cbn; lia|cbn; lia]. }
  destruct Hat as [-> Hr]. set (want := if _ <? realSize - w then _ else _).
  assert (Hwant : want = Z.min chunkLen (realSize - w))
    by (unfold want; destruct (Z.ltb_spec chunkLen (realSize - w)); lia).
  destruct (ReadFull_spec want (advance r w)) as (b & err & -> & Hb & Hbat & _);
    [lia|rewrite st_remaining_advance; lia|]. rewrite st_remaining_advance in Hb.
  assert (Hadv : advance (advance r w) (blen b) = advance r (w + blen b))
    by (unfold advance; cbn; f_equal; lia). rewrite Hadv.
  destruct (Z.eqb_spec (blen b) want) as [Eb|Eb]; cbn [negb].
  2: { split; [done|]. intros [Hx _]. lia. }
  assert (Hpad : ∀ i, 0 ≤ i < chunkLen →
    bat (padded b chunkLen) i = content r realSize (w + i)).
  { apply padded_content; [done| |lia]. intros i _. rewrite Hbat. unfold payload, advance. cbn.
    f_equal. lia. }
  destruct (Z.eqb_spec (w + want) realSize) as [Ee|Ee].
  - destruct (check_end_spec f1 (advance r (w + blen b))) as (c & r' & -> & Hce);
      [rewrite st_remaining_advance; lia|]. split; [done|].
    assert (Hex : exactly (advance r (w + blen b)) 0 ↔ exactly r realSize)
      by (unfold exactly; rewrite st_remaining_advance; cbn; intuition lia).
    rewrite Hex in Hce. destruct c; cbn in Hce; [|intros H; by apply Hce in H].
    rewrite (proj2 (Z.ltb_ge _ _)) by lia. split; [by apply Hce|done].
  - split; [done|]. split; [|done]. rewrite (proj2 (Z.ltb_lt _ _)) by lia.
    split; [f_equal; lia|lia].
Qed.

Lemma writeStreamDirect_spec r realSize total :
  0 < realSize ≤ total → total ≤ len → total `mod` SlotSize = 0 → 0 ≤ st_remaining r →
  let '(res, (f', _)) := writeStreamDirect addr realSize total (f, r) in
  match res with
  | Ok _ => filled f (content r realSize) addr total f' ∧ exactly r realSize
  | Err _ => touched f addr len f' ∧ (f_faults f = [] → ¬ exactly r realSize)
  end.
Proof using Haddr Hfit Hmax.
  intros Hreal Htot Hal Hr. unfold writeStreamDirect. rewrite Hal. cbn [Z.eqb negb].
  change (negb (directChunkBytes `mod` SlotSize =? 0)) with false. cbn match.
  match goal with |- context [mloop ?p ?b 0] => set (body := b) end.
  set (Q := λ (res : res unit) (s : file * stream), match res with
    | Ok _ => filled f (content r realSize) addr total s.1 ∧ exactly r realSize
    | Err _ => touched f addr len s.1 ∧ (f_faults f = [] → ¬ exactly r realSize) end).
  enough (HQ : let m := mloop (Z.to_pos (total + 1)) body 0 (f, r) in Q m.1 m.2)
    by (destruct (mloop _ body 0 (f, r)) as [? []]; exact HQ).
  apply (mloop_total (λ w s, 0 ≤ w ≤ total ∧ filled f (content r realSize) addr w s.1 ∧
      at_chunk r realSize w s.2) (λ w, total - w) Q).
  - split; [lia|]. split; [apply filled_0|]. unfold at_chunk.
    rewrite (proj2 (Z.ltb_lt _ _)) by lia. split; [|done].
    unfold advance. rewrite Z.add_0_r. by destruct r.
  - lia.
  - intros w [f1 r1] (Hw & Hfl & Hat) _. unfold body. cbn [fst snd] in Hfl, Hat.
    destruct (Z.ltb_spec w total) as [Hlt|Hge].
    2: { replace w with total in * by lia. split; [done|]. unfold at_chunk in Hat.
         by rewrite (proj2 (Z.ltb_ge _ _)) in Hat by lia. }
    set (chunkLen := if _ <? directChunkBytes then _ else _).
    assert (Hch : 0 < chunkLen ≤ total - w)
      by (unfold chunkLen, directChunkBytes; destruct (Z.ltb_spec (total - w) 1048576); lia).
    pose proof (read_chunk_spec r r1 realSize w chunkLen f1 ltac:(lia) ltac:(lia) ltac:(lia) Hat)
      as Hrc.
    destruct (read_chunk realSize w chunkLen (f1, r1)) as [[b|e] [f2 r2]];
      destruct Hrc as [-> Hrc]; cbn match.
    2: { split; [by apply (filled_touched f (content r realSize) addr w); [lia|]|done]. }
    destruct Hrc as [Hat' Hpad]. rewrite u64_small, int64_small by lia.
    pose proof (writeAllAt_spec (content r realSize) w (padded b chunkLen) f1 ltac:(lia)
      ltac:(cbn; lia) ltac:(cbn; lia) Hfl Hpad) as Hwa. cbv zeta in Hwa.
    destruct (writeAllAt _ (addr + w) f1) as [[[]|e] f3]; cbn in Hwa |- *.
    + split; [|lia]. split; [lia|]. done.
    + unfold Q. cbn. split; [apply Hwa|]. intros Hf0. by destruct Hwa.
Qed.
End buffered.

(** ** WriteFromContext after it has acquired the dispatcher

    [direct] tells whether the device has an O_DIRECT file; both files are the same device. *)
Definition on_file {A} (m : M file A) : M (file * stream) A := λ '(f, r),
  let '(res, f) := m f in (res, (f, r)).

Definition write_payload (direct : bool) (addr size total : Z) : M (file * stream) unit :=
  if direct then writeStreamDirect addr size total else
  writeExact addr size;;
  let pad := u64 (total - size) in
  if 0 <? pad then on_file (mwrap "pad" (writeZeros (u64 (addr + size)) pad)) else mret tt.

Lemma filled_ext f c c' addr w f' :
  (∀ i, 0 ≤ i < w → c i = c' i) → filled f c addr w f' → filled f c' addr w f'.
Proof.
  intros Hc [Hd ? ? ? Hdi]. constructor; [|done..]. intros a. rewrite Hd.
  destruct (_ && _) eqn:E; [|done]. apply Hc. lia.
Qed.

(** Either path, on any device: what it leaves on success and on failure. *)
Lemma write_payload_outcome direct addr size total f r :
  0 ≤ addr → addr + total ≤ f_size f → f_size f < 2 ^ 63 →
  0 < size ≤ total → total `mod` SlotSize = 0 → 0 ≤ st_remaining r →
  let '(res, (f', _)) := write_payload direct addr size total (f, r) in
  match res with
  | Ok _ => filled f (content r size) addr total f' ∧ exactly r size
  | Err _ => touched f addr total f' ∧ (f_faults f = [] → ¬ exactly r size)
  end.
Proof.
  intros Ha Hfit Hmax Hsize Hal Hr. unfold write_payload. destruct direct.
  { by apply writeStreamDirect_spec. }
  unfold mbind, M_bind.
  pose proof (writeExact_spec f addr total Ha Hfit Hmax size r ltac:(lia) Hr) as Hw.
  destruct (writeExact addr size (f, r)) as [[[]|e] [f1 r1]]; [|done].
  destruct Hw as [Hfl Hex]. u64_simpl.
  assert (Hfl' : filled f (content r size) addr size f1).
  { eapply filled_ext; [|done]. intros i Hi. unfold content. by rewrite (proj2 (Z.ltb_lt _ _)) by lia. }
  destruct (Z.ltb_spec 0 (total - size)) as [Hpad|Hpad].
  - pose proof (writeZeros_spec f addr total Ha Hfit Hmax (content r size) size (total - size) f1
      ltac:(lia) ltac:(lia) ltac:(lia) Hfl') as Hz.
    unfold on_file, mwrap.
    destruct (writeZeros (addr + size) (total - size) f1) as [[[]|e] f2]; cbn in Hz |- *.
    + split; [|done]. replace total with (size + (total - size)) by lia. apply Hz.
      intros i Hi. unfold content. by rewrite (proj2 (Z.ltb_ge _ _)) by lia.
    + destruct Hz as [Ht Hnf].
      * intros i Hi. unfold content. by rewrite (proj2 (Z.ltb_ge _ _)) by lia.
      * split; [done|]. intros Hf0. by destruct Hnf.
  - cbn. by replace total with size by lia.
Qed.

(** Storing a stream in an extent, with or without O_DIRECT and whatever the device does:
    success means the stream had exactly the declared length, and leaves its bytes followed by
    zeros up to the slot boundary and every other byte of the device as it was; failure leaves
    everything outside the extent as it was, and on a working device happens only to a short, an
    over-long or a failing stream. *)
Theorem write_payload_spec direct addr size total f r :
  0 ≤ addr → addr + total ≤ f_size f → f_size f < 2 ^ 63 →
  0 < size ≤ total → total `mod` SlotSize = 0 → 0 ≤ st_remaining r →
  let '(res, (f', _)) := write_payload direct addr size total (f, r) in
  match res with
  | Ok _ => filled f (content r size) addr total f' ∧ exactly r size
  | Err _ => touched f addr total f' ∧ (f_faults f = [] → ¬ exactly r size)
  end.
Proof. apply write_payload_outcome. Qed.

Definition text_stream : stream := Stream (buf_of [x48; x69; x21]) 0 EEOF.
Definition blank_size : Z := GridStart + 10 * SlotSize.
Definition blank_file : file := File (λ _, xff) [] blank_size false [].

Lemma write_payload_spec_witness :
  (write_payload true GridStart 3 SlotSize (blank_file, text_stream)).1 = Ok tt ∧
  filled blank_file (content text_stream 3) GridStart SlotSize
    (write_payload true GridStart 3 SlotSize (blank_file, text_stream)).2.1.
Proof.
  pose proof (write_payload_spec true GridStart 3 SlotSize blank_file text_stream
    ltac:(llia) ltac:(done) ltac:(done) ltac:(llia) eq_refl ltac:(done)) as H.
  assert (E : (write_payload true GridStart 3 SlotSize (blank_file, text_stream)).1 = Ok tt)
    by reflexivity.
  destruct (write_payload true _ _ _ _) as [res [f' r']]. cbn in E. subst res.
  split; [done|apply H].
Defined.

(** On a working device the O_DIRECT path and the buffered path accept the same streams and
    leave the same bytes on the device. *)
Theorem direct_path_equiv addr size total f r :
  f_faults f = [] → 0 ≤ addr → addr + total ≤ f_size f → f_size f < 2 ^ 63 →
  0 < size ≤ total → total `mod` SlotSize = 0 → 0 ≤ st_remaining r →
  let d := write_payload true addr size total (f, r) in
  let b := write_payload false addr size total (f, r) in
  is_ok d.1 = is_ok b.1 ∧ (is_ok d.1 = true ↔ exactly r size) ∧
  (is_ok d.1 = true → ∀ a, f_data d.2.1 a = f_data b.2.1 a).
Proof.
  intros Hf Ha Hfit Hmax Hsize Hal Hr d b.
  pose proof (write_payload_outcome true addr size total f r Ha Hfit Hmax Hsize Hal Hr) as Hd.
  pose proof (write_payload_outcome false addr size total f r Ha Hfit Hmax Hsize Hal Hr) as Hb.
  subst d b. destruct (write_payload true _ _ _ _) as [[[]|e1] [f1 r1]], 
    (write_payload false _ _ _ _) as [[[]|e2] [f2 r2]]; cbn in *; try naive_solver.
  destruct Hd as [Hd Hex], Hb as [Hb _]. split_and!; try done. intros _ a.
  by rewrite (filled_data _ _ _ _ _ Hd), (filled_data _ _ _ _ _ Hb).
Qed.

Lemma direct_path_equiv_witness :
  let d := write_payload true GridStart 3 SlotSize (blank_file, text_stream) in
  let b := write_payload false GridStart 3 SlotSize (blank_file, text_stream) in
  is_ok d.1 = is_ok b.1.
Proof.
  exact (proj1 (direct_path_equiv GridStart 3 SlotSize blank_file text_stream eq_refl
    ltac:(llia) ltac:(done) ltac:(done) ltac:(llia) eq_refl ltac:(done))).
Defined.
