(* ===== verification/DeviceState.v ===== *)
(** * One disk (internal/daemon/state.go and interval.go)

    [DeviceState] with its operations: opening a device, reserving an extent, streaming a payload
    into it, committing the index entry, aborting, and reading.  Each runs under the locks the code
    takes, so it is one atomic step of the monad; the dispatcher that bounds concurrency is the
    outcome of [acquireIO], an argument. *)

From S2P Require Import Prelude Machine Loop Device Layout IndexScan PackedTable Interval.
From S2P Require Import Replay DirectIO.
From Stdlib Require Import Strings.Byte.

Definition aliasJumpCode : Z := 1.

Record DeviceState := mkState {
  ds_file : file;
  directFile : bool;  (* an O_DIRECT file is open on the same device *)
  diskID : Z;
  diskBytes : Z;
  intervals : list interval;
  pendingIntervals : list interval;
  confirmed : gmap Z objectRef;
  packed : gmap Z packedRecord;
  indexEnd : Z;
  indexErr : option error
}.

Definition set_file (s : DeviceState) (f : file) : DeviceState :=
  mkState f (directFile s) (diskID s) (diskBytes s) (intervals s) (pendingIntervals s)
    (confirmed s) (packed s) (indexEnd s) (indexErr s).
Definition set_extents (s : DeviceState) (ivs pend : list interval) : DeviceState :=
  mkState (ds_file s) (directFile s) (diskID s) (diskBytes s) ivs pend
    (confirmed s) (packed s) (indexEnd s) (indexErr s).
Definition set_confirmed (s : DeviceState) (c : gmap Z objectRef) : DeviceState :=
  mkState (ds_file s) (directFile s) (diskID s) (diskBytes s) (intervals s) (pendingIntervals s)
    c (packed s) (indexEnd s) (indexErr s).
Definition set_indexEnd (s : DeviceState) (e : Z) : DeviceState :=
  mkState (ds_file s) (directFile s) (diskID s) (diskBytes s) (intervals s) (pendingIntervals s)
    (confirmed s) (packed s) e (indexErr s).
Definition set_indexErr (s : DeviceState) (e : option error) : DeviceState :=
  mkState (ds_file s) (directFile s) (diskID s) (diskBytes s) (intervals s) (pendingIntervals s)
    (confirmed s) (packed s) (indexEnd s) e.

(** A file operation of the device. *)
Definition fileM {A} (m : M file A) : M DeviceState A := λ s,
  let '(r, f) := m (ds_file s) in (r, set_file s f).

(** ** interval.go *)
Definition reserveExtent (iv : interval) : M DeviceState unit := λ s,
  match indexErr s with
  | Some fault => (Err fault, s)
  | None =>
      if anyOverlap (intervals s) iv then (Err EConflict, s)
      else if anyOverlap (pendingIntervals s) iv then (Err EConflict, s)
      else (Ok tt, set_extents s (intervals s) (pendingIntervals s ++ [iv]))
  end.

Definition confirmExtent (iv : interval) : M DeviceState unit := λ s,
  (Ok tt, set_extents s (intervals s ++ [iv]) (removeInterval (pendingIntervals s) iv)).

Definition releaseExtent (iv : interval) : M DeviceState unit := λ s,
  (Ok tt, set_extents s (intervals s) (removeInterval (pendingIntervals s) iv)).

(** ** OpenDevice

    From the opened file on: [f] is the device and [direct] tells whether the O_DIRECT open
    succeeded. *)
Definition OpenDevice (f : file) (diskBytes : Z) (direct : bool) (diskID : Z) :
    res DeviceState * file :=
  match must_read 0 HeaderBytes f with
  | (Err e, f) => (Err (EWrap "read header" e), f)
  | (Ok headerBytes, f) =>
      match ParseHeader headerBytes with
      | Err _ => (Err (EMsg "invalid device header, identity or size"), f)
      | Ok header =>
          if negb (h_Version header =? FormatVersion) || negb (h_DiskID header =? diskID) ||
             (diskBytes <=? GridStart)
          then (Err (EMsg "invalid device header, identity or size"), f) else
          match replayIndex diskBytes f with
          | (Err e, f) => (Err (EWrap "scan intervals" e), f)
          | (Ok (confirmed, packed, intervals, indexEnd), f) =>
              (Ok (mkState f direct diskID diskBytes intervals [] confirmed packed indexEnd None), f)
          end
      end
  end.

(** ** Writing *)
Record PreparedWrite := mkPrepared { pw_fid : Z; pw_size : Z; pw_addr : Z; pw_iv : interval }.

Definition PrepareWrite (fid size : Z) : M DeviceState PreparedWrite := λ s,
  if size =? 0 then (Err (EMsg "empty object"), s) else
  match AddrForFID (diskBytes s) fid size with
  | Err e => (Err (EWrap "address" e), s)
  | Ok (addr, slotIndex, slotsNeeded) =>
      let iv := mkInterval slotIndex (u64 (slotIndex + slotsNeeded - 1)) in
      (reserveExtent iv;; mret (mkPrepared fid size addr iv)) s
  end.

(** [WriteFromContext]; [acquire] is the error of [acquireIO], if the context ended first. *)
Definition WriteFrom (pw : PreparedWrite) (acquire : option error) (r : stream) :
    M DeviceState unit := λ s,
  match acquire with
  | Some e => (Err e, s)
  | None =>
      let slotsNeeded := u64 (end_ (pw_iv pw) - start (pw_iv pw) + 1) in
      let total := u64 (slotsNeeded * SlotSize) in
      let '(res, (f, _)) :=
        write_payload (directFile s) (pw_addr pw) (pw_size pw) total (ds_file s, r) in
      (res, set_file s f)
  end.

(** The entry or pair of entries [Commit] appends. *)
Definition commit_entry (fid size aliasFor : Z) : res (list byte) :=
  entry ← BuildIndexEntry fid size 0;
  if negb (aliasFor =? 0) then
    jump ← BuildIndexEntry aliasFor IndexJumpSentinel aliasJumpCode;
    Ok (jump ++ entry)
  else Ok entry.

(** A [WriteAt] of index bytes, with the short-count error, then a [Sync]. *)
Definition write_index (b : buf) (off : Z) : M file unit := λ f,
  let '((n, err), f) := WriteAt b (int64 off) f in
  match err with
  | Some e => (Err e, f)
  | None => if negb (n =? blen b) then (Err EShortWrite, f) else must_sync f
  end.

Definition Commit (pw : PreparedWrite) (aliasFor : Z) : M DeviceState unit := λ s,
  let fid := pw_fid pw in
  let size := pw_size pw in
  if (aliasFor =? fid) && negb (aliasFor =? 0) || negb (aliasFor =? 0) && (size <? 2)
  then (Err (EMsg "invalid alias"), s) else
  match indexErr s with
  | Some fault => (Err fault, s)
  | None =>
      if bool_decide (is_Some (confirmed s !! fid)) ||
         negb (aliasFor =? 0) && bool_decide (is_Some (confirmed s !! aliasFor))
      then (Err EConflict, s) else
      match commit_entry fid size aliasFor with
      | Err e => (Err e, s)
      | Ok entry =>
          let off := indexEnd s in
          let len := Z.of_nat (length entry) in
          if GridStart <? u64 (off + len) then (Err EIndexFull, s) else
          match must_sync (ds_file s) with
          | (Err e, f) => (Err (EWrap "sync payload" e), set_file s f)
          | (Ok _, f) =>
              match write_index (buf_of entry) off f with
              | (Err e, f) =>
                  (* restore the unwritten tail *)
                  match write_index (zeros len) off f with
                  | (Err clearErr, f) =>
                      (Err (EWrap "commit index" e),
                       set_indexErr (set_file s f)
                         (Some (EWrap "index rollback failed; reopen required" clearErr)))
                  | (Ok _, f) => (Err (EWrap "commit index" e), set_file s f)
                  end
              | (Ok _, f) =>
                  let c := <[fid := plain_ref fid size]> (confirmed s) in
                  let c := if negb (aliasFor =? 0) then <[aliasFor := alias_ref fid size]> c else c in
                  (Ok tt,
                   set_extents (set_indexEnd (set_confirmed (set_file s f) c) (u64 (off + len)))
                     (intervals s ++ [pw_iv pw]) (removeInterval (pendingIntervals s) (pw_iv pw)))
              end
          end
      end
  end.

Definition Abort (pw : PreparedWrite) : M DeviceState unit := releaseExtent (pw_iv pw).

(** ** Reading *)
Definition lookup_fid (fid : Z) : M DeviceState objectRef := λ s,
  match indexErr s with
  | Some e => (Err e, s)
  | None => match confirmed s !! fid with
            | None => (Err ENotFound, s)
            | Some ref => (Ok ref, s)
            end
  end.

Definition readRange (acquire : option error) (ref : objectRef) (start end_ : Z) :
    M DeviceState buf := λ s,
  match acquire with
  | Some e => (Err e, s)
  | None =>
      match AddrForFID (diskBytes s) (r_fid ref) (storedSize ref) with
      | Err e => (Err e, s)
      | Ok (addr, _, _) =>
          let n := u64 (end_ - start) in
          if maxAlloc <? n then (Err (EPanic "makeslice: len out of range"), s) else
          let '((b, err), f) := ReadAt (int64 (u64 (addr + r_offset ref + start))) n (ds_file s) in
          match err with
          | Some e => (Err (EWrap "read payload" e), set_file s f)
          | None => if blen b =? n then (Ok b, set_file s f) else (Err EUnexpectedEOF, set_file s f)
          end
      end
  end.

Definition Get (fid : Z) : M DeviceState (buf * Z) :=
  ref ← lookup_fid fid;
  data ← readRange None ref 0 (r_size ref);
  mret (data, r_size ref).

Definition Head (fid : Z) : M DeviceState Z :=
  ref ← lookup_fid fid; mret (r_size ref).

Definition Confirmed (fid : Z) : M DeviceState bool := λ s,
  match lookup_fid fid s with
  | (Ok _, s) => (Ok true, s)
  | (Err e, s) => if errors_Is e ENotFound then (Ok false, s) else (Err e, s)
  end.
