(* ===== verification/DeviceInv.v ===== *)
(** * The invariant of a disk

    [mirrors] says that the maps in memory are what [replayIndex] would rebuild from the device;
    [Inv] adds that the extents, confirmed and pending, are disjoint and that every reference lies
    inside a confirmed extent.  The frame lemmas say which writes keep it: writes to pending extents
    ([mirrors_frame]) and appends to the index ([mirrors_append]). *)

From S2P Require Import Prelude Machine Loop Device Layout IndexScan PackedTable Interval.
From S2P Require Import Replay DirectIO DeviceState.
From Stdlib Require Import Strings.Byte.

(** What the next process to open the device reads: everything written, without the faults. *)
Definition clean (f : file) : file := File (f_data f) [] (f_size f) (f_grow f) [].

(** The bytes of an extent. *)
Definition ext_addr (iv : interval) (a : Z) : Prop :=
  GridStart + start iv * SlotSize ≤ a < GridStart + (end_ iv + 1) * SlotSize.

Record ref_backed (d : Z) (ivs : list interval) (ref : objectRef) : Prop := {
  rb_fid : is_u64 (r_fid ref);
  rb_range : 0 < r_size ref ∧ 0 ≤ r_offset ref ∧ r_offset ref + r_size ref ≤ storedSize ref;
  rb_stored : storedSize ref < 2 ^ 56;
  rb_ext : ∃ iv, iv ∈ ivs ∧ extent_of d (r_fid ref) (storedSize ref) = Ok iv
}.

Record mirrors (d : Z) (f : file) (refs : gmap Z objectRef) (pk : gmap Z packedRecord)
    (ivs : list interval) (iend : Z) (es : list IndexEntry) (st : rstate) : Prop := {
  m_log : index_log (f_data f) es;
  m_tail : tail_zero (f_data f) (log_end es);
  m_fold : foldM (replay_entry d) rstate0 es = Ok st;
  m_alias : rs_alias st = None;
  m_pending : rs_pendingPacked st = None;
  m_load : load_tables d (rs_tables st) (rs_refs st, rs_packed st) (clean f)
           = (Ok (refs, pk), clean f);
  m_end : iend = log_end es;
  m_exts : (map_to_list (rs_extents st)).*2 ⊆+ ivs;
  m_tables : ∀ t, t ∈ rs_tables st → ∃ ref, refs !! t = Some ref ∧ r_packed ref = false;
  m_backed : ∀ fid ref, refs !! fid = Some ref →
    is_u64 fid ∧ ref_backed d (map_to_list (rs_extents st)).*2 ref
}.

(** A disk of at most 256 TiB, four times what the 16-bit capacity field of the header can say:
    object sizes are then below the sentinels of the index and within what [make] can allocate. *)
Definition disk_fits (d : Z) : Prop := GridStart < d ≤ 2 ^ 48.

(** The fields of the header [OpenDevice] checks. *)
Definition header_valid (id : Z) (g : Z → byte) : Prop :=
  bytes_at g 0 4 = magic_NBSS ∧ le_val (bytes_at g 4 2) = FormatVersion ∧
  le_val (bytes_at g 8 8) = id.

Record Inv (s : DeviceState) : Prop := {
  i_disk : disk_fits (diskBytes s);
  i_size : f_size (ds_file s) = diskBytes s;
  i_grow : f_grow (ds_file s) = false;
  i_header : header_valid (diskID s) (f_data (ds_file s));
  i_disjoint : disjoint_all (intervals s ++ pendingIntervals s);
  i_grid : Forall (in_grid (diskBytes s)) (intervals s ++ pendingIntervals s);
  i_mirror : indexErr s = None → ∃ es st,
    mirrors (diskBytes s) (ds_file s) (confirmed s) (packed s) (intervals s) (indexEnd s) es st
}.

Lemma disk_fits_ok d : disk_fits d → disk_ok d.
Proof. unfold disk_fits, disk_ok. lia. Qed.

(** ** Where references live *)
Lemma ref_backed_addr d ivs ref :
  disk_ok d → ref_backed d ivs ref →
  ∃ iv, iv ∈ ivs ∧
    AddrForFID d (r_fid ref) (storedSize ref) =
      Ok (GridStart + start iv * SlotSize, start iv, end_ iv - start iv + 1) ∧
    in_grid d iv ∧
    ∀ a, GridStart + start iv * SlotSize ≤ a < GridStart + start iv * SlotSize + storedSize ref →
      ext_addr iv a.
Proof.
  intros Hd [[Hf _] (Hs & Ho & Hle) Hst (iv & Hiv & He)]. exists iv. split; [done|].
  apply extent_of_Ok in He as (_ & Hok & H0 & Hend & Hcov & ->); [|done|done|lia].
  split; [done|]. split; [done|]. unfold ext_addr. unfold SlotSize in *. intros. lia.
Qed.

Lemma grid_end d : disk_ok d → GridStart + disk_slots d * SlotSize ≤ d.
Proof.
  unfold disk_ok, disk_slots. layout_unfold. intros.
  pose proof (Z.mul_div_le (d - 0x10000000) 4096 ltac:(lia)). lia.
Qed.

Lemma in_grid_addr d iv a : disk_ok d → in_grid d iv → ext_addr iv a → GridStart ≤ a < d.
Proof.
  intros Hd (? & ? & ?) Ha. pose proof (grid_end d Hd). unfold ext_addr in Ha.
  unfold SlotSize in *. lia.
Qed.

(** Disjoint extents have no byte in common. *)
Lemma ext_addr_disjoint iv1 iv2 a : overlaps iv1 iv2 = false → ext_addr iv1 a → ¬ ext_addr iv2 a.
Proof. rewrite overlaps_false. unfold ext_addr. layout_unfold. lia. Qed.

Lemma ref_backed_mono d ivs ivs' ref :
  (∀ iv, iv ∈ ivs → iv ∈ ivs') → ref_backed d ivs ref → ref_backed d ivs' ref.
Proof. intros Hs [? ? ? (iv & Hiv & ?)]. constructor; try done. exists iv. eauto. Qed.

Lemma mirrors_backed d f refs pk ivs iend es st fid ref :
  mirrors d f refs pk ivs iend es st → refs !! fid = Some ref → ref_backed d ivs ref.
Proof.
  intros Hm Hr. eapply ref_backed_mono; [|by eapply m_backed].
  intros iv Hiv. eapply elem_of_submseteq; [exact Hiv|apply (m_exts _ _ _ _ _ _ _ _ Hm)].
Qed.

(** ** Frames *)

(** Another file agrees on the header, the index and the extents [ivs]. *)
Definition agrees (ivs : list interval) (f f' : file) : Prop :=
  f_size f' = f_size f ∧ f_grow f' = f_grow f ∧
  ∀ a, 0 ≤ a < GridStart ∨ (∃ iv, iv ∈ ivs ∧ ext_addr iv a) → f_data f' a = f_data f a.

Lemma agrees_trans ivs f1 f2 f3 : agrees ivs f1 f2 → agrees ivs f2 f3 → agrees ivs f1 f3.
Proof.
  intros (? & ? & H1) (? & ? & H2). split; [congruence|]. split; [congruence|].
  intros a Ha. by rewrite H2, H1.
Qed.

Lemma header_valid_ext id g g' :
  (∀ a, 0 ≤ a < IndexStart → g' a = g a) → header_valid id g → header_valid id g'.
Proof.
  intros Hg (H1 & H2 & H3). unfold header_valid.
  rewrite (bytes_at_ext g' g 0 4), (bytes_at_ext g' g 4 2), (bytes_at_ext g' g 8 8)
    by (intros; apply Hg; llia). done.
Qed.

Lemma tail_zero_ext g g' off :
  (∀ a, IndexStart ≤ a < GridStart → g' a = g a) → IndexStart ≤ off → tail_zero g off →
  tail_zero g' off.
Proof. intros Hg Ho H a Ha. rewrite Hg by lia. by apply H. Qed.

Lemma log_end_start es : IndexStart ≤ log_end es.
Proof. unfold log_end. lia. Qed.

(** The tables of a mirrored index lie in confirmed extents. *)
Lemma mirrors_tables_local d f refs pk ivs iend es st g' :
  disk_ok d → mirrors d f refs pk ivs iend es st →
  (∀ a, (∃ iv, iv ∈ ivs ∧ ext_addr iv a) → g' a = f_data f a) →
  tables_local d (rs_tables st) refs (f_data f) g'.
Proof.
  intros Hd Hm Hg t ref Ht Hr. destruct (m_tables _ _ _ _ _ _ _ _ Hm t Ht) as (ref' & Hr' & Hp).
  rewrite Hr in Hr'. injection Hr' as <-. split; [done|]. intros addr i k a Ha Hin.
  pose proof (mirrors_backed _ _ _ _ _ _ _ _ _ _ Hm Hr) as Hbr.
  destruct (ref_backed_addr d ivs ref Hd Hbr) as (iv & Hiv & HA & _ & Hext).
  rewrite HA in Ha. injection Ha as <- <- <-. apply Hg. exists iv. split; [done|]. apply Hext.
  pose proof (rb_range _ _ _ Hbr). lia.
Qed.

Lemma mirrors_frame d f f' refs pk ivs iend es st :
  disk_ok d → mirrors d f refs pk ivs iend es st →
  agrees ivs f f' → mirrors d f' refs pk ivs iend es st.
Proof.
  intros Hd Hm (Hsz & Hgr & Hdat). pose proof Hm as [Hlog Htail ? ? ? Hload ? ? ? ?].
  assert (Hidx : ∀ a, IndexStart ≤ a < GridStart → f_data f' a = f_data f a)
    by (intros a Ha; apply Hdat; left; llia).
  constructor; try done.
  - apply (index_log_ext (f_data f)); [|done]. intros. symmetry. by apply Hidx.
  - eapply tail_zero_ext; [exact Hidx|apply log_end_start|done].
  - pose proof (load_tables_frame d (rs_tables st) (rs_refs st, rs_packed st) (clean f) (clean f')
      (refs, pk) ∅ eq_refl eq_refl ltac:(done) Hload) as H. cbn [fst snd] in H.
    rewrite !(left_id_L ∅ (∪)) in H. apply H; [|by intros ? [? ?]].
    apply (mirrors_tables_local d f refs pk ivs iend es); [done..|]. intros a Ha. apply Hdat. auto.
Qed.

(** ** Appending a committed object *)

(** The entries [Commit] appends, and what they add to the references. *)
Definition new_entries (fid size aliasFor : Z) : list IndexEntry :=
  if aliasFor =? 0 then [mkEntry fid size 0]
  else [mkEntry aliasFor IndexJumpSentinel aliasJumpCode; mkEntry fid size 0].

Definition new_refs (fid size aliasFor : Z) : gmap Z objectRef :=
  if aliasFor =? 0 then {[fid := plain_ref fid size]}
  else <[aliasFor := alias_ref fid size]> {[fid := plain_ref fid size]}.

Record commit_ok (d fid size aliasFor : Z) (iv : interval) (refs : gmap Z objectRef) : Prop := {
  co_fid : is_u64 fid;
  co_alias : is_u64 aliasFor;
  co_size : 0 < size < IndexPackedSentinel;
  co_ext : extent_of d fid size = Ok iv;
  co_new : refs !! fid = None;
  co_pair : aliasFor ≠ 0 → aliasFor ≠ fid ∧ 2 ≤ size ∧ refs !! aliasFor = None
}.

(** The first entry of an alias pair. *)
Lemma replay_jump d st aliasFor :
  rs_alias st = None → rs_pendingPacked st = None → aliasFor ≠ 0 → rs_refs st !! aliasFor = None →
  replay_entry d st (mkEntry aliasFor IndexJumpSentinel aliasJumpCode) =
    Ok (mkRstate (rs_refs st) (rs_packed st) (rs_extents st)
          (Some (mkEntry aliasFor IndexJumpSentinel aliasJumpCode)) None (rs_tables st)).
Proof.
  intros Hal Hpp Hne Hn. unfold replay_entry. rewrite Hpp, Hal.
  replace (IsPackedAnchor _) with false by done.
  replace (IsJumpIndicator _) with true by done. cbn [FID]. rewrite Hn.
  rewrite !(bool_decide_eq_false_2 (is_Some None)) by (by intros []).
  by rewrite (proj2 (Z.eqb_neq aliasFor 0)).
Qed.

Lemma replay_new_entries d st refs fid size aliasFor iv :
  commit_ok d fid size aliasFor iv refs → rs_alias st = None → rs_pendingPacked st = None →
  (∀ k, refs !! k = None → rs_refs st !! k = None) →
  foldM (replay_entry d) st (new_entries fid size aliasFor) =
    Ok (mkRstate (new_refs fid size aliasFor ∪ rs_refs st) (rs_packed st)
          (<[fid := iv]> (rs_extents st)) None None (rs_tables st)).
Proof.
  intros [Hf Ha Hs He Hn Hp] Hal Hpp Hsub. unfold IndexPackedSentinel in Hs.
  assert (Hplain : ∀ st', rs_pendingPacked st' = None → rs_refs st' !! fid = None →
    replay_entry d st' (mkEntry fid size 0) =
      let refs := <[fid := plain_ref fid size]> (rs_refs st') in
      let extents := <[fid := iv]> (rs_extents st') in
      match rs_alias st' with
      | None => Ok (mkRstate refs (rs_packed st') extents None None (rs_tables st'))
      | Some a =>
          if (FID a =? fid) || (size <? 2) then Err (EMsg "invalid alias target")
          else Ok (mkRstate (<[FID a := alias_ref fid size]> refs) (rs_packed st') extents
                     None None (rs_tables st'))
      end).
  { intros st' Hp' Hn'. unfold replay_entry. rewrite Hp'.
    replace (IsPackedAnchor _) with false by done. replace (IsJumpIndicator _) with false by done.
    unfold IsTombstone. cbn [FID Size JumpCode]. change (0 =? 0) with true.
    rewrite (proj2 (Z.eqb_neq size 0)) by lia. cbn [orb andb negb]. unfold IndexPackedSentinel.
    rewrite (proj2 (Z.leb_gt _ _)) by lia. rewrite Hn', bool_decide_eq_false_2 by (by intros []).
    by rewrite He. }
  unfold new_entries, new_refs. destruct (Z.eqb_spec aliasFor 0) as [->|Hne]; cbn [foldM].
  - rewrite Hplain by auto. cbn [mbind res_bind]. rewrite Hal. by rewrite insert_union_singleton_l.
  - destruct (Hp Hne) as (Hne' & Hs2 & Hna).
    rewrite replay_jump by auto. cbn [mbind res_bind].
    rewrite Hplain by (cbn; auto). cbn [rs_alias rs_refs rs_packed rs_extents rs_tables FID].
    rewrite (proj2 (Z.eqb_neq aliasFor fid)) by done. rewrite (proj2 (Z.ltb_ge size 2)) by done.
    cbn [orb mbind res_bind]. do 2 f_equal.
    by rewrite <- insert_union_l, <- insert_union_singleton_l.
Qed.

Lemma new_entries_ok fid size aliasFor :
  is_u64 fid → is_u64 aliasFor → 0 < size < IndexPackedSentinel →
  Forall (λ e, entry_ok e ∧ e ≠ zero_entry) (new_entries fid size aliasFor).
Proof.
  unfold IndexPackedSentinel. intros Hf Ha Hs.
  assert (Hp : entry_ok (mkEntry fid size 0) ∧ mkEntry fid size 0 ≠ zero_entry).
  { split; [unfold entry_ok; cbn; split; [done|lia]|]. intros [= _ ?]. lia. }
  unfold new_entries. destruct (aliasFor =? 0); [by constructor|].
  constructor; [|by constructor]. split; [|done].
  unfold entry_ok, IndexJumpSentinel, aliasJumpCode. cbn. split; [done|lia].
Qed.

Lemma new_refs_lookup fid size aliasFor k :
  new_refs fid size aliasFor !! k =
    if decide (k = aliasFor ∧ aliasFor ≠ 0) then Some (alias_ref fid size)
    else if decide (k = fid) then Some (plain_ref fid size) else None.
Proof.
  unfold new_refs. destruct (Z.eqb_spec aliasFor 0) as [->|Hne].
  - rewrite decide_False by tauto. case_decide as Hk; [subst; apply lookup_singleton_eq|].
    by apply lookup_singleton_ne.
  - destruct (decide (k = aliasFor)) as [->|Hk].
    + by rewrite lookup_insert_eq, decide_True by done.
    + rewrite lookup_insert_ne, decide_False by (done || tauto).
      case_decide; [subst; apply lookup_singleton_eq|by apply lookup_singleton_ne].
Qed.

(** Appending the entries of a commit to the index, nothing else changed in the confirmed
    extents. *)
Lemma mirrors_append d f f' refs pk ivs iend es st fid size aliasFor iv :
  disk_ok d → mirrors d f refs pk ivs iend es st →
  commit_ok d fid size aliasFor iv refs →
  let new := new_entries fid size aliasFor in
  Z.of_nat (length es + length new) ≤ index_capacity →
  f_size f' = f_size f → f_grow f' = f_grow f →
  (∀ a, IndexStart ≤ a < GridStart →
     f_data f' a = upd (f_data f) iend (buf_of (encode_entries new)) a) →
  (∀ a, (∃ iv, iv ∈ ivs ∧ ext_addr iv a) → f_data f' a = f_data f a) →
  ∃ st', mirrors d f' (new_refs fid size aliasFor ∪ refs) pk (ivs ++ [iv])
           (iend + 16 * Z.of_nat (length new)) (es ++ new) st'.
Proof.
  intros Hd Hm Hco new Hcap Hsz Hgr Hidx Hext.
  pose proof Hm as [Hlog Htail Hfold Hal Hpp Hload Hend Hexts Htables Hback].
  pose proof (new_entries_ok fid size aliasFor (co_fid _ _ _ _ _ _ Hco) (co_alias _ _ _ _ _ _ Hco)
    (co_size _ _ _ _ _ _ Hco)) as Hnew. fold new in Hnew.
  rewrite Hend in Hidx.
  destruct (index_log_append (f_data f) (f_data f') es new Hlog Htail Hnew Hcap Hidx)
    as [Hlog' Htail'].
  assert (Hsub : ∀ k, refs !! k = None → rs_refs st !! k = None).
  { intros k Hk. apply eq_None_not_Some. intros Hs.
    apply (load_tables_dom _ _ _ _ _ _ _ Hload) in Hs. cbn in Hs. rewrite Hk in Hs. by destruct Hs. }
  pose proof (replay_fold_ok d es st (index_log_entries_ok _ _ Hlog) Hfold) as Hst.
  assert (Hnone : rs_extents st !! fid = None)
    by (apply (rs_ext_dom _ _ Hst), Hsub, (co_new _ _ _ _ _ _ Hco)).
  eexists. constructor; [done|done| | | | | | | |].
  - rewrite foldM_app, Hfold. cbn [mbind res_bind]. by apply (replay_new_entries d st refs).
  - done.
  - done.
  - cbn [rs_tables rs_refs rs_packed].
    apply (load_tables_frame d (rs_tables st) (rs_refs st, rs_packed st) (clean f) (clean f')
      (refs, pk)); try done.
    + apply (mirrors_tables_local d f refs pk ivs iend es); done.
    + intros k [ref Hk]. rewrite new_refs_lookup in Hk.
      assert (Hkn : refs !! k = None).
      { case_decide as H1; [destruct H1 as [-> H1]; apply (co_pair _ _ _ _ _ _ Hco H1)|].
        case_decide as H2; [subst; apply (co_new _ _ _ _ _ _ Hco)|done]. }
      split; [done|]. intros Ht. apply Htables in Ht as (? & Ht & _). cbn in *. congruence.
  - rewrite Hend. unfold log_end. rewrite length_app. lia.
  - cbn [rs_extents]. rewrite map_to_list_insert by done.
    cbn [fmap list_fmap snd]. rewrite (Permutation_app_comm ivs). by apply submseteq_skip.
  - intros t Ht. apply Htables in Ht as (ref & Ht & Hp). exists ref. split; [|done].
    rewrite lookup_union_r; [done|]. rewrite new_refs_lookup.
    rewrite !decide_False; [done| |].
    + intros ->. rewrite (co_new _ _ _ _ _ _ Hco) in Ht. done.
    + intros [-> Ha]. apply (co_pair _ _ _ _ _ _ Hco) in Ha as (_ & _ & Hn). congruence.
  - cbn [rs_extents]. intros k ref Hk.
    assert (Hmono : ∀ r, ref_backed d (map_to_list (rs_extents st)).*2 r →
      ref_backed d (map_to_list (<[fid := iv]> (rs_extents st))).*2 r).
    { intros r. apply ref_backed_mono. intros x Hx. rewrite map_to_list_insert by done. by right. }
    apply lookup_union_Some_raw in Hk as [Hk|[_ Hk]]; [|destruct (Hback _ _ Hk); auto].
    destruct Hco as [Hf Ha Hs He Hn Hp]. unfold IndexPackedSentinel in Hs.
    assert (Hin : iv ∈ (map_to_list (<[fid := iv]> (rs_extents st))).*2)
      by (rewrite map_to_list_insert by done; left).
    rewrite new_refs_lookup in Hk. case_decide as H1; [|case_decide as H2; [|done]].
    + destruct H1 as [-> H1]. injection Hk as <-. apply Hp in H1.
      split; [done|]. constructor; cbn; try done; try lia. eauto.
    + injection Hk as <-. subst k. split; [done|]. constructor; cbn; try done; try lia. eauto.
Qed.
