(* ===== verification/DeviceOps.v ===== *)
(** * The operations of a disk keep the invariant and refine a map

    For each operation of [DeviceState]: what it returns on every branch, that it keeps [Inv], and
    what it does to the contents of the disk, the abstract map from fids to bytes.  Everything
    here is under arbitrary device faults. *)

From S2P Require Import Prelude Machine Loop Device Layout IndexScan PackedTable Interval.
From S2P Require Import Replay DirectIO DeviceState DeviceInv.
From Stdlib Require Import Strings.Byte.

(** ** PrepareWrite and Abort *)

(** [AddrForFID] accepts no size above the disk, even where its rounding wraps. *)
Lemma AddrForFID_size d fid n addr i k :
  disk_fits d → is_u64 n → AddrForFID d fid n = Ok (addr, i, k) → 0 < n ≤ d.
Proof.
  unfold disk_fits, is_u64, AddrForFID. layout_unfold. intros Hd Hn H.
  rewrite (u64_small (d - 0x10000000)) in H by lia.
  set (k0 := u64 (n + 4096 - 1) / 4096) in *.
  destruct (_ =? 0); [done|]. destruct ((k0 =? 0) || _) eqn:E; [done|].
  assert (0 ≤ k0) by (apply Z.div_pos; [apply u64_range|lia]).
  assert (0 < k0 ≤ (d - 0x10000000) / 4096) by lia.
  pose proof (Z.mul_div_le (d - 0x10000000) 4096 ltac:(lia)).
  pose proof (Z.mul_succ_div_gt (u64 (n + 4096 - 1)) 4096 ltac:(lia)) as Hq.
  fold k0 in Hq.
  destruct (Z.lt_ge_cases (n + 4096 - 1) (2 ^ 64)) as [Hs|Hs].
  - rewrite u64_small in * by lia.
    assert (n ≠ 0). { intros ->. unfold k0 in *. rewrite u64_small in * by lia.
      change ((0 + 4096 - 1) / 4096) with 0 in *. lia. }
    lia.
  - exfalso. assert (Hu : u64 (n + 4096 - 1) = n + 4096 - 1 - 2 ^ 64).
    { unfold u64. rewrite <- (Z.mod_add _ (-1)), Z.mod_small; lia. }
    unfold k0 in *. rewrite Hu in *. rewrite Z.div_small in * by lia. lia.
Qed.

(** A reservation made by [PrepareWrite] and not yet committed or aborted. *)
Record prepared (s : DeviceState) (pw : PreparedWrite) : Prop := {
  pp_fid : is_u64 (pw_fid pw);
  pp_size : 0 < pw_size pw ≤ diskBytes s;
  pp_addr : pw_addr pw = GridStart + start (pw_iv pw) * SlotSize;
  pp_ext : extent_of (diskBytes s) (pw_fid pw) (pw_size pw) = Ok (pw_iv pw);
  pp_pending : pw_iv pw ∈ pendingIntervals s
}.

Lemma set_extents_Inv s ivs pend :
  Inv s → intervals s ⊆+ ivs → disjoint_all (ivs ++ pend) →
  Forall (in_grid (diskBytes s)) (ivs ++ pend) → Inv (set_extents s ivs pend).
Proof.
  intros [Hd Hs Hgr Hh _ _ Hm] Hsub Hdis Hgrid. constructor; try done.
  cbn. intros He. destruct (Hm He) as (es & st & []). exists es, st. constructor; try done.
  by etrans.
Qed.

Lemma pending_in_grid s iv : Inv s → iv ∈ pendingIntervals s → in_grid (diskBytes s) iv.
Proof.
  intros Hs Hiv. pose proof (i_grid _ Hs) as H. rewrite Forall_forall in H. apply H.
  apply elem_of_app. by right.
Qed.

Lemma PrepareWrite_outcome s fid size :
  Inv s → is_u64 fid → is_u64 size →
  let '(res, s') := PrepareWrite fid size s in
  match res with
  | Ok pw => pw_fid pw = fid ∧ pw_size pw = size ∧ indexErr s = None ∧
      s' = set_extents s (intervals s) (pendingIntervals s ++ [pw_iv pw]) ∧ Inv s' ∧ prepared s' pw
  | Err e => s' = s
  end.
Proof.
  intros Hs Hfid Hsize. unfold PrepareWrite.
  destruct (Z.eqb_spec size 0); [done|].
  destruct (AddrForFID (diskBytes s) fid size) as [[[addr i] k]|e] eqn:HA; [|done].
  unfold mbind, M_bind, reserveExtent. destruct (indexErr s); [done|].
  set (iv := mkInterval i (u64 (i + k - 1))).
  assert (Hiv : extent_of (diskBytes s) fid size = Ok iv) by (unfold extent_of; by rewrite HA).
  pose proof (AddrForFID_size _ _ _ _ _ _ (i_disk _ Hs) Hsize HA) as Hb.
  pose proof (disk_fits_ok _ (i_disk _ Hs)) as Hd. pose proof (i_disk _ Hs) as Hf.
  unfold disk_fits in Hf. destruct Hfid as [Hf0 Hf1].
  pose proof (extent_of_Ok (diskBytes s) fid size iv Hd Hf0 ltac:(lia) Hiv) as (_ & Hok & H0 & Hend & _ & HA').
  assert (Haddr : addr = GridStart + start iv * SlotSize) by congruence.
  destruct (anyOverlap (intervals s) iv) eqn:Eo1; [done|].
  destruct (anyOverlap (pendingIntervals s) iv) eqn:Eo2; [done|]. cbn [pw_fid pw_size pw_iv].
  split_and!; try done.
  - apply set_extents_Inv; [done|done| |]; rewrite app_assoc.
    + apply disjoint_all_snoc; [apply Hs|]. by rewrite anyOverlap_app, Eo1, Eo2.
    + rewrite Forall_app. split; [apply Hs|]. by constructor; [|constructor].
  - constructor; cbn; try done. apply elem_of_app. right. by left.
Qed.

Lemma release_Inv s pw :
  Inv s → Inv (set_extents s (intervals s) (removeInterval (pendingIntervals s) (pw_iv pw))).
Proof.
  intros Hs.
  assert (Hsub : intervals s ++ removeInterval (pendingIntervals s) (pw_iv pw)
                 ⊆+ intervals s ++ pendingIntervals s).
  { apply submseteq_skips_l. apply sublist_submseteq. apply sublist_filter. }
  apply set_extents_Inv; [done|done| |].
  - eapply disjoint_all_submseteq; [exact Hsub|apply Hs].
  - apply Forall_forall. intros iv Hiv. pose proof (i_grid _ Hs) as H.
    rewrite Forall_forall in H. apply H. by eapply elem_of_submseteq.
Qed.

(** ** WriteFrom *)
Lemma Inv_file_frame s f' :
  Inv s → agrees (intervals s) (ds_file s) f' → Inv (set_file s f').
Proof.
  intros [Hd Hs Hgr Hh Hdis Hgrid Hm] Hag. pose proof Hag as (Hsz & Hg & Hdat).
  constructor; cbn; try done.
  - by rewrite Hsz.
  - by rewrite Hg.
  - eapply header_valid_ext; [|done]. intros. apply Hdat. left. llia.
  - intros He. destruct (Hm He) as (es & st & Hmir). exists es, st.
    eapply mirrors_frame; [by apply disk_fits_ok|done|done].
Qed.

(** Nothing outside the extent of [iv] changed. *)
Definition only_extent (iv : interval) (f f' : file) : Prop :=
  f_size f' = f_size f ∧ f_grow f' = f_grow f ∧ ∀ a, ¬ ext_addr iv a → f_data f' a = f_data f a.

Lemma pending_confirmed_disjoint s iv iv' :
  Inv s → iv ∈ intervals s → iv' ∈ pendingIntervals s → overlaps iv iv' = false.
Proof.
  intros Hs H1 H2. pose proof (i_disjoint _ Hs) as H. rewrite disjoint_all_app in H.
  destruct H as (_ & _ & H). rewrite Forall_forall in H. specialize (H _ H1).
  rewrite Forall_forall in H. auto.
Qed.

Lemma only_extent_agrees s iv f' :
  Inv s → iv ∈ pendingIntervals s → only_extent iv (ds_file s) f' →
  agrees (intervals s) (ds_file s) f'.
Proof.
  intros Hs Hiv (Hsz & Hgr & Hd). split; [done|]. split; [done|].
  intros a Ha. apply Hd. intros Hext. destruct Ha as [Ha|(iv' & Hiv' & Ha)].
  - pose proof (in_grid_addr _ _ _ (disk_fits_ok _ (i_disk _ Hs)) (pending_in_grid _ _ Hs Hiv) Hext).
    lia.
  - by apply (ext_addr_disjoint _ _ _ (pending_confirmed_disjoint _ _ _ Hs Hiv' Hiv) Ha).
Qed.

(** The address arithmetic of a prepared write. *)
Lemma prepared_geometry s pw :
  Inv s → prepared s pw →
  let k := end_ (pw_iv pw) - start (pw_iv pw) + 1 in
  in_grid (diskBytes s) (pw_iv pw) ∧ 0 < k < 2 ^ 51 ∧ GridStart ≤ pw_addr pw ∧
  pw_size pw ≤ k * SlotSize ∧ pw_addr pw + k * SlotSize ≤ diskBytes s ∧
  u64 (u64 k * SlotSize) = k * SlotSize ∧
  ∀ a, ext_addr (pw_iv pw) a ↔ pw_addr pw ≤ a < pw_addr pw + k * SlotSize.
Proof.
  intros Hs [[Hf0 Hf1] Hsz Had Hext _] k.
  pose proof (disk_fits_ok _ (i_disk _ Hs)) as Hd. pose proof (i_disk _ Hs) as Hfit.
  unfold disk_fits in Hfit.
  pose proof (extent_of_Ok (diskBytes s) (pw_fid pw) (pw_size pw) _ Hd Hf0 ltac:(lia) Hext)
    as (_ & Hok & H0 & Hend & Hcov & _).
  pose proof (disk_slots_range _ Hd). pose proof (grid_end _ Hd) as Hge.
  unfold interval_ok in Hok. subst k. set (k := end_ (pw_iv pw) - start (pw_iv pw) + 1) in *.
  unfold ext_addr. rewrite Had. layout_unfold. rewrite (u64_small k) by lia.
  rewrite u64_small by lia. split_and!; try done; try lia.
Qed.

Lemma WriteFrom_outcome s pw acquire r :
  Inv s → prepared s pw → 0 ≤ st_remaining r →
  let '(res, s') := WriteFrom pw acquire r s in
  Inv s' ∧ s' = set_file s (ds_file s') ∧ only_extent (pw_iv pw) (ds_file s) (ds_file s') ∧
  match res with
  | Ok _ => exactly r (pw_size pw) ∧
      ∀ i, 0 ≤ i < pw_size pw → f_data (ds_file s') (pw_addr pw + i) = payload r i
  | Err _ => acquire = None → f_faults (ds_file s) = [] → ¬ exactly r (pw_size pw)
  end.
Proof.
  intros Hs Hpw Hr. unfold WriteFrom. destruct acquire as [e|].
  { split_and!; try done. by destruct s. }
  pose proof (prepared_geometry s pw Hs Hpw) as (Hgrid & Hk & Hga & Hcov & Hend & -> & Haddr).
  set (k := end_ (pw_iv pw) - start (pw_iv pw) + 1) in *.
  pose proof (i_disk _ Hs) as Hfit. unfold disk_fits in Hfit. pose proof (i_size _ Hs) as Hsz.
  pose proof (pp_size _ _ Hpw) as Hps.
  pose proof (write_payload_outcome (directFile s) (pw_addr pw) (pw_size pw) (k * SlotSize)
    (ds_file s) r ltac:(llia) ltac:(lia) ltac:(lia) ltac:(lia)
    ltac:(apply Z.mod_mul; layout_unfold; lia) Hr) as Hw.
  destruct (write_payload _ _ _ _ _) as [res [f' r']].
  assert (Hout : only_extent (pw_iv pw) (ds_file s) f').
  { assert (Ht : touched (ds_file s) (pw_addr pw) (k * SlotSize) f')
      by (destruct res; destruct Hw as [Hw _]; [eapply filled_touched; [|exact Hw]; lia|done]).
    destruct Ht as [Hd ? ? _]. split; [done|]. split; [done|]. intros a Ha. apply Hd.
    rewrite Haddr in Ha. lia. }
  split; [apply Inv_file_frame; [done|]; by eapply only_extent_agrees; [|apply Hpw|]|].
  split; [done|]. split; [done|]. cbn. destruct res as [[]|e]; [|by intros _; apply Hw].
  destruct Hw as [Hfl Hex]. split; [done|]. intros i Hi. rewrite (filled_data _ _ _ _ _ Hfl).
  replace (_ && _) with true by lia. unfold content.
  replace (pw_addr pw + i - pw_addr pw) with i by lia. by rewrite (proj2 (Z.ltb_lt _ _)) by lia.
Qed.

(** ** Commit *)
Lemma must_sync_spec f :
  let '(res, f') := must_sync f in
  (∀ a, f_data f' a = f_data f a) ∧ f_size f' = f_size f ∧ f_grow f' = f_grow f ∧
  (is_ok res = true → f_dirty f' = []) ∧
  (f_faults f = [] → is_ok res = true ∧ f_faults f' = []).
Proof.
  unfold must_sync. destruct (Sync f) as [err f'] eqn:E.
  pose proof (Sync_data _ _ _ E) as (Hd & Hs & Hg). unfold Sync, next_fault in E.
  destruct (f_faults f) as [|[|k] l] eqn:Ef; injection E as <- <-; split_and!; try done; intros;
    cbn in *; split_and?; congruence.
Qed.

Lemma must_sync_dirty f r f' addr len : must_sync f = (r, f') → dirty_in f addr len f'.
Proof.
  unfold must_sync, Sync, next_fault. destruct (f_faults f) as [|[|k] l]; intros [= <- <-].
  - by apply dirty_in_synced.
  - by apply dirty_in_synced.
  - apply (dirty_in_same _ _ _ f); [done|apply dirty_in_refl].
Qed.

Lemma write_index_spec b off f :
  0 ≤ off → 0 ≤ blen b → off + blen b ≤ f_size f → f_size f < 2 ^ 63 →
  let '(res, f') := write_index b off f in
  touched f off (blen b) f' ∧
  (is_ok res = true → filled f (bat b) off (blen b) f' ∧ f_dirty f' = []) ∧
  (f_faults f = [] → is_ok res = true).
Proof.
  intros Ho Hb Hs Hmax. unfold write_index. rewrite int64_small by lia.
  destruct (WriteAt b off f) as [[n err] f1] eqn:E.
  apply WriteAt_touched in E as (Ht & Hok & Hnf); [|done..]. cbn [fst snd] in *.
  destruct err as [e|].
  { split; [done|]. split; [done|]. by intros H%Hnf. }
  destruct (Hok eq_refl) as [-> Hfl]. rewrite Z.eqb_refl. cbn [negb].
  pose proof (must_sync_spec f1) as Hsy. destruct (must_sync f1) as [res f2] eqn:Esy.
  destruct Hsy as (Hd & Hsz & Hg & Hdirty & Hff).
  assert (Hff' : f_faults f = [] → is_ok res = true ∧ f_faults f2 = [])
    by (intros H; apply Hff, (touched_faults _ _ _ _ Ht H)).
  split_and!.
  - destruct Ht as [Ht ? ? ? Hdi]. constructor; try congruence; [|by intros [_ ?]%Hff'|].
    + intros a Ha. by rewrite Hd, Ht.
    + eapply dirty_in_trans; [exact Hdi|]. exact (must_sync_dirty f1 res f2 _ _ Esy).
  - intros Hres. split; [|auto]. destruct Hfl as [Hfl ? ? ?].
    constructor; try congruence; [|by intros [_ ?]%Hff'|by apply dirty_in_synced, Hdirty]. intros a. by rewrite Hd, Hfl.
  - by intros [? _]%Hff'.
Qed.

Lemma commit_entry_Ok fid size aliasFor entry :
  commit_entry fid size aliasFor = Ok entry →
  entry = encode_entries (new_entries fid size aliasFor).
Proof.
  unfold commit_entry, new_entries. intros H.
  apply res_bind_Ok in H as (e1 & H1 & H). apply BuildIndexEntry_Ok in H1 as (-> & _).
  destruct (Z.eqb_spec aliasFor 0); cbn [negb] in H.
  - by injection H as <-.
  - apply res_bind_Ok in H as (e2 & H2 & [= <-]). apply BuildIndexEntry_Ok in H2 as (-> & _).
    unfold encode_entries. cbn [fmap list_fmap concat]. by rewrite app_nil_r.
Qed.

(** Nothing outside the index changed. *)
Definition same_grid (f f' : file) : Prop :=
  ∀ a, a < IndexStart ∨ GridStart ≤ a → f_data f' a = f_data f a.

(** What a failed [Commit] leaves: everything as before, except that the disk may be poisoned. *)
Record commit_failed (s s' : DeviceState) : Prop := {
  cf_inv : Inv s';
  cf_confirmed : confirmed s' = confirmed s;
  cf_packed : packed s' = packed s;
  cf_intervals : intervals s' = intervals s;
  cf_pending : pendingIntervals s' = pendingIntervals s;
  cf_end : indexEnd s' = indexEnd s;
  cf_bytes : diskBytes s' = diskBytes s;
  cf_grid : same_grid (ds_file s) (ds_file s');
  cf_err : indexErr s' = indexErr s ∨ is_Some (indexErr s')
}.

Record committed (s : DeviceState) (pw : PreparedWrite) (aliasFor : Z) (s' : DeviceState) : Prop := {
  cm_inv : Inv s';
  cm_err : indexErr s = None ∧ indexErr s' = None;
  cm_new : confirmed s !! pw_fid pw = None ∧
    (aliasFor ≠ 0 → aliasFor ≠ pw_fid pw ∧ 2 ≤ pw_size pw ∧ confirmed s !! aliasFor = None);
  cm_confirmed : confirmed s' = new_refs (pw_fid pw) (pw_size pw) aliasFor ∪ confirmed s;
  cm_packed : packed s' = packed s;
  cm_intervals : intervals s' = intervals s ++ [pw_iv pw];
  cm_pending : pendingIntervals s' = removeInterval (pendingIntervals s) (pw_iv pw);
  cm_bytes : diskBytes s' = diskBytes s;
  cm_grid : same_grid (ds_file s) (ds_file s');
  cm_durable : f_dirty (ds_file s') = []
}.

Lemma commit_failed_refl s : Inv s → commit_failed s s.
Proof. constructor; try done. by left. Qed.

(** A failed step that changed only the file, and not what it holds. *)
Lemma commit_failed_file s f' :
  Inv s → (∀ a, f_data f' a = f_data (ds_file s) a) → f_size f' = f_size (ds_file s) →
  f_grow f' = f_grow (ds_file s) → commit_failed s (set_file s f').
Proof.
  intros Hs Hd Hsz Hg. constructor; try done; [|by intros a _; apply Hd|by left].
  apply Inv_file_frame; [done|]. by split_and!.
Qed.

(** A rollback that failed poisons the disk. *)
Lemma commit_failed_poison s f' e :
  Inv s → f_size f' = f_size (ds_file s) → f_grow f' = f_grow (ds_file s) →
  same_grid (ds_file s) f' → commit_failed s (set_indexErr (set_file s f') (Some e)).
Proof.
  intros [] Hsz Hg Hd. constructor; try done; [|by right].
  constructor; cbn; try done; try congruence.
  eapply header_valid_ext; [|done]. intros. apply Hd. left. lia.
Qed.

(** The commit of a reservation moves it to the confirmed extents. *)
Lemma committed_extents s pw :
  Inv s → pw_iv pw ∈ pendingIntervals s →
  disjoint_all ((intervals s ++ [pw_iv pw]) ++ removeInterval (pendingIntervals s) (pw_iv pw)) ∧
  Forall (in_grid (diskBytes s))
    ((intervals s ++ [pw_iv pw]) ++ removeInterval (pendingIntervals s) (pw_iv pw)).
Proof.
  intros Hs Hin.
  assert (Hp : (intervals s ++ [pw_iv pw]) ++ removeInterval (pendingIntervals s) (pw_iv pw) ≡ₚ
    intervals s ++ pendingIntervals s).
  { rewrite <- app_assoc. f_equiv. cbn. symmetry. apply removeInterval_perm; [| |done].
    - by apply (pending_in_grid s).
    - pose proof (i_disjoint _ Hs) as H. apply disjoint_all_app in H. tauto. }
  rewrite Hp. split; [apply Hs|apply Hs].
Qed.

Lemma touched_index_grid f off len f' :
  IndexStart ≤ off → off + len ≤ GridStart → touched f off len f' → same_grid f f'.
Proof. intros Ho Hle [Hd _ _ _ _] a Ha. apply Hd. lia. Qed.

Lemma same_grid_trans f1 f2 f3 : same_grid f1 f2 → same_grid f2 f3 → same_grid f1 f3.
Proof. intros H1 H2 a Ha. by rewrite H2, H1. Qed.

(** The rollback: whether it restores the tail of the index or poisons the disk, a failed commit
    changes nothing else. *)
Lemma rollback_outcome s f1 f2 es len :
  Inv s → tail_zero (f_data (ds_file s)) (log_end es) → 0 ≤ len → log_end es + len ≤ GridStart →
  (∀ a, f_data f1 a = f_data (ds_file s) a) → f_size f1 = diskBytes s → f_grow f1 = false →
  touched f1 (log_end es) len f2 →
  let '(r, f3) := write_index (zeros len) (log_end es) f2 in
  commit_failed s (match r with
    | Ok _ => set_file s f3
    | Err e =>
        set_indexErr (set_file s f3) (Some (EWrap "index rollback failed; reopen required" e))
    end).
Proof.
  intros Hs Htail Hlen Hend Hd1 Hsz1 Hg1 Ht.
  pose proof (i_disk _ Hs) as Hdisk. unfold disk_fits in Hdisk.
  pose proof (log_end_start es) as Hst. pose proof (touched_size _ _ _ _ Ht) as Hsz2.
  pose proof (write_index_spec (zeros len) (log_end es) f2 ltac:(llia) ltac:(cbn; lia)
    ltac:(cbn; lia) ltac:(lia)) as Hw. cbn [blen zeros] in Hw.
  destruct (write_index _ _ f2) as [r f3]. destruct Hw as (Ht3 & Hok & _).
  assert (Hsz3 : f_size f3 = f_size (ds_file s))
    by (rewrite (touched_size _ _ _ _ Ht3), Hsz2, Hsz1; symmetry; apply Hs).
  assert (Hg3 : f_grow f3 = f_grow (ds_file s))
    by (rewrite (touched_grow _ _ _ _ Ht3), (touched_grow _ _ _ _ Ht), Hg1; symmetry; apply Hs).
  destruct r as [[]|e'].
  - apply commit_failed_file; try done. intros a. destruct Hok as [Hfl _]; [done|].
    rewrite (filled_data _ _ _ _ _ Hfl). destruct (_ && _) eqn:E.
    + cbn. symmetry. apply Htail. lia.
    + rewrite (touched_data _ _ _ _ Ht), Hd1 by lia. done.
  - apply commit_failed_poison; try done. apply (same_grid_trans _ f1); [intros a _; apply Hd1|].
    apply (same_grid_trans _ f2); eapply touched_index_grid; done.
Qed.

Lemma Commit_outcome s pw aliasFor :
  Inv s → prepared s pw → is_u64 aliasFor →
  let '(res, s') := Commit pw aliasFor s in
  match res with
  | Ok _ => committed s pw aliasFor s'
  | Err _ => commit_failed s s'
  end.
Proof.
  intros Hs Hpw Hal. unfold Commit. destruct (_ || _) eqn:E1; [by apply commit_failed_refl|].
  destruct (indexErr s) as [e|] eqn:Eerr; [by apply commit_failed_refl|].
  destruct (bool_decide _ || _) eqn:E2; [by apply commit_failed_refl|].
  destruct (commit_entry _ _ _) as [entry|e] eqn:Ee; [|by apply commit_failed_refl].
  apply commit_entry_Ok in Ee as ->.
  set (new := new_entries (pw_fid pw) (pw_size pw) aliasFor) in *.
  destruct (i_mirror _ Hs Eerr) as (es & st & Hm). pose proof (m_end _ _ _ _ _ _ _ _ Hm) as Hend.
  pose proof (log_capacity _ _ (m_log _ _ _ _ _ _ _ _ Hm)) as Hcap.
  pose proof (m_tail _ _ _ _ _ _ _ _ Hm) as Htail.
  pose proof (i_disk _ Hs) as Hdisk. pose proof (disk_fits_ok _ Hdisk) as Hd.
  unfold disk_fits in Hdisk. pose proof (i_size _ Hs) as Hsz.
  pose proof (pp_size _ _ Hpw) as Hps.
  assert (Hlen : Z.of_nat (length (encode_entries new)) = 16 * Z.of_nat (length new))
    by (rewrite length_encode_entries; lia).
  assert (Hnlen : 1 ≤ Z.of_nat (length new) ≤ 2)
    by (subst new; unfold new_entries; destruct (aliasFor =? 0); cbn; lia).
  rewrite Hend, Hlen. pose proof (log_end_start es) as Hst.
  assert (Hle : log_end es ≤ GridStart) by (unfold log_end; llia).
  rewrite u64_small by llia. destruct (Z.ltb_spec GridStart (log_end es + 16 * Z.of_nat (length new)))
    as [|Hfit]; [by apply commit_failed_refl|].
  pose proof (must_sync_spec (ds_file s)) as Hsy. destruct (must_sync (ds_file s)) as [r1 f1].
  destruct Hsy as (Hd1 & Hsz1 & Hg1 & _ & _).
  destruct r1 as [[]|e]; [|by apply commit_failed_file].
  pose proof (write_index_spec (buf_of (encode_entries new)) (log_end es) f1 ltac:(llia)
    ltac:(cbn; lia) ltac:(cbn; llia) ltac:(llia)) as Hw. cbn [blen buf_of] in Hw. rewrite Hlen in Hw.
  destruct (write_index (buf_of _) _ f1) as [r2 f2]. destruct Hw as (Ht2 & Hok & _).
  destruct r2 as [[]|e].
  2: { pose proof (rollback_outcome s f1 f2 es (16 * Z.of_nat (length new)) Hs Htail ltac:(lia) Hfit Hd1
         ltac:(congruence) ltac:(rewrite Hg1; apply Hs) Ht2) as Hr.
       by destruct (write_index (zeros _) _ f2) as [[[]|ce] f3]. }
  destruct (Hok eq_refl) as [Hfl Hdirty].
  apply orb_false_iff in E2 as [E2 E3]. apply bool_decide_eq_false in E2.
  assert (Hnew : confirmed s !! pw_fid pw = None ∧
    (aliasFor ≠ 0 → aliasFor ≠ pw_fid pw ∧ 2 ≤ pw_size pw ∧ confirmed s !! aliasFor = None)).
  { split; [by apply eq_None_not_Some|]. intros Hne. rewrite (proj2 (Z.eqb_neq aliasFor 0)) in E1, E3 by done.
    cbn [negb andb] in E1, E3. apply bool_decide_eq_false in E3.
    split; [lia|]. split; [lia|]. by apply eq_None_not_Some. }
  assert (Hgrid : same_grid (ds_file s) f2).
  { apply (same_grid_trans _ f1); [intros a _; apply Hd1|]. by eapply touched_index_grid. }
  assert (Hco : commit_ok (diskBytes s) (pw_fid pw) (pw_size pw) aliasFor (pw_iv pw) (confirmed s)).
  { destruct Hpw, Hnew. constructor; try done. unfold IndexPackedSentinel. lia. }
  destruct (mirrors_append (diskBytes s) (ds_file s) f2 (confirmed s) (packed s) (intervals s)
    (indexEnd s) es st (pw_fid pw) (pw_size pw) aliasFor (pw_iv pw) Hd Hm Hco) as (st' & Hm').
  { fold new. unfold log_end in Hfit. llia. }
  { rewrite (touched_size _ _ _ _ Ht2). congruence. }
  { rewrite (touched_grow _ _ _ _ Ht2). congruence. }
  { intros a Ha. fold new. rewrite Hend, (filled_data _ _ _ _ _ Hfl), Hd1. unfold upd.
    cbn [blen buf_of]. by rewrite Hlen. }
  { intros a (iv & Hiv & Ha). apply Hgrid. right. apply (in_grid_addr (diskBytes s) iv); [done| |done].
    pose proof (i_grid _ Hs) as Hig. rewrite Forall_forall in Hig. apply Hig, elem_of_app. by left. }
  fold new in Hm'. rewrite Hend in Hm'.
  destruct (committed_extents s pw Hs (pp_pending _ _ Hpw)) as [Hdis Hgr].
  assert (Econf : (if negb (aliasFor =? 0)
      then <[aliasFor := alias_ref (pw_fid pw) (pw_size pw)]>
             (<[pw_fid pw := plain_ref (pw_fid pw) (pw_size pw)]> (confirmed s))
      else <[pw_fid pw := plain_ref (pw_fid pw) (pw_size pw)]> (confirmed s)) =
    new_refs (pw_fid pw) (pw_size pw) aliasFor ∪ confirmed s).
  { unfold new_refs. destruct (aliasFor =? 0); cbn [negb].
    - by rewrite insert_union_singleton_l.
    - by rewrite <- insert_union_l, <- insert_union_singleton_l. }
  rewrite Econf. constructor; try done.
  constructor; cbn; try done.
  - by rewrite (touched_size _ _ _ _ Ht2), Hsz1.
  - rewrite (touched_grow _ _ _ _ Ht2), Hg1. apply Hs.
  - eapply header_valid_ext; [|apply Hs]. intros. apply Hgrid. left. lia.
  - intros _. eauto.
Qed.
