(* ===== verification/DiskStore.v ===== *)
(** * A disk is a write-once map from fids to bytes

    [contents] is the abstract state of a disk.  [PrepareWrite], [WriteFrom], [Abort] and failed
    commits leave it alone, a commit adds the object and its alias, [Get] reads it, and reopening
    the device finds the same map.  The abstract machine is [store_step]. *)

From S2P Require Import Prelude Machine Loop Device Layout IndexScan PackedTable Interval.
From S2P Require Import Replay DirectIO DeviceState DeviceInv DeviceOps.
From Stdlib Require Import Strings.Byte.

(** The bytes a reference stands for. *)
Definition ref_bytes (d : Z) (g : Z → byte) (ref : objectRef) : list byte :=
  match AddrForFID d (r_fid ref) (storedSize ref) with
  | Ok (addr, _, _) => bytes_at g (addr + r_offset ref) (Z.to_nat (r_size ref))
  | Err _ => []
  end.

Definition contents (s : DeviceState) (fid : Z) : option (list byte) :=
  ref_bytes (diskBytes s) (f_data (ds_file s)) <$> confirmed s !! fid.

(** The abstract store: objects are added once and never change. *)
Definition store : Type := Z → option (list byte).

Definition store_put (fid : Z) (l : list byte) (aliasFor : Z) (m : store) : store := λ k,
  if decide (k = aliasFor ∧ aliasFor ≠ 0) then Some (take (length l - 1) l)
  else if decide (k = fid) then Some l else m k.

Inductive store_step (m : store) : store → Prop :=
  | store_stutter m' : (∀ k, m' k = m k) → store_step m m'
  | store_add fid l aliasFor m' :
      m fid = None → l ≠ [] → (aliasFor ≠ 0 → aliasFor ≠ fid ∧ m aliasFor = None ∧ (2 ≤ length l)%nat) →
      (∀ k, m' k = store_put fid l aliasFor m k) → store_step m m'.

(** ** Lemmas *)
Lemma ref_bytes_ext d ivs g g' ref :
  disk_ok d → ref_backed d ivs ref →
  (∀ iv a, iv ∈ ivs → ext_addr iv a → g' a = g a) → ref_bytes d g' ref = ref_bytes d g ref.
Proof.
  intros Hd Hb Hg. unfold ref_bytes.
  destruct (ref_backed_addr d ivs ref Hd Hb) as (iv & Hiv & -> & _ & Hext).
  destruct (rb_range _ _ _ Hb) as (Hs & Ho & Hle).
  apply bytes_at_ext. intros a Ha. apply (Hg iv); [done|]. apply Hext. lia.
Qed.

Lemma Inv_backed s fid ref :
  Inv s → indexErr s = None → confirmed s !! fid = Some ref →
  is_u64 fid ∧ ref_backed (diskBytes s) (intervals s) ref.
Proof.
  intros Hs He Hr. destruct (i_mirror _ Hs He) as (es & st & Hm).
  split; [by apply (m_backed _ _ _ _ _ _ _ _ Hm) in Hr as []|by eapply mirrors_backed].
Qed.

(** The contents do not change while the confirmed extents do not. *)
Lemma contents_frame s s' :
  Inv s → indexErr s = None → confirmed s' = confirmed s → diskBytes s' = diskBytes s →
  (∀ iv a, iv ∈ intervals s → ext_addr iv a → f_data (ds_file s') a = f_data (ds_file s) a) →
  ∀ k, contents s' k = contents s k.
Proof.
  intros Hs He Hc Hd Hg k. unfold contents. rewrite Hc, Hd.
  destruct (confirmed s !! k) as [ref|] eqn:Ek; [|done]. cbn. f_equal.
  eapply ref_bytes_ext; [apply disk_fits_ok, Hs|by eapply Inv_backed|done].
Qed.

Lemma interval_addr s iv a :
  Inv s → iv ∈ intervals s → ext_addr iv a → GridStart ≤ a < diskBytes s.
Proof.
  intros Hs Hiv. apply in_grid_addr; [apply disk_fits_ok, Hs|].
  pose proof (i_grid _ Hs) as H. rewrite Forall_forall in H. apply H, elem_of_app. by left.
Qed.

Lemma contents_extent_frame s iv f' :
  Inv s → indexErr s = None → iv ∈ pendingIntervals s → only_extent iv (ds_file s) f' →
  ∀ k, contents (set_file s f') k = contents s k.
Proof.
  intros Hs He Hiv (_ & _ & Hd). apply contents_frame; try done. intros iv' a Hiv' Ha. cbn.
  apply Hd. by apply (ext_addr_disjoint _ _ _ (pending_confirmed_disjoint _ _ _ Hs Hiv' Hiv) Ha).
Qed.

(** The bytes the payload of a prepared write has on the device. *)
Definition payload_bytes (s : DeviceState) (pw : PreparedWrite) : list byte :=
  bytes_at (f_data (ds_file s)) (pw_addr pw) (Z.to_nat (pw_size pw)).

Lemma added_contents s pw aliasFor s' :
  Inv s → prepared s pw → indexErr s = None →
  confirmed s' = new_refs (pw_fid pw) (pw_size pw) aliasFor ∪ confirmed s →
  diskBytes s' = diskBytes s → same_grid (ds_file s) (ds_file s') →
  ∀ k, contents s' k = store_put (pw_fid pw) (payload_bytes s pw) aliasFor (contents s) k.
Proof.
  intros Hs Hpw He Hconf Hb Hgrid k.
  pose proof (disk_fits_ok _ (i_disk _ Hs)) as Hd. pose proof (i_disk _ Hs) as Hfit.
  unfold disk_fits in Hfit.
  destruct (prepared_geometry s pw Hs Hpw) as (_ & _ & Hga & _).
  destruct Hpw as [[Hf0 Hf1] Hsz Had Hext _].
  pose proof (extent_of_Ok (diskBytes s) (pw_fid pw) (pw_size pw) _ Hd Hf0 ltac:(lia) Hext)
    as (_ & _ & _ & _ & _ & HA).
  assert (Hnew : ∀ n, (n ≤ Z.to_nat (pw_size pw))%nat →
    bytes_at (f_data (ds_file s')) (pw_addr pw) n = take n (payload_bytes s pw)).
  { intros n Hle. unfold payload_bytes. rewrite <- bytes_at_take by done.
    apply bytes_at_ext. intros a Ha. apply Hgrid. right. lia. }
  unfold contents, store_put. rewrite Hconf, Hb.
  destruct (decide (k = aliasFor ∧ aliasFor ≠ 0)) as [[-> Hne]|Hk1];
    [|destruct (decide (k = pw_fid pw)) as [->|Hk2]].
  - rewrite (lookup_union_Some_l _ _ _ (alias_ref (pw_fid pw) (pw_size pw)))
      by (by rewrite new_refs_lookup, decide_True).
    cbn. unfold ref_bytes, alias_ref. cbn [r_fid storedSize r_offset r_size].
    rewrite HA, Z.add_0_r, <- Had. f_equal. rewrite Hnew by lia. f_equal.
    unfold payload_bytes. rewrite length_bytes_at. lia.
  - rewrite (lookup_union_Some_l _ _ _ (plain_ref (pw_fid pw) (pw_size pw)))
      by (by rewrite new_refs_lookup, decide_False, decide_True).
    cbn. unfold ref_bytes, plain_ref. cbn [r_fid storedSize r_offset r_size].
    rewrite HA, Z.add_0_r, <- Had. f_equal. rewrite Hnew by lia. apply take_ge.
    unfold payload_bytes. by rewrite length_bytes_at.
  - rewrite lookup_union_r by (by rewrite new_refs_lookup, !decide_False).
    destruct (confirmed s !! k) as [ref|] eqn:Ek; [|done]. cbn. f_equal.
    eapply ref_bytes_ext; [done|by eapply Inv_backed|]. intros iv a Hiv Ha. apply Hgrid. right.
    by apply (interval_addr s iv).
Qed.

Lemma committed_contents s pw aliasFor s' :
  Inv s → prepared s pw → committed s pw aliasFor s' →
  ∀ k, contents s' k = store_put (pw_fid pw) (payload_bytes s pw) aliasFor (contents s) k.
Proof. intros Hs Hpw [_ [He _] _ Hconf _ _ _ Hb Hgrid _]. by apply added_contents. Qed.

Lemma failed_contents s s' :
  Inv s → indexErr s = None → commit_failed s s' → ∀ k, contents s' k = contents s k.
Proof.
  intros Hs He [_ Hc _ _ _ _ Hb Hg _]. apply contents_frame; try done.
  intros iv a Hiv Ha. apply Hg. right. by apply (interval_addr s iv).
Qed.

(** ** A formatted disk *)
Definition fresh_state (g : Z → byte) (d : Z) (direct : bool) (id : Z) : DeviceState :=
  mkState (File g [] d false []) direct id d [] [] ∅ ∅ IndexStart None.

Lemma fresh_mirrors g d :
  (∀ a, IndexStart ≤ a < GridStart → g a = x00) →
  mirrors d (File g [] d false []) ∅ ∅ [] IndexStart [] rstate0.
Proof.
  intros Hz. constructor; cbn; try done.
  - apply index_log_nil. intros a Ha. by apply Hz.
  - intros t Ht. by apply not_elem_of_nil in Ht.
Qed.

Lemma fresh_Inv g d direct id :
  disk_fits d → header_valid id g → (∀ a, IndexStart ≤ a < GridStart → g a = x00) →
  Inv (fresh_state g d direct id).
Proof.
  intros Hd Hh Hz. constructor; try done; cbn.
  intros _. exists [], rstate0. by apply fresh_mirrors.
Qed.

(** The disk the witnesses use. *)
Definition demo_size : Z := GridStart + 100 * SlotSize.
Definition demo_image : Z → byte :=
  upd (λ _, x00) 0 (buf_of (magic_NBSS ++ le_bytes 2 FormatVersion ++ le_bytes 2 0 ++ le_bytes 8 7)).
Definition demo_state : DeviceState := fresh_state demo_image demo_size false 7.

Lemma demo_Inv : Inv demo_state.
Proof.
  apply fresh_Inv.
  - unfold disk_fits, demo_size. llia.
  - repeat split; vm_compute; reflexivity.
  - intros a Ha. unfold demo_image. apply upd_out. cbn. llia.
Qed.

(** ** Properties *)

(** Reserving an extent: success gives an extent of the requested size that overlaps no
    confirmed and no pending extent of the disk and is now pending, and keeps the invariant;
    failure changes nothing; the contents of the disk are untouched. *)
Theorem prepare_write_reserves s fid size :
  Inv s → is_u64 fid → is_u64 size →
  let '(res, s') := PrepareWrite fid size s in
  Inv s' ∧ (∀ k, contents s' k = contents s k) ∧
  match res with
  | Ok pw => prepared s' pw ∧ pw_fid pw = fid ∧ pw_size pw = size ∧
      anyOverlap (intervals s ++ pendingIntervals s) (pw_iv pw) = false ∧
      s' = set_extents s (intervals s) (pendingIntervals s ++ [pw_iv pw])
  | Err _ => s' = s
  end.
Proof.
  intros Hs Hf Hz. pose proof (PrepareWrite_outcome s fid size Hs Hf Hz) as H.
  destruct (PrepareWrite fid size s) as [[pw|e] s'].
  - destruct H as (Hpf & Hps & _ & -> & Hs' & Hpw). split_and!; try done.
    pose proof (i_disjoint _ Hs') as Hd. cbn in Hd. rewrite app_assoc, disjoint_all_app in Hd.
    destruct Hd as (_ & _ & Hd). apply anyOverlap_false. eapply Forall_impl; [exact Hd|].
    cbn. intros a Ha. by apply Forall_cons in Ha as [? _].
  - by subst s'.
Qed.

Lemma prepare_write_reserves_witness :
  let '(res, s') := PrepareWrite 5 10 demo_state in
  is_ok res = true ∧ Inv s' ∧ pendingIntervals s' = [mkInterval 5 5].
Proof.
  pose proof (prepare_write_reserves demo_state 5 10 demo_Inv ltac:(unfold is_u64; lia)
    ltac:(unfold is_u64; lia)) as H.
  assert (E : (PrepareWrite 5 10 demo_state).1 =
    Ok (mkPrepared 5 10 (GridStart + 5 * SlotSize) (mkInterval 5 5))) by reflexivity.
  destruct (PrepareWrite 5 10 demo_state) as [res s']. cbn in E. subst res.
  destruct H as (Hi & _ & _ & _ & _ & _ & ->). by split_and!.
Defined.

(** Streaming a payload writes only inside the reserved extent: the index, the header, every
    confirmed object and every other reservation keep their bytes, and the contents of the disk do
    not change; success means the stream had exactly the declared length and the extent now holds
    it; on a working device a stream of the declared length is accepted. *)
Theorem write_from_isolated s pw acquire r :
  Inv s → prepared s pw → 0 ≤ st_remaining r →
  let '(res, s') := WriteFrom pw acquire r s in
  Inv s' ∧ prepared s' pw ∧ only_extent (pw_iv pw) (ds_file s) (ds_file s') ∧
  (indexErr s = None → ∀ k, contents s' k = contents s k) ∧
  match res with
  | Ok _ => exactly r (pw_size pw) ∧
      payload_bytes s' pw = bytes_at (payload r) 0 (Z.to_nat (pw_size pw))
  | Err _ => acquire = None → f_faults (ds_file s) = [] → ¬ exactly r (pw_size pw)
  end.
Proof.
  intros Hs Hpw Hr. pose proof (WriteFrom_outcome s pw acquire r Hs Hpw Hr) as H.
  destruct (WriteFrom pw acquire r s) as [res s'].
  destruct H as (Hs' & Eq & Hout & Hres). split; [done|].
  split; [rewrite Eq; by destruct Hpw|]. split; [done|]. split.
  - intros He. rewrite Eq. by apply (contents_extent_frame s (pw_iv pw)); [| |apply Hpw|].
  - destruct res as [u|e]; [|done]. destruct Hres as [Hex Hd]. split; [done|].
    unfold payload_bytes, bytes_at. apply list_fmap_ext. intros i x Hi.
    apply lookup_seq in Hi. rewrite Hd by lia. f_equal.
Qed.

Definition demo_stream : stream := Stream (buf_of (replicate 10 x41)) 0 EEOF.
Definition demo_prepared : PreparedWrite :=
  mkPrepared 5 10 (GridStart + 5 * SlotSize) (mkInterval 5 5).
Definition demo_reserved : DeviceState := set_extents demo_state [] [mkInterval 5 5].

Lemma demo_reserved_ok : Inv demo_reserved ∧ prepared demo_reserved demo_prepared.
Proof.
  pose proof (PrepareWrite_outcome demo_state 5 10 demo_Inv ltac:(unfold is_u64; lia)
    ltac:(unfold is_u64; lia)) as H.
  change (PrepareWrite 5 10 demo_state) with (@Ok PreparedWrite demo_prepared, demo_reserved) in H.
  by destruct H as (_ & _ & _ & _ & ? & ?).
Qed.

Lemma write_from_isolated_witness :
  is_ok (WriteFrom demo_prepared None demo_stream demo_reserved).1 = true ∧
  payload_bytes (WriteFrom demo_prepared None demo_stream demo_reserved).2 demo_prepared
    = replicate 10 x41.
Proof.
  destruct demo_reserved_ok as [Hi Hp].
  pose proof (write_from_isolated demo_reserved demo_prepared None demo_stream Hi Hp
    ltac:(done)) as H.
  assert (E : (WriteFrom demo_prepared None demo_stream demo_reserved).1 = Ok tt) by reflexivity.
  destruct (WriteFrom demo_prepared None demo_stream demo_reserved) as [res s']. cbn in E. subst res.
  destruct H as (_ & _ & _ & _ & _ & H). by split.
Defined.

(** ** Reopening *)
Lemma ParseHeader_valid id g :
  header_valid id g →
  ∃ h, ParseHeader (region g 0 HeaderBytes) = Ok h ∧ h_Version h = FormatVersion ∧ h_DiskID h = id.
Proof.
  intros (H1 & H2 & H3). unfold ParseHeader. cbn [blen bat region].
  change (HeaderBytes <? HeaderBytes) with false. cbn match.
  assert (E : ∀ off n, bytes_at (λ i, g (0 + i)) off n = bytes_at g off n) by done.
  rewrite !E, H1, bool_decide_eq_true_2 by done. cbn match. eexists. split; [done|].
  by rewrite <- H2, <- H3.
Qed.

Definition reopened (f : file) (d : Z) (direct : bool) (id : Z) (st : rstate)
    (refs : gmap Z objectRef) (pk : gmap Z packedRecord) (iend : Z) : DeviceState :=
  mkState f direct id d (sort_extents (map_to_list (rs_extents st)).*2) [] refs pk iend None.

Lemma mirrors_ivs d f refs pk ivs ivs' iend es st :
  (map_to_list (rs_extents st)).*2 ⊆+ ivs' →
  mirrors d f refs pk ivs iend es st → mirrors d f refs pk ivs' iend es st.
Proof. intros H []. by constructor. Qed.

Lemma open_mirrors d f refs pk ivs iend es st direct id :
  disk_fits d → f_size f = d → f_grow f = false → header_valid id (f_data f) →
  disjoint_all ivs → mirrors d f refs pk ivs iend es st →
  OpenDevice (clean f) d direct id =
    (Ok (reopened (clean f) d direct id st refs pk iend), clean f) ∧
  Inv (reopened (clean f) d direct id st refs pk iend).
Proof.
  intros Hd Hsz Hg Hh Hdis Hm. pose proof Hm as [Hlog _ Hfold Hal Hpp Hload -> Hexts _ _].
  pose proof (disk_fits_ok _ Hd) as Hdok. unfold disk_fits in Hd.
  pose proof (replay_fold_ok d es st (index_log_entries_ok _ _ Hlog) Hfold) as Hst.
  assert (Hrep : replayIndex d (clean f) =
    (Ok (refs, pk, sort_extents (map_to_list (rs_extents st)).*2, log_end es), clean f)).
  { rewrite (replay_fold d (clean f) es) by (done || (cbn; lia)). rewrite Hfold.
    apply finish_Ok; try done. split_and!; try done.
    by eapply disjoint_all_submseteq. }
  destruct (ParseHeader_valid id (f_data f) Hh) as (h & HP & Hv & Hid).
  split.
  - unfold OpenDevice. rewrite must_read_ok by (done || (cbn; llia)).
    change (f_data (clean f)) with (f_data f). rewrite HP, Hv, Hid, !Z.eqb_refl. cbn [negb orb].
    rewrite (proj2 (Z.leb_gt _ _)) by lia. by rewrite Hrep.
  - constructor; cbn; try done; rewrite ?app_nil_r.
    + rewrite sort_extents_perm. by eapply disjoint_all_submseteq.
    + rewrite sort_extents_perm. by apply extents_in_grid.
    + intros _. exists es, st. eapply (mirrors_ivs d (clean f) refs pk ivs).
      * by rewrite sort_extents_perm.
      * destruct Hm. by constructor.
Qed.

Lemma contents_reopened s f st :
  (∀ a, f_data f a = f_data (ds_file s) a) →
  ∀ k, contents (reopened f (diskBytes s) (directFile s) (diskID s) st (confirmed s) (packed s)
                  (indexEnd s)) k = contents s k.
Proof.
  intros Hf k. unfold contents. cbn. destruct (confirmed s !! k) as [ref|]; [|done]. cbn. f_equal.
  unfold ref_bytes. case_match; [|done]. destruct a as [[a i] n]. apply bytes_at_ext. auto.
Qed.

Lemma reopen_outcome s direct :
  Inv s → indexErr s = None →
  ∃ s', OpenDevice (clean (ds_file s)) (diskBytes s) direct (diskID s) =
          (Ok s', clean (ds_file s)) ∧
    Inv s' ∧ confirmed s' = confirmed s ∧ packed s' = packed s ∧ indexEnd s' = indexEnd s ∧
    intervals s' ⊆+ intervals s ∧ pendingIntervals s' = [] ∧
    ∀ k, contents s' k = contents s k.
Proof.
  intros Hs He. destruct (i_mirror _ Hs He) as (es & st & Hm).
  pose proof (i_disjoint _ Hs) as Hdis. apply disjoint_all_app in Hdis as (Hdis & _ & _).
  destruct (open_mirrors (diskBytes s) (ds_file s) (confirmed s) (packed s) (intervals s)
    (indexEnd s) es st direct (diskID s) (i_disk _ Hs) (i_size _ Hs) (i_grow _ Hs) (i_header _ Hs)
    Hdis Hm) as [Ho Hi].
  eexists. split; [exact Ho|]. split_and!; try done.
  cbn. rewrite sort_extents_perm. apply Hm.
Qed.

(** Opening the device again, after a clean shutdown, rebuilds exactly the state in memory:
    the same references, packed records and index end, a permutation of a part of the confirmed
    extents, no pending ones, and the same contents for every fid; and the new state satisfies the
    invariant. *)
Theorem reopen_same s direct :
  Inv s → indexErr s = None →
  ∃ s', OpenDevice (clean (ds_file s)) (diskBytes s) direct (diskID s) =
          (Ok s', clean (ds_file s)) ∧
    Inv s' ∧ confirmed s' = confirmed s ∧ packed s' = packed s ∧ indexEnd s' = indexEnd s ∧
    intervals s' ⊆+ intervals s ∧ pendingIntervals s' = [] ∧
    ∀ k, contents s' k = contents s k.
Proof. apply reopen_outcome. Qed.

Lemma reopen_same_witness :
  ∃ s', OpenDevice (clean (ds_file demo_state)) demo_size true 7 =
          (Ok s', clean (ds_file demo_state)) ∧ Inv s'.
Proof.
  destruct (reopen_same demo_state true demo_Inv eq_refl) as (s' & H1 & H2 & _). by exists s'.
Defined.

(** ** Commit *)

(** C29: a commit is one step of the abstract store.  If it succeeds the fid was free, the disk now
    maps it to the payload and the alias, if one was asked for, to the payload without its last
    byte, no other fid changes, the extent is confirmed and everything is durable; if it fails,
    whatever the device did, nothing is registered and no reservation is lost, and a failed
    rollback leaves the disk poisoned instead of inconsistent. *)
Theorem commit_refines_store s pw aliasFor :
  Inv s → prepared s pw → is_u64 aliasFor →
  let '(res, s') := Commit pw aliasFor s in
  Inv s' ∧
  match res with
  | Ok _ =>
      contents s (pw_fid pw) = None ∧
      (∀ k, contents s' k = store_put (pw_fid pw) (payload_bytes s pw) aliasFor (contents s) k) ∧
      store_step (contents s) (contents s') ∧
      intervals s' = intervals s ++ [pw_iv pw] ∧
      pendingIntervals s' = removeInterval (pendingIntervals s) (pw_iv pw) ∧
      f_dirty (ds_file s') = []
  | Err _ =>
      (indexErr s = None → ∀ k, contents s' k = contents s k) ∧
      confirmed s' = confirmed s ∧ indexEnd s' = indexEnd s ∧ intervals s' = intervals s ∧
      pendingIntervals s' = pendingIntervals s ∧
      (indexErr s' = indexErr s ∨ is_Some (indexErr s'))
  end.
Proof.
  intros Hs Hpw Ha. pose proof (Commit_outcome s pw aliasFor Hs Hpw Ha) as H.
  destruct (Commit pw aliasFor s) as [[u|e] s'].
  - pose proof (committed_contents s pw aliasFor s' Hs Hpw H) as Hc.
    destruct H as [Hi _ [Hn Hp] _ _ Hiv Hpe _ _ Hd]. split; [done|].
    assert (Hnone : contents s (pw_fid pw) = None) by (unfold contents; by rewrite Hn).
    split_and!; try done.
    assert (Hlen : length (payload_bytes s pw) = Z.to_nat (pw_size pw))
      by apply length_bytes_at.
    pose proof (pp_size _ _ Hpw). eapply store_add; [exact Hnone| | |exact Hc].
    + intros E. rewrite E in Hlen. cbn in Hlen. lia.
    + intros Hne. destruct (Hp Hne) as (? & ? & Hna). split; [done|]. split; [|lia].
      unfold contents. by rewrite Hna.
  - pose proof (failed_contents s s' Hs) as Hc. pose proof H as [].
    split_and!; try done. intros He. by apply Hc.
Qed.

Definition demo_written : DeviceState := (WriteFrom demo_prepared None demo_stream demo_reserved).2.

Lemma demo_written_ok : Inv demo_written ∧ prepared demo_written demo_prepared.
Proof.
  destruct demo_reserved_ok as [Hi Hp].
  pose proof (WriteFrom_outcome demo_reserved demo_prepared None demo_stream Hi Hp ltac:(done)) as H.
  unfold demo_written. destruct (WriteFrom demo_prepared None demo_stream demo_reserved) as [res s'].
  destruct H as (Hi' & Eq & _). split; [done|]. cbn. rewrite Eq. by destruct Hp.
Qed.

Lemma commit_refines_store_witness :
  is_ok (Commit demo_prepared 6 demo_written).1 = true ∧
  Inv (Commit demo_prepared 6 demo_written).2.
Proof.
  destruct demo_written_ok as [Hi Hp].
  pose proof (commit_refines_store demo_written demo_prepared 6 Hi Hp ltac:(unfold is_u64; lia)) as H.
  assert (E : is_ok (Commit demo_prepared 6 demo_written).1 = true) by reflexivity.
  destruct (Commit demo_prepared 6 demo_written) as [res s']. cbn in E. split; [done|apply H].
Defined.

Lemma write_index_accepts b off f :
  0 ≤ off → 0 ≤ blen b → off + blen b ≤ f_size f → f_size f < 2 ^ 63 → f_faults f = [] →
  ∃ f', write_index b off f = (Ok tt, f').
Proof.
  intros Ho Hb Hs Hmax Hf. pose proof (write_index_spec b off f Ho Hb Hs Hmax) as H.
  destruct (write_index b off f) as [[[]|e] f']; [by eauto|].
  destruct H as (_ & _ & H). by specialize (H Hf).
Qed.

(** On a working device with room in the index, a commit whose fid and alias are free, with an
    alias different from the fid and only for objects of at least two bytes, succeeds, and the disk
    then maps the fid and the alias to the payload. *)
Theorem commit_accepts s pw aliasFor :
  Inv s → prepared s pw → is_u64 aliasFor → indexErr s = None → f_faults (ds_file s) = [] →
  confirmed s !! pw_fid pw = None →
  (aliasFor ≠ 0 → aliasFor ≠ pw_fid pw ∧ 2 ≤ pw_size pw ∧ confirmed s !! aliasFor = None) →
  indexEnd s + (if aliasFor =? 0 then 16 else 32) ≤ GridStart →
  ∃ s', Commit pw aliasFor s = (Ok tt, s') ∧
    ∀ k, contents s' k = store_put (pw_fid pw) (payload_bytes s pw) aliasFor (contents s) k.
Proof.
  intros Hs Hpw Ha He Hf Hn Hp Hroom.
  enough (Hok : is_ok (Commit pw aliasFor s).1 = true).
  { pose proof (Commit_outcome s pw aliasFor Hs Hpw Ha) as H.
    destruct (Commit pw aliasFor s) as [[[]|e] s']; [|done]. exists s'. split; [done|].
    by apply committed_contents. }
  unfold Commit. rewrite He.
  assert (E1 : (aliasFor =? pw_fid pw) && negb (aliasFor =? 0) ||
               negb (aliasFor =? 0) && (pw_size pw <? 2) = false)
    by (destruct (Z.eqb_spec aliasFor 0) as [->|Hne]; [cbn; by rewrite andb_false_r
       |destruct (Hp Hne) as (? & ? & _); lia]).
  assert (E2 : bool_decide (is_Some (confirmed s !! pw_fid pw)) ||
               negb (aliasFor =? 0) && bool_decide (is_Some (confirmed s !! aliasFor)) = false).
  { rewrite Hn, (bool_decide_eq_false_2 (is_Some None)) by (by intros []). cbn.
    destruct (Z.eqb_spec aliasFor 0) as [|Hne]; [done|]. destruct (Hp Hne) as (_ & _ & ->).
    done. }
  rewrite E1, E2. pose proof (i_disk _ Hs) as Hd. unfold disk_fits in Hd.
  pose proof (pp_size _ _ Hpw) as Hps. pose proof (i_size _ Hs) as Hsz.
  destruct (i_mirror _ Hs He) as (es & st & Hm). pose proof (log_end_start es) as Hst.
  pose proof (m_end _ _ _ _ _ _ _ _ Hm) as Hend.
  assert (Ee : ∃ entry, commit_entry (pw_fid pw) (pw_size pw) aliasFor = Ok entry ∧
    Z.of_nat (length entry) = if aliasFor =? 0 then 16 else 32).
  { unfold commit_entry. rewrite BuildIndexEntry_plain by (unfold IndexJumpSentinel; lia).
    cbn [mbind res_bind]. destruct (aliasFor =? 0); cbn [negb]; eexists; split; done. }
  destruct Ee as (entry & -> & Hlen). rewrite Hlen.
  assert (Hl : 16 ≤ (if aliasFor =? 0 then 16 else 32) ≤ 32) by (destruct (_ =? 0); lia).
  set (len := if aliasFor =? 0 then 16 else 32) in *.
  rewrite u64_small by llia. rewrite (proj2 (Z.ltb_ge _ _)) by lia.
  pose proof (must_sync_spec (ds_file s)) as Hsy. destruct (must_sync (ds_file s)) as [r f1].
  destruct Hsy as (_ & Hs1 & _ & _ & Hff). destruct (Hff Hf) as [Hr Hf1].
  destruct r as [[]|]; [|done].
  destruct (write_index_accepts (buf_of entry) (indexEnd s) f1) as (f2 & ->);
    [llia|cbn; lia|cbn; llia|lia|done|]. done.
Qed.

Lemma commit_accepts_witness :
  ∃ s', Commit demo_prepared 6 demo_written = (Ok tt, s') ∧
    contents s' 6 = Some (take 9 (payload_bytes demo_written demo_prepared)).
Proof.
  destruct demo_written_ok as [Hi Hp].
  destruct (commit_accepts demo_written demo_prepared 6 Hi Hp) as (s' & E & Hc);
    [unfold is_u64; lia|reflexivity|reflexivity|reflexivity| |discriminate|].
  - intros _. split; [discriminate|]. split; [discriminate|reflexivity].
  - exists s'. split; [exact E|]. exact (Hc 6).
Defined.

(** ** Get *)
Lemma set_file_id s : set_file s (ds_file s) = s.
Proof. by destruct s. Qed.

(** A range of an object, on a working device. *)
Lemma readRange_bytes s fid ref lo hi :
  Inv s → indexErr s = None → f_faults (ds_file s) = [] → confirmed s !! fid = Some ref →
  0 ≤ lo ≤ hi → hi ≤ r_size ref →
  ∃ b, readRange None ref lo hi s = (Ok b, s) ∧ blen b = hi - lo ∧
    buf_list b = take (Z.to_nat (hi - lo))
      (drop (Z.to_nat lo) (ref_bytes (diskBytes s) (f_data (ds_file s)) ref)).
Proof.
  intros Hs He Hf Hr Hlo Hhi. destruct (Inv_backed s fid ref Hs He Hr) as [_ Hb].
  pose proof (disk_fits_ok _ (i_disk _ Hs)) as Hd. pose proof (i_disk _ Hs) as Hfit.
  unfold disk_fits in Hfit. pose proof (i_size _ Hs) as Hsz.
  destruct (ref_backed_addr _ _ _ Hd Hb) as (iv & Hiv & HA & (Hok & H0 & Hend) & Hext).
  destruct (rb_range _ _ _ Hb) as (Hrs & Ho & Hle).
  pose proof (grid_end _ Hd) as Hge.
  assert (Hcov : start iv * SlotSize + storedSize ref ≤ (end_ iv + 1) * SlotSize).
  { destruct (Hext (GridStart + start iv * SlotSize + storedSize ref - 1)) as [_ Hx]; lia. }
  assert (Hin : GridStart + start iv * SlotSize + storedSize ref ≤ diskBytes s)
    by (unfold SlotSize in *; lia).
  assert (Hst : 0 ≤ start iv * SlotSize) by (unfold SlotSize; lia).
  unfold readRange. rewrite HA. unfold maxAlloc. rewrite (u64_small (hi - lo)) by llia.
  rewrite (proj2 (Z.ltb_ge _ _)) by llia.
  rewrite (u64_small (GridStart + start iv * SlotSize + r_offset ref + lo)) by llia.
  rewrite int64_small by llia. rewrite ReadAt_ok by (done || llia). cbn [blen region].
  rewrite Z.eqb_refl, set_file_id. eexists. split; [done|]. split; [done|].
  rewrite buf_list_region. unfold ref_bytes. rewrite HA.
  set (base := GridStart + start iv * SlotSize + r_offset ref).
  replace (base + lo) with (base + Z.of_nat (Z.to_nat lo)) by lia.
  rewrite <- (bytes_at_drop _ base (Z.to_nat (r_size ref)) (Z.to_nat lo)) by lia.
  apply bytes_at_take. lia.
Qed.

Lemma length_ref_bytes s fid ref :
  Inv s → indexErr s = None → confirmed s !! fid = Some ref →
  Z.of_nat (length (ref_bytes (diskBytes s) (f_data (ds_file s)) ref)) = r_size ref.
Proof.
  intros Hs He Hr. destruct (Inv_backed s fid ref Hs He Hr) as [_ Hb].
  destruct (ref_backed_addr _ _ _ (disk_fits_ok _ (i_disk _ Hs)) Hb) as (iv & _ & HA & _).
  unfold ref_bytes. rewrite HA, length_bytes_at. pose proof (rb_range _ _ _ Hb). lia.
Qed.

Lemma Get_contents s fid :
  Inv s → indexErr s = None → f_faults (ds_file s) = [] →
  match contents s fid with
  | Some l => ∃ b, Get fid s = (Ok (b, Z.of_nat (length l)), s) ∧ buf_list b = l
  | None => Get fid s = (Err ENotFound, s)
  end.
Proof.
  intros Hs He Hf. unfold contents, Get, lookup_fid, mbind, M_bind. rewrite He.
  destruct (confirmed s !! fid) as [ref|] eqn:Er; [|done]. cbn [fmap option_fmap option_map].
  destruct (Inv_backed s fid ref Hs He Er) as [_ Hb].
  pose proof (rb_range _ _ _ Hb) as (Hr & _ & _).
  destruct (readRange_bytes s fid ref 0 (r_size ref) Hs He Hf Er ltac:(lia) ltac:(lia))
    as (b & -> & _ & Hl). exists b. pose proof (length_ref_bytes s fid ref Hs He Er) as Hlen.
  rewrite Hlen. split; [done|]. rewrite Hl. cbn [Z.to_nat drop]. apply take_ge. lia.
Qed.

(** On a working device [Get] returns exactly the abstract contents of the disk for the fid,
    with their length, and [ErrNotFound] when there are none; it never changes the disk. *)
Theorem get_reads_contents s fid :
  Inv s → indexErr s = None → f_faults (ds_file s) = [] →
  match contents s fid with
  | Some l => ∃ b, Get fid s = (Ok (b, Z.of_nat (length l)), s) ∧ buf_list b = l
  | None => Get fid s = (Err ENotFound, s)
  end.
Proof. apply Get_contents. Qed.

Lemma get_reads_contents_witness : Get 5 demo_state = (Err ENotFound, demo_state).
Proof. exact (get_reads_contents demo_state 5 demo_Inv eq_refl eq_refl). Defined.

(** ** The write path as a whole *)

(** Reserve, write and commit, aborting when the write or the commit fails. *)
Definition put_object (fid size aliasFor : Z) (r : stream) : M DeviceState unit :=
  pw ← PrepareWrite fid size;
  w ← mcatch (WriteFrom pw None r);
  match w with
  | Err e => Abort pw;; mfail e
  | Ok _ =>
      c ← mcatch (Commit pw aliasFor);
      match c with
      | Err e => Abort pw;; mfail e
      | Ok _ => mret tt
      end
  end.

(** After an object was stored, reading it gives the bytes of its stream, and reading its alias
    gives them without the last byte: the end-to-end round trip of the write path. *)
Theorem put_then_get s fid size aliasFor r s' :
  Inv s → is_u64 fid → is_u64 size → is_u64 aliasFor → 0 ≤ st_remaining r →
  put_object fid size aliasFor r s = (Ok tt, s') → f_faults (ds_file s') = [] →
  let l := bytes_at (payload r) 0 (Z.to_nat size) in
  exactly r size ∧ Inv s' ∧
  (∃ b, Get fid s' = (Ok (b, size), s') ∧ buf_list b = l) ∧
  (aliasFor ≠ 0 → ∃ b, Get aliasFor s' = (Ok (b, size - 1), s') ∧
                       buf_list b = take (Z.to_nat size - 1) l) ∧
  (∀ k, k ≠ fid → (aliasFor ≠ 0 → k ≠ aliasFor) → contents s' k = contents s k).
Proof.
  intros Hs Hf Hz Ha Hr Hput Hnf l. unfold put_object in Hput.
  apply M_bind_Ok in Hput as (pw & s1 & Hp & Hput).
  pose proof (PrepareWrite_outcome s fid size Hs Hf Hz) as H1. rewrite Hp in H1.
  destruct H1 as (<- & <- & He & -> & Hs1 & Hpw).
  set (s1 := set_extents _ _ _) in *. pose proof (pp_size _ _ Hpw) as Hsize.
  apply M_bind_Ok in Hput as (w & s2 & Hw & Hput). unfold mcatch in Hw.
  pose proof (WriteFrom_outcome s1 pw None r Hs1 Hpw Hr) as H2.
  destruct (WriteFrom pw None r s1) as [w' s2']. injection Hw as -> ->.
  destruct w as [u|e]; [|by apply M_bind_Ok in Hput as (? & ? & _ & ?)].
  destruct H2 as (Hs2 & Eq2 & Hout & Hex & Hdat).
  assert (Hpw2 : prepared s2 pw) by (rewrite Eq2; by destruct Hpw).
  apply M_bind_Ok in Hput as (c & s3 & Hc & Hput). unfold mcatch in Hc.
  pose proof (Commit_outcome s2 pw aliasFor Hs2 Hpw2 Ha) as H3.
  destruct (Commit pw aliasFor s2) as [c' s3']. injection Hc as -> ->.
  destruct c as [u'|e]; [|by apply M_bind_Ok in Hput as (? & ? & _ & ?)].
  injection Hput as <-.
  pose proof (committed_contents s2 pw aliasFor s3 Hs2 Hpw2 H3) as Hcont.
  assert (Hl : payload_bytes s2 pw = l).
  { unfold payload_bytes, l, bytes_at. apply list_fmap_ext. intros i x Hi.
    apply lookup_seq in Hi. rewrite Hdat by lia. f_equal. }
  assert (Hlen : length l = Z.to_nat (pw_size pw)) by apply length_bytes_at.
  rewrite Hl in Hcont. destruct H3 as [Hs3 [_ He3] [Hn Hpair] _ _ _ _ _ _ _].
  split; [done|]. split; [done|]. split_and!.
  - pose proof (Get_contents s3 (pw_fid pw) Hs3 He3 Hnf) as Hg. rewrite Hcont in Hg.
    unfold store_put in Hg. rewrite decide_False, decide_True in Hg; [|done|].
    + rewrite Hlen, Z2Nat.id in Hg by lia. done.
    + intros [E Hne]. by destruct (Hpair Hne) as (? & _).
  - intros Hne. pose proof (Get_contents s3 aliasFor Hs3 He3 Hnf) as Hg. rewrite Hcont in Hg.
    unfold store_put in Hg. rewrite decide_True in Hg by done.
    destruct (Hpair Hne) as (_ & H2 & _).
    rewrite length_take, Hlen, Nat.min_l in Hg by lia.
    by replace (Z.of_nat (Z.to_nat (pw_size pw) - 1)) with (pw_size pw - 1) in Hg by lia.
  - intros k Hk Hka. rewrite Hcont. unfold store_put.
    rewrite decide_False by (intros [-> ?]; by apply Hka). rewrite decide_False by done.
    transitivity (contents s1 k); [|done]. rewrite Eq2.
    apply (contents_extent_frame s1 (pw_iv pw)); try done. apply Hpw.
Qed.

Lemma put_then_get_witness :
  ∃ s', put_object 5 10 6 demo_stream demo_state = (Ok tt, s') ∧
    ∃ b, Get 6 s' = (Ok (b, 9), s') ∧ buf_list b = replicate 9 x41.
Proof.
  destruct (put_object 5 10 6 demo_stream demo_state) as [res s'] eqn:E.
  assert (E1 : res = Ok tt) by (change res with ((res, s').1); rewrite <- E; reflexivity).
  assert (E2 : f_faults (ds_file s') = []) by (change s' with ((res, s').2); rewrite <- E; reflexivity).
  subst res. exists s'. split; [done|].
  destruct (put_then_get demo_state 5 10 6 demo_stream s' demo_Inv ltac:(unfold is_u64; lia)
    ltac:(unfold is_u64; lia) ltac:(unfold is_u64; lia) ltac:(done) E E2)
    as (_ & _ & _ & (b & Hb & Hl) & _); [done|]. exists b. split; [exact Hb|].
  rewrite Hl. reflexivity.
Defined.
