(* ===== verification/Crash.v ===== *)
(** * Power failure during a commit

    [Commit] syncs the payload, writes the index entry and syncs again.  [power_cut] stops the device
    after any number of the calls of the commit; what a write had not synced by then may be lost, in
    units of [u] bytes that the device writes atomically.  [settled]: the unsynced writes of a disk lie
    in extents nobody reads yet, which every step of a put keeps.  When the entries of the commit lie
    inside one unit, as a plain entry always does, the disk reopens with or without the object, and with
    it when the commit was answered ([commit_crash_atomic]); the pair of an aliased commit can straddle
    two units, and then the disk may not open at all ([torn_alias_pair]). *)

From S2P Require Import Prelude Machine Loop Device Layout IndexScan PackedTable Interval.
From S2P Require Import Replay DirectIO DeviceState DeviceInv DeviceOps DiskStore.
From Stdlib Require Import Strings.Byte.

(** The power fails after the first [k] calls on the device have succeeded: the later ones do nothing.
    Eight of them are scripted, more than the four calls a commit makes at most. *)
Definition with_faults (f : file) (l : list fault) : file :=
  File (f_base f) (f_dirty f) (f_size f) (f_grow f) l.

Definition power_cut (k : nat) (s : DeviceState) : DeviceState :=
  set_file s (with_faults (ds_file s) (replicate k FNone ++ replicate 8 (FFail 0))).

(** What is written and not synced is outside the header, the index and the confirmed extents. *)
Definition settled (s : DeviceState) : Prop :=
  ∀ off b a, (off, b) ∈ f_dirty (ds_file s) → off ≤ a < off + blen b →
    GridStart ≤ a ∧ ∀ iv, iv ∈ intervals s → ¬ ext_addr iv a.

(** ** Writes of no bytes *)
Definition nonvoid (w : Z * buf) : Prop := 0 < blen w.2.
#[export] Instance nonvoid_dec w : Decision (nonvoid w).
Proof. unfold nonvoid. apply _. Defined.

Lemma filter_nonvoid_sublist ws ws' : ws `sublist_of` ws' → filter nonvoid ws `sublist_of` filter nonvoid ws'.
Proof. induction 1; [done|..]; rewrite ?filter_cons; case_decide; by constructor || done. Qed.

Lemma apply_writes_nonvoid g ws a : apply_writes g (filter nonvoid ws) a = apply_writes g ws a.
Proof.
  induction ws as [|[off b] ws IH] using rev_ind; [done|]. rewrite filter_app, apply_writes_snoc.
  unfold filter at 2, list_filter. case_decide as Hb; unfold nonvoid in Hb; cbn [snd] in Hb.
  - rewrite apply_writes_snoc. unfold upd. destruct (_ && _); [done|exact IH].
  - rewrite app_nil_r, upd_out; [exact IH|lia].
Qed.

Lemma crash_nonvoid u f f' g :
  f_base f' = f_base f → f_dirty f' = filter nonvoid (f_dirty f) → crash u f g → crash u f' g.
Proof.
  intros Hb Hd Hc k. destruct (Hc k) as (ws & Hws & Hg). exists (filter nonvoid ws). rewrite Hb, Hd.
  split; [by apply filter_nonvoid_sublist|]. intros a Ha. rewrite apply_writes_nonvoid. by apply Hg.
Qed.

(** What no unsynced write covers survives. *)
Lemma crash_outside u f g a :
  0 < u → (∀ off b, (off, b) ∈ f_dirty f → a < off ∨ off + blen b ≤ a) → crash u f g → g a = f_data f a.
Proof.
  intros Hu Hout Hc.
  assert (Hbase : ∀ ws, ws ⊆ f_dirty f → apply_writes (f_base f) ws a = f_base f a).
  { induction ws as [|[off b] ws IH] using rev_ind; [done|]. intros Hws. rewrite apply_writes_snoc, upd_out.
    - apply IH. intros x Hx. apply Hws, elem_of_app. by left.
    - apply Hout, Hws, elem_of_app. right. by left. }
  destruct (Hc (a / u)) as (ws & Hws & Hg). rewrite Hg.
  - unfold f_data. rewrite !Hbase; [done|done|]. intros x Hx. by eapply elem_of_sublist.
  - pose proof (Z.mul_div_le a u Hu). pose proof (Z.mul_succ_div_gt a u Hu). lia.
Qed.

(** The image [g] of a disk after the failure, opened by the next process. *)
Definition reopen_image (g : Z → byte) (s : DeviceState) : res DeviceState :=
  (OpenDevice (File g [] (diskBytes s) false []) (diskBytes s) (directFile s) (diskID s)).1.

(** A write inside one unit is atomic. *)
Lemma crash_one_unit u f off b g :
  0 < u → 0 < blen b → off / u = (off + blen b - 1) / u →
  crash u (f_write off b (f_synced f)) g →
  (∀ a, g a = f_data f a) ∨ (∀ a, g a = upd (f_data f) off b a).
Proof.
  intros Hu Hb Hunit Hc.
  assert (Hunits : ∀ k, (∀ a, u * k ≤ a < u * (k + 1) → g a = f_data f a) ∨
                        (∀ a, u * k ≤ a < u * (k + 1) → g a = upd (f_data f) off b a)).
  { intros k. destruct (Hc k) as (ws & Hws & Hg). cbn in Hws.
    apply sublist_cons_r in Hws as [Hws|(ws' & -> & Hws)]; apply sublist_nil_r in Hws as ->;
      [by left|by right]. }
  assert (Hin : ∀ a, u * (a / u) ≤ a < u * (a / u + 1))
    by (intros a; pose proof (Z.mul_div_le a u Hu); pose proof (Z.mul_succ_div_gt a u Hu); lia).
  assert (Hother : ∀ a, a / u ≠ off / u → g a = f_data f a).
  { intros a Ha. destruct (Hunits (a / u)) as [H|H]; [by apply H|]. rewrite H by done.
    apply upd_out. destruct (Z.lt_ge_cases a off) as [|Hge]; [by left|].
    destruct (Z.lt_ge_cases a (off + blen b)) as [Hlt|]; [|by right]. exfalso. apply Ha.
    pose proof (Z.div_le_mono off a u Hu Hge).
    pose proof (Z.div_le_mono a (off + blen b - 1) u Hu ltac:(lia)). lia. }
  destruct (Hunits (off / u)) as [H|H]; [left|right]; intros a;
    (destruct (decide (a / u = off / u)) as [E|E]; [apply H; rewrite <- E; apply Hin|]).
  - by apply Hother.
  - rewrite Hother by done. symmetry. apply upd_out.
    destruct (Z.lt_ge_cases a off) as [|Hge]; [by left|].
    destruct (Z.lt_ge_cases a (off + blen b)) as [Hlt|]; [|by right]. exfalso. apply E.
    pose proof (Z.div_le_mono off a u Hu Hge).
    pose proof (Z.div_le_mono a (off + blen b - 1) u Hu ltac:(lia)). lia.
Qed.

(** Sixteen aligned bytes lie in one unit whose size is a multiple of sixteen. *)
Lemma entry_in_unit u off : 0 < u → (16 | u) → off `mod` 16 = 0 → off / u = (off + 16 - 1) / u.
Proof.
  intros Hu [q ->] Hoff. apply Z.div_exact in Hoff; [|lia]. set (m := off / 16) in *. clearbody m.
  subst off. rewrite (Z.mul_comm q 16). rewrite Z.div_mul_cancel_l by lia.
  replace (16 * m + 16 - 1) with (16 * m + 15) by lia.
  rewrite <- Z.div_div by lia. rewrite (Z.mul_comm 16 m), Z.div_add_l by lia.
  by rewrite (Z.div_small 15 16), Z.add_0_r by lia.
Qed.

(** The image that kept the unsynced bytes, as a file. *)
Lemma image_agrees s g :
  Inv s → (∀ a, g a = f_data (ds_file s) a) →
  agrees (intervals s) (ds_file s) (File g [] (diskBytes s) false []).
Proof.
  intros Hs Hg. split; [by rewrite (i_size _ Hs)|]. split; [by rewrite (i_grow _ Hs)|].
  intros a _. apply Hg.
Qed.

Lemma reopen_mirrors s g refs pk ivs iend es st :
  Inv s → header_valid (diskID s) g → disjoint_all ivs →
  mirrors (diskBytes s) (File g [] (diskBytes s) false []) refs pk ivs iend es st →
  reopen_image g s = Ok (reopened (File g [] (diskBytes s) false []) (diskBytes s) (directFile s)
                           (diskID s) st refs pk iend) ∧
  Inv (reopened (File g [] (diskBytes s) false []) (diskBytes s) (directFile s)
         (diskID s) st refs pk iend).
Proof.
  intros Hs Hh Hdis Hm.
  destruct (open_mirrors (diskBytes s) (File g [] (diskBytes s) false []) refs pk ivs iend es st
    (directFile s) (diskID s) (i_disk _ Hs) eq_refl eq_refl Hh Hdis Hm) as [Ho Hi].
  unfold reopen_image. change (clean (File g [] (diskBytes s) false []))
    with (File g [] (diskBytes s) false []) in *. by rewrite Ho.
Qed.


(** The same for an image that agrees with a state in memory. *)
Lemma reopen_like s0 s g :
  Inv s0 → indexErr s0 = None → diskBytes s0 = diskBytes s → diskID s0 = diskID s →
  agrees (intervals s0) (ds_file s0) (File g [] (diskBytes s) false []) →
  ∃ s', reopen_image g s = Ok s' ∧ Inv s' ∧ ∀ k, contents s' k = contents s0 k.
Proof.
  intros Hs He Hb Hid Ha. set (f := File g [] (diskBytes s) false []) in *.
  destruct (reopen_outcome (set_file s0 f) (directFile s) (Inv_file_frame _ _ Hs Ha) He)
    as (s' & Ho & Hi & _ & _ & _ & _ & _ & Hc).
  exists s'. cbn [set_file diskBytes diskID ds_file] in Ho. rewrite Hb, Hid in Ho.
  split; [unfold reopen_image; fold f; change (clean f) with f in Ho; by rewrite Ho|]. split; [done|]. intros k. rewrite Hc.
  apply contents_frame; try done. intros iv a Hiv Hx. cbn [set_file ds_file]. apply Ha. right. by exists iv.
Qed.

(** ** Unsynced writes of a put *)
Lemma settled_synced s : f_dirty (ds_file s) = [] → settled s.
Proof. intros Hd off b a H. rewrite Hd in H. by apply not_elem_of_nil in H. Qed.

Lemma settled_prepare s fid size :
  Inv s → is_u64 fid → is_u64 size → settled s → settled (PrepareWrite fid size s).2.
Proof.
  intros Hs Hf Hsz H. pose proof (PrepareWrite_outcome s fid size Hs Hf Hsz) as Hp.
  destruct (PrepareWrite fid size s) as [[pw|e] s']; [|by subst s'].
  destruct Hp as (_ & _ & _ & -> & _). exact H.
Qed.

Lemma settled_write s pw acquire r :
  Inv s → prepared s pw → 0 ≤ st_remaining r → settled s → settled (WriteFrom pw acquire r s).2.
Proof.
  intros Hs Hpw Hr Hset. unfold WriteFrom. destruct acquire as [e|]; [done|].
  pose proof (prepared_geometry s pw Hs Hpw) as (Hgrid & Hk & Hga & Hcov & Hend & -> & Haddr).
  set (k := end_ (pw_iv pw) - start (pw_iv pw) + 1) in *.
  pose proof (i_disk _ Hs) as Hfit. unfold disk_fits in Hfit. pose proof (i_size _ Hs) as Hsz.
  pose proof (pp_size _ _ Hpw) as Hps.
  pose proof (write_payload_outcome (directFile s) (pw_addr pw) (pw_size pw) (k * SlotSize)
    (ds_file s) r ltac:(llia) ltac:(lia) ltac:(lia) ltac:(lia)
    ltac:(apply Z.mod_mul; layout_unfold; lia) Hr) as Hw.
  destruct (write_payload _ _ _ _ _) as [res [f' r']].
  assert (Hd : dirty_in (ds_file s) (pw_addr pw) (k * SlotSize) f').
  { assert (Ht : touched (ds_file s) (pw_addr pw) (k * SlotSize) f')
      by (destruct res; destruct Hw as [Hw _]; [eapply filled_touched; [|exact Hw]; lia|done]).
    apply Ht. }
  intros off b a Hin Ha. destruct (Hd off b Hin) as [H|H]; [by apply (Hset off b)|].
  assert (Hx : ext_addr (pw_iv pw) a) by (apply Haddr; lia). split; [lia|]. intros iv Hiv Hiv'.
  by apply (ext_addr_disjoint _ _ _ (pending_confirmed_disjoint _ _ _ Hs Hiv (pp_pending _ _ Hpw)) Hiv').
Qed.

Lemma must_sync_failed f e f' : must_sync f = (Err e, f') → f_dirty f' = f_dirty f.
Proof. unfold must_sync, Sync, next_fault. by destruct (f_faults f) as [|[|k] l]; intros [= _ <-]. Qed.

Lemma write_index_synced b off f u f' : write_index b off f = (Ok u, f') → f_dirty f' = [].
Proof.
  unfold write_index. destruct (WriteAt _ _ _) as [[n [e|]] f1]; [done|]. destruct (negb _); [done|].
  unfold must_sync, Sync, next_fault. by destruct (f_faults f1) as [|[|k] l]; intros [= _ <-].
Qed.

Lemma settled_abort s pw : settled s → settled (Abort pw s).2.
Proof. done. Qed.

(** ** A commit that is cut off *)
Lemma power_cut_Inv k s : Inv s → Inv (power_cut k s).
Proof. intros Hs. apply Inv_file_frame; [done|]. by split_and!. Qed.

(** The calls of the commit, with power and without. *)
Section calls.
Context (f : file) (l : list fault) (b : buf) (off : Z).
Context (Hg : f_grow f = false) (Hoff : 0 ≤ off < 2 ^ 63) (Hb : 0 ≤ blen b) (Hfit : off + blen b ≤ f_size f).

Lemma must_sync_power : must_sync (with_faults f (FNone :: l)) = (Ok tt, f_synced (with_faults f l)).
Proof using. done. Qed.

Lemma must_sync_outage : must_sync (with_faults f (FFail 0 :: l)) = (Err EDevice, with_faults f l).
Proof using. done. Qed.

Lemma write_index_power :
  write_index b off (with_faults f (FNone :: l)) = must_sync (f_write off (buf_slice b 0 (blen b)) (with_faults f l)).
Proof using Hg Hoff Hb Hfit.
  unfold write_index, WriteAt, next_fault. rewrite int64_small, (proj2 (Z.ltb_ge off 0)) by lia.
  destruct f as [fb fd fs fg ff]. cbn in Hg, Hfit. subst fg. cbn [with_faults f_faults f_grow f_size f_base f_dirty].
  assert (Ha : clamp 0 (blen b) (fs - off) = blen b) by (unfold clamp; lia).
  by rewrite Ha, Z.ltb_irrefl, Z.eqb_refl.
Qed.

Lemma write_index_outage :
  write_index b off (with_faults f (FFail 0 :: l)) = (Err EDevice, f_write off (buf_slice b 0 0) (with_faults f l)).
Proof using Hg Hoff.
  clear Hb Hfit. unfold write_index, WriteAt, next_fault. rewrite int64_small, (proj2 (Z.ltb_ge off 0)) by lia.
  destruct f as [fb fd fs fg ff]. cbn in Hg. subst fg. cbn [with_faults f_faults f_grow f_size f_base f_dirty].
  assert (Ha : clamp 0 (clamp 0 (blen b) (fs - off)) 0 = 0) by (unfold clamp; lia).
  by rewrite Ha.
Qed.
End calls.

(** What the commit has done to the device when the power fails at its call [k]: the sync of the payload is
    call 0, the write of the entries call 1 and their sync call 2. *)
Definition cut_at (s : DeviceState) (entry : buf) (k : nat) (r : res unit) (s' : DeviceState) : Prop :=
  let f := ds_file s in let f' := ds_file s' in
  match k with
  | 0%nat => is_ok r = false ∧ f_base f' = f_base f ∧ f_dirty f' = f_dirty f
  | 1%nat => is_ok r = false ∧ f_base f' = f_data f ∧ filter nonvoid (f_dirty f') = []
  | 2%nat => is_ok r = false ∧ f_base f' = f_data f ∧ filter nonvoid (f_dirty f') = [(indexEnd s, entry)]
  | _ => is_ok r = true ∧ f_dirty f' = [] ∧ diskID s' = diskID s ∧ f_data f' = upd (f_data f) (indexEnd s) entry
  end.

Lemma filter_void off g ws : filter nonvoid (ws ++ [(off, buf_slice g 0 0)]) = filter nonvoid ws.
Proof.
  rewrite filter_app. unfold filter at 2, list_filter. rewrite decide_False; [by rewrite app_nil_r|].
  unfold nonvoid. cbn. lia.
Qed.

(** The entries of a commit, as they are written. *)
Definition entry_buf (pw : PreparedWrite) (aliasFor : Z) : buf :=
  let b := buf_of (encode_entries (new_entries (pw_fid pw) (pw_size pw) aliasFor)) in buf_slice b 0 (blen b).

Lemma Commit_cut s pw aliasFor :
  Inv s → prepared s pw → indexErr s = None →
  (∀ k, ∃ e, Commit pw aliasFor (power_cut k s) = (Err e, power_cut k s)) ∨
  (indexEnd s + blen (entry_buf pw aliasFor) ≤ GridStart ∧
   ∀ k, cut_at s (entry_buf pw aliasFor) k (Commit pw aliasFor (power_cut k s)).1 (Commit pw aliasFor (power_cut k s)).2).
Proof.
  intros Hs Hpw He. unfold Commit, power_cut. cbn [set_file indexErr confirmed indexEnd ds_file].
  destruct (_ || _); [left; intros k; by eexists|]. rewrite He.
  destruct (bool_decide _ || _); [left; intros k; by eexists|].
  destruct (commit_entry _ _ _) as [entry'|e] eqn:Ee; [|left; intros k; by eexists].
  apply commit_entry_Ok in Ee as ->. unfold entry_buf.
  set (entry := buf_of (encode_entries (new_entries (pw_fid pw) (pw_size pw) aliasFor))).
  destruct (i_mirror _ Hs He) as (es & st & Hm). pose proof (m_end _ _ _ _ _ _ _ _ Hm) as Hend.
  pose proof (log_capacity _ _ (m_log _ _ _ _ _ _ _ _ Hm)) as Hcap. pose proof (log_end_start es) as Hst.
  pose proof (i_disk _ Hs) as Hd. pose proof (i_size _ Hs) as Hsz. pose proof (i_grow _ Hs) as Hg. unfold disk_fits in Hd.
  assert (Hlen : 0 < blen entry ≤ 32).
  { unfold entry. cbn [blen buf_of]. rewrite length_encode_entries. unfold new_entries. destruct (aliasFor =? 0); cbn; lia. }
  change (Z.of_nat (length (encode_entries _))) with (blen entry).
  assert (Hoff : IndexStart ≤ indexEnd s ≤ GridStart) by (rewrite Hend; unfold log_end; llia).
  rewrite u64_small by llia. cbn [buf_slice blen]. rewrite Z.sub_0_r.
  destruct (Z.ltb_spec GridStart (indexEnd s + blen entry)) as [|Hfit]; [left; intros k; by eexists|right]. split; [done|].
  intros k. set (f := ds_file s) in *. set (off := indexEnd s) in *.
  assert (Hn : nonvoid (off, buf_slice entry 0 (blen entry))) by (unfold nonvoid; cbn [snd blen buf_slice]; lia).
  destruct k as [|[|[|k]]]; cbn [replicate app]; rewrite ?must_sync_power, ?must_sync_outage; [done|..];
    change (f_synced (with_faults f ?l)) with (with_faults (f_synced f) l).
  - rewrite !write_index_outage by (done || llia).
    change (f_write off ?b (with_faults ?g ?l)) with (with_faults (f_write off b g) l).
    rewrite !write_index_outage by (done || llia). split; [done|]. split; [done|].
    cbn [snd set_indexErr set_file ds_file f_write with_faults f_dirty]. by rewrite !filter_void.
  - rewrite !write_index_power by (exact Hg || (cbn [f_synced f_size]; llia)).
    change (f_write off ?b (with_faults ?g ?l)) with (with_faults (f_write off b g) l).
    rewrite must_sync_outage, !write_index_outage by (exact Hg || llia). split; [done|]. split; [done|].
    cbn [snd set_indexErr set_file ds_file f_write with_faults f_dirty]. rewrite filter_void. cbn [f_synced f_dirty app].
    unfold filter, list_filter. by rewrite decide_True.
  - rewrite !write_index_power by (exact Hg || (cbn [f_synced f_size]; llia)). done.
Qed.

(** A commit that is answered leaves nothing unsynced, and one that fails without poisoning the disk adds
    nothing unsynced. *)
Lemma settled_commit s pw aliasFor :
  Inv s → prepared s pw → is_u64 aliasFor → settled s →
  indexErr (Commit pw aliasFor s).2 = None → settled (Commit pw aliasFor s).2.
Proof.
  intros Hs Hpw Ha Hset. pose proof (Commit_outcome s pw aliasFor Hs Hpw Ha) as Hc.
  destruct (Commit pw aliasFor s) as [[u|e] s'] eqn:E; cbn [snd]; [intros _; apply settled_synced, Hc|].
  intros He. pose proof (cf_intervals _ _ Hc) as Hiv.
  assert (Hcase : f_dirty (ds_file s') = [] ∨ f_dirty (ds_file s') = f_dirty (ds_file s)).
  { revert E He. unfold Commit. repeat (case_match; try (intros [= <- <-]; by right)); intros [= <- <-]; cbn; try done.
    all: repeat match goal with H : must_sync _ = (Err _, _) |- _ => apply must_sync_failed in H end; try by right.
    left. eapply write_index_synced; eassumption. }
  destruct Hcase as [Hd|Hd]; [by apply settled_synced|]. intros off b a. rewrite Hd, Hiv. apply Hset.
Qed.

(** The disk as it was, after a failure that lost at most what was not read. *)
Lemma reopen_before s u f g :
  Inv s → indexErr s = None → settled s → 0 < u → f_base f = f_base (ds_file s) →
  f_dirty f = f_dirty (ds_file s) → crash u f g →
  ∃ s', reopen_image g s = Ok s' ∧ Inv s' ∧ ∀ k, contents s' k = contents s k.
Proof.
  intros Hs He Hset Hu Hb Hd Hc. apply (reopen_like s s g); try done.
  split; [by rewrite (i_size _ Hs)|]. split; [by rewrite (i_grow _ Hs)|]. intros a Ha.
  change (g a = f_data (ds_file s) a). rewrite (crash_outside u f g a Hu); [unfold f_data; by rewrite Hb, Hd| |done].
  intros off b Hin. rewrite Hd in Hin. destruct (decide (off ≤ a < off + blen b)) as [Hx|]; [|lia].
  exfalso. destruct (Hset off b a Hin Hx) as [Hge Hno]. destruct Ha as [Ha|(iv & Hiv & Ha)]; [lia|by apply (Hno iv)].
Qed.

Lemma reopen_same_data s g :
  Inv s → indexErr s = None → (∀ a, g a = f_data (ds_file s) a) →
  ∃ s', reopen_image g s = Ok s' ∧ Inv s' ∧ ∀ k, contents s' k = contents s k.
Proof. intros Hs He Hg. apply (reopen_like s s g); try done. by apply image_agrees. Qed.

(** The disk with the object: that of a commit that was not cut off. *)
Lemma reopen_after s pw aliasFor g :
  Inv s → prepared s pw → indexErr s = None → is_u64 aliasFor →
  cut_at s (entry_buf pw aliasFor) 3 (Commit pw aliasFor (power_cut 3 s)).1 (Commit pw aliasFor (power_cut 3 s)).2 →
  (∀ a, g a = upd (f_data (ds_file s)) (indexEnd s) (entry_buf pw aliasFor) a) →
  ∃ s', reopen_image g s = Ok s' ∧ Inv s' ∧
    ∀ k, contents s' k = store_put (pw_fid pw) (payload_bytes s pw) aliasFor (contents s) k.
Proof.
  intros Hs Hpw He Ha (Hok & _ & Hid & Hdat) Hg. pose proof (power_cut_Inv 3 s Hs) as Hs3.
  assert (Hpw3 : prepared (power_cut 3 s) pw) by (by destruct Hpw).
  pose proof (Commit_outcome (power_cut 3 s) pw aliasFor Hs3 Hpw3 Ha) as Hc.
  destruct (Commit pw aliasFor (power_cut 3 s)) as [[u|e] s0]; [|done]. cbn [fst snd] in *.
  pose proof (committed_contents _ _ _ _ Hs3 Hpw3 Hc) as Hcont. destruct Hc as [Hi [_ He0] _ _ _ _ _ Hb _ _].
  destruct (reopen_like s0 s g Hi He0 Hb Hid) as (s' & Ho & Hi' & Hk).
  { split; [rewrite (i_size _ Hi); symmetry; apply Hb|]. split; [by rewrite (i_grow _ Hi)|]. intros a _.
    change (g a = f_data (ds_file s0) a). by rewrite Hdat, Hg. }
  exists s'. split; [done|]. split; [done|]. intros k. by rewrite Hk, Hcont.
Qed.

Lemma blen_entry_buf pw aliasFor : blen (entry_buf pw aliasFor) = if aliasFor =? 0 then 16 else 32.
Proof.
  unfold entry_buf. cbn [buf_slice blen buf_of]. rewrite length_encode_entries. unfold new_entries.
  by destruct (aliasFor =? 0).
Qed.

(** C30: a power failure at any moment of a commit.  The calls of the commit are the sync of the payload, the
    write of its entries and their sync; the power fails after any number [k] of them, and of what was written
    and not synced by then any part may be lost, in units of [u] bytes, a multiple of sixteen.  Before the
    commit, what is not synced lies outside the header, the index and the extents of confirmed objects, as
    after any steps of puts ([settled_prepare], [settled_write], [settled_commit], [settled_abort]).  If the
    commit has no alias, or its two entries lie in one unit, the disk opens again, satisfies the invariant, and
    holds exactly what it held before, which only happens when the commit was not answered with success, or
    that and the new object, complete, which only happens once its entries were written: never a torn
    state. *)
Theorem commit_crash_atomic s pw aliasFor u k g :
  Inv s → settled s → prepared s pw → indexErr s = None → is_u64 aliasFor → 0 < u → (16 | u) →
  (aliasFor = 0 ∨ indexEnd s / u = (indexEnd s + 31) / u) →
  crash u (ds_file (Commit pw aliasFor (power_cut k s)).2) g →
  ∃ s', reopen_image g s = Ok s' ∧ Inv s' ∧
    (is_ok (Commit pw aliasFor (power_cut k s)).1 = false ∧ (∀ fid, contents s' fid = contents s fid) ∨
     (2 ≤ k)%nat ∧
     ∀ fid, contents s' fid = store_put (pw_fid pw) (payload_bytes s pw) aliasFor (contents s) fid).
Proof.
  intros Hs Hset Hpw He Ha Hu Hdiv Hunit Hc.
  destruct (Commit_cut s pw aliasFor Hs Hpw He) as [Hearly|[Hfit Hcut]].
  { destruct (Hearly k) as [e E]. rewrite E in Hc |- *. cbn [fst snd] in *.
    destruct (reopen_before s u _ g Hs He Hset Hu eq_refl eq_refl Hc) as (s' & Ho & Hi & Hk). exists s'. auto. }
  pose proof (Hcut k) as Hk. set (answer := Commit pw aliasFor (power_cut k s)) in *.
  assert (Hone : blen (entry_buf pw aliasFor) = 16 ∧ (16 | u) ∨
    indexEnd s / u = (indexEnd s + blen (entry_buf pw aliasFor) - 1) / u).
  { rewrite blen_entry_buf. destruct (Z.eqb_spec aliasFor 0); [by left|right]. destruct Hunit as [|E]; [done|].
    rewrite E. f_equal. lia. }
  destruct k as [|[|[|k]]]; cbn [cut_at] in Hk.
  - destruct Hk as (Hok & Hb & Hd). destruct (reopen_before s u _ g Hs He Hset Hu Hb Hd Hc) as (s' & ? & ? & ?). exists s'. auto.
  - destruct Hk as (Hok & Hb & Hd).
    apply (crash_nonvoid u _ (f_synced (ds_file s))) in Hc; [|by rewrite Hb|by rewrite Hd].
    destruct (reopen_same_data s g Hs He) as (s' & ? & ? & ?); [|exists s'; auto].
    by apply (crash_synced u (f_synced (ds_file s))).
  - destruct Hk as (Hok & Hb & Hd).
    apply (crash_nonvoid u _ (f_write (indexEnd s) (entry_buf pw aliasFor) (f_synced (ds_file s)))) in Hc;
      [|by rewrite Hb|by rewrite Hd].
    destruct (crash_one_unit u (ds_file s) (indexEnd s) (entry_buf pw aliasFor) g) as [Hg|Hg]; [done| | |done|..].
    + rewrite blen_entry_buf. by destruct (_ =? _).
    + destruct Hone as [[-> _]|E]; [|exact E]. apply entry_in_unit; try done.
      destruct (i_mirror _ Hs He) as (es & st & Hm). rewrite (m_end _ _ _ _ _ _ _ _ Hm).
      unfold log_end, IndexStart, HeaderBytes.
      replace (4096 + 16 * Z.of_nat (length es)) with (0 + (256 + Z.of_nat (length es)) * 16) by lia.
      by rewrite Z.mod_add.
    + destruct (reopen_same_data s g Hs He Hg) as (s' & ? & ? & ?). exists s'. auto.
    + destruct (reopen_after s pw aliasFor g Hs Hpw He Ha (Hcut 3%nat) Hg) as (s' & ? & ? & ?). exists s'. auto.
  - destruct Hk as (_ & Hd & _ & Hdat).
    destruct (reopen_after s pw aliasFor g Hs Hpw He Ha (Hcut 3%nat)) as (s' & ? & ? & ?).
    { intros a. rewrite (crash_synced u _ g Hu Hd Hc). by rewrite Hdat. }
    exists s'. split; [done|]. split; [done|]. right. split; [lia|done].
Qed.

(** Keeping every unsynced write is one of the possible crashes. *)
Lemma crash_keep_all u f : crash u f (f_data f).
Proof. intros k. by exists (f_dirty f). Qed.

Lemma demo_settled : settled demo_written.
Proof.
  assert (Hr : settled demo_reserved).
  { apply (settled_prepare demo_state 5 10 demo_Inv); [by unfold is_u64|by unfold is_u64|by apply settled_synced]. }
  destruct demo_reserved_ok as [Hi Hp]. by apply settled_write.
Qed.

Lemma crash_lose_all u f : crash u f (f_base f).
Proof. intros k. exists []. split; [apply sublist_nil_l|done]. Qed.

(** Cut off at once, the payload lost; and cut off after its last call. *)
Lemma commit_crash_atomic_witness :
  (∃ s', reopen_image (f_base (ds_file demo_written)) demo_written = Ok s' ∧ Inv s' ∧
     ∀ fid, contents s' fid = contents demo_written fid) ∧
  (∃ s', reopen_image (f_data (ds_file (Commit demo_prepared 0 (power_cut 3 demo_written)).2)) demo_written = Ok s' ∧
     Inv s' ∧ contents s' 5 = Some (payload_bytes demo_written demo_prepared)).
Proof.
  destruct demo_written_ok as [Hi Hp]. split.
  - destruct (commit_crash_atomic demo_written demo_prepared 0 512 0 (f_base (ds_file demo_written))
      Hi demo_settled Hp eq_refl ltac:(by unfold is_u64) ltac:(lia) ltac:(by exists 32) ltac:(by left)
      (crash_lose_all _ _)) as (s' & Ho & Hs' & [[_ Hc]|[Hk _]]); [|lia].
    exists s'. split; [exact Ho|]. split; [exact Hs'|exact Hc].
  - destruct (commit_crash_atomic demo_written demo_prepared 0 512 3 _
      Hi demo_settled Hp eq_refl ltac:(by unfold is_u64) ltac:(lia) ltac:(by exists 32) ltac:(by left)
      (crash_keep_all _ _)) as (s' & Ho & Hs' & [[Hk _]|[_ Hc]]); [vm_compute in Hk; discriminate|].
    exists s'. split; [exact Ho|]. split; [exact Hs'|]. rewrite Hc. reflexivity.
Defined.

(** When the two entries of an aliased commit lie in different units, a power failure between
    the index write and the final sync can keep the first and lose the second, and the disk then
    refuses to open at all: [replayIndex] reports an incomplete alias pair, and every object of the
    disk is unavailable until the index is repaired by hand. *)
Theorem torn_alias_pair s pw aliasFor u :
  Inv s → prepared s pw → indexErr s = None → is_u64 aliasFor → aliasFor ≠ 0 →
  is_ok (Commit pw aliasFor (power_cut 3 s)).1 = true → 0 < u → (indexEnd s + 16) `mod` u = 0 →
  ∃ g, crash u (ds_file (Commit pw aliasFor (power_cut 2 s)).2) g ∧
    reopen_image g s = Err (EWrap "scan intervals" (EMsg "incomplete alias pair at index tail")).
Proof.
  intros Hs Hpw He Ha Hne Hok Hu Hmod.
  assert (Hn : confirmed s !! aliasFor = None).
  { pose proof (Commit_outcome (power_cut 3 s) pw aliasFor (power_cut_Inv 3 s Hs) ltac:(by destruct Hpw) Ha) as Hc.
    destruct (Commit pw aliasFor (power_cut 3 s)) as [[?|?] ?]; [|done]. by apply (cm_new _ _ _ _ Hc). }
  destruct (Commit_cut s pw aliasFor Hs Hpw He) as [Hearly|[Hroom Hcut]].
  { destruct (Hearly 3%nat) as [e E]. by rewrite E in Hok. }
  destruct (Hcut 2%nat) as (_ & Hbase & Hdirty). rewrite blen_entry_buf, (proj2 (Z.eqb_neq aliasFor 0)) in Hroom by done.
  destruct (i_mirror _ Hs He) as (es & st & Hm). pose proof (m_end _ _ _ _ _ _ _ _ Hm) as Hend.
  pose proof (log_end_start es) as Hst.
  set (jump := mkEntry aliasFor IndexJumpSentinel aliasJumpCode).
  set (f := ds_file s) in *. set (off := indexEnd s) in *.
  assert (Hnew : encode_entries (new_entries (pw_fid pw) (pw_size pw) aliasFor) =
    entry_bytes jump ++ entry_bytes (mkEntry (pw_fid pw) (pw_size pw) 0)).
  { unfold new_entries. rewrite (proj2 (Z.eqb_neq aliasFor 0)) by done. unfold encode_entries.
    cbn [fmap list_fmap concat]. by rewrite app_nil_r. }
  set (g := upd (f_data f) off (buf_of (entry_bytes jump))). exists g. split.
  - intros k. rewrite Hbase. apply Z.div_exact in Hmod; [|lia]. set (q := (off + 16) / u) in *. clearbody q.
    assert (Hb1 : blen (buf_of (entry_bytes jump)) = 16) by (cbn [blen buf_of]; by rewrite length_entry_bytes).
    destruct (Z.lt_ge_cases k q) as [Hk|Hk].
    + exists (filter nonvoid (f_dirty (ds_file (Commit pw aliasFor (power_cut 2 s)).2))).
      split; [apply sublist_filter|]. intros a Hau. rewrite Hdirty. cbn [apply_writes foldl fst snd].
      unfold entry_buf. rewrite upd_slice_full, Hnew. unfold g.
      assert (a < off + 16) by nia.
      destruct (Z.lt_ge_cases a off); [by rewrite !upd_out by lia|].
      rewrite !upd_in; [|cbn [blen buf_of]; rewrite length_app, !length_entry_bytes; lia|lia].
      cbn [bat buf_of]. by rewrite lookup_app_l by (rewrite length_entry_bytes; lia).
    + exists []. split; [apply sublist_nil_l|]. intros a Hau. change (g a = f_data f a). unfold g. apply upd_out.
      rewrite Hb1. nia.
  - pose proof Hm as [Hlog Htail Hfold Hal Hpp Hload _ _ _ _].
    pose proof (i_disk _ Hs) as Hfit. pose proof (disk_fits_ok _ Hfit) as Hd.
    unfold disk_fits in Hfit.
    assert (Hjok : Forall (λ e, entry_ok e ∧ e ≠ zero_entry) [jump]).
    { constructor; [|done]. split; [|done]. unfold jump, entry_ok, IndexJumpSentinel, aliasJumpCode.
      cbn. split; [done|lia]. }
    destruct (index_log_append (f_data f) g es [jump] Hlog Htail Hjok) as [Hlog' _].
    { rewrite Hend in Hroom. unfold log_end in Hroom. cbn [length]. llia. }
    { intros a _. unfold g. rewrite Hend. unfold encode_entries. cbn [fmap list_fmap concat].
      by rewrite app_nil_r. }
    assert (Hsub : rs_refs st !! aliasFor = None).
    { apply eq_None_not_Some. intros Hx. apply (load_tables_dom _ _ _ _ _ _ _ Hload) in Hx.
      cbn in Hx. rewrite Hn in Hx. by destruct Hx. }
    assert (Hh : header_valid (diskID s) g).
    { eapply header_valid_ext; [|apply Hs]. intros a Hx. unfold g. apply upd_out. lia. }
    destruct (ParseHeader_valid _ _ Hh) as (h & HP & Hv & Hid).
    unfold reopen_image, OpenDevice. rewrite must_read_ok by (done || (cbn; llia)).
    change (f_data (File g [] (diskBytes s) false [])) with g.
    rewrite HP, Hv, Hid, !Z.eqb_refl. cbn [negb orb]. rewrite (proj2 (Z.leb_gt _ _)) by lia.
    rewrite (replay_fold _ _ (es ++ [jump])) by (done || (cbn; lia)).
    rewrite foldM_app, Hfold. cbn [mbind res_bind foldM]. unfold jump. by rewrite replay_jump.
Qed.

(** A disk with one object, about to register a second one with an alias: its index ends sixteen
    bytes before a multiple of thirty-two. *)
Definition demo_one : DeviceState := (Commit demo_prepared 0 demo_written).2.
Definition demo_second : PreparedWrite :=
  mkPrepared 9 10 (GridStart + 9 * SlotSize) (mkInterval 9 9).
Definition demo_two : DeviceState := (PrepareWrite 9 10 demo_one).2.

Lemma demo_two_ok : Inv demo_two ∧ prepared demo_two demo_second.
Proof.
  destruct demo_written_ok as [Hi Hp].
  pose proof (Commit_outcome demo_written demo_prepared 0 Hi Hp ltac:(unfold is_u64; lia)) as H1.
  assert (E1 : (Commit demo_prepared 0 demo_written).1 = Ok tt) by reflexivity.
  unfold demo_two, demo_one in *. destruct (Commit demo_prepared 0 demo_written) as [r1 s1] eqn:E.
  cbn in E1. subst r1. cbn [snd]. apply cm_inv in H1.
  pose proof (PrepareWrite_outcome s1 9 10 H1 ltac:(unfold is_u64; lia) ltac:(unfold is_u64; lia))
    as H2.
  assert (E2 : (PrepareWrite 9 10 s1).1 = Ok demo_second)
    by (change s1 with ((@Ok unit tt, s1).2); rewrite <- E; reflexivity).
  destruct (PrepareWrite 9 10 s1) as [r2 s2]. cbn in E2. subst r2.
  destruct H2 as (_ & _ & _ & _ & Hi2 & Hp2). split; [exact Hi2|exact Hp2].
Qed.

Lemma torn_alias_pair_witness :
  ∃ g, crash 32 (ds_file (Commit demo_second 10 (power_cut 2 demo_two)).2) g ∧
    reopen_image g demo_two = Err (EWrap "scan intervals" (EMsg "incomplete alias pair at index tail")).
Proof.
  destruct demo_two_ok as [Hi Hp].
  apply (torn_alias_pair demo_two demo_second 10 32 Hi Hp); [reflexivity|by unfold is_u64|discriminate|
    vm_compute; reflexivity|lia|reflexivity].
Defined.
