(* ===== verification/Gate.v ===== *)
(** * The pool-wide fid gate (internal/daemon/gate.go)

    Step 0 of the write path: a fid, and its alias, is reserved in the whole pool before a disk is
    chosen.  The existence check the gate is given is an argument, [confirmedFunc]; the server
    instantiates it with the broadcast over its disks. *)

From S2P Require Import Prelude.

Record poolGate := mkGate { pending : gset Z }.

Definition newPoolGate : poolGate := mkGate ∅.

Definition confirmedFunc : Type := Z → res bool.

(** [fid] and, if non-zero, [aliasFor]. *)
Definition gate_fids (fid aliasFor : Z) : list Z :=
  if aliasFor =? 0 then [fid] else [fid; aliasFor].

(** The loop that asks for the confirmed state. *)
Fixpoint check_confirmed (confirmed : confirmedFunc) (fids : list Z) : res unit :=
  match fids with
  | [] => Ok tt
  | f :: fids =>
      found ← confirmed f;
      if (found : bool) then Err EConflict else check_confirmed confirmed fids
  end.

Definition reserve (fid aliasFor : Z) (confirmed : confirmedFunc) : M poolGate unit := λ g,
  let fids := gate_fids fid aliasFor in
  if existsb (λ f, bool_decide (f ∈ pending g)) fids then (Err EConflict, g) else
  match check_confirmed confirmed fids with
  | Err e => (Err e, g)
  | Ok _ => (Ok tt, mkGate (list_to_set fids ∪ pending g))
  end.

Definition release (fid aliasFor : Z) (g : poolGate) : poolGate :=
  let p := pending g ∖ {[fid]} in
  mkGate (if negb (aliasFor =? 0) then p ∖ {[aliasFor]} else p).

(** ** What a reservation holds *)
Definition gate_set (fid aliasFor : Z) : gset Z := list_to_set (gate_fids fid aliasFor).

Lemma elem_of_gate_fids fid aliasFor k :
  k ∈ gate_fids fid aliasFor ↔ k = fid ∨ (k = aliasFor ∧ aliasFor ≠ 0).
Proof.
  unfold gate_fids. destruct (Z.eqb_spec aliasFor 0) as [->|Hne]; set_solver.
Qed.

Lemma elem_of_gate_set fid aliasFor k :
  k ∈ gate_set fid aliasFor ↔ k = fid ∨ (k = aliasFor ∧ aliasFor ≠ 0).
Proof. unfold gate_set. rewrite elem_of_list_to_set. apply elem_of_gate_fids. Qed.

Lemma check_confirmed_Ok confirmed fids :
  check_confirmed confirmed fids = Ok tt ↔ ∀ k, k ∈ fids → confirmed k = Ok false.
Proof.
  induction fids as [|f fids IH]; cbn; [split; [set_solver|done]|].
  destruct (confirmed f) as [[]|e] eqn:E; cbn.
  - split; [done|]. intros H. rewrite H in E by left. done.
  - rewrite IH. split; intros H k; [rewrite elem_of_cons; intros [->|?]; auto|].
    intros Hk. apply H. by right.
  - split; [done|]. intros H. rewrite H in E by left. done.
Qed.

Lemma existsb_false_forall {A} (p : A → bool) l : existsb p l = false ↔ ∀ x, x ∈ l → p x = false.
Proof.
  induction l as [|a l IH]; cbn; [split; [set_solver|done]|].
  rewrite orb_false_iff, IH. setoid_rewrite elem_of_cons. naive_solver.
Qed.

Lemma reserve_Ok fid aliasFor confirmed g g' :
  reserve fid aliasFor confirmed g = (Ok tt, g') ↔
  gate_set fid aliasFor ## pending g ∧
  (∀ k, k ∈ gate_set fid aliasFor → confirmed k = Ok false) ∧
  g' = mkGate (gate_set fid aliasFor ∪ pending g).
Proof.
  unfold reserve. pose proof (existsb_false_forall (λ f, bool_decide (f ∈ pending g))
    (gate_fids fid aliasFor)) as Hex.
  assert (Hset : ∀ k, k ∈ gate_set fid aliasFor ↔ k ∈ gate_fids fid aliasFor)
    by (intros; unfold gate_set; apply elem_of_list_to_set).
  destruct (existsb _ _) eqn:E.
  { split; [done|]. intros (Hd & _). exfalso. assert (true = false) as [=]. apply Hex.
    intros k Hk. apply bool_decide_eq_false. intros Hp. by apply (Hd k); [apply Hset|]. }
  assert (Hd : gate_set fid aliasFor ## pending g).
  { intros k Hk Hp. apply Hset in Hk. apply (proj1 Hex eq_refl) in Hk.
    by apply bool_decide_eq_false in Hk. }
  destruct (check_confirmed confirmed (gate_fids fid aliasFor)) as [[]|e] eqn:Ec.
  - pose proof (proj1 (check_confirmed_Ok _ _) Ec) as Hc. split.
    + intros [= <-]. split; [done|]. split; [|done]. intros k Hk. by apply Hc, Hset.
    + by intros (_ & _ & ->).
  - split; [done|]. intros (_ & Hc & _). rewrite (proj2 (check_confirmed_Ok _ _)) in Ec; [done|].
    intros k Hk. by apply Hc, Hset.
Qed.

Lemma reserve_Err fid aliasFor confirmed g e g' :
  reserve fid aliasFor confirmed g = (Err e, g') → g' = g.
Proof. unfold reserve. repeat case_match; naive_solver. Qed.

Lemma release_pending fid aliasFor g :
  pending (release fid aliasFor g) = pending g ∖ gate_set fid aliasFor.
Proof.
  unfold release. cbn [pending]. apply set_eq. intros k.
  destruct (Z.eqb_spec aliasFor 0) as [->|Hne]; cbn [negb];
    rewrite !elem_of_difference, elem_of_gate_set, ?elem_of_singleton; tauto.
Qed.

(** The gate grants a reservation exactly when neither the fid nor its alias is pending and
    both are known to be unregistered; it then holds exactly those fids more, and releasing them
    restores it; a refused reservation, by conflict or by an error of the existence check, leaves
    it as it was. *)
Theorem gate_reserve_release fid aliasFor confirmed g :
  let '(res, g') := reserve fid aliasFor confirmed g in
  (is_ok res = true ↔
     (∀ k, k = fid ∨ (k = aliasFor ∧ aliasFor ≠ 0) → k ∉ pending g ∧ confirmed k = Ok false)) ∧
  (is_ok res = true →
     (∀ k, k ∈ pending g' ↔ k ∈ pending g ∨ k = fid ∨ (k = aliasFor ∧ aliasFor ≠ 0)) ∧
     release fid aliasFor g' = g) ∧
  (is_ok res = false → g' = g).
Proof.
  destruct (reserve fid aliasFor confirmed g) as [[[]|e] g'] eqn:E; cbn.
  - apply reserve_Ok in E as (Hd & Hc & ->). split_and!; [split; [|done]|intros _|done].
    + intros _ k Hk. rewrite <- elem_of_gate_set in Hk. split; [|by apply Hc]. intros ?. by apply (Hd k).
    + split; [intros k; cbn; rewrite elem_of_union, elem_of_gate_set; tauto|].
      destruct g as [p]. pose proof (release_pending fid aliasFor
        (mkGate (gate_set fid aliasFor ∪ p))) as Hr. destruct (release _ _ _) as [p'].
      cbn in *. subst p'. f_equal. set_solver.
  - pose proof (reserve_Err _ _ _ _ _ _ E) as ->. split_and!; try done. split; [done|].
    intros H. exfalso. assert (Hok : reserve fid aliasFor confirmed g =
      (Ok tt, mkGate (gate_set fid aliasFor ∪ pending g))); [|congruence].
    apply reserve_Ok. split_and!; [|intros k Hk|done].
    + intros k Hk. apply elem_of_gate_set, H in Hk as [? _]. done.
    + by apply elem_of_gate_set, H in Hk as [_ ?].
Qed.
