(* ===== verification/Float.v ===== *)
(** * Floating point (float64 of the configuration and of the trim trigger)

    A [float64] by its exact value: NaN, an infinity, or a rational.  [round64] rounds an exact
    result to the nearest representable value, ties to even, as one IEEE operation does; the values
    of the program stay far from overflow, which is not represented. *)

From S2P Require Import Prelude.
From Stdlib Require Import QArith.
#[local] Open Scope Z_scope.

Inductive f64 := NaN | Inf (positive : bool) | F64 (q : Q).

(** [x <= y], false as soon as one side is NaN. *)
Definition f64_le (x y : f64) : bool :=
  match x, y with
  | NaN, _ | _, NaN => false
  | Inf false, _ | _, Inf true => true
  | Inf true, _ | _, Inf false => false
  | F64 p, F64 q => Qle_bool p q
  end.

(** [x < y] *)
Definition f64_lt (x y : f64) : bool :=
  match x, y with
  | NaN, _ | _, NaN => false
  | _, _ => negb (f64_le y x)
  end.

Definition f64_of_Z (z : Z) : f64 := F64 (inject_Z z).

(** The nearest multiple of [d]'s reciprocal: [n / d] to the nearest integer, ties to even. *)
Definition round_half_even (n d : Z) : Z :=
  let k := n / d in
  let r := 2 * (n - k * d) in
  if r <? d then k else if d <? r then k + 1 else if Z.even k then k else k + 1.

(** [n / d] rounded to 53 significant bits, for [n] and [d] positive. *)
Definition round64 (q : Q) : Q :=
  let n := Qnum q in
  let d := Zpos (Qden q) in
  if n <=? 0 then 0%Q else
  let e0 := Z.log2 n - Z.log2 d in
  let e := (if n * 2 ^ Z.max 0 (- e0) <? d * 2 ^ Z.max 0 e0 then e0 - 1 else e0) - 52 in
  let e := Z.max e (-1074) in
  let m := round_half_even (n * 2 ^ Z.max 0 (- e)) (d * 2 ^ Z.max 0 e) in
  Qmake (m * 2 ^ Z.max 0 e) (Z.to_pos (2 ^ Z.max 0 (- e))).

(** The product with a count. *)
Definition f64_mul_count (n : Z) (x : f64) : f64 :=
  match x with
  | F64 q => F64 (round64 (inject_Z n * q))
  | Inf b => if n =? 0 then NaN else Inf b
  | NaN => NaN
  end.

(** Literals. *)
Example round64_fifth : round64 (1 # 5) = 7205759403792794 # 36028797018963968.
Proof. reflexivity. Qed.
Example round64_exact : Qeq_bool (round64 (3 # 8)) (3 # 8) = true.
Proof. reflexivity. Qed.
