(* ===== verification/Chd.v ===== *)
(** * Capacity estimation (internal/daemon/chd.go)

    [computeCHD] searches by bisection for the largest extent that a required share of 64 synthetic
    fids could still place on the disk.  The hash that makes the fids is the argument
    [HashString] (xxh3). *)

From S2P Require Import Prelude Machine Loop Float Device Layout Interval.
From Stdlib Require Import QArith Qround.
From stdpp Require Import pretty.
#[local] Open Scope Z_scope.

Definition chdSamples : Z := 64.

(** [slotIndex], [slots] of a candidate and the test that it places. *)
Definition places (diskBytes : Z) (intervals : list interval) (sizeBytes fid : Z) : bool :=
  match AddrForFID diskBytes fid sizeBytes with
  | Err _ => false
  | Ok (_, slotIndex, slots) =>
      if slots =? 0 then false else
      negb (anyOverlap intervals (mkInterval slotIndex (u64 (slotIndex + slots - 1))))
  end.

(** The loop of [chdSuccessRate], which leaves as soon as enough samples placed. *)
Fixpoint chd_loop (diskBytes : Z) (intervals : list interval) (sizeBytes required : Z)
    (fids : list Z) (success : Z) : bool :=
  match fids with
  | [] => false
  | fid :: fids =>
      if places diskBytes intervals sizeBytes fid then
        if required <=? success + 1 then true
        else chd_loop diskBytes intervals sizeBytes required fids (success + 1)
      else chd_loop diskBytes intervals sizeBytes required fids success
  end.

Definition chdSuccessRate (diskBytes : Z) (intervals : list interval) (fids : list Z)
    (slotsNeeded required : Z) : bool :=
  if (slotsNeeded =? 0) || bool_decide (fids = []) then false else
  chd_loop diskBytes intervals (u64 (slotsNeeded * SlotSize)) required fids 0.

Definition sampleFIDs (HashString : string → Z) (diskID : Z) (count : nat) : list Z :=
  (λ i, HashString (String.append "chd:" (String.append (pretty (Z.to_N diskID))
          (String.append ":" (pretty (N.of_nat i)))))) <$> seq 0 count.

(** The guard on [targetP] and [int(math.Ceil(targetP * 64))]; multiplying by 64 is exact. *)
Definition default_targetP : Q := 3602879701896397 # 18014398509481984.
Definition chd_required (targetP : f64) : Z :=
  let q := match targetP with
           | NaN | Inf _ => default_targetP
           | F64 q => if Qle_bool q 0 || negb (Qle_bool q 1) then default_targetP else q
           end in
  let required := Qceiling (q * inject_Z chdSamples) in
  if required <? 1 then 1 else required.

(** The bisection over [lo, hi] with the best extent seen. *)
Definition chd_search (success : Z → bool) (totalSlots : Z) : Z :=
  match loop (Z.to_pos (totalSlots + 2)) (λ '(best, lo, hi),
      if lo <=? hi then
        let mid := u64 (lo + (hi - lo) / 2) in
        if success mid then inl (mid, u64 (mid + 1), hi)
        else if mid =? 0 then inr best
        else inl (best, lo, u64 (mid - 1))
      else inr best) (0, 1, totalSlots) with
  | inr best => best
  | inl (best, _, _) => best
  end.

Definition computeCHD (HashString : string → Z) (diskBytes diskID : Z)
    (intervals : list interval) (targetP : f64) : Z :=
  if diskBytes <=? GridStart then 0 else
  let totalSlots := u64 (diskBytes - GridStart) / SlotSize in
  if totalSlots =? 0 then 0 else
  let required := chd_required targetP in
  let fids := sampleFIDs HashString diskID (Z.to_nat chdSamples) in
  let bestSlots :=
    chd_search (λ mid, chdSuccessRate diskBytes intervals fids mid required) totalSlots in
  u64 (bestSlots * SlotSize).

Definition pow2Log (value : Z) : Z := if value =? 0 then 0 else Z.log2 value.

(** ** Lemmas *)

(** The early exit does not change the answer: the share of the samples that place. *)
Lemma chd_loop_count d ivs size required fids k :
  k < required →
  chd_loop d ivs size required fids k =
    (required <=? k + Z.of_nat (length (filter (λ fid, places d ivs size fid) fids))).
Proof.
  revert k. induction fids as [|fid fids IH]; intros k Hk; cbn [chd_loop].
  - cbn. symmetry. apply Z.leb_gt. lia.
  - rewrite filter_cons. destruct (places d ivs size fid) eqn:E.
    + rewrite decide_True by (by rewrite ?Is_true_true). cbn [length].
      destruct (Z.leb_spec required (k + 1)); [symmetry; apply Z.leb_le; lia|].
      rewrite IH by lia. f_equal. lia.
    + rewrite decide_False by (by rewrite ?Is_true_true, ?E; intros ?). by apply IH.
Qed.

(** The bisection ends at a boundary: its answer passes, or is zero, and the next extent fails or
    does not fit the disk.  No monotonicity is needed. *)
Lemma chd_search_boundary success total :
  0 ≤ total < 2 ^ 62 →
  let best := chd_search success total in
  0 ≤ best ≤ total ∧ (best = 0 ∨ success best = true) ∧
  (best = total ∨ success (best + 1) = false).
Proof.
  intros Ht. unfold chd_search.
  edestruct (loop_total
    (λ '(best, lo, hi), best = lo - 1 ∧ 1 ≤ lo ≤ hi + 1 ∧ hi ≤ total ∧
       (best = 0 ∨ success best = true) ∧ (hi = total ∨ success (hi + 1) = false))
    (λ '(_, lo, hi), hi - lo + 1)
    (λ best, 0 ≤ best ≤ total ∧ (best = 0 ∨ success best = true) ∧
       (best = total ∨ success (best + 1) = false)) (Z.to_pos (total + 2)))
    as (r & -> & Hr); [| |intros [[best lo] hi] (-> & Hlo & Hhi & Hs & Hf) Hm|exact Hr].
  - split_and!; try lia; by left.
  - lia.
  - destruct (Z.leb_spec lo hi).
    + pose proof (Z.div_pos (hi - lo) 2 ltac:(lia) ltac:(lia)).
      pose proof (Z.div_lt_upper_bound (hi - lo) 2 (hi - lo + 1) ltac:(lia) ltac:(lia)).
      rewrite (u64_small (lo + (hi - lo) / 2)) by lia.
      set (mid := lo + (hi - lo) / 2) in *. assert (lo ≤ mid ≤ hi) by (unfold mid; lia).
      destruct (success mid) eqn:E.
      * rewrite u64_small by lia. split_and!; try lia; [by right|done].
      * rewrite (proj2 (Z.eqb_neq mid 0)) by lia. rewrite u64_small by lia.
        split_and!; try lia; [done|]. right. by replace (mid - 1 + 1) with mid by lia.
    + replace hi with (lo - 1) in * by lia. split_and!; try lia; done.
Qed.

Lemma chd_required_pos p : 1 ≤ chd_required p.
Proof. unfold chd_required. case_match; lia. Qed.

(** How many of the samples an extent of [slots] slots would place. *)
Definition chd_placed (HashString : string → Z) (d id : Z) (ivs : list interval) (slots : Z) : Z :=
  Z.of_nat (length (filter (λ fid, places d ivs (u64 (slots * SlotSize)) fid)
    (sampleFIDs HashString id (Z.to_nat chdSamples)))).

Lemma chdSuccessRate_placed HashString d id ivs slots required :
  slots ≠ 0 → 1 ≤ required →
  chdSuccessRate d ivs (sampleFIDs HashString id (Z.to_nat chdSamples)) slots required =
    (required <=? chd_placed HashString d id ivs slots).
Proof.
  intros Hs Hr. unfold chdSuccessRate. rewrite (proj2 (Z.eqb_neq slots 0)) by done.
  rewrite bool_decide_eq_false_2 by done. cbn [orb].
  rewrite chd_loop_count by lia. by rewrite Z.add_0_l.
Qed.

(** For every hash function and every set of extents, [computeCHD] returns a whole number of
    slots that fits the disk, at which the required share of the samples places, unless it is zero,
    and one slot more would fall short of that share, unless it is the whole grid: the bisection
    ends on a boundary, within its fuel. *)
Theorem chd_boundary HashString d id ivs p :
  disk_ok d →
  ∃ best, computeCHD HashString d id ivs p = best * SlotSize ∧ 0 ≤ best ≤ disk_slots d ∧
    (best = 0 ∨ chd_required p ≤ chd_placed HashString d id ivs best) ∧
    (best = disk_slots d ∨ chd_placed HashString d id ivs (best + 1) < chd_required p).
Proof.
  intros Hd. pose proof (disk_slots_range d Hd) as Hr. unfold computeCHD. unfold disk_ok in Hd.
  rewrite (proj2 (Z.leb_gt _ _)) by lia. rewrite u64_small by llia. fold (disk_slots d).
  destruct (Z.eqb_spec (disk_slots d) 0) as [->|Hn].
  { exists 0. split_and!; try lia; by left. }
  pose proof (chd_required_pos p) as Hp.
  set (success := λ mid, chdSuccessRate d ivs _ mid (chd_required p)).
  destruct (chd_search_boundary success (disk_slots d)) as (Hb & H1 & H2); [lia|].
  set (best := chd_search success (disk_slots d)) in *.
  exists best. split; [apply u64_small; unfold SlotSize; lia|]. split; [done|]. split.
  - destruct H1 as [|H1]; [by left|]. destruct (decide (best = 0)) as [|Hb0]; [by left|right].
    unfold success in H1. rewrite chdSuccessRate_placed in H1 by done. lia.
  - destruct H2 as [|H2]; [by left|right]. unfold success in H2.
    rewrite chdSuccessRate_placed in H2 by lia. lia.
Qed.

Lemma chd_boundary_witness :
  ∃ best, computeCHD (λ _, 0) (GridStart + 100 * SlotSize) 7 [mkInterval 40 49] (F64 1)
            = best * SlotSize ∧ 0 ≤ best ≤ 100.
Proof.
  destruct (chd_boundary (λ _, 0) (GridStart + 100 * SlotSize) 7 [mkInterval 40 49] (F64 1))
    as (best & H1 & H2 & _); [unfold disk_ok; llia|]. exists best. split; [exact H1|].
  exact H2.
Defined.
