(* ===== verification/Fragmentation.v ===== *)
(** * The size threshold of the packer (internal/daemon/fragmentation.go)

    [computeFragmentationThreshold] puts the object sizes into power-of-two buckets and returns the
    upper bound of the fullest one. *)

From S2P Require Import Prelude.

Record fragmentationBin := mkBin {
  LowerBoundBytes : Z; UpperBoundBytes : Z; CumulativeCount : Z; BucketCount : Z
}.

Record fragmentationMetrics := mkMetrics {
  thresholdBytes : Z; cliffLowerBytes : Z; cliffUpperBytes : Z; maxDeltaCount : Z;
  bins : list fragmentationBin
}.

Definition metrics0 : fragmentationMetrics := mkMetrics 0 0 0 0 [].

(** [bits.Len64(v) - 1]. *)
Definition floorLog2 (v : Z) : Z := if v =? 0 then -1 else Z.log2 v.

Definition pow2Bytes (pow : Z) : Z :=
  if pow <=? 0 then 1 else if 63 <=? pow then Z.shiftl 1 63 else Z.shiftl 1 pow.

(** The first loop: the counts per power and the largest power. *)
Definition count_sizes (sizes : list Z) : Z * gmap Z Z :=
  foldl (λ '(maxPow, counts) size,
    if size =? 0 then (maxPow, counts) else
    let pow := floorLog2 size in
    (if maxPow <? pow then pow else maxPow,
     <[pow := default 0 (counts !! pow) + 1]> counts)) (0, ∅) sizes.

(** The second loop, from [maxPow] down, with the reversal that follows it: the bins in increasing
    order of their bounds.  [n] powers are left, [pow] is the next one. *)
Fixpoint make_bins (counts : gmap Z Z) (n : nat) (cumulative : Z) (acc : list fragmentationBin) :
    list fragmentationBin :=
  match n with
  | O => acc
  | S n =>
      let pow := Z.of_nat n in
      let count := default 0 (counts !! pow) in
      make_bins counts n (cumulative + count)
        (mkBin (pow2Bytes pow) (pow2Bytes (pow + 1)) (cumulative + count) count :: acc)
  end.

(** The third loop: the index and the count of the first fullest bin. *)
Fixpoint best_bin (bs : list fragmentationBin) (idx : nat) (best : nat * Z) : nat * Z :=
  match bs with
  | [] => best
  | b :: bs =>
      best_bin bs (S idx) (if best.2 <? BucketCount b then (idx, BucketCount b) else best)
  end.

Definition computeFragmentationThreshold (sizes : list Z) : fragmentationMetrics :=
  if bool_decide (sizes = []) then metrics0 else
  let '(maxPow, counts) := count_sizes sizes in
  if bool_decide (counts = ∅) then metrics0 else
  let bs := make_bins counts (Z.to_nat (maxPow + 1)) 0 [] in
  let '(bestPow, bestDelta) := best_bin bs 0 (0%nat, -1) in
  match bs !! bestPow with
  | Some b => mkMetrics (UpperBoundBytes b) (LowerBoundBytes b) (UpperBoundBytes b) bestDelta bs
  | None => metrics0
  end.

(** ** Specification *)

(** The number of sizes in the bucket of a power. *)
Definition bucket (sizes : list Z) (pow : Z) : Z :=
  Z.of_nat (length (filter (λ s, s ≠ 0 ∧ floorLog2 s = pow) sizes)).

Lemma bucket_cons s sizes pow :
  bucket (s :: sizes) pow = bucket sizes pow + (if decide (s ≠ 0 ∧ floorLog2 s = pow) then 1 else 0).
Proof. unfold bucket. rewrite filter_cons. case_decide; cbn [length]; lia. Qed.

Lemma count_sizes_spec sizes :
  (∀ s, s ∈ sizes → 0 ≤ s < 2 ^ 64) →
  let '(maxPow, counts) := count_sizes sizes in
  (∀ pow, default 0 (counts !! pow) = bucket sizes pow) ∧
  0 ≤ maxPow ∧ (∀ s, s ∈ sizes → s ≠ 0 → 0 ≤ floorLog2 s ≤ maxPow) ∧
  (counts = ∅ ↔ ∀ s, s ∈ sizes → s = 0).
Proof.
  induction sizes as [|s sizes IH] using rev_ind; intros Hs.
  { cbn. split; [intros pow; by rewrite lookup_empty|]. split; [done|].
    split; [intros s H; by apply not_elem_of_nil in H|]. split; [|done].
    intros _ s H. by apply not_elem_of_nil in H. }
  unfold count_sizes in *. rewrite foldl_app. cbn [foldl].
  destruct (foldl _ _ sizes) as [maxPow counts]. destruct IH as (Hc & Hm & Hle & He).
  { intros x Hx. apply Hs. apply elem_of_app. by left. }
  assert (Hb : ∀ pow, bucket (sizes ++ [s]) pow =
    bucket sizes pow + (if decide (s ≠ 0 ∧ floorLog2 s = pow) then 1 else 0)).
  { intros pow. unfold bucket. rewrite filter_app, length_app. cbn [filter list_filter].
    unfold filter, list_filter. case_decide; cbn [length]; lia. }
  destruct (Z.eqb_spec s 0) as [->|Hne].
  - split_and!; try done.
    + intros pow. rewrite Hb, decide_False by tauto. rewrite Hc. lia.
    + intros x [Hx|Hx]%elem_of_app Hx0; [by apply Hle|]. by apply list_elem_of_singleton in Hx.
    + rewrite He. setoid_rewrite elem_of_app. setoid_rewrite list_elem_of_singleton. naive_solver.
  - pose proof (Hs s ltac:(apply elem_of_app; right; by left)) as Hsr.
    assert (Hfl : 0 ≤ floorLog2 s)
      by (unfold floorLog2; rewrite (proj2 (Z.eqb_neq s 0)) by done; apply Z.log2_nonneg).
    split_and!.
    + intros pow. rewrite Hb. destruct (decide (pow = floorLog2 s)) as [->|Hp].
      * rewrite lookup_insert_eq, decide_True by done. cbn. rewrite Hc. lia.
      * rewrite lookup_insert_ne, decide_False by (done || intros [_ ?]; congruence).
        rewrite Hc. lia.
    + destruct (Z.ltb_spec maxPow (floorLog2 s)); lia.
    + intros x [Hx|Hx]%elem_of_app Hx0.
      * pose proof (Hle x Hx Hx0). destruct (Z.ltb_spec maxPow (floorLog2 s)); lia.
      * apply list_elem_of_singleton in Hx as ->. destruct (Z.ltb_spec maxPow (floorLog2 s)); lia.
    + split; [intros E; by apply insert_non_empty in E|]. intros H. exfalso. apply Hne, H.
      apply elem_of_app. right. by left.
Qed.

(** The bins hold the buckets in order, each with the number of larger objects. *)
Lemma make_bins_spec counts n c acc :
  ∃ bs, make_bins counts n c acc = bs ++ acc ∧ length bs = n ∧
    ∀ i b, bs !! i = Some b →
      LowerBoundBytes b = pow2Bytes (Z.of_nat i) ∧ UpperBoundBytes b = pow2Bytes (Z.of_nat i + 1) ∧
      BucketCount b = default 0 (counts !! Z.of_nat i).
Proof.
  revert c acc. induction n as [|n IH]; intros c acc; [by exists []|].
  cbn [make_bins]. destruct (IH (c + default 0 (counts !! Z.of_nat n))
    (mkBin (pow2Bytes (Z.of_nat n)) (pow2Bytes (Z.of_nat n + 1))
       (c + default 0 (counts !! Z.of_nat n)) (default 0 (counts !! Z.of_nat n)) :: acc))
    as (bs & -> & Hl & Hb).
  eexists (bs ++ [_]). split; [by rewrite <- app_assoc|]. split; [rewrite length_app; cbn; lia|].
  intros i b [H|[Hge H]]%lookup_app_Some; [by apply Hb|].
  apply list_lookup_singleton_Some in H as [Hi <-]. replace i with n by lia. done.
Qed.

(** The scan keeps the first bin with the largest count. *)
Lemma best_bin_spec bs k best :
  let r := best_bin bs k best in
  best.2 ≤ r.2 ∧ (∀ i b, bs !! i = Some b → BucketCount b ≤ r.2) ∧
  (r = best ∨ ∃ i b, r.1 = (k + i)%nat ∧ bs !! i = Some b ∧ BucketCount b = r.2 ∧ best.2 < r.2 ∧
     ∀ j b', (j < i)%nat → bs !! j = Some b' → BucketCount b' < r.2).
Proof.
  revert k best. induction bs as [|b bs IH]; intros k best; cbn [best_bin].
  { split; [done|]. split; [done|by left]. }
  specialize (IH (S k) (if best.2 <? BucketCount b then (k, BucketCount b) else best)).
  set (best' := if _ <? _ then _ else _) in *. set (r := best_bin bs (S k) best') in *.
  destruct IH as (H1 & H2 & H3).
  assert (Hb' : best' = (k, BucketCount b) ∧ best.2 < BucketCount b ∨
                best' = best ∧ BucketCount b ≤ best.2)
    by (unfold best'; destruct (Z.ltb_spec best.2 (BucketCount b)); auto).
  split; [destruct Hb' as [[E ?]|[E ?]]; rewrite E in H1; cbn in H1; lia|]. split.
  - intros [|i] b' H; [injection H as <-|by apply (H2 i)].
    destruct Hb' as [[E ?]|[E ?]]; rewrite E in H1; cbn in H1; lia.
  - destruct H3 as [E|(i & b' & Hi & Hl & Hc & Hlt & Hfirst)].
    + destruct Hb' as [[E' Hx]|[E' Hx]]; rewrite E' in E; [right|by left].
      exists 0%nat, b. rewrite E. cbn. split_and!; try done. intros j ? ?. lia.
    + right. exists (S i), b'. split_and!; try done; try lia.
      * destruct Hb' as [[E' Hx]|[E' Hx]]; rewrite E' in Hlt; cbn in Hlt; lia.
      * intros [|j] b'' Hj H; [injection H as <-|by apply (Hfirst j); [lia|]].
        destruct Hb' as [[E' Hx]|[E' Hx]]; rewrite E' in Hlt; cbn in Hlt; lia.
Qed.

(** For a list of sizes with a non-zero one, the threshold is the upper bound of the bucket
    with the most objects, the one of the smallest objects when several are as full; the bucket is
    not empty, and the lower bound reported is that of the same bucket. *)
Theorem threshold_fullest_bucket sizes :
  (∀ s, s ∈ sizes → 0 ≤ s < 2 ^ 64) → (∃ s, s ∈ sizes ∧ s ≠ 0) →
  let m := computeFragmentationThreshold sizes in
  ∃ pow, 0 ≤ pow ∧ thresholdBytes m = pow2Bytes (pow + 1) ∧ cliffLowerBytes m = pow2Bytes pow ∧
    0 < bucket sizes pow ∧ maxDeltaCount m = bucket sizes pow ∧
    ∀ p, 0 ≤ p → bucket sizes p ≤ bucket sizes pow ∧ (p < pow → bucket sizes p < bucket sizes pow).
Proof.
  intros Hs (s0 & Hs0 & Hne0). pose proof (count_sizes_spec sizes Hs) as H.
  unfold computeFragmentationThreshold.
  rewrite bool_decide_eq_false_2 by (intros ->; by apply not_elem_of_nil in Hs0).
  destruct (count_sizes sizes) as [maxPow counts]. destruct H as (Hc & Hm & Hle & He).
  rewrite bool_decide_eq_false_2 by (rewrite He; intros H; by apply Hne0, H).
  destruct (make_bins_spec counts (Z.to_nat (maxPow + 1)) 0 []) as (bs & -> & Hl & Hb).
  rewrite app_nil_r.
  assert (Hpos : ∀ s, s ∈ sizes → s ≠ 0 → 0 < bucket sizes (floorLog2 s)).
  { intros s Hin Hn. unfold bucket. destruct (filter _ sizes) eqn:E; [|cbn; lia].
    assert (s ∈ @nil Z) as []%not_elem_of_nil. rewrite <- E. apply list_elem_of_filter. done. }
  assert (Hbin : ∀ p, 0 ≤ p ≤ maxPow → ∃ b, bs !! Z.to_nat p = Some b ∧
    LowerBoundBytes b = pow2Bytes p ∧ UpperBoundBytes b = pow2Bytes (p + 1) ∧
    BucketCount b = bucket sizes p).
  { intros p Hp. destruct (lookup_lt_is_Some_2 bs (Z.to_nat p)) as [b Hlb]; [lia|].
    exists b. split; [done|]. destruct (Hb _ _ Hlb) as (-> & -> & ->).
    rewrite Z2Nat.id, Hc by lia. done. }
  assert (Hout : ∀ p, maxPow < p → bucket sizes p = 0).
  { intros p Hp. unfold bucket. destruct (filter _ sizes) as [|x l] eqn:E; [done|exfalso].
    assert (Hx : x ∈ filter (λ s, s ≠ 0 ∧ floorLog2 s = p) sizes) by (rewrite E; left).
    apply list_elem_of_filter in Hx as [[Hx1 Hx2] Hx]. pose proof (Hle x Hx Hx1). lia. }
  pose proof (best_bin_spec bs 0 (0%nat, -1)) as Hbest. cbv zeta in Hbest.
  destruct (best_bin bs 0 (0%nat, -1)) as [bp bd]. cbn [fst snd] in Hbest.
  destruct Hbest as (H1 & H2 & H3).
  pose proof (Hle s0 Hs0 Hne0) as Hf0. pose proof (Hpos s0 Hs0 Hne0) as Hp0.
  destruct (Hbin (floorLog2 s0) Hf0) as (b0 & Hb0 & _ & _ & Ec0). pose proof (H2 _ _ Hb0) as Hge.
  destruct H3 as [[= -> ->]|(i & b & -> & Hi & Eb & _ & Hfirst)]; [lia|]. cbn [Nat.add].
  rewrite Hi. pose proof (lookup_lt_Some _ _ _ Hi) as Hlt.
  destruct (Hb _ _ Hi) as (Elo & Eup & Ecnt). rewrite Hc in Ecnt.
  exists (Z.of_nat i). cbn [thresholdBytes cliffLowerBytes maxDeltaCount].
  split_and!; try lia; try done. intros p Hp. destruct (Z.le_gt_cases p maxPow) as [Hpm|Hpm].
  - destruct (Hbin p) as (b' & Hb' & _ & _ & E'); [lia|]. pose proof (H2 _ _ Hb'). split; [lia|].
    intros Hpi. pose proof (Hfirst (Z.to_nat p) b' ltac:(lia) Hb'). lia.
  - rewrite Hout by done. lia.
Qed.

Lemma threshold_fullest_bucket_witness :
  thresholdBytes (computeFragmentationThreshold [100; 5000; 5001; 70000]) = 8192 ∧
  ∃ pow, 0 ≤ pow ∧
    thresholdBytes (computeFragmentationThreshold [100; 5000; 5001; 70000]) = pow2Bytes (pow + 1).
Proof.
  split; [reflexivity|].
  destruct (threshold_fullest_bucket [100; 5000; 5001; 70000]) as (pow & H1 & H2 & _).
  - intros s Hs. repeat (apply elem_of_cons in Hs as [->|Hs]; [lia|]). by apply not_elem_of_nil in Hs.
  - exists 100. split; [left|lia].
  - exists pow. split; [exact H1|exact H2].
Defined.
