(* ===== verification/Text.v ===== *)
(** * Strings and sizes (internal/pan, ParseSize of internal/daemon/config.go, parseSize and
    IsZramDevicePath of internal/zram)

    The functions of Go's [strings], [strconv] and [filepath] the program uses, on strings of
    ASCII characters, and the parsers of sizes and disk ids built from them. *)

From S2P Require Import Prelude Machine.
From Stdlib Require Import Ascii.

Definition chars (s : string) : list ascii := String.list_ascii_of_string s.
Definition str (l : list ascii) : string := String.string_of_list_ascii l.
Definition code (c : ascii) : Z := Z.of_N (N_of_ascii c).

(** ** strings *)
Definition HasPrefix (s p : string) : bool := bool_decide (take (length (chars p)) (chars s) = chars p).
Definition HasSuffix (s p : string) : bool :=
  bool_decide (length (chars p) ≤ length (chars s))%nat &&
  bool_decide (drop (length (chars s) - length (chars p)) (chars s) = chars p).
Definition TrimPrefix (s p : string) : string :=
  if HasPrefix s p then str (drop (length (chars p)) (chars s)) else s.
Definition TrimSuffix (s p : string) : string :=
  if HasSuffix s p then str (take (length (chars s) - length (chars p)) (chars s)) else s.

Definition is_space (c : ascii) : bool :=
  (9 <=? code c) && (code c <=? 13) || (code c =? 32).
Fixpoint trim_left (l : list ascii) : list ascii :=
  match l with
  | c :: l' => if is_space c then trim_left l' else l
  | [] => []
  end.
Definition TrimSpace (s : string) : string :=
  str (reverse (trim_left (reverse (trim_left (chars s))))).

Definition upper (c : ascii) : ascii :=
  if (97 <=? code c) && (code c <=? 122) then ascii_of_N (Z.to_N (code c - 32)) else c.
Definition ToUpper (s : string) : string := str (upper <$> chars s).
Definition EqualFold (s t : string) : bool := bool_decide (ToUpper s = ToUpper t).

(** ** strconv.ParseUint with 64 bits *)

(** [lower] of strconv: the character with bit 5 set. *)
Definition lower (c : ascii) : Z := Z.lor (code c) 32.

Definition digit_val (c : ascii) : option Z :=
  if (48 <=? code c) && (code c <=? 57) then Some (code c - 48)
  else if (97 <=? lower c) && (lower c <=? 122) then Some (lower c - 97 + 10)
  else None.

Definition syntax_error : error := EMsg "invalid syntax".
Definition range_error : error := EMsg "value out of range".

(** The digits; an underscore is skipped when the base was given as 0. *)
Fixpoint parse_digits (base : Z) (base0 : bool) (l : list ascii) (n : Z) (underscores : bool) :
    res (Z * bool) :=
  match l with
  | [] => Ok (n, underscores)
  | c :: l =>
      if base0 && (code c =? 95) then parse_digits base base0 l n true else
      match digit_val c with
      | None => Err syntax_error
      | Some d =>
          if base <=? d then Err syntax_error else
          let n1 := n * base + d in
          if 2 ^ 64 <=? n1 then Err range_error else parse_digits base base0 l n1 underscores
      end
  end.

(** The last character seen by [underscoreOK]. *)
Inductive saw := SBegin | SDigit | SUnderscore | SOther.

Fixpoint underscore_loop (hex : bool) (l : list ascii) (s : saw) : bool :=
  match l with
  | [] => match s with SUnderscore => false | _ => true end
  | c :: l =>
      if (48 <=? code c) && (code c <=? 57) || hex && (97 <=? lower c) && (lower c <=? 102)
      then underscore_loop hex l SDigit
      else if code c =? 95
      then match s with SDigit => underscore_loop hex l SUnderscore | _ => false end
      else match s with SUnderscore => false | _ => underscore_loop hex l SOther end
  end.

Definition underscoreOK (l : list ascii) : bool :=
  let l := match l with
           | c :: l' => if (code c =? 45) || (code c =? 43) then l' else l
           | [] => l
           end in
  match l with
  | c0 :: c1 :: l' =>
      if (code c0 =? 48) && ((lower c1 =? 98) || (lower c1 =? 111) || (lower c1 =? 120))
      then underscore_loop (lower c1 =? 120) l' SDigit
      else underscore_loop false l SBegin
  | _ => underscore_loop false l SBegin
  end.

(** The base prefix of [ParseUint(s, 0, 64)]. *)
Definition base_prefix (l : list ascii) : Z * list ascii :=
  match l with
  | c0 :: l1 =>
      if code c0 =? 48 then
        match l1 with
        | c1 :: ((_ :: _) as l2) =>
            if lower c1 =? 98 then (2, l2)
            else if lower c1 =? 111 then (8, l2)
            else if lower c1 =? 120 then (16, l2)
            else (8, l1)
        | _ => (8, l1)
        end
      else (10, l)
  | [] => (10, l)
  end.

Definition ParseUint (s : string) (base : Z) : res Z :=
  let l := chars s in
  if bool_decide (l = []) then Err syntax_error else
  let '(b, ds) := if base =? 0 then base_prefix l else (base, l) in
  '(n, underscores) ← parse_digits b (base =? 0) ds 0 false;
  if (underscores : bool) && negb (underscoreOK l) then Err syntax_error else Ok n.

(** ** Sizes *)
Definition KB : Z := 1024.
Definition MB : Z := 1024 * 1024.
Definition GB : Z := 1024 * 1024 * 1024.

(** [daemon.ParseSize]: both suffixes of a unit are trimmed, one after the other. *)
Definition ParseSize (input : string) : res Z :=
  let trimmed := TrimSpace (ToUpper input) in
  if bool_decide (trimmed = EmptyString) then Err (EMsg "empty size") else
  let '(multiplier, trimmed) :=
    if HasSuffix trimmed "GB" || HasSuffix trimmed "G"
    then (GB, TrimSuffix (TrimSuffix trimmed "GB") "G")
    else if HasSuffix trimmed "MB" || HasSuffix trimmed "M"
    then (MB, TrimSuffix (TrimSuffix trimmed "MB") "M")
    else if HasSuffix trimmed "KB" || HasSuffix trimmed "K"
    then (KB, TrimSuffix (TrimSuffix trimmed "KB") "K")
    else if HasSuffix trimmed "B" then (1, TrimSuffix trimmed "B")
    else (1, trimmed) in
  value ← ParseUint (TrimSpace trimmed) 10;
  Ok (u64 (value * multiplier)).

(** [zram.parseSize]: one suffix, and an overflow check. *)
Definition parseSize (input : string) : res Z :=
  let trimmed := TrimSpace (ToUpper input) in
  if bool_decide (trimmed = EmptyString) then Err (EMsg "empty size") else
  let '(multiplier, trimmed) :=
    if HasSuffix trimmed "GB" then (GB, TrimSuffix trimmed "GB")
    else if HasSuffix trimmed "G" then (GB, TrimSuffix trimmed "G")
    else if HasSuffix trimmed "MB" then (MB, TrimSuffix trimmed "MB")
    else if HasSuffix trimmed "M" then (MB, TrimSuffix trimmed "M")
    else if HasSuffix trimmed "KB" then (KB, TrimSuffix trimmed "KB")
    else if HasSuffix trimmed "K" then (KB, TrimSuffix trimmed "K")
    else if HasSuffix trimmed "B" then (1, TrimSuffix trimmed "B")
    else (1, trimmed) in
  value ← ParseUint (TrimSpace trimmed) 10;
  if (2 ^ 64 - 1) / multiplier <? value then Err (EMsg "size overflow")
  else Ok (u64 (value * multiplier)).

(** ** Paths and disk ids *)

(** [filepath.Base]. *)
Definition slash : ascii := ascii_of_N 47.
Fixpoint strip_slashes (l : list ascii) : list ascii :=
  match l with
  | c :: l' => if bool_decide (c = slash) then strip_slashes l' else l
  | [] => []
  end.
Fixpoint until_slash (l : list ascii) : list ascii :=
  match l with
  | c :: l' => if bool_decide (c = slash) then [] else c :: until_slash l'
  | [] => []
  end.
Definition Base (path : string) : string :=
  if bool_decide (path = EmptyString) then "." else
  match reverse (until_slash (strip_slashes (reverse (chars path)))) with
  | [] => str [slash]
  | l => str l
  end.

Definition isZramPath (path : string) : bool :=
  let base := Base path in
  if negb (HasPrefix base "zram") || (length (chars base) =? 4)%nat then false else
  forallb (λ c, negb ((code c <? 48) || (57 <? code c))) (drop 4 (chars base)).

Definition IsZramDevicePath (path : string) : bool := isZramPath path.

Definition ParseDiskID (input : string) : res Z := ParseUint (TrimSpace input) 0.

(** [fmt.Sprintf("0x%X", id)]. *)
Definition hex_char (d : Z) : ascii :=
  ascii_of_N (Z.to_N (if d <? 10 then 48 + d else 55 + d)).
Fixpoint hex_digits (n : nat) (z : Z) (acc : list ascii) : list ascii :=
  match n with
  | O => acc
  | S n => let acc := hex_char (z `mod` 16) :: acc in
           if z / 16 =? 0 then acc else hex_digits n (z / 16) acc
  end.
Definition formatID (id : Z) : string := str (ascii_of_N 48 :: ascii_of_N 120 :: hex_digits 16 id []).

(** ** pan.go *)
Record PanDevice := mkPanDevice {
  Status : string; DevicePath : string; DiskID : string; PanVersion : Z; SizeBytes : Z
}.

Definition SelectDevice (devices : list PanDevice) (panID : string) : res PanDevice :=
  match devices with
  | [] => Err (EMsg "no devices in pan.json")
  | first :: _ =>
      if bool_decide (panID = EmptyString) then Ok first else
      want ← ParseDiskID panID;
      match filter (λ dev, EqualFold (DiskID dev) (formatID want)) devices with
      | dev :: _ => Ok dev
      | [] => Err (EMsg "disk id not found in pan.json")
      end
  end.

Definition NormalizeID (input : string) : string :=
  if HasPrefix input "0x" || HasPrefix input "0X"
  then String.append "0x" (ToUpper (TrimPrefix (TrimPrefix input "0x") "0X"))
  else match ParseUint input 10 with
       | Ok parsed => formatID parsed
       | Err _ => input
       end.

(** ** Disk ids round trip *)
Lemma chars_str l : chars (str l) = l.
Proof. apply String.list_ascii_of_string_of_list_ascii. Qed.

Lemma hex_char_ok d :
  0 ≤ d < 16 →
  digit_val (hex_char d) = Some d ∧ code (hex_char d) ≠ 95 ∧ is_space (hex_char d) = false.
Proof.
  intros Hd. assert (H : d ∈ seqZ 0 16) by (apply elem_of_seqZ; lia). revert d Hd H.
  assert (Hall : Forall (λ d, digit_val (hex_char d) = Some d ∧ code (hex_char d) ≠ 95 ∧
    is_space (hex_char d) = false) (seqZ 0 16)).
  { repeat (constructor; [split_and!; by vm_compute|]). constructor. }
  intros d _ H. rewrite Forall_forall in Hall. auto.
Qed.

Lemma parse_hex_digits n z acc u :
  0 ≤ z < 16 ^ Z.of_nat n → (0 < n)%nat → z < 2 ^ 64 →
  parse_digits 16 true (hex_digits n z acc) 0 u = parse_digits 16 true acc z u.
Proof.
  intros Hz Hn Hz'. revert z acc Hz Hn Hz'. induction n as [|n IH]; intros z acc Hz Hn Hz'; [lia|].
  rewrite Nat2Z.inj_succ, Z.pow_succ_r in Hz by lia. cbn [hex_digits].
  pose proof (Z.mod_pos_bound z 16 ltac:(lia)) as Hm. pose proof (Z.div_mod z 16 ltac:(lia)) as Hdm.
  destruct (hex_char_ok (z `mod` 16) Hm) as (Hd & Hc & _).
  assert (Hstep : ∀ m, m * 16 + z `mod` 16 = z → parse_digits 16 true (hex_char (z `mod` 16) :: acc) m u
    = parse_digits 16 true acc z u).
  { intros m Hmz. cbn [parse_digits]. rewrite (proj2 (Z.eqb_neq _ 95)) by done. cbn [andb].
    rewrite Hd. rewrite (proj2 (Z.leb_gt 16 _)) by lia. rewrite Hmz.
    by rewrite (proj2 (Z.leb_gt (2 ^ 64) z)) by lia. }
  destruct (Z.eqb_spec (z / 16) 0) as [E|E]; [apply Hstep; lia|].
  assert (0 < z / 16) by (pose proof (Z.div_pos z 16); lia).
  assert (z / 16 < 16 ^ Z.of_nat n) by (apply Z.div_lt_upper_bound; lia).
  assert (n ≠ 0)%nat by (intros ->; cbn in *; lia).
  rewrite IH by lia. apply Hstep. lia.
Qed.

Lemma hex_digits_last n z acc :
  ∃ pre, hex_digits (S n) z acc = pre ++ hex_char (z `mod` 16) :: acc.
Proof.
  revert z acc. induction n as [|n IH]; intros z acc; cbn [hex_digits].
  - exists []. by destruct (_ =? 0).
  - destruct (z / 16 =? 0); [by exists []|].
    destruct (IH (z / 16) (hex_char (z `mod` 16) :: acc)) as [pre Hpre].
    exists (pre ++ [hex_char ((z / 16) `mod` 16)]). cbn [hex_digits] in Hpre.
    rewrite Hpre, <- app_assoc. done.
Qed.

Lemma TrimSpace_id c l x :
  is_space c = false → is_space x = false → TrimSpace (str (c :: l ++ [x])) = str (c :: l ++ [x]).
Proof.
  intros Hc Hx. unfold TrimSpace. rewrite chars_str. cbn [trim_left]. rewrite Hc.
  replace (reverse (c :: l ++ [x])) with (x :: reverse (c :: l))
    by (by rewrite app_comm_cons, reverse_app). cbn [trim_left]. rewrite Hx.
  by rewrite reverse_cons, reverse_involutive.
Qed.

(** Every disk id survives being printed as [0x%X] in pan.json and parsed again. *)
Theorem disk_id_roundtrip id : is_u64 id → ParseDiskID (formatID id) = Ok id.
Proof.
  intros [H0 H1]. unfold ParseDiskID, formatID.
  destruct (hex_digits_last 15 id []) as [pre Hpre].
  pose proof (Z.mod_pos_bound id 16 ltac:(lia)) as Hm.
  destruct (hex_char_ok _ Hm) as (_ & _ & Hsp).
  rewrite Hpre. change (ascii_of_N 48 :: ascii_of_N 120 :: pre ++ [hex_char (id `mod` 16)])
    with (ascii_of_N 48 :: (ascii_of_N 120 :: pre) ++ [hex_char (id `mod` 16)]).
  rewrite TrimSpace_id by done. rewrite <- app_comm_cons, <- Hpre.
  unfold ParseUint. rewrite chars_str. rewrite bool_decide_eq_false_2 by done.
  assert (Hbp : base_prefix (ascii_of_N 48 :: ascii_of_N 120 :: hex_digits 16 id []) =
    (16, hex_digits 16 id [])).
  { rewrite Hpre. by destruct pre. }
  change (0 =? 0) with true. cbn match. rewrite Hbp.
  rewrite (parse_hex_digits 16 id [] false) by (try lia; done). done.
Qed.

Lemma disk_id_roundtrip_witness : ParseDiskID (formatID 0x1F2E3D) = Ok 0x1F2E3D.
Proof. exact (disk_id_roundtrip 0x1F2E3D ltac:(unfold is_u64; lia)). Defined.

(** The size parser of the daemon's configuration multiplies without the overflow check its
    sibling in internal/zram has: a maximum object size of 17179869184GB is accepted as 0, which
    the server reads as no limit at all, and a unit may be written twice. *)
Theorem parse_size_unchecked :
  ParseSize "17179869184GB" = Ok 0 ∧ parseSize "17179869184GB" = Err (EMsg "size overflow") ∧
  ParseSize "1GGB" = Ok GB ∧ parseSize "1GGB" = Err syntax_error.
Proof. split_and!; vm_compute; reflexivity. Qed.
