(* ===== verification/Path.v ===== *)
(** * Slash-separated paths (Go's path/filepath on Unix)

    [Clean], [Join] and [Dir] as the Go standard library defines them, over ASCII strings; [Base] is
    in Text.v.  The program builds every file name it opens with them. *)

From S2P Require Import Prelude Text.
From Stdlib Require Import Strings.Ascii.
#[local] Open Scope nat_scope.

(** The elements between slashes. *)
Fixpoint split_slash (l : list ascii) (cur : list ascii) : list (list ascii) :=
  match l with
  | [] => [reverse cur]
  | c :: l => if bool_decide (c = slash) then reverse cur :: split_slash l []
              else split_slash l (c :: cur)
  end.

Definition dot : ascii := ascii_of_N 46.

(** [stack] holds the kept elements, last first. *)
Fixpoint clean_elems (rooted : bool) (elems stack : list (list ascii)) : list (list ascii) :=
  match elems with
  | [] => reverse stack
  | e :: elems =>
      if bool_decide (e = []) || bool_decide (e = [dot]) then clean_elems rooted elems stack
      else if bool_decide (e = [dot; dot]) then
        match stack with
        | [] => clean_elems rooted elems (if rooted then [] else [e])
        | top :: rest => if bool_decide (top = [dot; dot]) then clean_elems rooted elems (e :: stack)
                         else clean_elems rooted elems rest
        end
      else clean_elems rooted elems (e :: stack)
  end.

Fixpoint join_slash (elems : list (list ascii)) : list ascii :=
  match elems with
  | [] => []
  | [e] => e
  | e :: elems => e ++ slash :: join_slash elems
  end.

Definition Clean (path : string) : string :=
  let l := chars path in
  let rooted := match l with c :: _ => bool_decide (c = slash) | [] => false end in
  match join_slash (clean_elems rooted (split_slash l []) []), rooted with
  | [], false => str [dot]
  | out, false => str out
  | out, true => str (slash :: out)
  end.

(** [filepath.Join] of two elements: empty ones are ignored. *)
Definition Join (a b : string) : string :=
  if bool_decide (a = EmptyString) then
    if bool_decide (b = EmptyString) then EmptyString else Clean b
  else if bool_decide (b = EmptyString) then Clean a
  else Clean (str (chars a ++ slash :: chars b)).

(** Up to the last slash. *)
Fixpoint from_slash (l : list ascii) : list ascii :=
  match l with
  | c :: l' => if bool_decide (c = slash) then l else from_slash l'
  | [] => []
  end.
Definition Dir (path : string) : string := Clean (str (reverse (from_slash (reverse (chars path))))).

Example Join_home : Join "/home/u" "/.bsos" = "/home/u/.bsos".
Proof. reflexivity. Qed.
Example Dir_rel : Dir "a.idx" = ".".
Proof. reflexivity. Qed.
Example Clean_up : Clean "/a/b/../c/./d" = "/a/c/d".
Proof. reflexivity. Qed.

(** ** Paths of the files of a directory

    [Join dir name] for a plain name is a prefix that depends on the directory only, followed by the
    name; [Dir] of it is a path with the same prefix. *)
Definition dotdot : list ascii := [dot; dot].

Definition plain_elem (e : list ascii) : Prop := e ≠ [] ∧ e ≠ [dot] ∧ slash ∉ e.
Definition plain_name (b : string) : Prop := plain_elem (chars b) ∧ chars b ≠ dotdot.

(** The stack of [clean_elems]: parent references are at its bottom, and only in relative paths. *)
Fixpoint normal_stack (rooted : bool) (stack : list (list ascii)) : Prop :=
  match stack with
  | [] => True
  | e :: stack =>
      plain_elem e ∧
      (e = dotdot → rooted = false ∧ match stack with [] => True | top :: _ => top = dotdot end) ∧
      normal_stack rooted stack
  end.

Lemma clean_elems_normal rooted es stack :
  Forall (λ e, slash ∉ e) es → normal_stack rooted stack → normal_stack rooted (reverse (clean_elems rooted es stack)).
Proof.
  intros Hes. revert stack. induction Hes as [|e es He Hes IH]; intros stack Hn; cbn [clean_elems].
  { by rewrite reverse_involutive. }
  destruct (bool_decide (e = [])) eqn:E1; [by apply IH|]. destruct (bool_decide (e = [dot])) eqn:E2; [by apply IH|].
  apply bool_decide_eq_false in E1. apply bool_decide_eq_false in E2. cbn [orb].
  assert (Hpush : (e = dotdot → rooted = false ∧ match stack with [] => True | top :: _ => top = dotdot end) →
    normal_stack rooted (e :: stack)) by (intros H; split; [by split|by split]).
  case_bool_decide as E3.
  - destruct stack as [|top rest].
    + apply IH. destruct rooted; [done|]. by apply Hpush.
    + case_bool_decide as E4; apply IH; [|apply Hn].
      apply Hpush. intros _. split; [|done]. destruct Hn as (_ & Ht & _). by destruct (Ht E4).
  - apply IH, Hpush. by intros.
Qed.

Lemma normal_app rooted l1 l2 : normal_stack rooted (l1 ++ l2) → normal_stack rooted l2.
Proof. induction l1 as [|e l1 IH]; [done|]. cbn. intros (_ & _ & H). auto. Qed.

(** Normal elements stay as they are. *)
Lemma clean_elems_id rooted es stack :
  normal_stack rooted (reverse es ++ stack) → clean_elems rooted es stack = reverse stack ++ es.
Proof.
  revert stack. induction es as [|e es IH]; intros stack Hn; cbn [clean_elems]; [by rewrite app_nil_r|].
  rewrite reverse_cons, <- app_assoc in Hn. pose proof (normal_app _ _ _ Hn) as ((H1 & H2 & _) & H3 & _).
  rewrite !bool_decide_eq_false_2 by done. cbn [orb].
  assert (Hgo : clean_elems rooted es (e :: stack) = reverse stack ++ e :: es)
    by (rewrite IH by done; by rewrite reverse_cons, <- app_assoc).
  case_bool_decide as E3; [|done]. destruct (H3 E3) as [-> Htop]. destruct stack as [|top rest]; [done|].
  by rewrite bool_decide_eq_true_2.
Qed.

Lemma split_slash_app l b cur :
  split_slash (l ++ slash :: b) cur = split_slash l cur ++ split_slash b [].
Proof.
  revert cur. induction l as [|c l IH]; intros cur; cbn [app split_slash].
  - by rewrite bool_decide_eq_true_2.
  - case_bool_decide; by rewrite IH.
Qed.

Lemma split_slash_plain b cur : slash ∉ b → split_slash b cur = [reverse cur ++ b].
Proof.
  revert cur. induction b as [|c b IH]; intros cur Hb; cbn [split_slash]; [by rewrite app_nil_r|].
  apply not_elem_of_cons in Hb as [Hc Hb]. rewrite bool_decide_eq_false_2 by congruence.
  by rewrite IH, reverse_cons, <- app_assoc.
Qed.

Lemma split_slash_join es : es ≠ [] → Forall (λ e, slash ∉ e) es → split_slash (join_slash es) [] = es.
Proof.
  intros Hne Hes. induction Hes as [|e es He Hes IH]; [done|]. destruct es as [|e' es].
  - cbn [join_slash]. by rewrite split_slash_plain.
  - change (join_slash (e :: e' :: es)) with (e ++ slash :: join_slash (e' :: es)).
    rewrite split_slash_app, split_slash_plain, IH by done. done.
Qed.

Lemma split_slash_free l cur : slash ∉ cur → Forall (λ e, slash ∉ e) (split_slash l cur).
Proof.
  revert cur. induction l as [|c l IH]; intros cur Hc; cbn [split_slash].
  - repeat constructor. by rewrite elem_of_reverse.
  - case_bool_decide as E.
    + constructor; [by rewrite elem_of_reverse|]. apply IH. apply not_elem_of_nil.
    + apply IH. apply not_elem_of_cons. split; congruence.
Qed.

Lemma clean_elems_snoc rooted es stack b :
  plain_elem b → b ≠ dotdot → clean_elems rooted (es ++ [b]) stack = clean_elems rooted es stack ++ [b].
Proof.
  intros (H1 & H2 & _) H3. revert stack. induction es as [|e es IH]; intros stack; cbn [app clean_elems].
  - rewrite !bool_decide_eq_false_2 by done. cbn [orb]. by rewrite reverse_cons.
  - repeat case_match; by rewrite IH.
Qed.

(** The elements of a path, and whether it is absolute. *)
Definition rooted (l : list ascii) : bool :=
  match l with c :: _ => bool_decide (c = slash) | [] => false end.
Definition path_elements (l : list ascii) : bool * list (list ascii) :=
  (rooted l, clean_elems (rooted l) (split_slash l []) []).

Definition root_of (r : bool) : list ascii := if r then [slash] else [].
Definition path_prefix (re : bool * list (list ascii)) : list ascii :=
  root_of re.1 ++ match re.2 with [] => [] | es => join_slash es ++ [slash] end.
Definition path_render (re : bool * list (list ascii)) : list ascii :=
  match re.2 with [] => if re.1 : bool then [slash] else [dot] | es => root_of re.1 ++ join_slash es end.

Definition normal_elems (re : bool * list (list ascii)) : Prop := normal_stack re.1 (reverse re.2).

Lemma elements_normal l : normal_elems (path_elements l).
Proof. apply clean_elems_normal; [|done]. apply split_slash_free, not_elem_of_nil. Qed.

Lemma normal_plain r es : normal_stack r es → Forall plain_elem es.
Proof. induction es as [|e es IH]; [done|]. intros (H & _ & Hn). constructor; auto. Qed.

Lemma join_slash_ne es : es ≠ [] → Forall plain_elem es → join_slash es ≠ [].
Proof.
  intros Hne Hes. destruct Hes as [|e es (He & _) Hes]; [done|]. destruct es; [done|].
  change (e ++ slash :: join_slash (l :: es) ≠ []). by destruct e.
Qed.

Lemma chars_Clean path : chars (Clean path) = path_render (path_elements (chars path)).
Proof.
  unfold Clean, path_render, path_elements. cbn [fst snd]. fold (rooted (chars path)).
  pose proof (elements_normal (chars path)) as Hn. unfold normal_elems, path_elements in Hn. cbn [fst snd] in Hn.
  apply normal_plain in Hn. rewrite Forall_reverse in Hn.
  set (r := rooted (chars path)) in *. set (es := clean_elems r _ []) in *.
  destruct es as [|e es]; [by destruct r; apply chars_str|].
  pose proof (join_slash_ne (e :: es) ltac:(done) Hn) as Hne. destruct (join_slash (e :: es)); [done|].
  by destruct r; apply chars_str.
Qed.

(** Both forms have the elements they are made of. *)
Lemma rooted_join r es l : es ≠ [] → Forall plain_elem es → rooted (root_of r ++ join_slash es ++ l) = r.
Proof.
  intros Hne Hes. destruct r; [cbn; by rewrite bool_decide_eq_true_2|]. cbn [root_of app].
  destruct Hes as [|e es (He & _ & Hs) Hes]; [done|]. destruct e as [|c e]; [done|].
  destruct es; cbn; rewrite bool_decide_eq_false_2; try done; intros ->; apply Hs; by left.
Qed.

Lemma split_root r l : split_slash (root_of r ++ l) [] = (if r then [[]] else []) ++ split_slash l [].
Proof. destruct r; [|done]. cbn. by rewrite bool_decide_eq_true_2. Qed.

Lemma clean_elems_skip r b es stack : clean_elems r ((if b : bool then [[]] else []) ++ es) stack = clean_elems r es stack.
Proof. by destruct b. Qed.

Lemma path_elements_render re : normal_elems re → path_elements (path_render re) = re.
Proof.
  intros Hn. destruct re as [r es]. unfold normal_elems in Hn. cbn [fst snd] in Hn.
  pose proof (normal_plain _ _ Hn) as Hp. rewrite Forall_reverse in Hp.
  unfold path_render, path_elements. cbn [fst snd]. destruct es as [|e es]; [by destruct r|].
  assert (Hr : rooted (root_of r ++ join_slash (e :: es)) = r).
  { rewrite <- (app_nil_r (join_slash _)). by apply rooted_join. }
  rewrite Hr, split_root, clean_elems_skip, split_slash_join; [|done|].
  - rewrite clean_elems_id; [done|]. by rewrite app_nil_r.
  - eapply Forall_impl; [exact Hp|]. by intros ? (_ & _ & ?).
Qed.

Lemma clean_elems_tail r es stack : clean_elems r (es ++ [[]]) stack = clean_elems r es stack.
Proof.
  revert stack. induction es as [|e es IH]; intros stack; [done|]. cbn [app clean_elems].
  repeat case_match; by rewrite IH.
Qed.

Lemma elements_prefix re : normal_elems re → path_elements (path_prefix re) = re.
Proof.
  intros Hn. destruct re as [r es]. unfold normal_elems in Hn. cbn [fst snd] in Hn.
  pose proof (normal_plain _ _ Hn) as Hp. rewrite Forall_reverse in Hp.
  unfold path_prefix, path_elements. cbn [fst snd]. destruct es as [|e es]; [by destruct r|].
  rewrite rooted_join, split_root, clean_elems_skip, split_slash_app, split_slash_join; [|done| |done|done].
  - cbn [split_slash reverse]. change (reverse [] :: []) with [@nil ascii]. rewrite clean_elems_tail.
    rewrite clean_elems_id; [done|]. by rewrite app_nil_r.
  - eapply Forall_impl; [exact Hp|]. by intros ? (_ & _ & ?).
Qed.

(** A file of a directory. *)
Lemma chars_Join dir b :
  plain_name b → chars (Join dir b) = path_prefix (path_elements (chars dir)) ++ chars b.
Proof.
  intros [(Hb1 & Hb2 & Hb3) Hb4]. unfold Join.
  assert (Hb : b ≠ EmptyString) by (intros ->; done).
  rewrite (bool_decide_eq_false_2 (b = EmptyString)) by done.
  assert (Hone : ∀ l, clean_elems (rooted l) (split_slash l [] ++ [chars b]) [] = (path_elements l).2 ++ [chars b]).
  { intros l. by apply clean_elems_snoc. }
  assert (Hjoin : ∀ es, Forall plain_elem es → join_slash (es ++ [chars b]) =
    match es with [] => [] | es => join_slash es ++ [slash] end ++ chars b).
  { intros es. induction es as [|e es IH]; [done|]. intros (He & Hes)%Forall_cons. specialize (IH Hes).
    destruct es as [|e' es]; [cbn; by rewrite <- app_assoc|].
    change (join_slash ((e :: e' :: es) ++ [chars b])) with (e ++ slash :: join_slash ((e' :: es) ++ [chars b])).
    change (join_slash (e :: e' :: es)) with (e ++ slash :: join_slash (e' :: es)).
    rewrite IH. by rewrite <- !app_assoc. }
  case_bool_decide as Hd.
  { subst dir. rewrite chars_Clean. unfold path_elements at 1. destruct (chars b) as [|c l] eqn:E; [done|].
    assert (c ≠ slash) by (intros ->; apply Hb3; by left).
    cbn [rooted]. rewrite bool_decide_eq_false_2 by done. rewrite split_slash_plain by done.
    change (reverse [] ++ c :: l) with (c :: l). change [c :: l] with ([] ++ [c :: l]).
    rewrite clean_elems_snoc by done. done. }
  rewrite chars_Clean, chars_str. destruct (chars dir) as [|c l] eqn:E.
  { exfalso. apply Hd. rewrite <- (String.string_of_list_ascii_of_string dir). unfold chars in E. by rewrite E. }
  assert (Hr : rooted ((c :: l) ++ slash :: chars b) = rooted (c :: l)) by done.
  unfold path_elements at 1. rewrite Hr, split_slash_app, (split_slash_plain (chars b)) by done.
  change (reverse [] ++ chars b) with (chars b). rewrite Hone.
  pose proof (elements_normal (c :: l)) as Hn. unfold normal_elems in Hn. apply normal_plain in Hn.
  rewrite Forall_reverse in Hn. unfold path_render, path_prefix. cbn [fst snd].
  change (path_elements (c :: l)).1 with (rooted (c :: l)).
  destruct ((path_elements (c :: l)).2 ++ [chars b]) eqn:Ee; [by destruct ((path_elements (c :: l)).2)|]. rewrite <- Ee.
  rewrite Hjoin by done. clear. destruct ((path_elements (c :: l)).2); by rewrite app_assoc.
Qed.

Lemma prefix_of_end re : path_prefix re = [] ∨ ∃ p, path_prefix re = p ++ [slash].
Proof.
  destruct re as [r es]. unfold path_prefix. cbn [fst snd]. destruct es as [|e es].
  - destruct r; [|by left]. right. by exists [].
  - right. exists (root_of r ++ join_slash (e :: es)). by rewrite app_assoc.
Qed.

Lemma chars_inj a b : chars a = chars b → a = b.
Proof.
  intros H. unfold chars in H. rewrite <- (String.string_of_list_ascii_of_string a), H.
  apply String.string_of_list_ascii_of_string.
Qed.

Lemma from_slash_name b l : slash ∉ b → (l = [] ∨ ∃ l', l = slash :: l') → from_slash (b ++ l) = l.
Proof.
  intros Hb Hl. induction b as [|c b IH].
  - destruct Hl as [-> | [l' ->]]; [done|]. cbn [app from_slash]. by rewrite bool_decide_eq_true_2.
  - apply not_elem_of_cons in Hb as [Hc Hb]. cbn [app from_slash]. rewrite bool_decide_eq_false_2 by congruence. auto.
Qed.

Lemma rev_prefix re : reverse (path_prefix re) = [] ∨ ∃ l', reverse (path_prefix re) = slash :: l'.
Proof.
  destruct (prefix_of_end re) as [-> | [p ->]]; [by left|]. right. exists (reverse p). by rewrite reverse_snoc.
Qed.

(** Another file of the same directory. *)
Lemma Dir_Join dir b b' :
  plain_name b → plain_name b' → Join (Dir (Join dir b)) b' = Join dir b'.
Proof.
  intros Hb Hb'. apply chars_inj. rewrite !chars_Join by done. f_equal. f_equal.
  unfold Dir. rewrite chars_Join, reverse_app by done. rewrite from_slash_name.
  - rewrite reverse_involutive, chars_Clean, chars_str.
    rewrite path_elements_render; [|apply elements_normal]. apply elements_prefix, elements_normal.
  - rewrite elem_of_reverse. apply Hb.
  - apply rev_prefix.
Qed.

Lemma strip_slashes_name b l : b ≠ [] → slash ∉ b → strip_slashes (b ++ l) = b ++ l.
Proof.
  intros Hne Hb. destruct b as [|c b]; [done|]. apply not_elem_of_cons in Hb as [Hc _]. cbn [app strip_slashes].
  by rewrite bool_decide_eq_false_2 by congruence.
Qed.

Lemma until_slash_name b l :
  slash ∉ b → (l = [] ∨ ∃ l', l = slash :: l') → until_slash (b ++ l) = b.
Proof.
  intros Hb Hl. induction b as [|c b IH].
  - destruct Hl as [-> | [l' ->]]; [done|]. cbn [app until_slash]. by rewrite bool_decide_eq_true_2.
  - apply not_elem_of_cons in Hb as [Hc Hb]. cbn [app until_slash]. rewrite bool_decide_eq_false_2 by congruence. by rewrite IH.
Qed.

Lemma reverse_ne {A} (l : list A) : l ≠ [] → reverse l ≠ [].
Proof. intros Hl Hz. apply Hl. by rewrite <- (reverse_involutive l), Hz. Qed.

Lemma Base_Join dir b : plain_name b → Base (Join dir b) = b.
Proof.
  intros Hb. pose proof Hb as [(Hne & _ & Hs) _]. apply chars_inj. unfold Base.
  assert (Hj : Join dir b ≠ EmptyString).
  { intros E. apply (f_equal chars) in E. rewrite chars_Join in E by done. by destruct (path_prefix _), (chars b). }
  assert (Hs' : slash ∉ reverse (chars b)) by by rewrite elem_of_reverse.
  rewrite bool_decide_eq_false_2 by done. rewrite chars_Join, reverse_app by done.
  rewrite strip_slashes_name by (done || by apply reverse_ne).
  rewrite until_slash_name by (done || apply rev_prefix). rewrite reverse_involutive.
  destruct (chars b); [done|]. apply chars_str.
Qed.

(** The name without its extension. *)
Lemma chars_append a b : chars (String.append a b) = chars a ++ chars b.
Proof. unfold chars. induction a as [|c a IH]; [done|]. exact (f_equal (cons c) IH). Qed.

Lemma HasSuffix_append a b : HasSuffix (String.append a b) b = true.
Proof.
  unfold HasSuffix. rewrite chars_append, length_app. rewrite !bool_decide_eq_true_2; [done| |lia].
  replace (length (chars a) + length (chars b) - length (chars b))%nat with (length (chars a)) by lia.
  by rewrite drop_app_length.
Qed.

Lemma TrimSuffix_append a b : TrimSuffix (String.append a b) b = a.
Proof.
  unfold TrimSuffix. rewrite HasSuffix_append. apply chars_inj. rewrite chars_str, chars_append, length_app.
  replace (length (chars a) + length (chars b) - length (chars b))%nat with (length (chars a)) by lia.
  by rewrite take_app_length.
Qed.

Lemma plain_append a b :
  plain_elem (chars a) → slash ∉ chars b → 1 < length (chars b) → plain_name (String.append a b).
Proof.
  intros (H1 & H2 & H3) Hb Hl. unfold plain_name, plain_elem, dotdot. rewrite chars_append.
  assert (0 < length (chars a)) by (destruct (chars a); [done|cbn; lia]).
  assert (Hbig : ∀ l, length l ≤ 2 → chars a ++ chars b ≠ l) by (intros l Hl' <-; rewrite length_app in Hl'; lia).
  split_and!; try (apply Hbig; cbn; lia). rewrite elem_of_app. tauto.
Qed.

Lemma Join_append dir a b :
  plain_name a → plain_name (String.append a b) →
  Join dir (String.append a b) = String.append (Join dir a) b.
Proof.
  intros Ha Hab. apply chars_inj. rewrite chars_append, !chars_Join, chars_append by done.
  by rewrite app_assoc.
Qed.
