(* ===== verification/Config.v ===== *)
(** * The daemon's configuration (internal/daemon/config.go)

    [LoadConfig] from the decoded TOML file on: the values a file may set, the checks on each and
    the defaults.  Decoding is the TOML library's; durations are parsed by [ParseDuration] as Go's
    [time] package does, and multiplying a count into a [time.Duration] wraps at 64 bits. *)

From S2P Require Import Prelude Machine Float Text Path.
From Stdlib Require Import Ascii QArith.
#[local] Open Scope Z_scope.

(** ** [time.ParseDuration] *)
Definition duration_error : error := EMsg "time: invalid duration".

Definition is_digit (c : ascii) : bool := (48 <=? code c) && (code c <=? 57).

(** [leadingInt]: the integer, the rest and whether anything was consumed. *)
Fixpoint leadingInt (l : list ascii) (x : Z) (some : bool) : res (Z * list ascii * bool) :=
  match l with
  | c :: l' =>
      if is_digit c then
        if 2 ^ 63 / 10 <? x then Err duration_error else
        let x := x * 10 + (code c - 48) in
        if 2 ^ 63 <? x then Err duration_error else leadingInt l' x true
      else Ok (x, l, some)
  | [] => Ok (x, l, some)
  end.

(** [leadingFraction]: the digits, the power of ten, the rest. *)
Fixpoint leadingFraction (l : list ascii) (x scale : Z) (overflow some : bool) :
    Z * Z * list ascii * bool :=
  match l with
  | c :: l' =>
      if is_digit c then
        if overflow then leadingFraction l' x scale overflow true
        else if (2 ^ 63 - 1) / 10 <? x then leadingFraction l' x scale true true
        else let y := x * 10 + (code c - 48) in
             if 2 ^ 63 <? y then leadingFraction l' x scale true true
             else leadingFraction l' y (scale * 10) false true
      else (x, scale, l, some)
  | [] => (x, scale, l, some)
  end.

Fixpoint take_unit (l : list ascii) : list ascii * list ascii :=
  match l with
  | c :: l' => if bool_decide (c = dot) || is_digit c then ([], l)
               else let '(u, r) := take_unit l' in (c :: u, r)
  | [] => ([], [])
  end.

Definition unit_ns (u : list ascii) : option Z :=
  let micro a b := str [ascii_of_N a; ascii_of_N b; ascii_of_N 115] in
  let s := str u in
  if bool_decide (s = "ns"%string) then Some 1
  else if bool_decide (s = "us"%string) || bool_decide (s = micro 194%N 181%N) ||
          bool_decide (s = micro 206%N 188%N) then Some 1000
  else if bool_decide (s = "ms"%string) then Some 1000000
  else if bool_decide (s = "s"%string) then Some 1000000000
  else if bool_decide (s = "m"%string) then Some 60000000000
  else if bool_decide (s = "h"%string) then Some 3600000000000
  else None.

(** [uint64(float64(f) * (float64(unit) / scale))] *)
Definition fraction_ns (f unit scale : Z) : Z :=
  let q := round64 (round64 (inject_Z f) * round64 (inject_Z unit / inject_Z scale))%Q in
  Qnum q / Zpos (Qden q).

Fixpoint parse_units (fuel : nat) (l : list ascii) (d : Z) : res Z :=
  match fuel with
  | O => Err EFuel
  | S fuel =>
      match l with
      | [] => Ok d
      | c :: _ =>
          if negb (bool_decide (c = dot) || is_digit c) then Err duration_error else
          '(v, l, pre) ← leadingInt l 0 false;
          let '(f, scale, l, post) := match l with
            | c :: l' => if bool_decide (c = dot) then leadingFraction l' 0 1 false false
                         else (0, 1, l, false)
            | [] => (0, 1, l, false)
            end in
          if negb (pre || post) then Err duration_error else
          let '(u, l) := take_unit l in
          if bool_decide (u = []) then Err (EMsg "time: missing unit in duration") else
          match unit_ns u with
          | None => Err (EMsg "time: unknown unit in duration")
          | Some unit =>
              if 2 ^ 63 / unit <? v then Err duration_error else
              let v := v * unit + (if 0 <? f then fraction_ns f unit scale else 0) in
              if 2 ^ 63 <? v then Err duration_error else
              if 2 ^ 63 <? u64 (d + v) then Err duration_error else parse_units fuel l (u64 (d + v))
          end
      end
  end.

Definition ParseDuration (s : string) : res Z :=
  let '(neg, l) := match chars s with
    | c :: l => if code c =? 45 then (true, l) else if code c =? 43 then (false, l)
                else (false, c :: l)
    | [] => (false, [])
    end in
  if bool_decide (str l = "0"%string) then Ok 0 else
  match l with
  | [] => Err duration_error
  | _ =>
      d ← parse_units (S (length l)) l 0;
      if neg : bool then Ok (int64 (- d)) else
      if 2 ^ 63 - 1 <? d then Err duration_error else Ok d
  end.

(** ** The configuration *)
Record Config := mkConfig {
  PanPath : string;
  GRPCListen : string;
  MaxPutBytes : Z;
  ReservationStallTimeout : Z;
  PoolGateFanoutTimeout : Z;
  WriteDispatchConcurrency : Z;
  SmallFilePow2 : Z;
  ChdTargetP : f64;
  ZramSnapshotDir : string;
  TrimInterval : Z;
  TrimMinThresholdBytes : Z;
  TrimMaxThresholdBytes : Z;
  TrimMinFileCount : Z;
  TrimThresholdRatio : f64;
  TrimTempDir : string
}.

Definition Millisecond : Z := 1000000.
Definition Second : Z := 1000000000.
Definition fifth : f64 := F64 (3602879701896397 # 18014398509481984).

Definition DefaultConfig : Config := {|
  PanPath := "pan.json";
  GRPCListen := ":9090";
  MaxPutBytes := Z.shiftl 256 20;
  ReservationStallTimeout := 30 * Second;
  PoolGateFanoutTimeout := 2 * Second;
  WriteDispatchConcurrency := 64;
  SmallFilePow2 := 6;
  ChdTargetP := fifth;
  ZramSnapshotDir := "~/.bsos_zram_snapshots";
  TrimInterval := 15 * 60 * Second;
  TrimMinThresholdBytes := 4096;
  TrimMaxThresholdBytes := Z.shiftl 256 20;
  TrimMinFileCount := 100;
  TrimThresholdRatio := fifth;
  TrimTempDir := ""
|}.

(** The decoded file: an absent string is empty, an absent number is [None]. *)
Record fileConfig := mkFileConfig {
  fc_PanPath : string;
  fc_GRPCListen : string;
  fc_MaxPut : string;
  fc_ReservationStallTimeoutMS : option Z;
  fc_PoolGateFanoutTimeoutMS : option Z;
  fc_WriteDispatchConcurrency : option Z;
  fc_SmallFilePow2 : option Z;
  fc_ChdTargetP : option f64;
  fc_ZramSnapshotDir : string;
  fc_TrimInterval : string;
  fc_TrimIntervalSeconds : option Z;
  fc_TrimMinThresholdBytes : string;
  fc_TrimMaxThresholdBytes : string;
  fc_TrimMinFileCount : option Z;
  fc_TrimThresholdRatio : option f64;
  fc_TrimTempDir : string
}.

(** [expandHome]; [home] is what [os.UserHomeDir] finds. *)
Definition expandHome (home : option string) (path : string) : string :=
  if HasPrefix path "~/" || bool_decide (path = "~"%string) then
    match home with
    | Some home => Join home (TrimPrefix path "~")
    | None => path
    end
  else path.

(** A string setting: blank keeps the default. *)
Definition text_or (set default : string) : string :=
  let t := TrimSpace set in if bool_decide (t = EmptyString) then default else t.

(** A setting parsed from a string: blank keeps the default. *)
Definition parsed_or {A} (name : string) (parse : string → res A) (set : string) (default : A) :
    res A :=
  if bool_decide (TrimSpace set = EmptyString) then Ok default else wrap_err name (parse set).

(** An optional number with the check on it and the conversion. *)
Definition number_or {A B} (set : option A) (bad : A → bool) (msg : string) (conv : A → B)
    (default : B) : res B :=
  match set with
  | None => Ok default
  | Some x => if bad x then Err (EMsg msg) else Ok (conv x)
  end.

Definition f64_0 : f64 := F64 0.
Definition f64_1 : f64 := F64 1.

Definition LoadConfig (home : option string) (file : fileConfig) : res Config :=
  let cfg := DefaultConfig in
  max_put ← parsed_or "max_put" ParseSize (fc_MaxPut file) (MaxPutBytes cfg);
  stall ← number_or (fc_ReservationStallTimeoutMS file) (λ ms, ms <=? 0)
    "reservation_stall_timeout_ms must be positive" (λ ms, int64 (ms * Millisecond))
    (ReservationStallTimeout cfg);
  fanout ← number_or (fc_PoolGateFanoutTimeoutMS file) (λ ms, ms <=? 0)
    "pool_gate_fanout_timeout_ms must be positive" (λ ms, int64 (ms * Millisecond))
    (PoolGateFanoutTimeout cfg);
  conc ← number_or (fc_WriteDispatchConcurrency file) (λ n, n <=? 0)
    "write_dispatch_concurrency must be positive" id (WriteDispatchConcurrency cfg);
  pow2 ← number_or (fc_SmallFilePow2 file) (λ n, n <? 0) "small_file_pow2 must be >= 0" id
    (SmallFilePow2 cfg);
  target ← number_or (fc_ChdTargetP file) (λ p, f64_le p f64_0 || f64_lt f64_1 p)
    "chd_target_p must be in (0, 1]" id (ChdTargetP cfg);
  let snapshots := if bool_decide (fc_ZramSnapshotDir file = EmptyString) then ZramSnapshotDir cfg
                   else expandHome home (TrimSpace (fc_ZramSnapshotDir file)) in
  interval ← parsed_or "trim_interval"
    (λ s, dur ← ParseDuration (TrimSpace s);
          if dur <=? 0 then Err (EMsg "trim_interval must be positive") else Ok dur)
    (fc_TrimInterval file) (TrimInterval cfg);
  interval ← number_or (fc_TrimIntervalSeconds file) (λ s, s <=? 0)
    "trim_interval_seconds must be positive" (λ s, int64 (s * Second)) interval;
  tmin ← parsed_or "trim_min_threshold_bytes" ParseSize (fc_TrimMinThresholdBytes file)
    (TrimMinThresholdBytes cfg);
  tmax ← parsed_or "trim_max_threshold_bytes" ParseSize (fc_TrimMaxThresholdBytes file)
    (TrimMaxThresholdBytes cfg);
  if (0 <? tmax) && (tmax <? tmin)
  then Err (EMsg "trim_min_threshold_bytes must be <= trim_max_threshold_bytes") else
  count ← number_or (fc_TrimMinFileCount file) (λ n, n <? 0) "trim_min_file_count must be >= 0" id
    (TrimMinFileCount cfg);
  ratio ← number_or (fc_TrimThresholdRatio file) (λ r, f64_lt r f64_0 || f64_lt f64_1 r)
    "trim_threshold_ratio must be in [0, 1]" id (TrimThresholdRatio cfg);
  Ok {|
    PanPath := text_or (fc_PanPath file) (PanPath cfg);
    GRPCListen := text_or (fc_GRPCListen file) (GRPCListen cfg);
    MaxPutBytes := max_put;
    ReservationStallTimeout := stall;
    PoolGateFanoutTimeout := fanout;
    WriteDispatchConcurrency := conc;
    SmallFilePow2 := pow2;
    ChdTargetP := target;
    ZramSnapshotDir := snapshots;
    TrimInterval := interval;
    TrimMinThresholdBytes := tmin;
    TrimMaxThresholdBytes := tmax;
    TrimMinFileCount := count;
    TrimThresholdRatio := ratio;
    TrimTempDir := text_or (fc_TrimTempDir file) (TrimTempDir cfg)
  |}.

(** ** What a loaded configuration satisfies *)
Definition empty_file : fileConfig :=
  mkFileConfig "" "" "" None None None None None "" "" None "" "" None None "".

Lemma number_or_range {A B} (P : B → Prop) set bad msg (conv : A → B) default x :
  number_or set bad msg conv default = Ok x → P default →
  (∀ y, set = Some y → bad y = false → P (conv y)) → P x.
Proof.
  unfold number_or. destruct set as [y|]; [|by intros [= <-]].
  destruct (bad y) eqn:E; [done|]. intros [= <-] _ H. by apply H.
Qed.

Lemma parsed_or_range {A} (P : A → Prop) name parse set default (x : A) :
  parsed_or name parse set default = Ok x → P default →
  (∀ y, parse set = Ok y → P y) → P x.
Proof.
  unfold parsed_or, wrap_err. case_bool_decide; [by intros [= <-]|].
  destruct (parse set); [|done]. intros [= <-] _ Hp. by apply Hp.
Qed.

Ltac bind_inv H :=
  let x := fresh "x" in let Hx := fresh "Hx" in
  apply res_bind_Ok in H as (x & Hx & H).

(** A number in an interval, or NaN. *)
Definition within (x : f64) (P : Q → Prop) : Prop :=
  match x with NaN => True | Inf _ => False | F64 q => P q end.

Lemma within_spec p :
  f64_le p f64_0 = false → f64_lt f64_1 p = false → within p (λ q, (0 < q)%Q ∧ (q <= 1)%Q).
Proof.
  destruct p as [|[]|q]; cbn; try done. intros H1 H2. apply negb_false_iff in H2. split.
  - apply Qnot_le_lt. intros Hq. apply Qle_bool_iff in Hq. congruence.
  - by apply Qle_bool_iff.
Qed.

Lemma within_spec' p :
  f64_lt p f64_0 = false → f64_lt f64_1 p = false → within p (λ q, (0 <= q)%Q ∧ (q <= 1)%Q).
Proof.
  destruct p as [|[]|q]; cbn; try done. intros H1%negb_false_iff H2%negb_false_iff.
  by split; apply Qle_bool_iff.
Qed.

(** The seconds of the trim interval do not fit a duration. *)
Definition interval_wraps (file : fileConfig) : Prop :=
  ∃ s, fc_TrimIntervalSeconds file = Some s ∧ 2 ^ 63 ≤ s * Second.

(** A configuration that loads is in range: at least one write may run, the small-file exponent
    and the minimum file count are not negative, the probability is in (0, 1] and the trim ratio in
    [0, 1], NaN apart, the trim thresholds are ordered unless the upper one is off, and the trim
    interval is positive unless its count of seconds overflows a duration. *)
Theorem load_config_ranges home file cfg :
  LoadConfig home file = Ok cfg →
  0 < WriteDispatchConcurrency cfg ∧ 0 ≤ SmallFilePow2 cfg ∧ 0 ≤ TrimMinFileCount cfg ∧
  within (ChdTargetP cfg) (λ q, (0 < q)%Q ∧ (q <= 1)%Q) ∧
  within (TrimThresholdRatio cfg) (λ q, (0 <= q)%Q ∧ (q <= 1)%Q) ∧
  (0 < TrimMaxThresholdBytes cfg → TrimMinThresholdBytes cfg ≤ TrimMaxThresholdBytes cfg) ∧
  (0 < TrimInterval cfg ∨ interval_wraps file).
Proof.
  unfold LoadConfig. intros H. do 10 bind_inv H.
  destruct (_ && _) eqn:Ht in H; [done|]. do 2 bind_inv H. injection H as <-. cbn.
  split_and!.
  - eapply number_or_range; [eassumption|done|]. intros. cbn in *. lia.
  - eapply number_or_range; [eassumption|done|]. intros. cbn in *. lia.
  - eapply number_or_range; [eassumption|done|]. intros. cbn in *. lia.
  - eapply (number_or_range (λ p, within p _)); [eassumption|done|].
    intros p _ Hp. apply orb_false_iff in Hp as [H1 H2]. by apply within_spec.
  - eapply (number_or_range (λ p, within p _)); [eassumption|done|].
    intros p _ Hp. apply orb_false_iff in Hp as [H1 H2]. by apply within_spec'.
  - lia.
  - match goal with H : number_or (fc_TrimIntervalSeconds file) _ _ _ ?d = Ok _ |- _ =>
      assert (Hd : 0 < d) end.
    { eapply (parsed_or_range (λ d, 0 < d)); [eassumption|done|]. intros y Hy.
      apply res_bind_Ok in Hy as (z & _ & Hy). destruct (Z.leb_spec z 0); [done|].
      by injection Hy as <-. }
    eapply (number_or_range (λ d, 0 < d ∨ _)); [eassumption|by left|].
    intros s Hs Hp. destruct (decide (s * Second < 2 ^ 63)).
    + left. rewrite int64_small; unfold Second in *; lia.
    + right. exists s. split; [done|lia].
Qed.

Lemma load_config_ranges_witness : 0 < WriteDispatchConcurrency DefaultConfig.
Proof.
  exact (proj1 (load_config_ranges None empty_file DefaultConfig eq_refl)).
Defined.

(** What the checks of [LoadConfig] let through: a trim ratio and a CH_d probability that are
    NaN, for which no comparison holds; and a trim interval whose seconds wrap to a negative
    duration, at which the scheduler silently does not start.  The default snapshot directory keeps
    its tilde, which only a configured one has expanded. *)
Theorem load_config_gaps :
  ∃ cfg, LoadConfig (Some "/home/u")
    (mkFileConfig "" "" "" None None None None (Some NaN) "" "" (Some 9223372037) "" "" None (Some NaN) "")
    = Ok cfg ∧
  TrimInterval cfg < 0 ∧ ChdTargetP cfg = NaN ∧ TrimThresholdRatio cfg = NaN ∧
  ZramSnapshotDir cfg = "~/.bsos_zram_snapshots"%string ∧
  expandHome (Some "/home/u") (ZramSnapshotDir cfg) = "/home/u/.bsos_zram_snapshots"%string.
Proof. eexists. split; [vm_compute; reflexivity|]. by vm_compute. Qed.
