(* ===== verification/MultiDisk.v ===== *)
(** * Disk selection and broadcasts (internal/daemon/multidisk.go)

    The [Server] record with the operations of multidisk.go: the best-fit choice of a disk for a
    write, and the fan-outs that ask every disk for a fid.  A fan-out collects answers in the order
    they arrive: [fanout] is that order, an arbitrary permutation, together with the fids for which
    the gate's timeout fires first. *)

From S2P Require Import Prelude Machine Loop Float Device Layout Interval Replay DirectIO.
From S2P Require Import DeviceState Gate Chd Text.

Record Disk := mkDisk { d_state : DeviceState; devicePath : string }.

Record Server := mkServer {
  disks : list Disk;
  gate : poolGate;
  maxPut : Z;
  smallFileLimit : Z;  (* the field smallFileBytes *)
  chdTargetP : f64;
  degraded : bool
}.

Definition set_gate (s : Server) (g : poolGate) : Server :=
  mkServer (disks s) g (maxPut s) (smallFileLimit s) (chdTargetP s) (degraded s).
Definition set_disks (s : Server) (ds : list Disk) : Server :=
  mkServer ds (gate s) (maxPut s) (smallFileLimit s) (chdTargetP s) (degraded s).

(** A method of disk [i]. *)
Definition on_disk {A} (i : nat) (m : M DeviceState A) : M Server A := λ s,
  match disks s !! i with
  | None => (Err (EPanic "nil disk"), s)
  | Some d =>
      let '(r, st) := m (d_state d) in (r, set_disks s (<[i := mkDisk st (devicePath d)]> (disks s)))
  end.

Definition smallFileBytes (pow2 : Z) : Z :=
  if pow2 <? 0 then 0 else
  if 51 <=? pow2 then u64_modulus - 1 else Z.shiftl 1 (12 + pow2).

Definition isSmallFile (s : Server) (size : Z) : bool := size <? smallFileLimit s.

Definition canWrite (disk : DeviceState) (size : Z) : bool :=
  if (size =? 0) || (diskBytes disk <=? GridStart) then false else
  match indexErr disk with
  | Some _ => false
  | None =>
      let capacity := u64 ((diskBytes disk - GridStart) / SlotSize * SlotSize) in
      size <=? capacity
  end.

Section selection.
Context (HashString : string → Z).

Definition currentCHD (targetP : f64) (s : DeviceState) : Z :=
  computeCHD HashString (diskBytes s) (diskID s) (intervals s ++ pendingIntervals s) targetP.

(** The disks a loop of the selection does not skip, each with its CH_d. *)
Definition candidate (s : Server) (zram : bool) (size : Z) (i : nat) (disk : Disk) :
    option (nat * Z) :=
  if negb (Bool.eqb (IsZramDevicePath (devicePath disk)) zram) then None
  else if negb (canWrite (d_state disk) size) then None
  else Some (i, currentCHD (chdTargetP s) (d_state disk)).

(** [if best == nil || chd < bestCHD] and [if fallback == nil || chd > fallbackCHD]. *)
Definition keep (better : Z → Z → bool) (best : option (nat * Z)) (c : nat * Z) :
    option (nat * Z) :=
  match best with
  | Some (_, bestCHD) => if better c.2 bestCHD then Some c else best
  | None => Some c
  end.

Definition pickZram (s : Server) (size : Z) : option nat :=
  fst <$> foldl (λ best '(i, disk),
    match candidate s true size i disk with
    | None => best
    | Some (i, chd) => if chd <? size then best else keep Z.ltb best (i, chd)
    end) None (imap pair (disks s)).

Definition pickNonZram (s : Server) (size : Z) : res nat :=
  let '(best, fallback) := foldl (λ '(best, fallback) '(i, disk),
    match candidate s false size i disk with
    | None => (best, fallback)
    | Some (i, chd) =>
        if size <=? chd then (keep Z.ltb best (i, chd), fallback)
        else (best, keep Z.gtb fallback (i, chd))
    end) (None, None) (imap pair (disks s)) in
  match best, fallback with
  | Some (i, _), _ => Ok i
  | None, Some (i, _) => Ok i
  | None, None => Err (EMsg "no available disk")
  end.

Definition selectDiskForWrite (s : Server) (size : Z) : res nat :=
  match (if isSmallFile s size then pickZram s size else None) with
  | Some i => Ok i
  | None => pickNonZram s size
  end.

(** ** Best fit *)

(** The candidates of a loop, in the order of the disks. *)
Definition candidates (s : Server) (zram : bool) (size : Z) : list (nat * Z) :=
  omap (λ '(i, disk), candidate s zram size i disk) (imap pair (disks s)).

(** [best] is the first best of [l]. *)
Definition is_best (better : Z → Z → bool) (l : list (nat * Z)) (best : option (nat * Z)) : Prop :=
  match best with
  | None => l = []
  | Some c => ∃ l1 l2, l = l1 ++ c :: l2 ∧
      Forall (λ c', better c.2 c'.2 = true) l1 ∧ Forall (λ c', better c'.2 c.2 = false) l2
  end.

(** What the two comparisons share. *)
Class StrictBetter (better : Z → Z → bool) : Prop := {
  better_trans a b c : better a b = true → better b c = true → better a c = true;
  better_chain a b c : better a b = true → better c b = false → better a c = true
}.
#[export] Instance ltb_better : StrictBetter Z.ltb.
Proof. split; lia. Qed.
#[export] Instance gtb_better : StrictBetter Z.gtb.
Proof. split; lia. Qed.

Lemma keep_best better `{!StrictBetter better} l best c :
  is_best better l best → is_best better (l ++ [c]) (keep better best c).
Proof.
  destruct best as [[i b]|]; cbn.
  - intros (l1 & l2 & -> & H1 & H2). destruct (better c.2 b) eqn:E; cbn in *.
    + exists (l1 ++ (i, b) :: l2), []. split; [done|]. split; [|done].
      apply Forall_app. split; [|constructor; [done|]].
      * eapply Forall_impl; [exact H1|]. intros x Hx. cbn. by eapply better_trans.
      * eapply Forall_impl; [exact H2|]. intros x Hx. cbn. by eapply better_chain.
    + exists l1, (l2 ++ [c]). rewrite <- app_assoc. split; [done|]. split; [done|].
      apply Forall_app. by repeat constructor.
  - intros ->. exists [], []. by repeat constructor.
Qed.

Definition fits (size : Z) (c : nat * Z) : Prop := size ≤ c.2.
#[export] Instance fits_dec size c : Decision (fits size c).
Proof. unfold fits. apply _. Defined.

Lemma pickZram_best s size :
  ∃ best, is_best Z.ltb (filter (fits size) (candidates s true size)) best ∧
    pickZram s size = fst <$> best.
Proof.
  unfold pickZram, candidates.
  match goal with |- context [fst <$> ?b] => exists b end. split; [|done].
  induction (imap pair (disks s)) as [|[i d] l IH] using rev_ind; [done|].
  rewrite foldl_snoc, omap_app, filter_app. cbn [omap list_omap].
  destruct (candidate s true size i d) as [[j chd]|]; [|cbn; by rewrite app_nil_r].
  destruct (Z.ltb_spec chd size).
  - rewrite filter_cons_False by (unfold fits; cbn; lia). by rewrite app_nil_r.
  - rewrite filter_cons_True by (unfold fits; cbn; lia). by apply (keep_best _).
Qed.

Lemma pickNonZram_best s size :
  ∃ best fallback,
    is_best Z.ltb (filter (fits size) (candidates s false size)) best ∧
    is_best Z.gtb (filter (λ c, ¬ fits size c) (candidates s false size)) fallback ∧
    pickNonZram s size = match best, fallback with
      | Some (i, _), _ => Ok i
      | None, Some (i, _) => Ok i
      | None, None => Err (EMsg "no available disk")
      end.
Proof.
  unfold pickNonZram, candidates.
  match goal with |- context [foldl ?f ?a ?l] => set (step := f); set (p := foldl step a l) end.
  enough (H : is_best Z.ltb (filter (fits size)
                (omap (λ '(i, disk), candidate s false size i disk) (imap pair (disks s)))) p.1 ∧
              is_best Z.gtb (filter (λ c, ¬ fits size c)
                (omap (λ '(i, disk), candidate s false size i disk) (imap pair (disks s)))) p.2).
  { destruct p as [best fallback]. exists best, fallback. destruct H. by split_and!. }
  subst p. induction (imap pair (disks s)) as [|[i d] l IH] using rev_ind; [done|].
  rewrite foldl_snoc, omap_app, !filter_app. cbn [omap list_omap].
  destruct (foldl step (None, None) l) as [best fallback]. cbn [fst snd] in *.
  unfold step. destruct (candidate s false size i d) as [[j chd]|]; cycle 1.
  { cbn. by rewrite !app_nil_r. }
  destruct IH as [IH1 IH2]. destruct (Z.leb_spec size chd); cbn [fst snd].
  - rewrite filter_cons_True by done. rewrite (filter_cons_False (λ c, ¬ fits size c))
      by (by intros Hn; apply Hn). rewrite app_nil_r. split; [by apply (keep_best _)|done].
  - assert (Hn : ¬ fits size (j, chd)) by (unfold fits; cbn; lia).
    rewrite filter_cons_False by done. rewrite (filter_cons_True (λ c, ¬ fits size c)) by done.
    rewrite app_nil_r. split; [done|by apply (keep_best _)].
Qed.

Lemma elem_of_candidates s zram size c :
  c ∈ candidates s zram size ↔
  ∃ d, disks s !! c.1 = Some d ∧ IsZramDevicePath (devicePath d) = zram ∧
    canWrite (d_state d) size = true ∧ c.2 = currentCHD (chdTargetP s) (d_state d).
Proof.
  unfold candidates. rewrite list_elem_of_omap. unfold candidate. split.
  - intros ([i d] & Hin & Hc). apply elem_of_lookup_imap in Hin as (j & d' & [= <- <-] & Hd).
    destruct (Bool.eqb _ _) eqn:E1; [|done]. destruct (canWrite _ _) eqn:E2; [|done].
    injection Hc as <-. exists d. apply Bool.eqb_prop in E1. done.
  - intros (d & Hd & Hz & Hw & Hc). exists (c.1, d). split.
    + apply elem_of_lookup_imap. by exists c.1, d.
    + rewrite Hz, Hw, Bool.eqb_reflx, <- Hc. by destruct c.
Qed.
End selection.

(** ** Fan-outs *)
Record fanout := mkFanout {
  arrival : Z → list nat;  (* the disks in the order their answers for a fid arrive *)
  timedOut : Z → bool
}.

(** Every disk answers once. *)
Definition fair (fo : fanout) (n : nat) : Prop := ∀ fid, arrival fo fid ≡ₚ seq 0 n.

Definition arrived {A} (order : list nat) (l : list A) : list A := omap (λ i, l !! i) order.

(** The collecting loop of [confirmedAnywhere]. *)
Fixpoint collect_confirmed (rs : list (res bool)) (firstErr : option error) : res bool :=
  match rs with
  | [] => match firstErr with Some e => Err e | None => Ok false end
  | Err e :: rs => collect_confirmed rs (match firstErr with None => Some e | Some _ => firstErr end)
  | Ok found :: rs => if found then Ok true else collect_confirmed rs firstErr
  end.

Definition confirmedAnywhere (fo : fanout) (s : Server) (fid : Z) : res bool :=
  collect_confirmed
    ((λ d, (Confirmed fid (d_state d)).1) <$> arrived (arrival fo fid) (disks s)) None.

(** The collecting loop of [getAny] and [headAny]. *)
Fixpoint collect_first {A} (rs : list (res A)) (firstErr : option error) : res A :=
  match rs with
  | [] => match firstErr with Some e => Err e | None => Err ENotFound end
  | Ok a :: _ => Ok a
  | Err e :: rs =>
      collect_first rs (if bool_decide (e = ENotFound) then firstErr
                        else match firstErr with None => Some e | Some _ => firstErr end)
  end.

(** Every disk is read, whichever answer wins. *)
Definition getAny (fo : fanout) (fid : Z) : M Server (buf * Z) := λ s,
  let rs := (λ d, Get fid (d_state d)) <$> disks s in
  (collect_first (arrived (arrival fo fid) (fst <$> rs)) None,
   set_disks s (zip_with (λ r d, mkDisk (snd r) (devicePath d)) rs (disks s))).

Definition headAny (fo : fanout) (s : Server) (fid : Z) : res Z :=
  collect_first ((λ d, (Head fid (d_state d)).1) <$> arrived (arrival fo fid) (disks s)) None.

(** ** The verdict does not depend on the order of arrival *)
Lemma arrived_perm {A} order (l : list A) : order ≡ₚ seq 0 (length l) → arrived order l ≡ₚ l.
Proof.
  intros H. unfold arrived. rewrite H.
  assert (E : ∀ k m : list A, omap (λ i, (k ++ m) !! i) (seq (length k) (length m)) = m) by
  ( intros k m; revert k; induction m as [|a m IH]; intros k; [done|]; cbn;
    rewrite list_lookup_middle by done; f_equal;
    replace (S (length k)) with (length (k ++ [a])) by (rewrite length_app; cbn; lia);
    rewrite <- (IH (k ++ [a])) at 2; by rewrite <- app_assoc ).
  pose proof (E [] l) as E0. cbn in E0. by rewrite E0.
Qed.

Lemma collect_confirmed_true rs fe : collect_confirmed rs fe = Ok true ↔ Ok true ∈ rs.
Proof.
  revert fe. induction rs as [|[[]|e] rs IH]; intros fe; cbn.
  - destruct fe; split; [done|set_solver|done|set_solver].
  - split; [by left|done].
  - rewrite IH. set_solver.
  - rewrite IH. set_solver.
Qed.

Lemma collect_confirmed_false rs fe :
  collect_confirmed rs fe = Ok false ↔ fe = None ∧ ∀ r, r ∈ rs → r = Ok false.
Proof.
  revert fe. induction rs as [|[[]|e] rs IH]; intros fe; cbn.
  - destruct fe; naive_solver set_solver.
  - split; [done|]. intros [_ H]. by specialize (H (Ok true) ltac:(by left)).
  - rewrite IH. split; intros [? H]; (split; [done|]); intros r.
    + rewrite elem_of_cons. intros [->|?]; auto.
    + intros ?. apply H. by right.
  - rewrite IH. split; [by destruct fe; intros []|].
    intros [_ H]. by specialize (H (Err e) ltac:(by left)).
Qed.

Lemma Confirmed_eq fid s :
  Confirmed fid s = (match indexErr s with
    | Some e => if errors_Is e ENotFound then Ok false else Err e
    | None => Ok (bool_decide (is_Some (confirmed s !! fid)))
    end, s).
Proof.
  unfold Confirmed, lookup_fid. destruct (indexErr s) as [e|]; [by destruct (errors_Is _ _)|].
  by destruct (confirmed s !! fid).
Qed.

(** The gate may grant a fid only when every disk answered that it does not have it. *)
Lemma confirmedAnywhere_false fo s fid :
  fair fo (length (disks s)) →
  confirmedAnywhere fo s fid = Ok false ↔
  ∀ d, d ∈ disks s → (Confirmed fid (d_state d)).1 = Ok false.
Proof.
  intros Hf. unfold confirmedAnywhere. rewrite collect_confirmed_false.
  pose proof (arrived_perm _ (disks s) (Hf fid)) as Hp. split.
  - intros [_ H] d Hd. apply H. apply list_elem_of_fmap. exists d. split; [done|]. by rewrite Hp.
  - intros H. split; [done|]. intros r Hr. apply list_elem_of_fmap in Hr as (d & -> & Hd).
    apply H. by rewrite <- Hp.
Qed.

(** The confirmed-existence broadcast: whatever the order in which the disks answer, it reports
    a fid some disk has registered, even when other disks fail; it denies a fid only when every
    disk answered that it has none; otherwise it is an error, never a wrong denial. *)
Theorem confirmed_broadcast fo s fid :
  fair fo (length (disks s)) →
  (confirmedAnywhere fo s fid = Ok true ↔
     ∃ d, d ∈ disks s ∧ indexErr (d_state d) = None ∧ is_Some (confirmed (d_state d) !! fid)) ∧
  (confirmedAnywhere fo s fid = Ok false →
     ∀ d, d ∈ disks s → indexErr (d_state d) = None → confirmed (d_state d) !! fid = None) ∧
  ((∀ d, d ∈ disks s → indexErr (d_state d) = None ∧ confirmed (d_state d) !! fid = None) →
     confirmedAnywhere fo s fid = Ok false).
Proof.
  intros Hf. pose proof (arrived_perm _ (disks s) (Hf fid)) as Hp. split_and!.
  - unfold confirmedAnywhere. rewrite collect_confirmed_true, list_elem_of_fmap.
    setoid_rewrite Confirmed_eq. setoid_rewrite Hp. cbn [fst]. split.
    + intros (d & E & Hd). exists d. split; [done|].
      destruct (indexErr (d_state d)) as [e|]; [by destruct (errors_Is e ENotFound)|].
      injection E as E. by apply eq_sym, bool_decide_eq_true in E.
    + intros (d & Hd & He & Hs). exists d. rewrite He. split; [|done].
      by rewrite bool_decide_eq_true_2.
  - rewrite confirmedAnywhere_false by done. intros H d Hd He. specialize (H d Hd).
    rewrite Confirmed_eq, He in H. injection H as H. apply bool_decide_eq_false in H.
    by apply eq_None_not_Some.
  - intros H. apply confirmedAnywhere_false; [done|]. intros d Hd.
    destruct (H d Hd) as [He Hn]. by rewrite Confirmed_eq, He, Hn.
Qed.

Lemma confirmed_broadcast_witness :
  confirmedAnywhere (mkFanout (λ _, []) (λ _, false)) (mkServer [] newPoolGate 0 0 NaN false) 5
  = Ok false.
Proof.
  apply (confirmed_broadcast (mkFanout (λ _, []) (λ _, false))
    (mkServer [] newPoolGate 0 0 NaN false) 5).
  - intros fid. reflexivity.
  - intros d Hd. inversion Hd.
Defined.

(** [i] is the disk of the first best of [l]. *)
Definition picked (better : Z → Z → bool) (l : list (nat * Z)) (i : nat) : Prop :=
  ∃ chd, is_best better l (Some (i, chd)).

Lemma picked_writable HashString s zram size better (P : nat * Z → Prop)
    `{!∀ c, Decision (P c)} i :
  picked better (filter P (candidates HashString s zram size)) i →
  ∃ d, disks s !! i = Some d ∧ canWrite (d_state d) size = true.
Proof.
  intros (chd & l1 & l2 & E & _).
  assert (Hin : (i, chd) ∈ filter P (candidates HashString s zram size))
    by (rewrite E; apply elem_of_app; right; left).
  apply list_elem_of_filter in Hin as [_ Hin].
  apply elem_of_candidates in Hin as (d & ? & _ & ? & _). by exists d.
Qed.

(** Best-fit disk selection.  The chosen disk can take the write.  A small file goes to the zram
    disk with the least CH_d that covers it, the first of them, whenever there is one; otherwise the
    choice is among the other disks: the first with the least CH_d that covers the size, or, when
    none covers it, the first with the largest CH_d.  The selection fails only when no disk is
    writable at that size outside zram. *)
Theorem select_best_fit HashString s size :
  let cs zram := candidates HashString s zram size in
  match selectDiskForWrite HashString s size with
  | Ok i =>
      (∃ d, disks s !! i = Some d ∧ canWrite (d_state d) size = true) ∧
      (isSmallFile s size = true ∧ picked Z.ltb (filter (fits size) (cs true)) i ∨
       (isSmallFile s size = true → filter (fits size) (cs true) = []) ∧
       (picked Z.ltb (filter (fits size) (cs false)) i ∨
        filter (fits size) (cs false) = [] ∧
        picked Z.gtb (filter (λ c, ¬ fits size c) (cs false)) i))
  | Err _ =>
      cs false = [] ∧ (isSmallFile s size = true → filter (fits size) (cs true) = [])
  end.
Proof.
  intros cs. unfold selectDiskForWrite.
  destruct (pickZram_best HashString s size) as (zb & Hzb & Hz). rewrite Hz.
  assert (Hzn : match (if isSmallFile s size then fst <$> zb else None) with
    | Some i => isSmallFile s size = true ∧ ∃ chd, zb = Some (i, chd)
    | None => isSmallFile s size = true → zb = None
    end) by (destruct (isSmallFile s size), zb as [[i chd]|]; cbn; eauto; done).
  destruct (if isSmallFile s size then _ else _) as [i|].
  - destruct Hzn as (Hs & chd & ->). assert (Hp : picked Z.ltb (filter (fits size) (cs true)) i)
      by (by exists chd).
    split; [exact (picked_writable HashString s true size Z.ltb (fits size) i Hp)|]. by left.
  - assert (Hno : isSmallFile s size = true → filter (fits size) (cs true) = [])
      by (intros Hs; by rewrite (Hzn Hs) in Hzb).
    destruct (pickNonZram_best HashString s size) as (best & fb & Hb & Hf & ->).
    destruct best as [[i chd]|]; [|destruct fb as [[i chd]|]].
    + assert (Hp : picked Z.ltb (filter (fits size) (cs false)) i) by (by exists chd).
      split; [exact (picked_writable HashString s false size Z.ltb (fits size) i Hp)|]. right. eauto.
    + assert (Hp : picked Z.gtb (filter (λ c, ¬ fits size c) (cs false)) i) by (by exists chd).
      split; [exact (picked_writable HashString s false size Z.gtb (λ c, ¬ fits size c) i Hp)|]. right. eauto.
    + split; [|done]. cbn in Hb, Hf. unfold cs. destruct (candidates _ s false size) as [|c l]; [done|].
      destruct (decide (fits size c)); [by rewrite filter_cons_True in Hb|].
      by rewrite filter_cons_True in Hf.
Qed.
