(* ===== verification/Reader.v ===== *)
(** * The incoming payload of a Put (stallingChunkReader of internal/daemon/server.go)

    The messages of a client stream as the reader sees them: each completes [Recv] at some time,
    with a message or an error, and the reader gives up at its deadline.  Time passes only while
    [Recv] waits.  [chunkReadFull] is [io.ReadFull] over the reader; it agrees with [ReadFull] of
    DirectIO.v on the stream of the bytes the reader will yield, so what is proved of the write
    paths over streams holds over this reader. *)

From S2P Require Import Prelude Machine Loop Device DirectIO.
From Stdlib Require Import Strings.Byte.

(** The messages of bsospb.PutRequest. *)
Inductive PutRequest :=
  | PutHeader (fid totalSize aliasFor : Z)
  | PutChunk (chunk : list byte)
  | PutUnset.

(** When a [Recv] completes, and with what: a message, the end of the stream, or the error of a
    broken or cancelled one. *)
Record recv_event := mkEvent { ev_at : Z; ev_out : res PutRequest }.

Record chunkReader := mkReader {
  cr_stream : list recv_event;
  cr_timeout : Z;
  cr_buf : list byte;
  cr_deadline : option Z;
  cr_now : Z
}.

Definition stall_error : error := EMsg "stall timeout: no forward progress".
Definition header_error : error := EMsg "expected a chunk message, got another header".

Definition recv : M chunkReader PutRequest := λ r,
  let deadline := default 0 (cr_deadline r) in
  let wait_until now evs := mkReader evs (cr_timeout r) (cr_buf r) (cr_deadline r) now in
  if deadline - cr_now r <=? 0 then (Err stall_error, r) else
  match cr_stream r with
  | [] => (Err stall_error, wait_until deadline [])
  | ev :: evs =>
      if ev_at ev <=? deadline then (ev_out ev, wait_until (Z.max (cr_now r) (ev_at ev)) evs)
      else (Err stall_error, wait_until deadline (ev :: evs))
  end.

(** The loop of [Read] that receives until there is a byte to give. *)
Fixpoint fill (fuel : nat) : M chunkReader unit := λ r,
  match fuel with
  | O => (Err EFuel, r)
  | S fuel =>
      match cr_buf r with
      | _ :: _ => (Ok tt, r)
      | [] =>
          match recv r with
          | (Err e, r) => (Err e, r)
          | (Ok (PutChunk chunk), r) =>
              let deadline := match chunk with
                              | [] => cr_deadline r
                              | _ => Some (cr_now r + cr_timeout r)
                              end in
              fill fuel (mkReader (cr_stream r) (cr_timeout r) chunk deadline (cr_now r))
          | (Ok _, r) => (Err header_error, r)
          end
      end
  end.

Definition fill_fuel (r : chunkReader) : nat := S (S (length (cr_stream r))).

(** The deadline the next [recv] runs under. *)
Definition deadline_of (r : chunkReader) : Z := default (cr_now r + cr_timeout r) (cr_deadline r).

Definition Read (want : Z) : M chunkReader (list byte) := λ r,
  if want =? 0 then (Ok [], r) else
  let r := mkReader (cr_stream r) (cr_timeout r) (cr_buf r) (Some (deadline_of r)) (cr_now r) in
  match fill (fill_fuel r) r with
  | (Err e, r) => (Err e, r)
  | (Ok _, r) =>
      let n := Z.to_nat want in
      (Ok (take n (cr_buf r)),
       mkReader (cr_stream r) (cr_timeout r) (drop n (cr_buf r)) (cr_deadline r) (cr_now r))
  end.

(** [io.ReadFull]: the bytes read and the error, with [io.EOF] after the first byte turned into
    [io.ErrUnexpectedEOF]. *)
Fixpoint read_full (fuel : nat) (want : Z) (acc : list byte) (r : chunkReader) :
    (list byte * option error) * chunkReader :=
  match fuel with
  | O => ((acc, Some EFuel), r)
  | S fuel =>
      if Z.of_nat (length acc) <? want then
        match Read (want - Z.of_nat (length acc)) r with
        | (Ok l, r) => read_full fuel want (acc ++ l) r
        | (Err e, r) =>
            ((acc, Some (if bool_decide (e = EEOF)
                         then match acc with [] => EEOF | _ => EUnexpectedEOF end else e)), r)
        end
      else ((acc, None), r)
  end.

Definition chunkReadFull (want : Z) (r : chunkReader) : (list byte * option error) * chunkReader :=
  read_full (S (Z.to_nat want)) want [] r.

(** ** The stream a reader stands for *)

(** The bytes still to come and the error after them. *)
Fixpoint drain (evs : list recv_event) (timeout deadline now : Z) : list byte * error :=
  if deadline - now <=? 0 then ([], stall_error) else
  match evs with
  | [] => ([], stall_error)
  | ev :: evs =>
      if ev_at ev <=? deadline then
        match ev_out ev with
        | Err e => ([], e)
        | Ok (PutChunk c) =>
            let now := Z.max now (ev_at ev) in
            let '(l, e) := drain evs timeout
              (match c with [] => deadline | _ => now + timeout end) now in (c ++ l, e)
        | Ok _ => ([], header_error)
        end
      else ([], stall_error)
  end.

Definition drained (r : chunkReader) : list byte * error :=
  let '(l, e) := drain (cr_stream r) (cr_timeout r) (deadline_of r) (cr_now r) in
  (cr_buf r ++ l, e).

Definition reader_stream (r : chunkReader) : stream :=
  Stream (buf_of (drained r).1) 0 (drained r).2.

(** ** [Read] *)
Definition fill_spec (r : chunkReader) (res : res unit) (r' : chunkReader) : Prop :=
  cr_now r ≤ cr_now r' ≤ Z.max (cr_now r) (deadline_of r) ∧
  match res with
  | Ok _ => cr_buf r' ≠ [] ∧ drained r' = drained r
  | Err e => drained r = ([], e)
  end.

Lemma fill_outcome fuel r d :
  cr_deadline r = Some d → (length (cr_stream r) + 2 ≤ fuel + length (cr_buf r))%nat →
  (0 < fuel)%nat →
  let '(res, r') := fill fuel r in fill_spec r res r' ∧ cr_deadline r' ≠ None.
Proof.
  revert r d. induction fuel as [|fuel IH]; intros [evs tmo b dl now] d Hd Hf Hpos; [lia|].
  cbn in Hd. subst dl. unfold fill_spec, drained, deadline_of in *. cbn [fill cr_buf].
  destruct b as [|x b].
  2: { cbn. by split_and!; [lia..| | |]. }
  unfold recv. cbn -[drain]. destruct (Z.leb_spec (d - now) 0).
  { cbn -[drain]. split; [|done]. split; [lia|].
    destruct evs; cbn; by rewrite (proj2 (Z.leb_le _ _)) by lia. }
  destruct evs as [|ev evs]; cbn -[drain].
  { split; [|done]. split; [lia|]. cbn [drain app]. by destruct (Z.leb_spec (d - now) 0). }
  cbn [drain]. rewrite (proj2 (Z.leb_gt (d - now) 0)) by lia.
  destruct (Z.leb_spec (ev_at ev) d); cbn -[drain]; [|split; [split; [lia|done]|done]].
  destruct (ev_out ev) as [[fid ts al|c|]|e]; cbn -[drain]; try (split; [split; [lia|done]|done]).
  set (now' := Z.max now (ev_at ev)).
  set (d' := match c with [] => d | _ => now' + tmo end).
  specialize (IH (mkReader evs tmo c (Some d') now') d' eq_refl). cbn -[drain] in IH.
  replace (match c with [] => Some d | _ => Some (now' + tmo) end) with (Some d')
    by (unfold d'; by destruct c).
  destruct (drain evs tmo d' now') as [l e]. cbn [app].
  cbn in Hf. specialize (IH ltac:(destruct c; cbn; lia) ltac:(destruct c; cbn in *; lia)).
  destruct c as [|x c].
  - destruct (fill fuel (mkReader evs tmo [] (Some d') now')) as [res r'].
    destruct IH as [[Hn Hr] Hdl]. split; [|done]. split; [unfold d', now' in *; lia|done].
  - destruct fuel as [|fuel]; [cbn in Hf; lia|]. cbn [fill cr_buf] in *.
    destruct IH as [[Hn Hr] _]. split; [|done]. cbn -[drain] in *. split; [unfold now'; lia|done].
Qed.

(** What a [Read] of at least one byte does. *)
Lemma Read_outcome want r :
  0 < want →
  let '(res, r') := Read want r in
  cr_now r ≤ cr_now r' ≤ Z.max (cr_now r) (deadline_of r) ∧
  match res with
  | Ok l => l ≠ [] ∧ Z.of_nat (length l) ≤ want ∧ (drained r).1 = l ++ (drained r').1 ∧
            (drained r').2 = (drained r).2
  | Err e => drained r = ([], e)
  end.
Proof.
  intros Hw. unfold Read. rewrite (proj2 (Z.eqb_neq want 0)) by lia.
  set (r0 := mkReader _ _ _ _ _).
  pose proof (fill_outcome (fill_fuel r0) r0 (deadline_of r) eq_refl
    ltac:(unfold fill_fuel; lia) ltac:(unfold fill_fuel; lia)) as H.
  destruct (fill (fill_fuel r0) r0) as [res r']. destruct H as [[Hn H] Hdl].
  change (deadline_of r0) with (deadline_of r) in Hn. change (cr_now r0) with (cr_now r) in Hn.
  change (drained r0) with (drained r) in H.
  destruct res as [u|e]; cbn -[drained]; [|done]. split; [done|]. destruct H as [Hb Hdr].
  split_and!.
  - destruct (cr_buf r'); [done|]. destruct (Z.to_nat want) eqn:E; [lia|done].
  - rewrite length_take. lia.
  - rewrite <- Hdr. unfold drained, deadline_of. cbn.
    destruct (cr_deadline r') as [d|]; [|done]. cbn. destruct (drain _ _ _ _) as [l e]. cbn.
    by rewrite app_assoc, take_drop.
  - rewrite <- Hdr. unfold drained, deadline_of. cbn. by destruct (drain _ _ _ _).
Qed.

(** The stall timeout of a Put: a [Read] never waits past the deadline it started with, however
    many empty messages arrive, so a silent client loses its reservation within the timeout; a
    successful one gives at least one byte and never more than asked. *)
Theorem read_stall_bound want r :
  0 < want →
  let '(res, r') := Read want r in
  cr_now r ≤ cr_now r' ≤ Z.max (cr_now r) (deadline_of r) ∧
  match res with
  | Ok l => 1 ≤ Z.of_nat (length l) ≤ want
  | Err e => (drained r).1 = []
  end.
Proof.
  intros Hw. pose proof (Read_outcome want r Hw) as H. destruct (Read want r) as [[l|e] r'].
  - destruct H as (? & Hl & ? & _). split; [done|]. destruct l; [done|]. cbn in *. lia.
  - destruct H as (? & ->). done.
Qed.

Lemma read_stall_bound_witness :
  cr_now (Read 5 (mkReader [mkEvent 3 (Ok (PutChunk [])); mkEvent 9 (Ok (PutChunk [x41]))] 7 [] None 0)).2
  ≤ 7.
Proof.
  pose proof (read_stall_bound 5
    (mkReader [mkEvent 3 (Ok (PutChunk [])); mkEvent 9 (Ok (PutChunk [x41]))] 7 [] None 0)
    ltac:(lia)) as H.
  destruct (Read 5 _) as [r s]. destruct H as [[_ H] _]. exact H.
Defined.

(** ** [io.ReadFull] *)
Lemma read_full_outcome fuel want acc r :
  Z.of_nat (length acc) ≤ want → (Z.to_nat want < fuel + length acc)%nat →
  let '((l, err), r') := read_full fuel want acc r in
  let av := take (Z.to_nat want - length acc) (drained r).1 in
  l = acc ++ av ∧
  err = (if Z.of_nat (length l) =? want then None
         else Some (if bool_decide ((drained r).2 = EEOF)
                    then match l with [] => EEOF | _ => EUnexpectedEOF end else (drained r).2)) ∧
  (err = None → drained r' = (drop (Z.to_nat want - length acc) (drained r).1, (drained r).2)).
Proof.
  revert acc r. induction fuel as [|fuel IH]; intros acc r Hacc Hf; [lia|]. cbn [read_full].
  destruct (Z.ltb_spec (Z.of_nat (length acc)) want).
  2: { replace (Z.to_nat want - length acc)%nat with 0%nat by lia. cbn [take drop].
       rewrite app_nil_r, (proj2 (Z.eqb_eq _ _)) by lia. split_and!; try done.
       intros _. by destruct (drained r). }
  set (k := want - Z.of_nat (length acc)).
  pose proof (Read_outcome k r ltac:(lia)) as HR. destruct (Read k r) as [[l|e] r1].
  - destruct HR as (_ & Hl & Hk & Hd1 & Hd2).
    assert (0 < length l)%nat by (destruct l; [done|cbn; lia]).
    specialize (IH (acc ++ l) r1). rewrite length_app in IH.
    specialize (IH ltac:(lia) ltac:(lia)).
    destruct (read_full fuel want (acc ++ l) r1) as [[l' err] r']. destruct IH as (IH1 & IH2 & IH3).
    assert (E : take (Z.to_nat want - length acc) (drained r).1 =
                l ++ take (Z.to_nat want - (length acc + length l)) (drained r1).1).
    { rewrite Hd1, take_app_ge by lia. do 2 f_equal. lia. }
    rewrite E, app_assoc. rewrite <- Hd2. split_and!; [done|done|].
    intros Hn. rewrite (IH3 Hn). f_equal. rewrite Hd1, drop_app_ge by lia. f_equal. lia.
  - destruct HR as (_ & ->). cbn [fst snd]. rewrite take_nil, app_nil_r.
    rewrite (proj2 (Z.eqb_neq _ _)) by lia. by split_and!.
Qed.

(** Two streams that yield the same bytes and the same error. *)
Definition same_stream (r1 r2 : stream) : Prop :=
  st_remaining r1 = st_remaining r2 ∧ st_err r1 = st_err r2 ∧
  ∀ i, 0 ≤ i < st_remaining r1 → payload r1 i = payload r2 i.

(** Reading a Put's payload with [io.ReadFull] gives the same bytes and the same error as
    reading the flat stream of everything the client will be seen to send, and leaves the reader
    at the rest of that stream: how the bytes are cut into messages, empty ones included, cannot
    be observed by the write paths. *)
Theorem chunk_reader_stream want r :
  0 ≤ want →
  let '((l, err), r') := chunkReadFull want r in
  let '((b, err'), s') := ReadFull want (reader_stream r) in
  l = buf_list b ∧ err = err' ∧ (err = None → same_stream (reader_stream r') s').
Proof.
  intros Hw. unfold chunkReadFull.
  pose proof (read_full_outcome (S (Z.to_nat want)) want [] r ltac:(cbn; lia) ltac:(cbn; lia)) as H.
  destruct (read_full _ want [] r) as [[l err] r']. cbn [length app] in H.
  rewrite Nat.sub_0_r in H. destruct H as (Hl & Herr & Hrest).
  set (all := (drained r).1) in *.
  unfold ReadFull, reader_stream, st_remaining. cbn [st_data st_pos st_err].
  fold all. rewrite Z.sub_0_r, Z.add_0_l. cbn [blen buf_of].
  set (av := clamp 0 want (Z.of_nat (length all))).
  assert (Hav : av = Z.of_nat (length l)) by (rewrite Hl, length_take; unfold av, clamp; lia).
  assert (Hlist : l = buf_list (buf_slice (buf_of all) 0 av)).
  { rewrite buf_list_bytes_at. cbn [buf_slice blen bat]. rewrite Z.sub_0_r, Hav, Nat2Z.id.
    apply list_eq_same_length with (length l); [by rewrite length_bytes_at|done|].
    intros i x y Hi Hx Hy. rewrite lookup_bytes_at in Hy by done. injection Hy as <-.
    cbn [bat buf_slice buf_of]. rewrite !Z.add_0_l, Nat2Z.id. rewrite Hl, lookup_take in Hx.
    rewrite Hl, length_take in Hi. rewrite decide_True in Hx by lia. by rewrite Hx. }
  split; [done|]. split.
  - rewrite Herr, Hav. destruct (Z.eqb_spec (Z.of_nat (length l)) want); [done|].
    destruct (bool_decide _); [|done]. by destruct l.
  - intros Hn. specialize (Hrest Hn). rewrite Hn in Herr. symmetry in Herr.
    destruct (Z.eqb_spec (Z.of_nat (length l)) want) as [E|]; [|done].
    unfold same_stream, st_remaining. cbn [st_data st_pos st_err blen buf_of]. rewrite Hrest.
    cbn [fst snd]. rewrite length_drop. assert (Hav' : av = want) by lia.
    rewrite Hav'. clear Hlist. rewrite Hl, length_take in E. split_and!; [lia|done|].
    intros i Hi. unfold payload. cbn [st_data st_pos bat buf_of]. rewrite lookup_drop.
    do 2 f_equal. lia.
Qed.

Lemma chunk_reader_stream_witness :
  let r := mkReader [mkEvent 1 (Ok (PutChunk [x41; x42])); mkEvent 2 (Ok (PutChunk []));
                     mkEvent 2 (Ok (PutChunk [x43])); mkEvent 3 (Err EEOF)] 7 [] None 0 in
  (chunkReadFull 3 r).1 = ([x41; x42; x43], None).
Proof.
  intros r. pose proof (chunk_reader_stream 3 r ltac:(lia)) as H.
  destruct (chunkReadFull 3 r) as [[l err] r'].
  assert (E : (ReadFull 3 (reader_stream r)).1.2 = None) by reflexivity.
  assert (E' : buf_list (ReadFull 3 (reader_stream r)).1.1 = [x41; x42; x43]) by reflexivity.
  destruct (ReadFull 3 (reader_stream r)) as [[b err'] s']. cbn [fst snd] in *.
  destruct H as (H1 & H2 & _). rewrite H1, H2, E, E'. reflexivity.
Defined.
