(* ===== verification/Server.v ===== *)
(** * The RPC handlers (internal/daemon/server.go)

    [Put] in the order the code runs it: validity, the pool-wide gate, disk selection and extent
    reservation, the streamed write, the commit, and the release of the gate on every path; [Get]
    with its ranges and its 1 MiB messages; [Head], [Health], [Bonnie]; and the checks of
    [NewServer].  What a handler cannot decide is its environment: when the call's context ends,
    whether the dispatcher admits it, whether sending a message fails. *)

From S2P Require Import Prelude Machine Loop Float Device Layout IndexScan PackedTable Interval.
From S2P Require Import Replay DirectIO DeviceState Gate Chd Text Config MultiDisk Reader.
From Stdlib Require Import Strings.Byte.

(** ** gRPC statuses *)
Inductive status_code :=
  | InvalidArgument
  | AlreadyExists
  | Internal
  | ResourceExhausted
  | NotFound
  | ContextEnded
  | Transport.

#[export] Instance status_code_eq_dec : EqDecision status_code.
Proof. solve_decision. Defined.

Record status := mkStatus { st_code : status_code; st_msg : string; st_cause : option error }.

Inductive reply (A : Type) :=
  | Reply (a : A)
  | Status (st : status).
Arguments Reply {A} _.
Arguments Status {A} _.

Definition failed {A} (c : status_code) (msg : string) : reply A := Status (mkStatus c msg None).
Definition failedf {A} (c : status_code) (msg : string) (e : error) : reply A :=
  Status (mkStatus c msg (Some e)).

Definition ok_reply {A} (r : reply A) : bool := match r with Reply _ => true | Status _ => false end.

(** ** Put *)

(** The pool gate's existence check with its timeout. *)
Definition pool_confirmed (fo : fanout) (s : Server) : confirmedFunc := λ fid,
  if timedOut fo fid then Err (EMsg "pool gate fan-out timed out") else confirmedAnywhere fo s fid.

(** The environment of a call to [Put]. *)
Record put_env := mkPutEnv {
  pe_fanout : fanout;
  pe_acquire : option error;  (* the dispatcher's refusal *)
  pe_context : option error;  (* the context ended before the commit *)
  pe_send : option error      (* sending the response failed *)
}.

(** Steps 2 to 4, on the disk that was selected. *)
Definition put_prepared (env : put_env) (i : nat) (pw : PreparedWrite) (aliasFor : Z) (r : stream)
    (s : Server) : reply unit * Server :=
  let abort s := (on_disk i (Abort pw) s).2 in
  match on_disk i (WriteFrom pw (pe_acquire env) r) s with
  | (Err e, s) => (failedf Internal "put" e, abort s)
  | (Ok _, s) =>
      match pe_context env with
      | Some e => (failedf ContextEnded "context" e, abort s)
      | None =>
          match on_disk i (Commit pw aliasFor) s with
          | (Err e, s) => (failedf Internal "commit" e, abort s)
          | (Ok _, s) =>
              match pe_send env with
              | Some e => (failedf Transport "send" e, s)
              | None => (Reply tt, s)
              end
          end
      end
  end.

Section handlers.
Context (HashString : string → Z).

(** Steps 1 to 4, under the gate's reservation. *)
Definition put_reserved (env : put_env) (fid totalSize aliasFor : Z) (r : stream) (s : Server) :
    reply unit * Server :=
  match selectDiskForWrite HashString s totalSize with
  | Err e => (failedf ResourceExhausted "select disk" e, s)
  | Ok i =>
      match on_disk i (PrepareWrite fid totalSize) s with
      | (Err e, s) => (if errors_Is e EConflict then failed AlreadyExists "extent already reserved"
                       else failedf Internal "prepare" e, s)
      | (Ok pw, s) => put_prepared env i pw aliasFor r s
      end
  end.

(** The checks on the header. *)
Definition put_rejects (s : Server) (fid totalSize aliasFor : Z) : option string :=
  if (totalSize =? 0) || negb (aliasFor =? 0) && ((aliasFor =? fid) || (totalSize <? 2))
  then Some "invalid size or alias"%string
  else if (0 <? maxPut s) && (maxPut s <? totalSize) then Some "payload exceeds max_put"%string
  else None.

(** [first] is the outcome of the first [Recv]; [r] the reader over the rest of the stream. *)
Definition Put (env : put_env) (first : res PutRequest) (r : chunkReader) (s : Server) :
    reply unit * Server :=
  match first with
  | Err e => (failedf Transport "recv" e, s)
  | Ok (PutHeader fid totalSize aliasFor) =>
      match put_rejects s fid totalSize aliasFor with
      | Some msg => (failed InvalidArgument msg, s)
      | None =>
          match reserve fid aliasFor (pool_confirmed (pe_fanout env) s) (gate s) with
          | (Err e, g) => (if errors_Is e EConflict then failed AlreadyExists "fid already registered"
                           else failedf Internal "pool gate" e, set_gate s g)
          | (Ok _, g) =>
              let '(rep, s) :=
                put_reserved env fid totalSize aliasFor (reader_stream r) (set_gate s g) in
              (rep, set_gate s (release fid aliasFor (gate s)))
          end
      end
  | Ok _ => (failed InvalidArgument "first message must be PutHeader", s)
  end.

(** ** Bonnie *)
Definition bonnieCHDPow2 (s : Server) : Z * bool :=
  let maxChd := foldl (λ maxChd disk,
    if IsZramDevicePath (devicePath disk) then maxChd
    else if negb (canWrite (d_state disk) 1) then maxChd
    else let chd := currentCHD HashString (chdTargetP s) (d_state disk) in
         if maxChd <? chd then chd else maxChd) 0 (disks s) in
  if maxChd =? 0 then (0, false) else
  let capSize := if (0 <? maxPut s) && (maxPut s <? maxChd) then maxPut s else maxChd in
  (pow2Log capSize, true).

Definition Bonnie (s : Server) : Z :=
  let '(pow2, ok) := bonnieCHDPow2 s in if ok : bool then pow2 `mod` 2 ^ 32 else 0.
End handlers.

(** ** Get *)
Record GetRequest := mkGetRequest {
  gq_fid : Z; gq_has_range : bool; gq_range_start : Z; gq_range_end : Z
}.
Record GetResponse := mkGetResponse { gr_size : Z; gr_start : Z; gr_end : Z; gr_data : list byte }.

Record get_env := mkGetEnv {
  ge_fanout : fanout;
  ge_context : option error;        (* the context ended while the disks were asked *)
  ge_acquire : Z → option error;    (* the dispatcher's refusal of the read at a position *)
  ge_send : Z → option error        (* sending the message at a position failed *)
}.

(** The loop over the answers of the disks. *)
Fixpoint collect_lookup (rs : list (nat * res objectRef)) (firstErr : option error) :
    nat * objectRef + option error :=
  match rs with
  | [] => inr firstErr
  | (i, Ok ref) :: _ => inl (i, ref)
  | (_, Err e) :: rs =>
      collect_lookup rs (if errors_Is e ENotFound then firstErr
                         else match firstErr with None => Some e | Some _ => firstErr end)
  end.

Definition lookups (fo : fanout) (s : Server) (fid : Z) : list (nat * res objectRef) :=
  arrived (arrival fo fid) (imap (λ i d, (i, (lookup_fid fid (d_state d)).1)) (disks s)).

(** [start, end] from the request and the size; [None] is an invalid range. *)
Definition get_range (req : GetRequest) (size : Z) : option (Z * Z) :=
  if gq_has_range req then
    let end_ := if (gq_range_end req =? 0) || (size <? gq_range_end req) then size
                else gq_range_end req in
    if end_ <? gq_range_start req then None else Some (gq_range_start req, end_)
  else Some (0, size).

Definition messageBytes : Z := 1048576.

(** The loop that reads and sends; its state is the disk and the messages sent. *)
Definition get_stream (env : get_env) (ref : objectRef) (size start_ end_ : Z) :
    M (DeviceState * list GetResponse) (option status) :=
  mloop (Z.to_pos (end_ - start_ + 1)) (λ pos '(d, out),
    let next := Z.min (u64 (pos + messageBytes)) end_ in
    match readRange (ge_acquire env pos) ref pos next d with
    | (Err e, d) => (Ok (inr (Some (mkStatus Internal "get" (Some e)))), (d, out))
    | (Ok data, d) =>
        match ge_send env pos with
        | Some e => (Ok (inr (Some (mkStatus Transport "send" (Some e)))), (d, out))
        | None =>
            let out := out ++ [mkGetResponse size pos next (buf_list data)] in
            (Ok (if next =? end_ then inr None else inl next), (d, out))
        end
    end) start_.

(** The messages sent, the final status ([None] is OK) and the server. *)
Definition GetRPC (env : get_env) (req : GetRequest) (s : Server) :
    list GetResponse * option status * Server :=
  match ge_context env with
  | Some e => ([], Some (mkStatus ContextEnded "context" (Some e)), s)
  | None =>
      match collect_lookup (lookups (ge_fanout env) s (gq_fid req)) None with
      | inr (Some e) => ([], Some (mkStatus Internal "get" (Some e)), s)
      | inr None => ([], Some (mkStatus NotFound "not found" None), s)
      | inl (i, ref) =>
          let size := r_size ref in
          match get_range req size with
          | None => ([], Some (mkStatus InvalidArgument "invalid range" None), s)
          | Some (start_, end_) =>
              match disks s !! i with
              | None => ([], Some (mkStatus Internal "nil disk" None), s)
              | Some d =>
                  match get_stream env ref size start_ end_ (d_state d, []) with
                  | (Ok st, (dst, out)) =>
                      (out, st, set_disks s (<[i := mkDisk dst (devicePath d)]> (disks s)))
                  | (Err e, (dst, out)) =>
                      (out, Some (mkStatus Internal "get" (Some e)),
                       set_disks s (<[i := mkDisk dst (devicePath d)]> (disks s)))
                  end
              end
          end
      end
  end.

(** ** Head and Health *)
Definition HeadRPC (fo : fanout) (fid : Z) (s : Server) : reply Z :=
  match headAny fo s fid with
  | Ok size => Reply size
  | Err e => if errors_Is e ENotFound then failed NotFound "not found"
             else failedf Internal "head" e
  end.

Definition disk_healthy (d : DeviceState) : bool :=
  match indexErr d with Some _ => false | None => canWrite d 1 end.

Definition Health (s : Server) : bool :=
  negb (bool_decide (disks s = [])) && negb (degraded s) &&
  forallb (λ d, disk_healthy (d_state d)) (disks s).

Definition DiskCount (s : Server) : nat := length (disks s).
Definition DiskIDs (s : Server) : list Z := (λ d, diskID (d_state d)) <$> disks s.

(** ** Starting the server *)

(** What the system holds behind a device path: the file, its size, and whether the O_DIRECT open
    succeeds. *)
Definition device_table : Type := string → res (file * Z * bool).

Definition open_disk (open : device_table) (dev : PanDevice) : res Disk :=
  id ← wrap_err "parse disk id" (ParseDiskID (DiskID dev));
  '(f, size, direct) ← wrap_err "open" (open (DevicePath dev));
  st ← wrap_err "open" (OpenDevice f size direct id).1;
  Ok (mkDisk st (DevicePath dev)).

(** The two checks against a disk opened before. *)
Definition compatible (disk previous : Disk) : res unit :=
  if diskID (d_state previous) =? diskID (d_state disk) then Err (EMsg "duplicate disk id") else
  if bool_decide (dom (confirmed (d_state disk)) ∩ dom (confirmed (d_state previous)) = ∅)
  then Ok tt else Err (EMsg "fid registered on multiple disks").

Definition open_next (open : device_table) (ds : list Disk) (dev : PanDevice) : res (list Disk) :=
  disk ← open_disk open dev;
  foldM (λ _ previous, compatible disk previous) tt ds;;
  Ok (ds ++ [disk]).

(** [devices] is the pan file after the zram restore, which gave [warnings] warnings; writing the
    restored pan back is [persist]. *)
Definition NewServer (cfg : Config) (devices : res (list PanDevice)) (warnings : nat)
    (open : device_table) (persist : res unit) : res Server :=
  if (ReservationStallTimeout cfg <=? 0) || (PoolGateFanoutTimeout cfg <=? 0)
  then Err (EMsg "timeouts must be positive") else
  devices ← devices;
  if bool_decide (devices = []) then Err (EMsg "no devices") else
  ds ← foldM (open_next open) [] devices;
  if bool_decide (ds = []) then Err (EMsg "no usable devices after opening") else
  (if bool_decide (ZramSnapshotDir cfg = EmptyString) then Ok tt
   else wrap_err "persist restored pool" persist);;
  Ok (mkServer ds newPoolGate (MaxPutBytes cfg) (smallFileBytes (SmallFilePow2 cfg))
        (ChdTargetP cfg) (0 <? Z.of_nat warnings)).
