(* ===== verification/Pool.v ===== *)
(** * Concurrent Puts over the pool

    The handler [Put] of Server.v runs in as many goroutines as there are calls.  [step] interleaves
    them at the granularity of the locks the code takes: the gate, a disk's mutex for a reservation,
    a commit or an abort, and, between them, the streaming of a payload without any lock, which may
    have written any part of its own extent at any time ([step_progress]) before it completes
    ([step_write]).  [PoolInv] is the invariant of all reachable states; the labels of [step] say
    where an object becomes visible. *)

From S2P Require Import Prelude Machine Loop Float Device Layout IndexScan PackedTable Interval.
From S2P Require Import Replay DirectIO DeviceState DeviceInv DeviceOps DiskStore Gate Chd Text.
From S2P Require Import MultiDisk Reader Server.
From Stdlib Require Import Strings.Byte QArith.
#[local] Open Scope Z_scope.

Inductive phase :=
  | Reserved
  | Prepared (i : nat) (pw : PreparedWrite)
  | Written (i : nat) (pw : PreparedWrite) (l : list byte)
  | Aborting (i : nat) (pw : PreparedWrite)
  | Finished.

Record op := mkOp { op_fid : Z; op_size : Z; op_alias : Z; op_phase : phase }.

Definition set_phase (o : op) (ph : phase) : op := mkOp (op_fid o) (op_size o) (op_alias o) ph.
Definition op_fids (o : op) : gset Z := gate_set (op_fid o) (op_alias o).

(** The reservation an operation holds on a disk. *)
Definition op_holds (o : op) : option (nat * PreparedWrite) :=
  match op_phase o with
  | Prepared i pw | Written i pw _ | Aborting i pw => Some (i, pw)
  | Reserved | Finished => None
  end.

Definition op_done (o : op) : bool := match op_phase o with Finished => true | _ => false end.

Definition pool : Type := Server * gmap nat op.

(** An object becoming visible: its fid, its bytes and its alias. *)
Definition label : Type := option (Z * list byte * Z).

Definition payload_list (r : stream) (n : Z) : list byte := bytes_at (payload r) 0 (Z.to_nat n).

Definition disk_file (i : nat) (f : file) (s : Server) : Server :=
  (on_disk i (λ d, (Ok tt, set_file d f)) s).2.

Inductive step : pool → label → pool → Prop :=
  | step_reserve fo k fid size aliasFor s ops g :
      fair fo (length (disks s)) → ops !! k = None →
      is_u64 fid → is_u64 size → is_u64 aliasFor → put_rejects s fid size aliasFor = None →
      reserve fid aliasFor (pool_confirmed fo s) (gate s) = (Ok tt, g) →
      step (s, ops) None (set_gate s g, <[k := mkOp fid size aliasFor Reserved]> ops)
  | step_refuse k o s ops :
      ops !! k = Some o → op_phase o = Reserved →
      step (s, ops) None (s, <[k := set_phase o Finished]> ops)
  | step_prepare k o i pw s s' ops :
      ops !! k = Some o → op_phase o = Reserved →
      on_disk i (PrepareWrite (op_fid o) (op_size o)) s = (Ok pw, s') →
      step (s, ops) None (s', <[k := set_phase o (Prepared i pw)]> ops)
  | step_progress k o i pw d f s ops :
      ops !! k = Some o → op_phase o = Prepared i pw → disks s !! i = Some d →
      only_extent (pw_iv pw) (ds_file (d_state d)) f →
      step (s, ops) None (disk_file i f s, ops)
  | step_write k o i pw acquire r s s' ops :
      ops !! k = Some o → op_phase o = Prepared i pw → 0 ≤ st_remaining r →
      on_disk i (WriteFrom pw acquire r) s = (Ok tt, s') →
      step (s, ops) None (s', <[k := set_phase o (Written i pw (payload_list r (pw_size pw)))]> ops)
  | step_write_fail k o i pw acquire r e s s' ops :
      ops !! k = Some o → op_phase o = Prepared i pw → 0 ≤ st_remaining r →
      on_disk i (WriteFrom pw acquire r) s = (Err e, s') →
      step (s, ops) None (s', <[k := set_phase o (Aborting i pw)]> ops)
  | step_cancel k o i pw l s ops :
      ops !! k = Some o → op_phase o = Written i pw l →
      step (s, ops) None (s, <[k := set_phase o (Aborting i pw)]> ops)
  | step_commit k o i pw l s s' ops :
      ops !! k = Some o → op_phase o = Written i pw l →
      on_disk i (Commit pw (op_alias o)) s = (Ok tt, s') →
      step (s, ops) (Some (op_fid o, l, op_alias o)) (s', <[k := set_phase o Finished]> ops)
  | step_commit_fail k o i pw l e s s' ops :
      ops !! k = Some o → op_phase o = Written i pw l →
      on_disk i (Commit pw (op_alias o)) s = (Err e, s') →
      step (s, ops) None (s', <[k := set_phase o (Aborting i pw)]> ops)
  | step_abort k o i pw res s s' ops :
      ops !! k = Some o → op_phase o = Aborting i pw →
      on_disk i (Abort pw) s = (res, s') →
      step (s, ops) None (s', <[k := set_phase o Finished]> ops)
  | step_release k o s ops :
      ops !! k = Some o → op_phase o = Finished →
      step (s, ops) None (set_gate s (release (op_fid o) (op_alias o) (gate s)), delete k ops).

Inductive run : pool → list (Z * list byte * Z) → pool → Prop :=
  | run_nil p : run p [] p
  | run_silent p p1 p2 tr : run p tr p1 → step p1 None p2 → run p tr p2
  | run_visible p p1 p2 tr x : run p tr p1 → step p1 (Some x) p2 → run p (tr ++ [x]) p2.

(** ** The invariant *)
Record PoolInv (s : Server) (ops : gmap nat op) : Prop := {
  pi_disks i d : disks s !! i = Some d → Inv (d_state d);
  pi_unique i j di dj fid :
    disks s !! i = Some di → disks s !! j = Some dj →
    is_Some (confirmed (d_state di) !! fid) → is_Some (confirmed (d_state dj) !! fid) → i = j;
  pi_gate f : f ∈ pending (gate s) ↔ ∃ k o, ops !! k = Some o ∧ f ∈ op_fids o;
  pi_disjoint k k' o o' f :
    ops !! k = Some o → ops !! k' = Some o' → f ∈ op_fids o → f ∈ op_fids o' → k = k';
  pi_free k o i d f :
    ops !! k = Some o → op_done o = false → f ∈ op_fids o → disks s !! i = Some d →
    confirmed (d_state d) !! f = None;
  pi_holds k o i pw :
    ops !! k = Some o → op_holds o = Some (i, pw) →
    pw_fid pw = op_fid o ∧ ∃ d, disks s !! i = Some d ∧ prepared (d_state d) pw;
  pi_written k o i pw l d :
    ops !! k = Some o → op_phase o = Written i pw l → disks s !! i = Some d →
    payload_bytes (d_state d) pw = l;
  pi_owner k k' o o' i pw pw' :
    ops !! k = Some o → ops !! k' = Some o' → op_holds o = Some (i, pw) →
    op_holds o' = Some (i, pw') → pw_iv pw = pw_iv pw' → k = k';
  pi_leak i d iv :
    disks s !! i = Some d → iv ∈ pendingIntervals (d_state d) →
    ∃ k o pw, ops !! k = Some o ∧ op_holds o = Some (i, pw) ∧ pw_iv pw = iv;
  pi_args k o : ops !! k = Some o → is_u64 (op_fid o) ∧ is_u64 (op_size o) ∧ is_u64 (op_alias o);
  pi_fault i d e :
    disks s !! i = Some d → indexErr (d_state d) = Some e → errors_Is e ENotFound = false
}.

Definition healthy (s : Server) : Prop := ∀ i d, disks s !! i = Some d → indexErr (d_state d) = None.

(** ** What a step does to a disk *)

(** [own] is the extent of the operation that takes the step. *)
Record disk_effect (own : option interval) (d d' : DeviceState) : Prop := {
  de_inv : Inv d';
  de_bytes : diskBytes d' = diskBytes d;
  de_err : indexErr d' = None → indexErr d = None;
  de_fault e : indexErr d' = Some e → indexErr d = Some e ∨ errors_Is e ENotFound = false;
  de_data a : GridStart ≤ a → (∀ iv, own = Some iv → ¬ ext_addr iv a) →
    f_data (ds_file d') a = f_data (ds_file d) a
}.

Lemma prepared_transfer d d' pw :
  diskBytes d' = diskBytes d → pw_iv pw ∈ pendingIntervals d' → prepared d pw → prepared d' pw.
Proof. intros Hb Hin []. by constructor; rewrite ?Hb. Qed.

Lemma pending_disjoint s iv iv' :
  Inv s → iv ∈ pendingIntervals s → iv' ∈ pendingIntervals s → iv ≠ iv' → overlaps iv iv' = false.
Proof.
  intros Hs H1 H2 Hne. pose proof (i_disjoint _ Hs) as H. apply disjoint_all_app in H as (_ & H & _).
  pose proof (pending_in_grid s iv Hs H1) as [Hok _].
  rewrite (removeInterval_perm _ iv) in H by done. destruct H as [H _].
  rewrite Forall_forall in H. apply H. by apply removeInterval_elem.
Qed.

(** The payload of another reservation of the disk is not touched. *)
Lemma effect_payload own d d' pw :
  Inv d → prepared d pw → disk_effect own d d' →
  (∀ iv, own = Some iv → iv ∈ pendingIntervals d ∧ iv ≠ pw_iv pw) →
  payload_bytes d' pw = payload_bytes d pw.
Proof.
  intros Hd Hpw He Hown. unfold payload_bytes.
  destruct (prepared_geometry d pw Hd Hpw) as (Hgrid & Hk & Hga & Hcov & _ & _ & Hext).
  apply bytes_at_ext. intros a Ha. apply (de_data _ _ _ He); [lia|].
  intros iv Hiv. destruct (Hown iv Hiv) as [Hin Hne].
  pose proof (pp_size _ _ Hpw).
  apply (ext_addr_disjoint (pw_iv pw) iv); [|apply Hext; lia].
  apply (pending_disjoint d); [done|apply Hpw|done|done].
Qed.

(** Nor are the contents of the disk. *)
Lemma effect_contents own d d' :
  Inv d → indexErr d = None → disk_effect own d d' → confirmed d' = confirmed d →
  (∀ iv, own = Some iv → iv ∈ pendingIntervals d) → ∀ k, contents d' k = contents d k.
Proof.
  intros Hd He Heff Hc Hown. apply contents_frame; try done; [apply Heff|].
  intros iv a Hiv Ha. apply (de_data _ _ _ Heff).
  - pose proof (interval_addr d iv a Hd Hiv Ha). lia.
  - intros iv' Hiv'. apply (ext_addr_disjoint iv iv'); [|done].
    apply (pending_confirmed_disjoint d); auto.
Qed.

(** The common case: the extents or the file change, the maps do not. *)
Lemma effect_same own d d' :
  Inv d' → diskBytes d' = diskBytes d → indexErr d' = indexErr d →
  (∀ a, GridStart ≤ a → (∀ iv, own = Some iv → ¬ ext_addr iv a) →
    f_data (ds_file d') a = f_data (ds_file d) a) →
  disk_effect own d d'.
Proof. intros ? ? He ?. constructor; try done; rewrite He; auto. Qed.

(** ** The server under a step on one disk *)
Lemma on_disk_Some {A} i (m : M DeviceState A) s d :
  disks s !! i = Some d →
  on_disk i m s = ((m (d_state d)).1,
    set_disks s (<[i := mkDisk (m (d_state d)).2 (devicePath d)]> (disks s))).
Proof. intros H. unfold on_disk. rewrite H. by destruct (m (d_state d)). Qed.

Lemma on_disk_inv {A} i (m : M DeviceState A) s r s' :
  on_disk i m s = (r, s') → is_ok r = true ∨ is_Some (disks s !! i) →
  ∃ d st, disks s !! i = Some d ∧ m (d_state d) = (r, st) ∧
    s' = set_disks s (<[i := mkDisk st (devicePath d)]> (disks s)).
Proof.
  unfold on_disk. destruct (disks s !! i) as [d|].
  - destruct (m (d_state d)) as [r' st] eqn:E. intros [= <- <-] _. eauto 10.
  - intros [= <- <-]. by intros [|[]].
Qed.

(** ** A step of operation [k] on disk [i] keeps the invariant *)
Section step_on_disk.
Context (s : Server) (ops : gmap nat op) (k : nat) (o o' : op) (i : nat) (d : Disk).
Context (st' : DeviceState) (add : gmap Z objectRef).
Context (HP : PoolInv s ops) (Hk : ops !! k = Some o) (Hd : disks s !! i = Some d).
Context (Hargs : op_fid o' = op_fid o ∧ op_size o' = op_size o ∧ op_alias o' = op_alias o).
Context (Heff : disk_effect (pw_iv ∘ snd <$> op_holds o) (d_state d) st').
(** What it registers are its own fids, and then it is done. *)
Context (Hconf : confirmed st' = add ∪ confirmed (d_state d)).
Context (Hadd : ∀ f, is_Some (add !! f) → f ∈ op_fids o ∧ op_done o = false).
Context (Hdone : op_done o' = false → op_done o = false ∧ add = ∅).
(** Its reservation replaces the one it held. *)
Context (Hpend : ∀ iv, iv ∈ pendingIntervals st' ↔
  (iv ∈ pendingIntervals (d_state d) ∧ ∀ pw, op_holds o = Some (i, pw) → pw_iv pw ≠ iv) ∨
  ∃ pw, op_holds o' = Some (i, pw) ∧ pw_iv pw = iv).
Context (Hold : ∀ j pw, op_holds o = Some (j, pw) → j = i).
Context (Hnew : ∀ j pw, op_holds o' = Some (j, pw) → j = i ∧ pw_fid pw = op_fid o ∧
  prepared st' pw ∧ (op_holds o = Some (i, pw) ∨ pw_iv pw ∉ pendingIntervals (d_state d))).
Context (Hwr : ∀ j pw l, op_phase o' = Written j pw l → payload_bytes st' pw = l).

Let ds' := <[i := mkDisk st' (devicePath d)]> (disks s).
Let ops' := <[k := o']> ops.

Lemma step_fids : op_fids o' = op_fids o.
Proof using Hargs. destruct Hargs as (Hf & _ & Ha). unfold op_fids. by rewrite Hf, Ha. Qed.

Lemma step_disk_here : ds' !! i = Some (mkDisk st' (devicePath d)).
Proof using Hd. apply list_lookup_insert_eq. by eapply lookup_lt_Some. Qed.

Lemma step_disks j x :
  ds' !! j = Some x → j = i ∧ x = mkDisk st' (devicePath d) ∨ j ≠ i ∧ disks s !! j = Some x.
Proof using Hd.
  destruct (decide (j = i)) as [->|Hne].
  - rewrite step_disk_here. intros [= <-]. by left.
  - unfold ds'. rewrite list_lookup_insert_ne by done. by right.
Qed.

Lemma step_ops k1 o1 : ops' !! k1 = Some o1 → k1 = k ∧ o1 = o' ∨ k1 ≠ k ∧ ops !! k1 = Some o1.
Proof using. intros [[<- <-]|[? ?]]%lookup_insert_Some; [by left|by right]. Qed.

(** Every operation claims what it claimed before. *)
Lemma step_claims k1 o1 : ops' !! k1 = Some o1 → ∃ o0, ops !! k1 = Some o0 ∧ op_fids o1 = op_fids o0.
Proof using Hk Hargs. intros [[-> ->]|[_ ?]]%step_ops; [|by eauto]. exists o. by rewrite step_fids. Qed.

(** A registered fid was registered before, or is one of the operation's. *)
Lemma step_registered j x f : ds' !! j = Some x → is_Some (confirmed (d_state x) !! f) →
  (∃ y, disks s !! j = Some y ∧ is_Some (confirmed (d_state y) !! f)) ∨
  (j = i ∧ f ∈ op_fids o ∧ op_done o = false ∧ is_Some (add !! f)).
Proof using Hd Hconf Hadd.
  intros [[-> ->]|[Hne Hx]]%step_disks Hs; [|left; by exists x]. cbn in Hs. rewrite Hconf in Hs.
  destruct (add !! f) as [ref|] eqn:E.
  - right. split; [done|]. destruct (Hadd f) as [? ?]; [by rewrite E|]. by split_and!.
  - left. exists d. by rewrite lookup_union_r in Hs.
Qed.

(** The other reservations of the disk stand. *)
Lemma step_other k1 o1 pw : k1 ≠ k → ops !! k1 = Some o1 → op_holds o1 = Some (i, pw) →
  pw_iv pw ∈ pendingIntervals (d_state d) ∧ prepared (d_state d) pw ∧
  (∀ pw0, op_holds o = Some (i, pw0) → pw_iv pw0 ≠ pw_iv pw) ∧ prepared st' pw.
Proof using HP Hk Hd Hpend Heff.
  intros Hne H1 Hh. destruct (pi_holds _ _ HP _ _ _ _ H1 Hh) as (_ & d1 & Hd1 & Hpw).
  rewrite Hd in Hd1. injection Hd1 as <-. pose proof (pp_pending _ _ Hpw) as Hin.
  assert (Hno : ∀ pw0, op_holds o = Some (i, pw0) → pw_iv pw0 ≠ pw_iv pw).
  { intros pw0 H0 E. apply Hne. symmetry. by apply (pi_owner _ _ HP k k1 o o1 i pw0 pw). }
  split_and!; try done. apply (prepared_transfer (d_state d)); [apply Heff| |done].
  apply Hpend. by left.
Qed.

Lemma step_unique j1 j2 x1 x2 f : ds' !! j1 = Some x1 → ds' !! j2 = Some x2 →
  is_Some (confirmed (d_state x1) !! f) → is_Some (confirmed (d_state x2) !! f) → j1 = j2.
Proof using HP Hk Hd Hconf Hadd.
  intros H1 H2 Hs1 Hs2.
  destruct (step_registered _ _ _ H1 Hs1) as [(y1 & Hy1 & Hc1)|(-> & Hin1 & Hnd & _)],
    (step_registered _ _ _ H2 Hs2) as [(y2 & Hy2 & Hc2)|(-> & Hin2 & Hnd2 & _)].
  - by apply (pi_unique _ _ HP j1 j2 y1 y2 f).
  - destruct Hc1 as [? E]. by rewrite (pi_free _ _ HP k o j1 y1 f) in E.
  - destruct Hc2 as [? E]. by rewrite (pi_free _ _ HP k o j2 y2 f) in E.
  - done.
Qed.

Lemma step_gate f : f ∈ pending (gate s) ↔ ∃ k1 o1, ops' !! k1 = Some o1 ∧ f ∈ op_fids o1.
Proof using HP Hk Hargs.
  rewrite (pi_gate _ _ HP). split.
  - intros (k1 & o1 & H1 & Hin). destruct (decide (k1 = k)) as [->|Hne].
    + rewrite Hk in H1. injection H1 as <-. exists k, o'. unfold ops'.
      by rewrite lookup_insert_eq, step_fids.
    + exists k1, o1. unfold ops'. by rewrite lookup_insert_ne.
  - intros (k1 & o1 & H1 & Hin). destruct (step_claims _ _ H1) as (o0 & H0 & E).
    exists k1, o0. by rewrite <- E.
Qed.

Lemma step_free k1 o1 j x f : ops' !! k1 = Some o1 → op_done o1 = false → f ∈ op_fids o1 →
  ds' !! j = Some x → confirmed (d_state x) !! f = None.
Proof using HP Hk Hd Hconf Hadd Hdone Hargs.
  intros H1 Hnd Hin Hx. destruct (confirmed (d_state x) !! f) as [ref|] eqn:E; [|done]. exfalso.
  assert (H0 : ∃ o0, ops !! k1 = Some o0 ∧ f ∈ op_fids o0 ∧ op_done o0 = false).
  { destruct (step_ops _ _ H1) as [[-> ->]|[_ ?]]; [|by eauto]. exists o.
    rewrite <- step_fids. by destruct (Hdone Hnd). }
  destruct H0 as (o0 & H0 & Hin0 & Hnd0).
  destruct (step_registered j x f Hx) as [(y & Hy & [? E'])|(-> & Hin' & _ & Hs)]; [done| |].
  - by rewrite (pi_free _ _ HP k1 o0 j y f) in E'.
  - assert (k1 = k) as -> by (by apply (pi_disjoint _ _ HP k1 k o0 o f)).
    destruct (step_ops _ _ H1) as [[_ ->]|[? _]]; [|done].
    destruct (Hdone Hnd) as [_ ->]. by destruct Hs.
Qed.

Lemma step_holds k1 o1 j pw : ops' !! k1 = Some o1 → op_holds o1 = Some (j, pw) →
  pw_fid pw = op_fid o1 ∧ ∃ x, ds' !! j = Some x ∧ prepared (d_state x) pw.
Proof using HP Hk Hd Hpend Heff Hnew Hargs.
  intros H1 Hh. destruct (step_ops _ _ H1) as [[-> ->]|[Hne H1']].
  - destruct (Hnew _ _ Hh) as (-> & Hpf & Hpr & _). destruct Hargs as [-> _]. split; [done|].
    eexists. by split; [apply step_disk_here|].
  - destruct (pi_holds _ _ HP _ _ _ _ H1' Hh) as (Hpf & x & Hx & Hpr). split; [done|].
    destruct (decide (j = i)) as [->|Hji].
    + eexists. split; [apply step_disk_here|]. by destruct (step_other _ _ _ Hne H1' Hh) as (_ & _ & _ & ?).
    + exists x. unfold ds'. by rewrite list_lookup_insert_ne.
Qed.

Lemma step_written k1 o1 j pw l x : ops' !! k1 = Some o1 → op_phase o1 = Written j pw l →
  ds' !! j = Some x → payload_bytes (d_state x) pw = l.
Proof using HP Hk Hd Hpend Heff Hold Hnew Hwr.
  intros H1 Hph Hx. assert (Hh : op_holds o1 = Some (j, pw)) by (unfold op_holds; by rewrite Hph).
  destruct (step_ops _ _ H1) as [[-> ->]|[Hne H1']].
  - destruct (Hnew _ _ Hh) as (-> & _). destruct (step_disks _ _ Hx) as [[_ ->]|[? _]]; [|done].
    by eapply Hwr.
  - destruct (step_disks _ _ Hx) as [[-> ->]|[_ Hx']]; [|by eapply pi_written].
    destruct (step_other _ _ _ Hne H1' Hh) as (Hin & Hpr & Hno & _). cbn.
    rewrite <- (pi_written _ _ HP _ _ _ _ _ _ H1' Hph Hd).
    eapply effect_payload; [by eapply pi_disks|done|exact Heff|].
    intros iv Hiv. destruct (op_holds o) as [[j0 pw0]|] eqn:Eo; [|done].
    assert (j0 = i) as -> by (by eapply Hold). injection Hiv as <-. split; [|by apply Hno].
    destruct (pi_holds _ _ HP _ _ _ _ Hk Eo) as (_ & y & Hy & Hp0). rewrite Hd in Hy.
    injection Hy as <-. apply Hp0.
Qed.

Lemma step_owner k1 k2 o1 o2 j pw1 pw2 : ops' !! k1 = Some o1 → ops' !! k2 = Some o2 →
  op_holds o1 = Some (j, pw1) → op_holds o2 = Some (j, pw2) → pw_iv pw1 = pw_iv pw2 → k1 = k2.
Proof using HP Hk Hd Hpend Heff Hnew.
  intros H1 H2 Hh1 Hh2 E.
  destruct (step_ops _ _ H1) as [[-> ->]|[Hn1 H1']], (step_ops _ _ H2) as [[-> ->]|[Hn2 H2']].
  - done.
  - destruct (Hnew _ _ Hh1) as (-> & _ & _ & [Ho|Hni]).
    + by apply (pi_owner _ _ HP k k2 o o2 i pw1 pw2).
    + destruct (step_other _ _ _ Hn2 H2' Hh2) as (Hin & _). by rewrite <- E in Hin.
  - destruct (Hnew _ _ Hh2) as (-> & _ & _ & [Ho|Hni]).
    + by apply (pi_owner _ _ HP k1 k o1 o i pw1 pw2).
    + destruct (step_other _ _ _ Hn1 H1' Hh1) as (Hin & _). by rewrite E in Hin.
  - by apply (pi_owner _ _ HP k1 k2 o1 o2 j pw1 pw2).
Qed.

Lemma step_leak j x iv : ds' !! j = Some x → iv ∈ pendingIntervals (d_state x) →
  ∃ k1 o1 pw, ops' !! k1 = Some o1 ∧ op_holds o1 = Some (j, pw) ∧ pw_iv pw = iv.
Proof using HP Hk Hd Hpend Hold.
  intros Hx Hin. unfold ops'. destruct (step_disks _ _ Hx) as [[-> ->]|[Hne Hx']].
  - apply Hpend in Hin as [[Hin Hno]|(pw & Hh & E)]; [|exists k, o', pw; by rewrite lookup_insert_eq].
    destruct (pi_leak _ _ HP i d iv Hd Hin) as (k1 & o1 & pw & H1 & Hh & E).
    exists k1, o1, pw. split; [|done]. rewrite lookup_insert_ne; [done|].
    intros ->. rewrite Hk in H1. injection H1 as <-. by apply (Hno pw).
  - destruct (pi_leak _ _ HP j x iv Hx' Hin) as (k1 & o1 & pw & H1 & Hh & E).
    exists k1, o1, pw. split; [|done]. rewrite lookup_insert_ne; [done|].
    intros ->. rewrite Hk in H1. injection H1 as <-. by apply Hold in Hh.
Qed.

Lemma PoolInv_step : PoolInv (set_disks s ds') ops'.
Proof using All.
  constructor; cbn [disks set_disks gate].
  - intros j x [[_ ->]|[_ Hx]]%step_disks; [apply Heff|by eapply pi_disks].
  - exact step_unique.
  - exact step_gate.
  - intros k1 k2 o1 o2 f H1 H2 Hin1 Hin2.
    destruct (step_claims _ _ H1) as (a1 & Ha1 & E1), (step_claims _ _ H2) as (a2 & Ha2 & E2).
    apply (pi_disjoint _ _ HP k1 k2 a1 a2 f); congruence.
  - exact step_free.
  - exact step_holds.
  - exact step_written.
  - exact step_owner.
  - exact step_leak.
  - intros k1 o1 [[_ ->]|[_ H1]]%step_ops; [|by eapply pi_args].
    destruct Hargs as (-> & -> & ->). by eapply pi_args.
  - intros j x e [[_ ->]|[_ Hx]]%step_disks He; [|by eapply pi_fault].
    destruct (de_fault _ _ _ Heff e He) as [He'|]; [by eapply pi_fault|done].
Qed.
End step_on_disk.

(** ** Steps that change no disk *)
Lemma PoolInv_phase s ops k o ph :
  PoolInv s ops → ops !! k = Some o → op_holds (set_phase o ph) = op_holds o →
  (op_done (set_phase o ph) = false → op_done o = false) → (∀ i pw l, ph ≠ Written i pw l) →
  PoolInv s (<[k := set_phase o ph]> ops).
Proof.
  intros HP Hk Hh Hnd Hnw.
  assert (Hops : ∀ k1 o1, <[k := set_phase o ph]> ops !! k1 = Some o1 → ∃ o0,
    ops !! k1 = Some o0 ∧ op_fids o1 = op_fids o0 ∧ op_fid o1 = op_fid o0 ∧
    op_holds o1 = op_holds o0 ∧ (op_done o1 = false → op_done o0 = false) ∧
    (o1 = o0 ∨ ∀ i pw l, op_phase o1 ≠ Written i pw l) ∧
    op_size o1 = op_size o0 ∧ op_alias o1 = op_alias o0).
  { intros k1 o1 [[<- <-]|[? ?]]%lookup_insert_Some; [exists o|exists o1]; split_and!; auto. }
  constructor.
  - apply HP.
  - apply HP.
  - intros f. rewrite (pi_gate _ _ HP). split.
    + intros (k1 & o1 & H1 & Hin). destruct (decide (k1 = k)) as [->|Hne].
      * rewrite Hk in H1. injection H1 as <-. eexists k, _. by rewrite lookup_insert_eq.
      * exists k1, o1. by rewrite lookup_insert_ne.
    + intros (k1 & o1 & (o0 & H0 & E & _)%Hops & Hin). exists k1, o0. by rewrite <- E.
  - intros k1 k2 o1 o2 f (a1 & H1 & E1 & _)%Hops (a2 & H2 & E2 & _)%Hops. rewrite E1, E2.
    by apply (pi_disjoint _ _ HP).
  - intros k1 o1 i d f (a1 & H1 & E1 & _ & _ & E2 & _)%Hops Hd. rewrite E1.
    apply (pi_free _ _ HP k1); auto.
  - intros k1 o1 i pw (a1 & H1 & _ & E1 & E2 & _)%Hops. rewrite E1, E2. by apply (pi_holds _ _ HP k1).
  - intros k1 o1 i pw l d (a1 & H1 & _ & _ & _ & _ & [->|Hn] & _)%Hops Hw;
      [by apply (pi_written _ _ HP k1 a1 i)|by apply Hn in Hw].
  - intros k1 k2 o1 o2 i pw pw' (a1 & H1 & _ & _ & E1 & _)%Hops (a2 & H2 & _ & _ & E2 & _)%Hops.
    rewrite E1, E2. by apply (pi_owner _ _ HP).
  - intros i d iv Hd Hin. destruct (pi_leak _ _ HP i d iv Hd Hin) as (k1 & o1 & pw & H1 & Hh1 & E).
    destruct (decide (k1 = k)) as [->|Hne].
    + rewrite Hk in H1. injection H1 as <-. eexists k, _, pw. rewrite lookup_insert_eq.
      split; [done|]. by rewrite Hh.
    + exists k1, o1, pw. by rewrite lookup_insert_ne.
  - intros k1 o1 (a1 & H1 & _ & -> & _ & _ & _ & -> & ->)%Hops. by apply (pi_args _ _ HP k1).
  - apply HP.
Qed.

Lemma PoolInv_release s ops k o :
  PoolInv s ops → ops !! k = Some o → op_phase o = Finished →
  PoolInv (set_gate s (release (op_fid o) (op_alias o) (gate s))) (delete k ops).
Proof.
  intros HP Hk Hph. assert (Hnh : op_holds o = None) by (unfold op_holds; by rewrite Hph).
  assert (Hops : ∀ k1 o1, delete k ops !! k1 = Some o1 ↔ k1 ≠ k ∧ ops !! k1 = Some o1)
    by (intros; rewrite lookup_delete_Some; naive_solver).
  constructor; cbn [disks gate set_gate].
  - apply HP.
  - apply HP.
  - intros f. rewrite release_pending, elem_of_difference, (pi_gate _ _ HP). split.
    + intros [(k1 & o1 & H1 & Hin) Hn]. exists k1, o1. split; [|done]. apply Hops. split; [|done].
      intros ->. rewrite Hk in H1. injection H1 as <-. done.
    + intros (k1 & o1 & [Hne H1]%Hops & Hin). split; [by eauto|]. intros Hin'. apply Hne.
      by apply (pi_disjoint _ _ HP k1 k o1 o f).
  - intros k1 k2 o1 o2 f [_ H1]%Hops [_ H2]%Hops. by apply (pi_disjoint _ _ HP).
  - intros k1 o1 i d f [_ H1]%Hops. by apply (pi_free _ _ HP k1).
  - intros k1 o1 i pw [_ H1]%Hops. by apply (pi_holds _ _ HP k1).
  - intros k1 o1 i pw l d [_ H1]%Hops. by apply (pi_written _ _ HP k1).
  - intros k1 k2 o1 o2 i pw pw' [_ H1]%Hops [_ H2]%Hops. by apply (pi_owner _ _ HP).
  - intros i d iv Hd Hin. destruct (pi_leak _ _ HP i d iv Hd Hin) as (k1 & o1 & pw & H1 & Hh & E).
    exists k1, o1, pw. split; [|done]. apply Hops. split; [|done]. intros ->. congruence.
  - intros k1 o1 [_ H1]%Hops. by apply (pi_args _ _ HP k1).
  - apply HP.
Qed.

Lemma pool_confirmed_free s ops fo f i d :
  PoolInv s ops → fair fo (length (disks s)) → pool_confirmed fo s f = Ok false →
  disks s !! i = Some d → confirmed (d_state d) !! f = None ∧ indexErr (d_state d) = None.
Proof.
  intros HP Hf H Hd. unfold pool_confirmed in H. destruct (timedOut fo f); [done|].
  rewrite confirmedAnywhere_false in H by done. specialize (H d ltac:(by eapply list_elem_of_lookup_2)).
  rewrite Confirmed_eq in H. cbn in H. destruct (indexErr (d_state d)) as [e|] eqn:He.
  - by rewrite (pi_fault _ _ HP i d e) in H.
  - injection H as H. apply bool_decide_eq_false in H. split; [|done]. by apply eq_None_not_Some.
Qed.

Lemma PoolInv_reserve fo s ops k fid size aliasFor g :
  PoolInv s ops → fair fo (length (disks s)) → ops !! k = None →
  is_u64 fid → is_u64 size → is_u64 aliasFor →
  reserve fid aliasFor (pool_confirmed fo s) (gate s) = (Ok tt, g) →
  PoolInv (set_gate s g) (<[k := mkOp fid size aliasFor Reserved]> ops).
Proof.
  intros HP Hfo Hk Hu1 Hu2 Hu3 (Hdis & Hfree & ->)%reserve_Ok.
  set (o := mkOp fid size aliasFor Reserved). change (gate_set fid aliasFor) with (op_fids o) in *.
  assert (Hops : ∀ k1 o1, <[k := o]> ops !! k1 = Some o1 → k1 = k ∧ o1 = o ∨ ops !! k1 = Some o1)
    by (intros k1 o1 [[<- <-]|[? ?]]%lookup_insert_Some; [by left|by right]).
  assert (Hnew : ∀ k1 o1 f, ops !! k1 = Some o1 → f ∈ op_fids o1 → f ∈ op_fids o → False).
  { intros k1 o1 f H1 Hin Ho. apply (Hdis f Ho). apply (pi_gate _ _ HP). eauto. }
  constructor; cbn [disks gate set_gate pending].
  - apply HP.
  - apply HP.
  - intros f. rewrite elem_of_union, (pi_gate _ _ HP). split.
    + intros [Ho|(k1 & o1 & H1 & Hin)]; [exists k, o; by rewrite lookup_insert_eq|].
      exists k1, o1. split; [|done]. rewrite lookup_insert_ne; [done|]. intros ->. congruence.
    + intros (k1 & o1 & [[-> ->]|H1]%Hops & Hin); [by left|right; eauto].
  - intros k1 k2 o1 o2 f [[-> ->]|H1]%Hops [[-> ->]|H2]%Hops Hin1 Hin2; [done|by destruct (Hnew k2 o2 f)|
      by destruct (Hnew k1 o1 f)|by apply (pi_disjoint _ _ HP k1 k2 o1 o2 f)].
  - intros k1 o1 i d f [[-> ->]|H1]%Hops Hnd Hin Hd; [|by apply (pi_free _ _ HP k1 o1 i d f)].
    by apply (pool_confirmed_free s ops fo f i d HP Hfo (Hfree f Hin)).
  - intros k1 o1 i pw [[-> ->]|H1]%Hops Hh; [done|by apply (pi_holds _ _ HP k1)].
  - intros k1 o1 i pw l d [[-> ->]|H1]%Hops Hw; [done|by apply (pi_written _ _ HP k1 o1 i)].
  - intros k1 k2 o1 o2 i pw pw' [[-> ->]|H1]%Hops [[-> ->]|H2]%Hops Hh1 Hh2; [done..|].
    by apply (pi_owner _ _ HP k1 k2 o1 o2 i).
  - intros i d iv Hd Hin. destruct (pi_leak _ _ HP i d iv Hd Hin) as (k1 & o1 & pw & H1 & Hh & E).
    exists k1, o1, pw. split; [|done]. rewrite lookup_insert_ne; [done|]. intros ->. congruence.
  - intros k1 o1 [[-> ->]|H1]%Hops; [done|by apply (pi_args _ _ HP k1)].
  - apply HP.
Qed.

(** ** The effect of each operation of a disk *)
Lemma prepare_effect s fid size pw s' :
  Inv s → is_u64 fid → is_u64 size → PrepareWrite fid size s = (Ok pw, s') →
  disk_effect None s s' ∧ confirmed s' = confirmed s ∧ prepared s' pw ∧ pw_fid pw = fid ∧
  pw_iv pw ∉ pendingIntervals s ∧
  ∀ iv, iv ∈ pendingIntervals s' ↔ iv ∈ pendingIntervals s ∨ pw_iv pw = iv.
Proof.
  intros Hs Hf Hz E. pose proof (PrepareWrite_outcome s fid size Hs Hf Hz) as H. rewrite E in H.
  destruct H as (Hpf & _ & _ & -> & Hi & Hpw). split_and!; try done.
  - by apply effect_same.
  - intros Hin. pose proof (i_disjoint _ Hi) as Hd. cbn in Hd. rewrite app_assoc, disjoint_all_app in Hd.
    destruct Hd as (_ & _ & Hd). rewrite Forall_forall in Hd.
    specialize (Hd (pw_iv pw) ltac:(apply elem_of_app; by right)).
    apply Forall_cons in Hd as [Hd _]. destruct (pending_in_grid s _ Hs Hin) as [Hok _].
    rewrite overlaps_false in Hd. unfold interval_ok in Hok. lia.
  - intros iv. cbn. rewrite elem_of_app, list_elem_of_singleton. naive_solver.
Qed.

Lemma write_effect s pw acquire r res s' :
  Inv s → prepared s pw → 0 ≤ st_remaining r → WriteFrom pw acquire r s = (res, s') →
  disk_effect (Some (pw_iv pw)) s s' ∧ confirmed s' = confirmed s ∧
  pendingIntervals s' = pendingIntervals s ∧ prepared s' pw ∧
  (is_ok res = true → payload_bytes s' pw = payload_list r (pw_size pw)).
Proof.
  intros Hs Hpw Hr E. pose proof (WriteFrom_outcome s pw acquire r Hs Hpw Hr) as H. rewrite E in H.
  destruct H as (Hi & Eq & (_ & _ & Hout) & Hres). rewrite Eq. split_and!; try done.
  - apply effect_same; try done; [by rewrite <- Eq|]. intros a _ Ha. cbn. apply Hout. by apply Ha.
  - by destruct Hpw.
  - destruct res as [u|e]; [|done]. intros _. destruct Hres as [_ Hd]. rewrite <- Eq.
    unfold payload_bytes, payload_list, bytes_at. apply list_fmap_ext. intros i x Hi'.
    apply lookup_seq in Hi'. rewrite Hd by lia. f_equal.
Qed.

Lemma write_index_err b off f e f' :
  write_index b off f = (Err e, f') → errors_Is e ENotFound = false.
Proof.
  unfold write_index, WriteAt, must_sync, Sync, next_fault.
  repeat case_match; intros; simplify_eq; try done.
Qed.

Lemma Commit_fault pw aliasFor s r s' e :
  Commit pw aliasFor s = (r, s') → indexErr s' = Some e →
  indexErr s = Some e ∨ errors_Is e ENotFound = false.
Proof.
  unfold Commit. intros H He.
  repeat match type of H with
  | (if ?b then _ else _) = _ => destruct b
  | match write_index ?b ?o ?f with _ => _ end = _ => destruct (write_index b o f) as [[] ?] eqn:?
  | match ?x with _ => _ end = _ => destruct x eqn:?
  end; injection H as <- <-; cbn in He; first
    [ left; congruence | injection He as <-; right; cbn; by eapply write_index_err ].
Qed.

Lemma commit_effect s pw aliasFor res s' :
  Inv s → prepared s pw → is_u64 aliasFor → Commit pw aliasFor s = (res, s') →
  disk_effect (Some (pw_iv pw)) s s' ∧
  match res with
  | Ok _ => confirmed s' = new_refs (pw_fid pw) (pw_size pw) aliasFor ∪ confirmed s ∧
            pendingIntervals s' = removeInterval (pendingIntervals s) (pw_iv pw)
  | Err _ => confirmed s' = confirmed s ∧ pendingIntervals s' = pendingIntervals s ∧
             prepared s' pw ∧ (indexErr s' = None → ∀ k, contents s' k = contents s k)
  end.
Proof.
  intros Hs Hpw Ha E. pose proof (Commit_outcome s pw aliasFor Hs Hpw Ha) as H. rewrite E in H.
  destruct res as [u|e].
  - destruct H as [? [He He'] _ Hc _ _ Hp Hb Hg _]. split; [|done].
    constructor; try done; [by intros e; rewrite He'|]. intros a Hga _. apply Hg. by right.
  - pose proof H as [Hi Hc _ _ Hp _ Hb Hg Herr].
    assert (He : indexErr s' = None → indexErr s = None)
      by (intros Hn; destruct Herr as [<-|[? E']]; [done|congruence]).
    split; [|split_and!; try done].
    + constructor; try done; [|intros a Hga _; apply Hg; by right].
      intros e'. by eapply Commit_fault.
    + apply (prepared_transfer s); [done| |done]. rewrite Hp. apply Hpw.
    + intros Hn. by apply failed_contents; auto.
Qed.

Lemma abort_effect s pw res s' :
  Inv s → Abort pw s = (res, s') →
  disk_effect (Some (pw_iv pw)) s s' ∧ confirmed s' = confirmed s ∧
  pendingIntervals s' = removeInterval (pendingIntervals s) (pw_iv pw).
Proof.
  intros Hs [= <- <-]. split_and!; try done. apply effect_same; try done. by apply release_Inv.
Qed.

(** The fids a commit registers are those of the gate. *)
Lemma new_refs_fids fid size aliasFor f :
  is_Some (new_refs fid size aliasFor !! f) → f ∈ gate_set fid aliasFor.
Proof.
  rewrite new_refs_lookup, elem_of_gate_set. repeat case_decide; [tauto|tauto|by intros []].
Qed.

(** A step on a disk that registers nothing. *)
Lemma PoolInv_quiet s ops k o ph i d st' :
  PoolInv s ops → ops !! k = Some o → disks s !! i = Some d → op_done o = false →
  disk_effect (pw_iv ∘ snd <$> op_holds o) (d_state d) st' →
  confirmed st' = confirmed (d_state d) →
  (∀ iv, iv ∈ pendingIntervals st' ↔
    (iv ∈ pendingIntervals (d_state d) ∧ ∀ pw, op_holds o = Some (i, pw) → pw_iv pw ≠ iv) ∨
    ∃ pw, op_holds (set_phase o ph) = Some (i, pw) ∧ pw_iv pw = iv) →
  (∀ j pw, op_holds o = Some (j, pw) → j = i) →
  (∀ j pw, op_holds (set_phase o ph) = Some (j, pw) → j = i ∧ pw_fid pw = op_fid o ∧
    prepared st' pw ∧ (op_holds o = Some (i, pw) ∨ pw_iv pw ∉ pendingIntervals (d_state d))) →
  (∀ j pw l, ph = Written j pw l → payload_bytes st' pw = l) →
  PoolInv (set_disks s (<[i := mkDisk st' (devicePath d)]> (disks s))) (<[k := set_phase o ph]> ops).
Proof.
  intros HP Hk Hd Hnd Heff Hc Hp Ho Hn Hw.
  apply (PoolInv_step s ops k o (set_phase o ph) i d st' ∅); try done.
  - by rewrite (left_id_L ∅ (∪)).
  - intros f. rewrite lookup_empty. by intros [].
Qed.

(** The disk and the reservation of an operation that holds one. *)
Lemma holding s ops k o i pw :
  PoolInv s ops → ops !! k = Some o → op_holds o = Some (i, pw) →
  ∃ d, disks s !! i = Some d ∧ Inv (d_state d) ∧ prepared (d_state d) pw ∧ pw_fid pw = op_fid o.
Proof.
  intros HP Hk Hh. destruct (pi_holds _ _ HP _ _ _ _ Hk Hh) as (Hf & d & Hd & Hp).
  exists d. split_and!; try done. by eapply pi_disks.
Qed.

(** A reservation kept, and one given up, in the form [PoolInv_step] asks. *)
Lemma pending_kept i pw (l : list interval) (h h' : option (nat * PreparedWrite)) iv :
  h = Some (i, pw) → h' = Some (i, pw) → pw_iv pw ∈ l →
  iv ∈ l ↔ (iv ∈ l ∧ ∀ pw0, h = Some (i, pw0) → pw_iv pw0 ≠ iv) ∨ ∃ pw0, h' = Some (i, pw0) ∧ pw_iv pw0 = iv.
Proof.
  intros -> -> HP. split.
  - intros Hiv. destruct (decide (pw_iv pw = iv)); [right; eauto|left].
    split; [done|]. by intros pw0 [= <-].
  - intros [[? _]|(pw0 & [= <-] & <-)]; done.
Qed.

Lemma pending_dropped i pw l (h h' : option (nat * PreparedWrite)) iv :
  h = Some (i, pw) → h' = None →
  iv ∈ removeInterval l (pw_iv pw) ↔
  (iv ∈ l ∧ ∀ pw0, h = Some (i, pw0) → pw_iv pw0 ≠ iv) ∨ ∃ pw0, h' = Some (i, pw0) ∧ pw_iv pw0 = iv.
Proof.
  intros -> ->. rewrite removeInterval_elem. split.
  - intros [? Hne]. left. split; [done|]. intros pw0 [= <-]. congruence.
  - intros [[Hin Hne]|(? & ? & _)]; [|done]. split; [done|]. intros E. by apply (Hne pw).
Qed.

(** A step that keeps the reservation the operation holds. *)
Lemma PoolInv_keep s ops k o ph i pw d st' :
  PoolInv s ops → ops !! k = Some o → op_holds o = Some (i, pw) → disks s !! i = Some d →
  op_holds (set_phase o ph) = Some (i, pw) → op_done o = false →
  disk_effect (Some (pw_iv pw)) (d_state d) st' → confirmed st' = confirmed (d_state d) →
  pendingIntervals st' = pendingIntervals (d_state d) →
  (∀ j pw l, ph = Written j pw l → payload_bytes st' pw = l) →
  PoolInv (set_disks s (<[i := mkDisk st' (devicePath d)]> (disks s))) (<[k := set_phase o ph]> ops).
Proof.
  intros HP Hk Hh Hd Hh' Hnd Heff Hc Hp Hw.
  destruct (holding s ops k o i pw HP Hk Hh) as (d0 & Hd0 & Hi & Hpw & Hpf).
  rewrite Hd in Hd0. injection Hd0 as <-.
  apply PoolInv_quiet; try done.
  - by rewrite Hh.
  - intros iv. rewrite Hp. apply (pending_kept i pw); [done|done|]. apply Hpw.
  - intros j pw0. rewrite Hh. by intros [= <- _].
  - intros j pw0. rewrite Hh'. intros [= <- <-]. split_and!; try done; [|by left].
    apply (prepared_transfer (d_state d)); [apply Heff| |done]. rewrite Hp. apply Hpw.
Qed.

(** A step that gives it up. *)
Lemma PoolInv_drop s ops k o i pw d st' add :
  PoolInv s ops → ops !! k = Some o → op_holds o = Some (i, pw) → disks s !! i = Some d →
  op_done o = false → disk_effect (Some (pw_iv pw)) (d_state d) st' →
  confirmed st' = add ∪ confirmed (d_state d) → (∀ f, is_Some (add !! f) → f ∈ op_fids o) →
  pendingIntervals st' = removeInterval (pendingIntervals (d_state d)) (pw_iv pw) →
  PoolInv (set_disks s (<[i := mkDisk st' (devicePath d)]> (disks s)))
    (<[k := set_phase o Finished]> ops).
Proof.
  intros HP Hk Hh Hd Hnd Heff Hc Ha Hp.
  apply (PoolInv_step s ops k o (set_phase o Finished) i d st' add); try done.
  - by rewrite Hh.
  - intros f Hs. split; [by apply Ha|done].
  - intros iv. rewrite Hp. by apply (pending_dropped i pw).
  - intros j pw0. rewrite Hh. by intros [= <- _].
Qed.

Lemma step_PoolInv p lbl p' : PoolInv p.1 p.2 → step p lbl p' → PoolInv p'.1 p'.2.
Proof.
  intros HP Hstep. destruct Hstep as
    [fo k fid size al s ops g|k o s ops Hk Hph|k o i pw s s' ops Hk Hph E|k o i pw d f s ops Hk Hph Hd Hf
    |k o i pw acq r s s' ops Hk Hph Hr E|k o i pw acq r e s s' ops Hk Hph Hr E|k o i pw l s ops Hk Hph
    |k o i pw l s s' ops Hk Hph E|k o i pw l e s s' ops Hk Hph E|k o i pw res s s' ops Hk Hph E
    |k o s ops Hk Hph]; cbn [fst snd] in *;
    try (assert (Hh : op_holds o = Some (i, pw)) by (unfold op_holds; by rewrite Hph);
         destruct (holding s ops k o i pw HP Hk Hh) as (d0 & Hd0 & Hi & Hpw & Hpf));
    try (assert (Hnd : op_done o = false) by (unfold op_done; by rewrite Hph));
    try (apply on_disk_inv in E as (d & st & Hd & E & ->); [|by (left + (right; eauto))]);
    try (rewrite Hd in Hd0; injection Hd0 as <-).
  - by apply (PoolInv_reserve fo).
  - apply PoolInv_phase; try done. unfold op_holds. by rewrite Hph.
  - destruct (pi_args _ _ HP _ _ Hk) as (Hu1 & Hu2 & _).
    apply prepare_effect in E as (Heff & Hc & Hpr & Hf & Hni & Hp); try done; [|by eapply pi_disks].
    assert (Hh : op_holds o = None) by (unfold op_holds; by rewrite Hph).
    apply PoolInv_quiet; try done.
    + by rewrite Hh.
    + intros iv. rewrite Hp, Hh. cbn. split.
      * intros [?|<-]; [by left|right; eauto].
      * intros [[? _]|(? & [= <-] & <-)]; auto.
    + by rewrite Hh.
    + intros j pw0 [= <- <-]. split_and!; try done. by right.
  - unfold disk_file. rewrite (on_disk_Some _ _ _ d) by done. cbn.
    replace ops with (<[k := set_phase o (Prepared i pw)]> ops)
      by (apply insert_id; rewrite Hk; destruct o; cbn in *; by subst).
    apply (PoolInv_keep s ops k o (Prepared i pw) i pw d); try done.
    apply effect_same; try done.
    + apply Inv_file_frame; [done|]. by apply (only_extent_agrees _ (pw_iv pw)); [done|apply Hpw|done].
    + intros a _ Ha. cbn. apply Hf. by apply Ha.
  - apply write_effect in E as (Heff & Hc & Hp & Hpr & Hl); try done.
    apply (PoolInv_keep s ops k o _ i pw d); try done. intros j pw0 l [= <- <- <-]. by apply Hl.
  - apply write_effect in E as (Heff & Hc & Hp & Hpr & Hl); try done.
    by apply (PoolInv_keep s ops k o _ i pw d).
  - apply PoolInv_phase; try done.
  - destruct (pi_args _ _ HP _ _ Hk) as (_ & _ & Hu3).
    apply commit_effect in E as (Heff & Hc & Hp); try done.
    apply (PoolInv_drop s ops k o i pw d st (new_refs (pw_fid pw) (pw_size pw) (op_alias o))); try done.
    intros f Hs. apply new_refs_fids in Hs. unfold op_fids. by rewrite <- Hpf.
  - destruct (pi_args _ _ HP _ _ Hk) as (_ & _ & Hu3).
    apply commit_effect in E as (Heff & Hc & Hp & _); try done.
    by apply (PoolInv_keep s ops k o _ i pw d).
  - apply abort_effect in E as (Heff & Hc & Hp); [|done].
    apply (PoolInv_drop s ops k o i pw d st ∅); try done.
    + by rewrite (left_id_L ∅ (∪)).
    + intros f. rewrite lookup_empty. by intros [].
  - by apply PoolInv_release.
Qed.

(** ** What the pool contains *)
Definition pool_contents (s : Server) : store := λ k,
  head (omap (λ d, contents (d_state d) k) (disks s)).

(** A label is applied to the abstract store as a put. *)
Definition apply_label (m : store) (x : Z * list byte * Z) : store :=
  store_put x.1.1 x.1.2 x.2 m.

Lemma contents_confirmed s k : is_Some (contents s k) ↔ is_Some (confirmed s !! k).
Proof. unfold contents. by rewrite fmap_is_Some. Qed.

Lemma head_omap_None {A B} (f : A → option B) l : head (omap f l) = None ↔ ∀ a, a ∈ l → f a = None.
Proof.
  induction l as [|a l IH]; cbn; [split; [intros _ a Ha; by apply not_elem_of_nil in Ha|done]|].
  setoid_rewrite elem_of_cons. destruct (f a) eqn:E; cbn; [split; [done|]|].
  - intros H. rewrite (H a) in E; [done|by left].
  - rewrite IH. naive_solver.
Qed.

Lemma pool_contents_None s k :
  pool_contents s k = None ↔ ∀ i d, disks s !! i = Some d → contents (d_state d) k = None.
Proof.
  unfold pool_contents. rewrite head_omap_None. setoid_rewrite list_elem_of_lookup. naive_solver.
Qed.

(** At most one disk has a fid, so the order of the disks does not matter. *)
Lemma pool_contents_at s ops i d k l :
  PoolInv s ops → disks s !! i = Some d → contents (d_state d) k = Some l → pool_contents s k = Some l.
Proof.
  intros HP Hd Hc. assert (Hu : ∀ j x l', disks s !! j = Some x → contents (d_state x) k = Some l' → j = i).
  { intros j x l' Hx Hx'. apply (pi_unique _ _ HP j i x d k); try done; apply contents_confirmed; eauto. }
  unfold pool_contents. clear HP. revert i Hd Hu. induction (disks s) as [|x ds IH]; intros i Hd Hu; [done|].
  cbn. destruct (contents (d_state x) k) as [l'|] eqn:E.
  - assert (0%nat = i) as <- by (by apply (Hu 0%nat x l')). cbn in Hd. injection Hd as ->. cbn. congruence.
  - destruct i as [|i]; [cbn in Hd; congruence|]. apply (IH i); [done|].
    intros j y l' Hy Hy'. specialize (Hu (S j) y l' Hy Hy'). lia.
Qed.

Lemma pool_contents_ext s s' k :
  (λ d, contents (d_state d) k) <$> disks s' = (λ d, contents (d_state d) k) <$> disks s →
  pool_contents s' k = pool_contents s k.
Proof.
  unfold pool_contents.
  assert (E : ∀ l : list Disk, omap (λ d, contents (d_state d) k) l =
    omap id ((λ d, contents (d_state d) k) <$> l)) by (intros l; induction l as [|a l IH]; [done|]; cbn in *; by rewrite IH).
  rewrite !E. by intros ->.
Qed.

Lemma pool_contents_insert s s' i d d' k :
  disks s !! i = Some d → disks s' = <[i := d']> (disks s) →
  contents (d_state d') k = contents (d_state d) k → pool_contents s' k = pool_contents s k.
Proof.
  intros Hd Eq E. apply pool_contents_ext. rewrite Eq, list_fmap_insert, E.
  apply list_insert_id. by rewrite list_lookup_fmap, Hd.
Qed.

(** What a step shows: nothing, or one disk on which at most its own object appears. *)
Lemma step_view p lbl p' :
  PoolInv p.1 p.2 → step p lbl p' →
  (lbl = None ∧ disks p'.1 = disks p.1) ∨
  ∃ i d st, disks p.1 !! i = Some d ∧ disks p'.1 = <[i := mkDisk st (devicePath d)]> (disks p.1) ∧
    (indexErr st = None → indexErr (d_state d) = None) ∧
    match lbl with
    | None => indexErr st = None → ∀ k, contents st k = contents (d_state d) k
    | Some (fid, l, aliasFor) => ∃ k o pw, p.2 !! k = Some o ∧ op_done o = false ∧
        fid = op_fid o ∧ aliasFor = op_alias o ∧ fid = pw_fid pw ∧
        l = payload_bytes (d_state d) pw ∧ prepared (d_state d) pw ∧
        committed (d_state d) pw aliasFor st
    end.
Proof.
  intros HP Hstep. destruct Hstep as
    [fo k fid size al s ops g|k o s ops Hk Hph|k o i pw s s' ops Hk Hph E|k o i pw d f s ops Hk Hph Hd Hf
    |k o i pw acq r s s' ops Hk Hph Hr E|k o i pw acq r e s s' ops Hk Hph Hr E|k o i pw l s ops Hk Hph
    |k o i pw l s s' ops Hk Hph E|k o i pw l e s s' ops Hk Hph E|k o i pw res s s' ops Hk Hph E
    |k o s ops Hk Hph]; cbn [fst snd] in *;
    try (by left); right;
    try (assert (Hh : op_holds o = Some (i, pw)) by (unfold op_holds; by rewrite Hph);
         destruct (holding s ops k o i pw HP Hk Hh) as (d0 & Hd0 & Hi & Hpw & Hpf));
    try (apply on_disk_inv in E as (d & st & Hd & E & ->); [|by (left + (right; eauto))]);
    try (rewrite Hd in Hd0; injection Hd0 as <-); destruct (pi_args _ _ HP _ _ Hk) as (Hu1 & Hu2 & Hu3).
  - exists i, d, st. split_and!; try done;
      apply prepare_effect in E as (Heff & Hc & _); try done; try (by eapply pi_disks); [apply Heff|].
    intros He. apply (effect_contents None); try done; [by eapply pi_disks|by apply Heff].
  - unfold disk_file. rewrite (on_disk_Some _ _ _ d) by done.
    exists i, d, (set_file (d_state d) f). split_and!; try done. intros He.
    by apply (contents_extent_frame _ (pw_iv pw)); [| |apply Hpw|].
  - exists i, d, st. split_and!; try done;
      apply write_effect in E as (Heff & Hc & _); try done; [apply Heff|].
    intros He. apply (effect_contents (Some (pw_iv pw))); try done; [by apply Heff|].
    intros iv [= <-]. apply Hpw.
  - exists i, d, st. split_and!; try done;
      apply write_effect in E as (Heff & Hc & _); try done; [apply Heff|].
    intros He. apply (effect_contents (Some (pw_iv pw))); try done; [by apply Heff|].
    intros iv [= <-]. apply Hpw.
  - exists i, d, st. pose proof (commit_effect _ _ _ _ _ Hi Hpw Hu3 E) as [Heff _].
    split_and!; try done; [apply Heff|]. exists k, o, pw.
    pose proof (Commit_outcome _ pw (op_alias o) Hi Hpw Hu3) as H. rewrite E in H.
    split_and!; try done; [unfold op_done; by rewrite Hph|].
    symmetry. by apply (pi_written _ _ HP k o i).
  - exists i, d, st. apply commit_effect in E as (Heff & _ & _ & _ & Hc); try done.
    split_and!; try done. apply Heff.
  - exists i, d, st. apply abort_effect in E as (Heff & Hc & _); [|done]. split_and!; try done; [apply Heff|].
    intros He. apply (effect_contents (Some (pw_iv pw))); try done; [by apply Heff|].
    intros iv [= <-]. apply Hpw.
Qed.

Lemma step_healthy p lbl p' : PoolInv p.1 p.2 → step p lbl p' → healthy p'.1 → healthy p.1.
Proof.
  intros HP Hs Hh i d Hd. destruct (step_view p lbl p' HP Hs) as [[_ E]|(j & x & st & Hx & E & Herr & _)].
  - apply (Hh i). by rewrite E.
  - destruct (decide (i = j)) as [->|Hne].
    + rewrite Hx in Hd. injection Hd as <-. apply Herr. apply (Hh j (mkDisk st (devicePath x))).
      rewrite E. apply list_lookup_insert_eq. by eapply lookup_lt_Some.
    + apply (Hh i). by rewrite E, list_lookup_insert_ne.
Qed.

Lemma step_contents p lbl p' :
  PoolInv p.1 p.2 → step p lbl p' → healthy p'.1 →
  match lbl with
  | None => ∀ k, pool_contents p'.1 k = pool_contents p.1 k
  | Some (fid, l, aliasFor) =>
      pool_contents p.1 fid = None ∧ l ≠ [] ∧
      (aliasFor ≠ 0 → aliasFor ≠ fid ∧ pool_contents p.1 aliasFor = None ∧ (2 ≤ length l)%nat) ∧
      ∀ k, pool_contents p'.1 k = store_put fid l aliasFor (pool_contents p.1) k
  end.
Proof.
  intros HP Hs Hh. pose proof (step_PoolInv _ _ _ HP Hs) as HP'.
  destruct (step_view p lbl p' HP Hs) as [[-> E]|(i & d & st & Hd & E & _ & Hview)].
  { intros k. apply pool_contents_ext. by rewrite E. }
  assert (Hst : disks p'.1 !! i = Some (mkDisk st (devicePath d)))
    by (rewrite E; apply list_lookup_insert_eq; by eapply lookup_lt_Some).
  destruct lbl as [[[fid l] al]|].
  2: { intros k. eapply pool_contents_insert; [exact Hd|exact E|]. cbn. apply Hview.
       by apply (Hh i _ Hst). }
  destruct Hview as (k & o & pw & Hk & Hnd & -> & -> & Epf & -> & Hpw & Hcm). rewrite Epf.
  assert (Hnone : ∀ f, f ∈ op_fids o → pool_contents p.1 f = None).
  { intros f Hf. apply pool_contents_None. intros j x Hx. unfold contents.
    by rewrite (pi_free _ _ HP k o j x f). }
  pose proof (committed_contents _ _ _ _ (pi_disks _ _ HP i d Hd) Hpw Hcm) as Hc.
  pose proof (cm_new _ _ _ _ Hcm) as [_ Hal]. rewrite <- Epf in *.
  assert (Hlen : length (payload_bytes (d_state d) pw) = Z.to_nat (pw_size pw))
    by apply length_bytes_at.
  pose proof (pp_size _ _ Hpw) as Hsz. split_and!.
  - apply Hnone, elem_of_gate_set. by left.
  - intros Enil. rewrite Enil in Hlen. cbn in Hlen. lia.
  - intros Hne. destruct (Hal Hne) as (? & ? & _). split; [done|]. split; [|lia].
    apply Hnone, elem_of_gate_set. by right.
  - intros f. destruct (decide (f ∈ op_fids o)) as [Hin|Hout].
    + assert (is_Some (store_put (op_fid o) (payload_bytes (d_state d) pw) (op_alias o)
        (contents (d_state d)) f)) as [l Hl].
      { apply elem_of_gate_set in Hin. unfold store_put. repeat case_decide; eauto. naive_solver. }
      rewrite (pool_contents_at _ _ i _ f l HP' Hst) by (cbn; by rewrite Hc).
      rewrite <- Hl. apply elem_of_gate_set in Hin. unfold store_put.
      repeat case_decide; try done. naive_solver.
    + assert (Hput : ∀ m, store_put (op_fid o) (payload_bytes (d_state d) pw) (op_alias o) m f = m f).
      { intros m. unfold op_fids in Hout. rewrite elem_of_gate_set in Hout. unfold store_put.
        repeat case_decide; try done; naive_solver. }
      rewrite Hput. eapply pool_contents_insert; [exact Hd|exact E|]. cbn. by rewrite Hc, Hput.
Qed.

Lemma run_PoolInv p tr p' : PoolInv p.1 p.2 → run p tr p' → PoolInv p'.1 p'.2.
Proof. intros HP. induction 1; eauto using step_PoolInv. Qed.

Lemma run_trans p tr1 p1 tr2 p2 : run p tr1 p1 → run p1 tr2 p2 → run p (tr1 ++ tr2) p2.
Proof.
  intros H1. induction 1 as [|p1 p2 p3 tr2 H2 IH Hs|p1 p2 p3 tr2 x H2 IH Hs].
  - by rewrite app_nil_r.
  - eapply run_silent; eauto.
  - rewrite app_assoc. eapply run_visible; eauto.
Qed.

Lemma run_step p p1 lbl : step p lbl p1 → run p (option_list lbl) p1.
Proof.
  intros Hs. destruct lbl as [x|]; cbn; [apply (run_visible p p p1 [] x)|apply (run_silent p p p1)];
    try done; constructor.
Qed.

(** A pool between calls. *)
Lemma PoolInv_initial s :
  (∀ i d, disks s !! i = Some d → Inv (d_state d) ∧ indexErr (d_state d) = None ∧
    pendingIntervals (d_state d) = []) →
  (∀ i j di dj fid, disks s !! i = Some di → disks s !! j = Some dj →
    is_Some (confirmed (d_state di) !! fid) → is_Some (confirmed (d_state dj) !! fid) → i = j) →
  pending (gate s) = ∅ → PoolInv s ∅.
Proof.
  intros Hd Hu Hg. constructor; try done.
  - intros i d H. by apply (Hd i).
  - intros f. rewrite Hg. split; [set_solver|]. by intros (k & o & H & _).
  - intros i d iv H Hin. destruct (Hd i d H) as (_ & _ & E). rewrite E in Hin.
    by apply not_elem_of_nil in Hin.
  - intros i d e H He. destruct (Hd i d H) as (_ & E & _). congruence.
Qed.

(** C3: any interleaving of any number of Puts keeps the pool consistent: every disk satisfies its
    invariant; a fid is registered on at most one disk; no two calls in flight claim the same fid,
    be it as fid or as alias, and none claims a registered one before it commits; every extent
    reserved on a disk is that of exactly one call; and when no call is in flight nothing stays
    reserved, neither in the gate nor on a disk. *)
Theorem pool_reachable p tr p' :
  PoolInv p.1 p.2 → run p tr p' →
  PoolInv p'.1 p'.2 ∧
  (∀ i j di dj fid, disks p'.1 !! i = Some di → disks p'.1 !! j = Some dj →
    is_Some (confirmed (d_state di) !! fid) → is_Some (confirmed (d_state dj) !! fid) → i = j) ∧
  (∀ k k' o o' f, p'.2 !! k = Some o → p'.2 !! k' = Some o' → f ∈ op_fids o → f ∈ op_fids o' →
    k = k') ∧
  (p'.2 = ∅ → pending (gate p'.1) = ∅ ∧
    ∀ i d, disks p'.1 !! i = Some d → pendingIntervals (d_state d) = []).
Proof.
  intros HP Hr. pose proof (run_PoolInv _ _ _ HP Hr) as H. split_and!; [done|apply H|apply H|].
  intros E. rewrite E in H. split.
  - apply set_eq. intros f. rewrite (pi_gate _ _ H). split; [|set_solver].
    by intros (k & o & Hk & _).
  - intros i d Hd. destruct (pendingIntervals (d_state d)) as [|iv l] eqn:Ep; [done|].
    destruct (pi_leak _ _ H i d iv Hd) as (k & o & pw & Hk & _); [rewrite Ep; by left|done].
Qed.

(** Putting into equal stores. *)
Lemma apply_label_ext m m' x : (∀ k, m k = m' k) → ∀ k, apply_label m x k = apply_label m' x k.
Proof. intros H k. unfold apply_label, store_put. by repeat case_decide. Qed.

Lemma run_contents p tr p' :
  PoolInv p.1 p.2 → run p tr p' → healthy p'.1 →
  ∀ k, pool_contents p'.1 k = foldl apply_label (pool_contents p.1) tr k.
Proof.
  intros HP Hr. induction Hr as [p|p p1 p2 tr Hr IH Hs|p p1 p2 tr x Hr IH Hs]; intros Hh k; [done| |].
  - pose proof (run_PoolInv _ _ _ HP Hr) as HP1.
    pose proof (step_contents _ _ _ HP1 Hs Hh) as Hc. cbn in Hc. rewrite Hc.
    apply IH; [done|]. by eapply step_healthy.
  - pose proof (run_PoolInv _ _ _ HP Hr) as HP1.
    pose proof (step_contents _ _ _ HP1 Hs Hh) as Hc. destruct x as [[fid l] al].
    destruct Hc as (_ & _ & _ & Hc). rewrite foldl_snoc, Hc.
    apply (apply_label_ext _ _ (fid, l, al)). apply IH; [done|]. by eapply step_healthy.
Qed.

(** The only object of a run was not there before. *)
(** A put of [l] under [fid] and its alias is legal. *)
Definition fresh_put (fid : Z) (l : list byte) (aliasFor : Z) (m : store) : Prop :=
  m fid = None ∧ l ≠ [] ∧ (aliasFor ≠ 0 → aliasFor ≠ fid ∧ m aliasFor = None ∧ (2 ≤ length l)%nat).

Lemma run_single p tr p' :
  PoolInv p.1 p.2 → run p tr p' → healthy p'.1 →
  ∀ x, tr = [x] → fresh_put x.1.1 x.1.2 x.2 (pool_contents p.1).
Proof.
  intros HP Hr. induction Hr as [p|p p1 p2 tr Hr IH Hs|p p1 p2 tr y Hr IH Hs]; intros Hh x E; [done| |];
    pose proof (run_PoolInv _ _ _ HP Hr) as HP1; pose proof (step_healthy _ _ _ HP1 Hs Hh) as Hh1.
  - by apply IH.
  - apply (app_singleton tr [y] x) in E as [[-> E]|[-> E]]; [|done]. injection E as ->.
    pose proof (run_contents _ _ _ HP Hr Hh1) as Hc. cbn in Hc.
    pose proof (step_contents _ _ _ HP1 Hs Hh) as H. destruct x as [[fid l] al].
    unfold fresh_put. cbn [fst snd]. rewrite <- !Hc. destruct H as (? & ? & ? & _). done.
Qed.

(** C4: concurrent Puts are linearizable, and a Put takes effect when its index entry is committed:
    what the pool contains after any interleaving is what it contained before with the committed
    objects put one after the other, each with the bytes of its own stream, however the streams
    were interleaved. *)
Theorem pool_linearizable p tr p' :
  PoolInv p.1 p.2 → run p tr p' → healthy p'.1 →
  ∀ k, pool_contents p'.1 k = foldl apply_label (pool_contents p.1) tr k.
Proof. apply run_contents. Qed.

(** Each commit is a legal put: at the moment an object becomes visible neither its fid nor its
    alias was in the pool, its alias is another fid and it has at least two bytes if it has one; no
    other step changes what the pool contains. *)
Theorem pool_step_refines p lbl p' :
  PoolInv p.1 p.2 → step p lbl p' → healthy p'.1 →
  store_step (pool_contents p.1) (pool_contents p'.1) ∧
  (lbl = None → ∀ k, pool_contents p'.1 k = pool_contents p.1 k).
Proof.
  intros HP Hs Hh. pose proof (step_contents p lbl p' HP Hs Hh) as H.
  destruct lbl as [[[fid l] al]|].
  - destruct H as (H1 & H2 & H3 & H4). split; [|done]. by eapply store_add.
  - split; [by apply store_stutter|done].
Qed.

(** ** The handler is a run of one operation *)
Definition put_trace (o : op) (pw : PreparedWrite) (r : stream) : list (Z * list byte * Z) :=
  [(op_fid o, payload_list r (pw_size pw), op_alias o)].

(** An operation that aborts. *)
Lemma abort_runs i pw s ops k o :
  ops !! k = Some o → op_phase o = Aborting i pw →
  run (s, ops) [] ((on_disk i (Abort pw) s).2, <[k := set_phase o Finished]> ops).
Proof.
  intros Hk Hph. destruct (on_disk i (Abort pw) s) as [res s'] eqn:E.
  apply (run_step _ _ None). by eapply step_abort.
Qed.

Lemma put_prepared_runs env i pw r s ops k o rep s' :
  0 ≤ st_remaining r → ops !! k = Some o → op_phase o = Prepared i pw →
  put_prepared env i pw (op_alias o) r s = (rep, s') →
  ∃ tr, run (s, ops) tr (s', <[k := set_phase o Finished]> ops) ∧
    (tr = [] ∧ ok_reply rep = false ∨
     tr = put_trace o pw r ∧ (ok_reply rep = true ↔ pe_send env = None) ∧
       (PoolInv s ops → exactly r (pw_size pw))).
Proof.
  intros Hr Hk Hph. unfold put_prepared.
  set (oa := set_phase o (Aborting i pw)). set (ow := set_phase o (Written i pw (payload_list r (pw_size pw)))).
  assert (Habort : ∀ s1, run (s1, <[k := oa]> ops) []
    ((on_disk i (Abort pw) s1).2, <[k := set_phase o Finished]> ops)).
  { intros s1. pose proof (abort_runs i pw s1 (<[k := oa]> ops) k oa) as H.
    rewrite insert_insert_eq in H. apply H; [apply lookup_insert_eq|done]. }
  destruct (on_disk i (WriteFrom pw (pe_acquire env) r) s) as [[[]|e] s1] eqn:Ew.
  2: { intros [= <- <-]. exists []. split; [|by left].
       apply (run_trans _ [] (s1, <[k := oa]> ops) []); [|apply Habort].
       apply (run_step _ _ None). by eapply step_write_fail. }
  assert (Hw : run (s, ops) [] (s1, <[k := ow]> ops))
    by (apply (run_step _ _ None); by eapply step_write).
  assert (Hkw : <[k := ow]> ops !! k = Some ow) by apply lookup_insert_eq.
  destruct (pe_context env) as [e|].
  { intros [= <- <-]. exists []. split; [|by left].
    apply (run_trans _ [] _ [] _ Hw), (run_trans _ [] (s1, <[k := oa]> ops) []); [|apply Habort].
    rewrite <- (insert_insert_eq ops k oa ow). apply (run_step _ _ None). by eapply (step_cancel k ow). }
  destruct (on_disk i (Commit pw (op_alias o)) s1) as [[[]|e] s2] eqn:Ec.
  - intros H. exists (put_trace o pw r). split.
    + apply (run_trans _ [] _ _ _ Hw). rewrite <- (insert_insert_eq ops k (set_phase o Finished) ow).
      replace s' with s2 by (by destruct (pe_send env); injection H).
      apply (run_step _ _ (Some _)). by eapply (step_commit k ow).
    + right. split_and!; [done|by destruct (pe_send env); injection H as <- _|]. intros HP.
      assert (Hh : op_holds o = Some (i, pw)) by (unfold op_holds; by rewrite Hph).
      destruct (holding s ops k o i pw HP Hk Hh) as (d & Hd & Hi & Hpw & _).
      rewrite (on_disk_Some i _ s d Hd) in Ew.
      pose proof (WriteFrom_outcome _ pw (pe_acquire env) r Hi Hpw Hr) as Ho.
      destruct (WriteFrom pw (pe_acquire env) r (d_state d)) as [[u|e] st]; [|done].
      by destruct Ho as (_ & _ & _ & ? & _).
  - intros [= <- <-]. exists []. split; [|by left].
    apply (run_trans _ [] _ [] _ Hw), (run_trans _ [] (s2, <[k := oa]> ops) []); [|apply Habort].
    rewrite <- (insert_insert_eq ops k oa ow). apply (run_step _ _ None).
    by eapply (step_commit_fail k ow).
Qed.

Lemma st_remaining_reader r : 0 ≤ st_remaining (reader_stream r).
Proof. unfold st_remaining. cbn. lia. Qed.

Lemma PrepareWrite_Err fid size s e s' : PrepareWrite fid size s = (Err e, s') → s' = s.
Proof.
  unfold PrepareWrite, reserveExtent, mbind, M_bind. intros H.
  repeat case_match; simplify_eq; done.
Qed.

Lemma PrepareWrite_pw fid size s pw s' : PrepareWrite fid size s = (Ok pw, s') → pw_size pw = size.
Proof.
  unfold PrepareWrite, reserveExtent, mbind, M_bind, mret, M_ret. intros H.
  repeat case_match; simplify_eq; done.
Qed.

Lemma put_reserved_runs HashString env r s ops k o rep s' :
  0 ≤ st_remaining r → ops !! k = Some o → op_phase o = Reserved →
  put_reserved HashString env (op_fid o) (op_size o) (op_alias o) r s = (rep, s') →
  ∃ tr, run (s, ops) tr (s', <[k := set_phase o Finished]> ops) ∧
    (tr = [] ∧ ok_reply rep = false ∨
     tr = [(op_fid o, payload_list r (op_size o), op_alias o)] ∧
       (ok_reply rep = true ↔ pe_send env = None) ∧ (PoolInv s ops → exactly r (op_size o))).
Proof.
  intros Hr Hk Hph. unfold put_reserved.
  assert (Hrefuse : run (s, ops) [] (s, <[k := set_phase o Finished]> ops))
    by (apply (run_step _ _ None); by apply step_refuse).
  destruct (selectDiskForWrite HashString s (op_size o)) as [i|e].
  2: { intros [= <- <-]. exists []. by split; [|left]. }
  destruct (on_disk i (PrepareWrite (op_fid o) (op_size o)) s) as [[pw|e] s1] eqn:Ep.
  - set (op1 := set_phase o (Prepared i pw)). intros H.
    apply (put_prepared_runs env i pw r s1 (<[k := op1]> ops) k op1) in H as (tr & Hrun & Htr);
      [|done|apply lookup_insert_eq|done].
    rewrite insert_insert_eq in Hrun.
    assert (Hsz : pw_size pw = op_size o).
    { apply on_disk_inv in Ep as (d & st & _ & Ep & _); [|by left]. by apply PrepareWrite_pw in Ep. }
    assert (Hstep : step (s, ops) None (s1, <[k := op1]> ops)) by (by eapply step_prepare).
    exists tr. split.
    + apply (run_trans _ [] (s1, <[k := op1]> ops) tr); [|exact Hrun]. by apply (run_step _ _ None).
    + destruct Htr as [?|(-> & ? & Hex)]; [by left|right]. unfold put_trace. rewrite Hsz in *.
      split_and!; try done. intros HP. apply Hex.
      exact (step_PoolInv (_, _) None (_, _) HP Hstep).
  - intros H. exists []. split; [|left; split; [done|]].
    + replace s' with s; [done|]. assert (s1 = s' ) as <- by (by destruct (errors_Is e EConflict); injection H).
      unfold on_disk in Ep. destruct (disks s !! i) as [d|] eqn:Hd; [|by injection Ep].
      destruct (PrepareWrite _ _ _) as [r0 st] eqn:E. injection Ep as -> <-.
      apply PrepareWrite_Err in E as ->. rewrite list_insert_id by (rewrite Hd; by destruct d).
      by destruct s.
    + by destruct (errors_Is e EConflict); injection H as <- _.
Qed.

(** The handler, from the pool as it finds it to the pool as it leaves it, is a run of one
    operation. *)
Lemma Put_run HashString env first r s ops k rep s' :
  fair (pe_fanout env) (length (disks s)) → ops !! k = None →
  (∀ fid size aliasFor, first = Ok (PutHeader fid size aliasFor) →
    is_u64 fid ∧ is_u64 size ∧ is_u64 aliasFor) →
  Put HashString env first r s = (rep, s') →
  ∃ tr, run (s, ops) tr (s', ops) ∧
    (tr = [] ∧ ok_reply rep = false ∨
     ∃ fid size aliasFor, first = Ok (PutHeader fid size aliasFor) ∧
       tr = [(fid, payload_list (reader_stream r) size, aliasFor)] ∧
       (ok_reply rep = true ↔ pe_send env = None) ∧
       (PoolInv s ops → exactly (reader_stream r) size)).
Proof.
  intros Hfo Hk Hu. unfold Put.
  assert (Hsame : ∀ rp, ok_reply rp = false → (rp, s) = (rep, s') → ∃ tr, run (s, ops) tr (s', ops) ∧
    (tr = [] ∧ ok_reply rep = false ∨
     ∃ fid size aliasFor, first = Ok (PutHeader fid size aliasFor) ∧
       tr = [(fid, payload_list (reader_stream r) size, aliasFor)] ∧
       (ok_reply rep = true ↔ pe_send env = None) ∧
       (PoolInv s ops → exactly (reader_stream r) size)))
    by (intros rp Hrp [= <- <-]; exists []; split; [constructor|by left]).
  destruct first as [[fid size al|c|]|e]; try by apply Hsame.
  destruct (put_rejects s fid size al) as [msg|] eqn:Erej; [by apply Hsame|].
  destruct (reserve fid al (pool_confirmed (pe_fanout env) s) (gate s)) as [[[]|e] g] eqn:Er.
  2: { apply reserve_Err in Er as ->. replace (set_gate s (gate s)) with s by (by destruct s).
       apply Hsame. by destruct (errors_Is e EConflict). }
  destruct (Hu fid size al eq_refl) as (Hu1 & Hu2 & Hu3).
  set (o := mkOp fid size al Reserved).
  destruct (put_reserved _ _ _ _ _ _ _) as [rp s1] eqn:Ep. intros [= <- <-].
  apply (put_reserved_runs HashString env (reader_stream r) (set_gate s g) (<[k := o]> ops) k o)
    in Ep as (tr & Hrun & Htr); [|apply st_remaining_reader|apply lookup_insert_eq|done].
  rewrite insert_insert_eq in Hrun. set (o1 := set_phase o Finished) in *.
  assert (Hstep : step (s, ops) None (set_gate s g, <[k := o]> ops)) by (by eapply step_reserve).
  exists tr. split.
  - apply (run_trans _ [] (set_gate s g, <[k := o]> ops) tr); [by apply (run_step _ _ None)|].
    rewrite <- (app_nil_r tr). eapply run_trans; [exact Hrun|].
    assert (Hdel : delete k (<[k := o1]> ops) = ops) by (by rewrite delete_insert_id).
    rewrite <- Hdel at 2. apply (run_step _ _ None).
    apply (step_release k o1); [apply lookup_insert_eq|done].
  - destruct Htr as [Htr|(-> & ? & Hex)]; [by left|right]. exists fid, size, al.
    split_and!; try done. intros HP. apply Hex.
      exact (step_PoolInv (_, _) None (_, _) HP Hstep).
Qed.

Lemma Put_cases HashString env fid size aliasFor r s ops k rep s' :
  PoolInv s ops → fair (pe_fanout env) (length (disks s)) → ops !! k = None →
  is_u64 fid → is_u64 size → is_u64 aliasFor →
  Put HashString env (Ok (PutHeader fid size aliasFor)) r s = (rep, s') →
  PoolInv s' ops ∧
  (healthy s' →
   ok_reply rep = false ∧ (∀ f, pool_contents s' f = pool_contents s f) ∨
   (ok_reply rep = true ↔ pe_send env = None) ∧
     Z.of_nat (length (drained r).1) = size ∧ (drained r).2 = EEOF ∧
     fresh_put fid (drained r).1 aliasFor (pool_contents s) ∧
     ∀ f, pool_contents s' f = store_put fid (drained r).1 aliasFor (pool_contents s) f).
Proof.
  intros HP Hfo Hk Hu1 Hu2 Hu3 E.
  destruct (Put_run HashString env (Ok (PutHeader fid size aliasFor)) r s ops k rep s' Hfo Hk ltac:(by intros ??? [= <- <- <-]) E)
    as (tr & Hrun & Htr).
  split; [exact (run_PoolInv (s, ops) tr (s', ops) HP Hrun)|]. intros Hh.
  pose proof (run_contents (s, ops) tr (s', ops) HP Hrun Hh) as Hc. cbn [fst] in Hc.
  destruct Htr as [[-> ->]|(? & ? & ? & [= <- <- <-] & -> & Hok & Hex)]; [by left|right].
  split; [exact Hok|]. destruct (Hex HP) as [Hrem Heof].
  unfold st_remaining in Hrem. cbn [reader_stream st_data st_pos blen buf_of] in Hrem.
  assert (Hl : payload_list (reader_stream r) size = (drained r).1).
  { unfold payload_list. replace (Z.to_nat size) with (length (drained r).1) by lia.
    apply bytes_at_buf_of. }
  rewrite Hl in *. split_and!; [lia|done| |exact Hc].
  exact (run_single (s, ops) _ (s', ops) HP Hrun Hh (fid, (drained r).1, aliasFor) eq_refl).
Qed.

Lemma Put_outcome HashString env fid size aliasFor r s ops k rep s' :
  PoolInv s ops → fair (pe_fanout env) (length (disks s)) → ops !! k = None →
  is_u64 fid → is_u64 size → is_u64 aliasFor →
  Put HashString env (Ok (PutHeader fid size aliasFor)) r s = (rep, s') →
  PoolInv s' ops ∧
  (healthy s' → pe_send env = None →
   if ok_reply rep then
     Z.of_nat (length (drained r).1) = size ∧ (drained r).2 = EEOF ∧
     fresh_put fid (drained r).1 aliasFor (pool_contents s) ∧
     ∀ f, pool_contents s' f = store_put fid (drained r).1 aliasFor (pool_contents s) f
   else ∀ f, pool_contents s' f = pool_contents s f).
Proof.
  intros HP Hfo Hk Hu1 Hu2 Hu3 E.
  destruct (Put_cases HashString env fid size aliasFor r s ops k rep s' HP Hfo Hk Hu1 Hu2 Hu3 E) as [HP' Hc].
  split; [done|]. intros Hh Hsend. destruct (Hc Hh) as [[-> Hs]|[Hok Hs]]; [done|].
  by rewrite (proj2 Hok Hsend).
Qed.

(** C2: the handler [Put], run among any other calls in flight, takes one operation through the
    steps above and leaves no trace of it in the gate.  When it answers success the payload arrived
    complete, neither fid nor alias was in the pool before, and the pool now maps the fid to exactly its bytes, and the alias, if one was given, to
    them without the last byte; when it answers an error, other than the failure to send the answer,
    the contents of the pool are what they were. *)
Theorem put_rpc HashString env fid size aliasFor r s ops k rep s' :
  PoolInv s ops → fair (pe_fanout env) (length (disks s)) → ops !! k = None →
  is_u64 fid → is_u64 size → is_u64 aliasFor →
  Put HashString env (Ok (PutHeader fid size aliasFor)) r s = (rep, s') →
  PoolInv s' ops ∧
  (healthy s' → pe_send env = None →
   if ok_reply rep then
     Z.of_nat (length (drained r).1) = size ∧ (drained r).2 = EEOF ∧
     fresh_put fid (drained r).1 aliasFor (pool_contents s) ∧
     ∀ f, pool_contents s' f = store_put fid (drained r).1 aliasFor (pool_contents s) f
   else ∀ f, pool_contents s' f = pool_contents s f).
Proof. apply Put_outcome. Qed.

(** ** A pool of one formatted disk *)
Definition demo_server : Server :=
  mkServer [mkDisk demo_state "/dev/sda"] newPoolGate 0 0 (F64 (1 # 5)) false.
Definition demo_env : put_env := mkPutEnv (mkFanout (λ _, [0%nat]) (λ _, false)) None None None.
Definition demo_reader : chunkReader :=
  mkReader [mkEvent 1 (Ok (PutChunk (replicate 4 x41))); mkEvent 2 (Ok (PutChunk (replicate 6 x42)));
            mkEvent 3 (Err EEOF)] 7 [] None 0.
Definition demo_call : reply unit * Server :=
  Put (λ _, 0) demo_env (Ok (PutHeader 5 10 6)) demo_reader demo_server.

Lemma demo_PoolInv : PoolInv demo_server ∅.
Proof.
  apply PoolInv_initial; [|intros i j di dj fid Hi Hj|done].
  - intros [|i] d [= <-]. split_and!; [apply demo_Inv|done|done].
  - destruct i, j; done.
Qed.

Lemma demo_fair : fair (pe_fanout demo_env) (length (disks demo_server)).
Proof. intros fid. reflexivity. Qed.

Lemma healthy_forallb s :
  forallb (λ d, bool_decide (indexErr (d_state d) = None)) (disks s) = true → healthy s.
Proof.
  intros H i d Hd. rewrite forallb_forall in H.
  apply (bool_decide_eq_true_1 (indexErr (d_state d) = None)).
  apply H. apply list_elem_of_In. by eapply list_elem_of_lookup_2.
Qed.

Lemma demo_outcome : ok_reply demo_call.1 = true ∧ healthy demo_call.2.
Proof. split; [reflexivity|]. apply healthy_forallb. reflexivity. Qed.

Lemma demo_run : ∃ tr, run (demo_server, ∅) tr (demo_call.2, ∅) ∧ tr ≠ [].
Proof.
  destruct (Put_run (λ _, 0) demo_env (Ok (PutHeader 5 10 6)) demo_reader demo_server ∅ 0%nat
    demo_call.1 demo_call.2 demo_fair (lookup_empty _)) as (tr & Hr & Htr).
  - intros ??? [= <- <- <-]. unfold is_u64. lia.
  - unfold demo_call. by destruct (Put _ _ _ _ _).
  - exists tr. split; [exact Hr|]. destruct Htr as [[_ E]|(? & ? & ? & _ & -> & _)]; [|done].
    by rewrite (proj1 demo_outcome) in E.
Qed.

Lemma pool_reachable_witness : PoolInv demo_call.2 ∅.
Proof.
  destruct demo_run as (tr & Hr & _).
  exact (proj1 (pool_reachable (demo_server, ∅) tr (demo_call.2, ∅) demo_PoolInv Hr)).
Defined.

Lemma pool_linearizable_witness :
  ∃ tr, tr ≠ [] ∧ ∀ k, pool_contents demo_call.2 k = foldl apply_label (pool_contents demo_server) tr k.
Proof.
  destruct demo_run as (tr & Hr & Hne). exists tr. split; [exact Hne|].
  exact (pool_linearizable (demo_server, ∅) tr (demo_call.2, ∅) demo_PoolInv Hr (proj2 demo_outcome)).
Defined.

Lemma demo_reserve_step :
  step (demo_server, ∅) None
    (set_gate demo_server (mkGate (gate_set 5 6 ∪ ∅)), <[0%nat := mkOp 5 10 6 Reserved]> ∅).
Proof.
  apply (step_reserve (pe_fanout demo_env)); try done. apply demo_fair.
Qed.

Lemma pool_step_refines_witness :
  pool_contents (set_gate demo_server (mkGate (gate_set 5 6 ∪ ∅))) 5 = pool_contents demo_server 5.
Proof.
  refine (proj2 (pool_step_refines (demo_server, ∅) None
    (set_gate demo_server (mkGate (gate_set 5 6 ∪ ∅)), <[0%nat := mkOp 5 10 6 Reserved]> ∅)
    demo_PoolInv demo_reserve_step _) eq_refl 5).
  apply healthy_forallb. reflexivity.
Defined.

Lemma put_rpc_witness :
  pool_contents demo_call.2 6 = Some (replicate 4 x41 ++ replicate 5 x42).
Proof.
  assert (E : Put (λ _, 0) demo_env (Ok (PutHeader 5 10 6)) demo_reader demo_server =
    (demo_call.1, demo_call.2)) by (unfold demo_call; by destruct (Put _ _ _ _ _)).
  destruct (put_rpc (λ _, 0) demo_env 5 10 6 demo_reader demo_server ∅ 0%nat demo_call.1 demo_call.2
    demo_PoolInv demo_fair (lookup_empty _) ltac:(unfold is_u64; lia) ltac:(unfold is_u64; lia)
    ltac:(unfold is_u64; lia) E) as [_ H].
  specialize (H (proj2 demo_outcome) eq_refl). rewrite (proj1 demo_outcome) in H.
  destruct H as (_ & _ & _ & H). rewrite H. reflexivity.
Defined.
