(* ===== verification/Serve.v ===== *)
(** * Reading over the pool

    What [GetRPC] and [HeadRPC] of Server.v answer, in terms of the contents of the pool of Pool.v:
    the messages of a Get are contiguous, none carries more than 1 MiB, and together they are the
    requested slice of the object. *)

From S2P Require Import Prelude Machine Loop Float Device Layout IndexScan PackedTable Interval.
From S2P Require Import Replay DirectIO DeviceState DeviceInv DeviceOps DiskStore Gate Chd Text.
From S2P Require Import Config MultiDisk Reader Server Pool.
From Stdlib Require Import Strings.Byte.

(** The messages cover [pos, end_), one after the other. *)
Fixpoint covers (out : list GetResponse) (pos end_ : Z) : Prop :=
  match out with
  | [] => pos = end_
  | m :: out => gr_start m = pos ∧ covers out (gr_end m) end_
  end.

(** A message of an object of [size] bytes. *)
Definition message_ok (size : Z) (m : GetResponse) : Prop :=
  gr_size m = size ∧ 0 ≤ gr_start m ≤ gr_end m ∧ gr_end m ≤ size ∧
  Z.of_nat (length (gr_data m)) = gr_end m - gr_start m ∧ Z.of_nat (length (gr_data m)) ≤ messageBytes.

(** The data of all messages. *)
Definition received (out : list GetResponse) : list byte := concat (gr_data <$> out).

Definition slice (l : list byte) (a b : Z) : list byte := take (Z.to_nat (b - a)) (drop (Z.to_nat a) l).

Lemma covers_snoc out pos mid m :
  covers out pos mid → gr_start m = mid → covers (out ++ [m]) pos (gr_end m).
Proof.
  revert pos. induction out as [|x out IH]; cbn; intros pos; [by intros -> ->|].
  intros [-> H] Hm. split; [done|]. by apply IH.
Qed.

Lemma received_snoc out m : received (out ++ [m]) = received out ++ gr_data m.
Proof. unfold received. rewrite fmap_app, concat_app. cbn. by rewrite app_nil_r. Qed.

Lemma slice_app l a b c :
  0 ≤ a ≤ b → b ≤ c → slice l a b ++ slice l b c = slice l a c.
Proof.
  intros Ha Hb. unfold slice. replace (Z.to_nat (c - a)) with (Z.to_nat (b - a) + Z.to_nat (c - b))%nat by lia.
  rewrite <- (take_take_drop (drop (Z.to_nat a) l)). f_equal. rewrite drop_drop. do 2 f_equal. lia.
Qed.

(** What is sent up to [pos] of a slice that begins at [a]. *)
Definition sent (l : list byte) (size a pos : Z) (out : list GetResponse) : Prop :=
  covers out a pos ∧ Forall (message_ok size) out ∧ received out = slice l a pos.

Lemma sent_start l size a : sent l size a a [].
Proof. split_and!; try done. unfold slice. by rewrite Z.sub_diag. Qed.

(** One more message. *)
Lemma sent_message l size a pos next out b :
  sent l size a pos out → 0 ≤ a ≤ pos → pos ≤ next ≤ size → next - pos ≤ messageBytes →
  blen b = next - pos → buf_list b = slice l pos next →
  sent l size a next (out ++ [mkGetResponse size pos next (buf_list b)]).
Proof.
  intros (Hcov & Hok & Hrec) Ha Hn Hm Hlen Hb. split_and!.
  - by apply (covers_snoc out a pos).
  - apply Forall_app. split; [done|]. apply Forall_singleton. split; [done|]. cbn.
    rewrite length_buf_list, Hlen. lia.
  - rewrite received_snoc, Hrec. cbn [gr_data]. rewrite Hb. apply slice_app; lia.
Qed.

(** An object fits a disk. *)
Lemma ref_size_bound s fid ref :
  Inv s → indexErr s = None → confirmed s !! fid = Some ref → 0 ≤ r_size ref < 2 ^ 48.
Proof.
  intros Hs He Hr. destruct (Inv_backed s fid ref Hs He Hr) as [_ Hbk].
  destruct (rb_range _ _ _ Hbk) as (? & ? & ?). pose proof (rb_stored _ _ _ Hbk).
  destruct (ref_backed_addr _ _ _ (disk_fits_ok _ (i_disk _ Hs)) Hbk) as (iv & _ & _ & Hg & Hext).
  pose proof (i_disk _ Hs) as Hd. unfold disk_fits in Hd.
  pose proof (in_grid_addr _ _ _ (disk_fits_ok _ (i_disk _ Hs)) Hg
    (Hext (GridStart + start iv * SlotSize + storedSize ref - 1) ltac:(lia))) as Hin.
  destruct Hg as (_ & Hz0 & _). unfold SlotSize, GridStart in *. lia.
Qed.

(** ** The stream of a Get *)
Section stream.
Context (env : get_env) (s : DeviceState) (fid : Z) (ref : objectRef).
Context (Hs : Inv s) (He : indexErr s = None) (Hf : f_faults (ds_file s) = []).
Context (Hr : confirmed s !! fid = Some ref).
Context (Hacq : ∀ pos, ge_acquire env pos = None) (Hsend : ∀ pos, ge_send env pos = None).

Let l := ref_bytes (diskBytes s) (f_data (ds_file s)) ref.
Let size := r_size ref.

Lemma get_stream_outcome a b :
  0 ≤ a ≤ b → b ≤ size →
  ∃ out, get_stream env ref size a b (s, []) = (Ok None, (s, out)) ∧
    covers out a b ∧ Forall (message_ok size) out ∧ received out = slice l a b ∧ out ≠ [].
Proof using All.
  intros Ha Hb.
  pose proof (ref_size_bound s fid ref Hs He Hr) as Hsize. fold size in Hsize.
  set (I := λ pos '(d, out), d = s ∧ a ≤ pos ≤ b ∧ sent l size a pos out).
  set (Q := λ (r : res (option status)) '(d, out), r = Ok None ∧ d = s ∧ sent l size a b out ∧ out ≠ []).
  enough (H : Q (get_stream env ref size a b (s, [])).1 (get_stream env ref size a b (s, [])).2).
  { destruct (get_stream env ref size a b (s, [])) as [r [d out]]. cbn [fst snd] in H.
    destruct H as (E1 & E2 & (H1 & H2 & H3) & H4). exists out. by rewrite E1, E2. }
  apply (mloop_total I (λ pos, b - pos) Q).
  - split_and!; try lia; [done|apply sent_start].
  - lia.
  - intros pos [d out] (-> & Hpos & Hsent) _. cbn beta iota.
    cbv zeta. rewrite u64_small by (unfold messageBytes; lia). set (next := Z.min (pos + messageBytes) b).
    assert (Hn : pos ≤ next ≤ b ∧ next - pos ≤ messageBytes) by (unfold next, messageBytes; lia).
    rewrite Hacq. destruct (readRange_bytes s fid ref pos next Hs He Hf Hr ltac:(lia) ltac:(unfold size in Hb; lia))
      as (bf & -> & Hlen & Hlist). rewrite Hsend. fold l in Hlist. fold (slice l pos next) in Hlist.
    pose proof (sent_message l size a pos next out bf Hsent ltac:(lia) ltac:(lia) ltac:(lia) Hlen Hlist) as Hsent'.
    destruct (Z.eqb_spec next b) as [E|Hne].
    + rewrite E in *. split_and!; try done; try apply Hsent'. by destruct out.
    + split; [split_and!; try done; lia|]. unfold next, messageBytes in *. lia.
Qed.
End stream.

(** ** Which disk answers *)
Lemma collect_lookup_inl rs fe i ref : collect_lookup rs fe = inl (i, ref) → (i, Ok ref) ∈ rs.
Proof.
  revert fe. induction rs as [|[j [r|e]] rs IH]; intros fe; cbn; [done| |].
  - intros [= <- <-]. by left.
  - intros H. right. by eapply IH.
Qed.

Lemma collect_lookup_inr rs fe o : collect_lookup rs fe = inr o → ∀ i ref, (i, Ok ref) ∉ rs.
Proof.
  revert fe. induction rs as [|[j [r|e]] rs IH]; intros fe; cbn; [set_solver|done|].
  intros H i ref. rewrite elem_of_cons. intros [[=]|Hin]. by eapply IH.
Qed.

Lemma collect_lookup_NotFound rs fe :
  (∀ i r, (i, r) ∈ rs → r = Err ENotFound) → collect_lookup rs fe = inr fe.
Proof.
  revert fe. induction rs as [|[j r] rs IH]; intros fe H; [done|].
  rewrite (H j r) by (by left). cbn. apply IH. intros i r' Hin. apply (H i). by right.
Qed.

Lemma elem_of_lookups fo s fid i r :
  fair fo (length (disks s)) →
  (i, r) ∈ lookups fo s fid ↔ ∃ d, disks s !! i = Some d ∧ r = (lookup_fid fid (d_state d)).1.
Proof.
  intros Hf. unfold lookups. rewrite arrived_perm by (by rewrite length_imap).
  rewrite elem_of_lookup_imap. naive_solver.
Qed.

Lemma lookup_fid_healthy fid s :
  indexErr s = None →
  (lookup_fid fid s).1 = match confirmed s !! fid with Some ref => Ok ref | None => Err ENotFound end.
Proof. intros He. unfold lookup_fid. rewrite He. by destruct (confirmed s !! fid). Qed.

(** No disk fails. *)
Definition quiet (s : Server) : Prop := ∀ i d, disks s !! i = Some d → f_faults (ds_file (d_state d)) = [].

Lemma lookup_race s ops fo fid :
  PoolInv s ops → healthy s → fair fo (length (disks s)) →
  match collect_lookup (lookups fo s fid) None with
  | inl (i, ref) => ∃ d, disks s !! i = Some d ∧ confirmed (d_state d) !! fid = Some ref ∧
      pool_contents s fid =
        Some (ref_bytes (diskBytes (d_state d)) (f_data (ds_file (d_state d))) ref)
  | inr o => o = None ∧ pool_contents s fid = None
  end.
Proof.
  intros HP Hh Hf. destruct (collect_lookup (lookups fo s fid) None) as [[i ref]|o] eqn:E.
  - apply collect_lookup_inl, elem_of_lookups in E as (d & Hd & Hr); [|done].
    rewrite lookup_fid_healthy in Hr by (by eapply Hh). exists d. split; [done|].
    destruct (confirmed (d_state d) !! fid) as [ref'|] eqn:Er; [|done]. injection Hr as ->.
    split; [done|]. eapply pool_contents_at; [done..|]. unfold contents. by rewrite Er.
  - assert (Hnone : ∀ i d, disks s !! i = Some d → confirmed (d_state d) !! fid = None).
    { intros i d Hd. destruct (confirmed (d_state d) !! fid) as [ref|] eqn:Er; [|done]. exfalso.
      apply (collect_lookup_inr _ _ _ E i ref), elem_of_lookups; [done|]. exists d. split; [done|].
      rewrite lookup_fid_healthy by (by eapply Hh). by rewrite Er. }
    split.
    + rewrite collect_lookup_NotFound in E; [congruence|]. intros i r Hin.
      apply elem_of_lookups in Hin as (d & Hd & ->); [|done].
      rewrite lookup_fid_healthy by (by eapply Hh). by rewrite (Hnone i d).
    + apply pool_contents_None. intros i d Hd. unfold contents. by rewrite (Hnone i d).
Qed.

Lemma get_range_bounds req size a b :
  0 ≤ size → is_u64 (gq_range_start req) → is_u64 (gq_range_end req) →
  get_range req size = Some (a, b) → 0 ≤ a ≤ b ∧ b ≤ size.
Proof.
  unfold get_range, is_u64. intros Hs Hu1 Hu2. destruct (gq_has_range req); [|intros [= <- <-]; lia].
  set (e := if _ || _ then _ else _). destruct (Z.ltb_spec e (gq_range_start req)); [done|].
  intros [= <- <-]. subst e. destruct (_ || _) eqn:E; lia.
Qed.

Lemma GetRPC_outcome env req s ops :
  PoolInv s ops → healthy s → quiet s → fair (ge_fanout env) (length (disks s)) →
  is_u64 (gq_range_start req) → is_u64 (gq_range_end req) →
  ge_context env = None → (∀ pos, ge_acquire env pos = None) → (∀ pos, ge_send env pos = None) →
  let '(out, st, s') := GetRPC env req s in
  s' = s ∧
  match pool_contents s (gq_fid req) with
  | None => out = [] ∧ st = Some (mkStatus NotFound "not found" None)
  | Some l =>
      let size := Z.of_nat (length l) in
      match get_range req size with
      | None => out = [] ∧ st = Some (mkStatus InvalidArgument "invalid range" None)
      | Some (a, b) => st = None ∧ covers out a b ∧ Forall (message_ok size) out ∧
                       received out = slice l a b ∧ out ≠ []
      end
  end.
Proof.
  intros HP Hh Hq Hfo Hu1 Hu2 Hc Ha Hsd. unfold GetRPC. rewrite Hc.
  pose proof (lookup_race s ops (ge_fanout env) (gq_fid req) HP Hh Hfo) as Hr.
  destruct (collect_lookup _ _) as [[i ref]|o]; [|by destruct Hr as [-> ->]].
  destruct Hr as (d & Hd & Hcf & ->). set (l := ref_bytes _ _ _).
  assert (Hsz : Z.of_nat (length l) = r_size ref)
    by (eapply length_ref_bytes; [by eapply pi_disks|by eapply Hh|exact Hcf]).
  cbv zeta. rewrite Hsz. destruct (get_range req (r_size ref)) as [[a b]|] eqn:Er; [|done].
  rewrite Hd.
  assert (Hab : 0 ≤ a ≤ b ∧ b ≤ r_size ref) by (apply (get_range_bounds req); [lia|done..]).
  destruct (get_stream_outcome env (d_state d) (gq_fid req) ref (pi_disks _ _ HP i d Hd) (Hh i d Hd)
    (Hq i d Hd) Hcf Ha Hsd a b) as (out & -> & Hcov & Hok & Hrec & Hne); [lia|lia|].
  split; [|done]. rewrite list_insert_id by (rewrite Hd; by destruct d). by destruct s.
Qed.

(** A Get of a registered fid, on working disks, sends at least one message and answers OK: the
    messages are contiguous from the start of the requested range to its end, each carries the size
    of the object and at most 1 MiB, and their data put together is exactly that slice of what the
    pool contains; an end of zero or past the object means its end, a start past that is an invalid
    range, and a fid the pool does not contain is not found.  Reading changes nothing. *)
Theorem get_rpc env req s ops :
  PoolInv s ops → healthy s → quiet s → fair (ge_fanout env) (length (disks s)) →
  is_u64 (gq_range_start req) → is_u64 (gq_range_end req) →
  ge_context env = None → (∀ pos, ge_acquire env pos = None) → (∀ pos, ge_send env pos = None) →
  let '(out, st, s') := GetRPC env req s in
  s' = s ∧
  match pool_contents s (gq_fid req) with
  | None => out = [] ∧ st = Some (mkStatus NotFound "not found" None)
  | Some l =>
      let size := Z.of_nat (length l) in
      match get_range req size with
      | None => out = [] ∧ st = Some (mkStatus InvalidArgument "invalid range" None)
      | Some (a, b) => st = None ∧ covers out a b ∧ Forall (message_ok size) out ∧
                       received out = slice l a b ∧ out ≠ []
      end
  end.
Proof. apply GetRPC_outcome. Qed.

Definition demo_get_env : get_env :=
  mkGetEnv (mkFanout (λ _, [0%nat]) (λ _, false)) None (λ _, None) (λ _, None).

Lemma get_rpc_witness :
  GetRPC demo_get_env (mkGetRequest 5 true 2 0) demo_server =
    ([], Some (mkStatus NotFound "not found" None), demo_server).
Proof.
  pose proof (get_rpc demo_get_env (mkGetRequest 5 true 2 0) demo_server ∅ demo_PoolInv) as H.
  specialize (H ltac:(apply healthy_forallb; reflexivity)).
  specialize (H ltac:(intros [|i] d [= <-]; reflexivity) ltac:(intros fid; reflexivity)
    ltac:(unfold is_u64; cbn; lia) ltac:(unfold is_u64; cbn; lia) eq_refl ltac:(done) ltac:(done)).
  destruct (GetRPC demo_get_env (mkGetRequest 5 true 2 0) demo_server) as [[out st] s'].
  destruct H as [E H]. change (pool_contents demo_server 5) with (@None (list byte)) in H.
  destruct H as [E1 E2]. by rewrite E, E1, E2.
Defined.

Lemma quiet_forallb s :
  forallb (λ d, bool_decide (length (f_faults (ds_file (d_state d))) = 0%nat)) (disks s) = true → quiet s.
Proof.
  intros H i d Hd. rewrite forallb_forall in H. apply nil_length_inv.
  apply (bool_decide_eq_true_1 (length (f_faults (ds_file (d_state d))) = 0%nat)).
  apply H. apply list_elem_of_In. by eapply list_elem_of_lookup_2.
Qed.

(** C1: the service as a client sees it: once a Put of a fid has been answered with success, a Get
    of the fid returns the bytes of its payload in order, whatever the chunks they were sent in and
    the messages they come back in, and a Get of the alias returns them without the last byte; any
    range of them is the same slice. *)
Theorem put_get_rpc HashString env fid size aliasFor r s ops k s' genv a b :
  PoolInv s ops → fair (pe_fanout env) (length (disks s)) → ops !! k = None →
  is_u64 fid → is_u64 size → is_u64 aliasFor → pe_send env = None →
  Put HashString env (Ok (PutHeader fid size aliasFor)) r s = (Reply tt, s') →
  healthy s' → quiet s' → fair (ge_fanout genv) (length (disks s')) →
  ge_context genv = None → (∀ pos, ge_acquire genv pos = None) → (∀ pos, ge_send genv pos = None) →
  0 ≤ a ≤ b → 0 < b ≤ size →
  (∃ out, GetRPC genv (mkGetRequest fid false 0 0) s' = (out, None, s') ∧
     received out = (drained r).1) ∧
  (∃ out, GetRPC genv (mkGetRequest fid true a b) s' = (out, None, s') ∧
     received out = slice (drained r).1 a b) ∧
  (aliasFor ≠ 0 → ∃ out, GetRPC genv (mkGetRequest aliasFor false 0 0) s' = (out, None, s') ∧
     received out = take (Z.to_nat size - 1) (drained r).1).
Proof.
  intros HP Hfo Hk Hu1 Hu2 Hu3 Hsnd E Hh Hq Hfo' Hc Ha Hsd Hab Hb.
  destruct (Put_outcome _ _ _ _ _ _ _ _ _ _ _ HP Hfo Hk Hu1 Hu2 Hu3 E) as [HP' H].
  destruct (H Hh Hsnd) as (Hlen & _ & Hnone & Hput). cbn [ok_reply] in *.
  set (l := (drained r).1) in *. unfold is_u64 in *.
  assert (Hget : ∀ f l' hr lo hi, pool_contents s' f = Some l' → 0 ≤ lo < 2 ^ 64 → 0 ≤ hi < 2 ^ 64 →
    ∀ x y, get_range (mkGetRequest f hr lo hi) (Z.of_nat (length l')) = Some (x, y) →
    ∃ out, GetRPC genv (mkGetRequest f hr lo hi) s' = (out, None, s') ∧ received out = slice l' x y).
  { intros f l' hr lo hi Hf Hlo Hhi x y Hr.
    pose proof (GetRPC_outcome genv (mkGetRequest f hr lo hi) s' ops HP' Hh Hq Hfo' Hlo Hhi Hc Ha Hsd) as Hg.
    destruct (GetRPC genv _ s') as [[out st] s2]. destruct Hg as [-> Hg]. cbn [gq_fid] in Hg.
    rewrite Hf in Hg. cbv zeta in Hg. rewrite Hr in Hg. destruct Hg as (-> & _ & _ & Hrec & _). by exists out. }
  assert (Hal : aliasFor ≠ 0 → aliasFor ≠ fid).
  { intros Hne ->. unfold Put, put_rejects in E. rewrite Z.eqb_refl in E. cbn [orb] in E.
    rewrite (proj2 (Z.eqb_neq fid 0)) in E by done. cbn [negb andb] in E.
    by rewrite orb_true_r in E. }
  assert (Hfid : pool_contents s' fid = Some l).
  { rewrite Hput. unfold store_put. rewrite decide_False, decide_True by naive_solver. done. }
  split; [|split].
  - destruct (Hget fid l false 0 0 Hfid ltac:(lia) ltac:(lia) 0 (Z.of_nat (length l)) eq_refl)
      as (out & Hg & Hrec). exists out. split; [exact Hg|]. rewrite Hrec. unfold slice.
    rewrite drop_0. apply take_ge. lia.
  - apply (Hget fid l true a b Hfid); [lia..|]. unfold get_range. cbn [gq_has_range gq_range_start gq_range_end].
    rewrite (proj2 (Z.eqb_neq b 0)), (proj2 (Z.ltb_ge (Z.of_nat (length l)) b)) by lia. cbn [orb].
    by rewrite (proj2 (Z.ltb_ge b a)) by lia.
  - intros Hne. assert (Hf : pool_contents s' aliasFor = Some (take (length l - 1) l)).
    { rewrite Hput. unfold store_put. by rewrite decide_True. }
    destruct (Hget _ _ false 0 0 Hf ltac:(lia) ltac:(lia) 0 _ eq_refl) as (out & Hg & Hrec).
    exists out. split; [exact Hg|]. rewrite Hrec. unfold slice. rewrite drop_0.
    rewrite take_ge by lia. f_equal. lia.
Qed.

Lemma put_get_rpc_witness :
  ∃ out, GetRPC demo_get_env (mkGetRequest 5 true 2 7) demo_call.2 = (out, None, demo_call.2) ∧
    received out = [x41; x41; x42; x42; x42].
Proof.
  assert (E : Put (λ _, 0) demo_env (Ok (PutHeader 5 10 6)) demo_reader demo_server =
    (Reply tt, demo_call.2)).
  { pose proof (proj1 demo_outcome) as H. unfold demo_call in *.
    destruct (Put _ _ _ _ _) as [[[]|st] s']; [reflexivity|discriminate H]. }
  destruct (put_get_rpc (λ _, 0) demo_env 5 10 6 demo_reader demo_server ∅ 0%nat demo_call.2 demo_get_env 2 7
    demo_PoolInv demo_fair (lookup_empty _) ltac:(unfold is_u64; lia) ltac:(unfold is_u64; lia)
    ltac:(unfold is_u64; lia) eq_refl E (proj2 demo_outcome)) as (_ & (out & H1 & H2) & _).
  - apply quiet_forallb. reflexivity.
  - intros fid. reflexivity.
  - reflexivity.
  - intros pos. reflexivity.
  - intros pos. reflexivity.
  - lia.
  - lia.
  - exists out. split; [exact H1|]. rewrite H2. reflexivity.
Defined.

(** ** Restarting the server *)

(** A device of the pan file and the disk behind it. *)
Record backs (open : device_table) (dev : PanDevice) (d : Disk) (direct : bool) : Prop := {
  bk_id : ParseDiskID (DiskID dev) = Ok (diskID (d_state d));
  bk_open : open (DevicePath dev) = Ok (clean (ds_file (d_state d)), diskBytes (d_state d), direct)
}.

(** The same disk, opened again. *)
Record same_disk (d d' : Disk) : Prop := {
  sd_inv : Inv (d_state d');
  sd_id : diskID (d_state d') = diskID (d_state d);
  sd_confirmed : confirmed (d_state d') = confirmed (d_state d);
  sd_pending : pendingIntervals (d_state d') = [];
  sd_err : indexErr (d_state d') = None;
  sd_contents k : contents (d_state d') k = contents (d_state d) k
}.

Lemma OpenDevice_fields f size direct id s f' :
  OpenDevice f size direct id = (Ok s, f') →
  diskID s = id ∧ indexErr s = None ∧ pendingIntervals s = [] ∧ diskBytes s = size.
Proof. unfold OpenDevice. intros H. repeat case_match; simplify_eq; done. Qed.

Lemma open_disk_same open dev d direct :
  Inv (d_state d) → indexErr (d_state d) = None → backs open dev d direct →
  ∃ d', open_disk open dev = Ok d' ∧ same_disk d d'.
Proof.
  intros Hi He [Hid Ho].
  destruct (reopen_outcome (d_state d) direct Hi He) as (st & Hop & Hi' & Hc & _ & _ & _ & Hp & Hct).
  exists (mkDisk st (DevicePath dev)). split.
  - unfold open_disk. rewrite Hid. cbn [wrap_err mbind res_bind]. rewrite Ho.
    cbn [wrap_err mbind res_bind]. by rewrite Hop.
  - apply OpenDevice_fields in Hop as (? & ? & _). by constructor.
Qed.

(** Two disks that may be in one pool. *)
Definition apart (p d : Disk) : Prop :=
  diskID (d_state p) ≠ diskID (d_state d) ∧
  ∀ fid, is_Some (confirmed (d_state p) !! fid) → ¬ is_Some (confirmed (d_state d) !! fid).

Lemma compatible_apart d p : compatible d p = Ok tt ↔ apart p d.
Proof.
  unfold compatible, apart. destruct (Z.eqb_spec (diskID (d_state p)) (diskID (d_state d))); [naive_solver|].
  case_bool_decide as Hdom; split; try done.
  - intros _. split; [done|]. intros fid H1%elem_of_dom H2%elem_of_dom.
    assert (Hin : fid ∈ dom (confirmed (d_state d)) ∩ dom (confirmed (d_state p)))
      by (by apply elem_of_intersection). by rewrite Hdom in Hin.
  - intros [_ H]. exfalso. apply Hdom. apply set_eq. intros fid.
    rewrite elem_of_intersection, !elem_of_dom. split; [|set_solver]. intros [? ?]. by destruct (H fid).
Qed.

Lemma compatible_all d ds :
  foldM (λ _ previous, compatible d previous) tt ds = Ok tt ↔ Forall (λ p, apart p d) ds.
Proof.
  induction ds as [|p ds IH]; [done|]. cbn [foldM]. rewrite Forall_cons, <- IH, <- compatible_apart.
  split.
  - intros ([] & H1 & H2)%res_bind_Ok. done.
  - intros [-> H]. exact H.
Qed.

Lemma apart_same p p' d d' : same_disk p p' → same_disk d d' → apart p d → apart p' d'.
Proof. intros [] [] [H1 H2]. unfold apart. split; [congruence|]. intros fid. rewrite sd_confirmed0, sd_confirmed1. apply H2. Qed.

Lemma open_all_same open devices ds :
  Forall2 (λ dev d, ∃ direct, backs open dev d direct) devices ds →
  Forall (λ d, Inv (d_state d) ∧ indexErr (d_state d) = None) ds →
  ∀ past past', Forall2 same_disk past past' →
  Forall (λ d, Forall (λ p, apart p d) past) ds →
  (∀ i j p d, ds !! i = Some p → ds !! j = Some d → (i < j)%nat → apart p d) →
  ∃ ds', foldM (open_next open) past' devices = Ok (past' ++ ds') ∧ Forall2 same_disk ds ds'.
Proof.
  induction 1 as [|dev d devices ds [direct Hdev] Hb IH]; intros Hall past past' Hp Hap Hord.
  { exists []. cbn. by rewrite app_nil_r. }
  apply Forall_cons in Hall as [[Hi He] Hall]. apply Forall_cons in Hap as [Had Hap].
  destruct (open_disk_same open dev d direct Hi He Hdev) as (d' & Ho & Hd').
  destruct (IH Hall (past ++ [d]) (past' ++ [d'])) as (ds' & Hf & Hds').
  - apply Forall2_app; [done|by constructor].
  - apply Forall_forall. intros x Hx. apply Forall_app. rewrite Forall_forall in Hap.
    split; [by apply Hap|]. apply Forall_singleton. apply list_elem_of_lookup in Hx as [j Hj].
    apply (Hord 0%nat (S j)); [done|done|lia].
  - intros i j p x Hpi Hxj Hij. apply (Hord (S i) (S j)); [done|done|lia].
  - exists (d' :: ds'). split; [|by constructor].
    assert (Hc : Forall (λ p, apart p d') past').
    { rewrite Forall_forall in Had. apply Forall_forall. intros p' Hp'.
      apply list_elem_of_lookup in Hp' as [i Hi']. destruct (Forall2_lookup_r _ _ _ _ _ Hp Hi') as (p0 & Hp0 & Hs).
      apply (apart_same p0 p' d d'); [done|done|]. apply Had. by eapply list_elem_of_lookup_2. }
    assert (Hon : open_next open past' dev = Ok (past' ++ [d'])).
    { unfold open_next. rewrite Ho. cbn [mbind res_bind]. by rewrite (proj2 (compatible_all d' past') Hc). }
    cbn [foldM]. rewrite Hon. cbn [mbind res_bind]. rewrite Hf. by rewrite <- app_assoc.
Qed.

(** Two disks with different ids that share a fid. *)
Lemma compatible_clash d p :
  diskID (d_state p) ≠ diskID (d_state d) →
  compatible d p = Ok tt ∨ compatible d p = Err (EMsg "fid registered on multiple disks").
Proof. intros H. unfold compatible. rewrite (proj2 (Z.eqb_neq _ _) H). case_bool_decide; [by left|by right]. Qed.

Lemma compatible_all_clash d ds :
  Forall (λ p, diskID (d_state p) ≠ diskID (d_state d)) ds →
  foldM (λ _ previous, compatible d previous) tt ds = Ok tt ∨
  foldM (λ _ previous, compatible d previous) tt ds = Err (EMsg "fid registered on multiple disks").
Proof.
  induction 1 as [|p ds Hp _ IH]; [by left|]. cbn [foldM].
  destruct (compatible_clash d p Hp) as [-> | ->]; cbn [mbind res_bind]; [exact IH|by right].
Qed.

Lemma open_all_clash open devices ds :
  Forall2 (λ dev d, ∃ direct, backs open dev d direct) devices ds →
  Forall (λ d, Inv (d_state d) ∧ indexErr (d_state d) = None) ds →
  ∀ past past' i j p d fid, Forall2 same_disk past past' →
  NoDup ((λ d, diskID (d_state d)) <$> past ++ ds) →
  (past ++ ds) !! i = Some p → (past ++ ds) !! j = Some d → (i < j)%nat → (length past ≤ j)%nat →
  is_Some (confirmed (d_state p) !! fid) → is_Some (confirmed (d_state d) !! fid) →
  foldM (open_next open) past' devices = Err (EMsg "fid registered on multiple disks").
Proof.
  induction 1 as [|dev d0 devices ds [direct Hdev] Hb IH]; intros Hall past past' i j p d fid Hp Hnd Hi Hj Hij Hle Hpf Hdf.
  { rewrite app_nil_r in Hj. apply lookup_lt_Some in Hj. lia. }
  apply Forall_cons in Hall as [[HI He] Hall].
  destruct (open_disk_same open dev d0 direct HI He Hdev) as (d0' & Ho & Hd').
  assert (Hids : Forall (λ p', diskID (d_state p') ≠ diskID (d_state d0')) past').
  { pose proof Hnd as Hnd'. rewrite fmap_app in Hnd'. apply NoDup_app in Hnd' as (_ & Hnd' & _). apply Forall_forall. intros p' Hp' E.
    apply list_elem_of_lookup in Hp' as [n Hn]. destruct (Forall2_lookup_r _ _ _ _ _ Hp Hn) as (p0 & Hp0 & Hs).
    apply (Hnd' (diskID (d_state p0))).
    - apply list_elem_of_fmap. exists p0. split; [done|by eapply list_elem_of_lookup_2].
    - apply list_elem_of_fmap. exists d0. split; [|by left]. by rewrite <- (sd_id _ _ Hs), E, (sd_id _ _ Hd'). }
  cbn [foldM]. destruct (compatible_all_clash d0' past' Hids) as [Hok|Herr].
  2: { assert (Hon : open_next open past' dev = Err (EMsg "fid registered on multiple disks")).
       { unfold open_next. rewrite Ho. cbn [mbind res_bind]. by rewrite Herr. }
       by rewrite Hon. }
  assert (Hon : open_next open past' dev = Ok (past' ++ [d0'])).
  { unfold open_next. rewrite Ho. cbn [mbind res_bind]. by rewrite Hok. }
  rewrite Hon. cbn [mbind res_bind]. destruct (decide (j = length past)) as [->|Hne].
  - exfalso. rewrite lookup_app_r, Nat.sub_diag in Hj by lia. injection Hj as <-.
    rewrite lookup_app_l in Hi by lia. destruct (Forall2_lookup_l _ _ _ _ _ Hp Hi) as (p' & Hp' & Hs).
    apply compatible_all in Hok. rewrite Forall_forall in Hok.
    destruct (Hok p' ltac:(by eapply list_elem_of_lookup_2)) as [_ Hno]. apply (Hno fid).
    + by rewrite (sd_confirmed _ _ Hs).
    + by rewrite (sd_confirmed _ _ Hd').
  - apply (IH Hall (past ++ [d0]) (past' ++ [d0']) i j p d fid); try done.
    + apply Forall2_app; [done|by constructor].
    + by rewrite <- app_assoc.
    + by rewrite <- app_assoc.
    + by rewrite <- app_assoc.
    + rewrite length_app. cbn. lia.
Qed.

(** A server does not start on the devices of disks that share a fid. *)
Lemma NewServer_clash cfg devices warnings open persist ds i j p d fid :
  0 < ReservationStallTimeout cfg → 0 < PoolGateFanoutTimeout cfg →
  Forall2 (λ dev d, ∃ direct, backs open dev d direct) devices ds →
  Forall (λ d, Inv (d_state d) ∧ indexErr (d_state d) = None) ds →
  NoDup ((λ d, diskID (d_state d)) <$> ds) → ds !! i = Some p → ds !! j = Some d → i ≠ j →
  is_Some (confirmed (d_state p) !! fid) → is_Some (confirmed (d_state d) !! fid) →
  NewServer cfg (Ok devices) warnings open persist = Err (EMsg "fid registered on multiple disks").
Proof.
  intros Ht1 Ht2 Hb Hall Hnd Hi Hj Hne Hp Hd. unfold NewServer.
  rewrite (proj2 (Z.leb_gt _ _)), (proj2 (Z.leb_gt _ _)) by done. cbn [orb mbind res_bind].
  assert (Hdn : devices ≠ []) by (intros ->; inversion Hb; subst; by rewrite lookup_nil in Hi).
  rewrite bool_decide_eq_false_2 by done.
  enough (E : foldM (open_next open) [] devices = Err (EMsg "fid registered on multiple disks")) by (by rewrite E).
  destruct (decide (i < j)%nat).
  - apply (open_all_clash open devices ds Hb Hall [] [] i j p d fid); try done; cbn; lia.
  - apply (open_all_clash open devices ds Hb Hall [] [] j i d p fid); try done; cbn; lia.
Qed.

(** C5: restarting the server on the devices of a pool without failed disks brings back the same
    pool: [NewServer] accepts it, the state it starts with satisfies the pool's invariant with no
    call in flight, nothing reserved, and every fid has the bytes it had. *)
Theorem restart_pool cfg devices warnings open persist s ops :
  PoolInv s ops → healthy s → disks s ≠ [] → NoDup (DiskIDs s) →
  0 < ReservationStallTimeout cfg → 0 < PoolGateFanoutTimeout cfg → persist = Ok tt →
  Forall2 (λ dev d, ∃ direct, backs open dev d direct) devices (disks s) →
  ∃ s', NewServer cfg (Ok devices) warnings open persist = Ok s' ∧ PoolInv s' ∅ ∧
    ∀ k, pool_contents s' k = pool_contents s k.
Proof.
  intros HP Hh Hne Hnd Ht1 Ht2 -> Hb.
  destruct (open_all_same open devices (disks s) Hb) with (past := @nil Disk) (past' := @nil Disk)
    as (ds' & Hf & Hs).
  - apply Forall_forall. intros d Hd. apply list_elem_of_lookup in Hd as [i Hi].
    split; [by eapply pi_disks|by eapply Hh].
  - done.
  - apply Forall_forall. done.
  - intros i j p d Hi Hj Hij. split.
    + intros E. assert (i = j); [|lia]. eapply NoDup_lookup; [exact Hnd|..].
      * unfold DiskIDs. rewrite list_lookup_fmap, Hi. cbn. by rewrite E.
      * unfold DiskIDs. rewrite list_lookup_fmap, Hj. done.
    + intros fid H1 H2. pose proof (pi_unique _ _ HP i j p d fid Hi Hj H1 H2). lia.
  - unfold NewServer. rewrite (proj2 (Z.leb_gt _ _)), (proj2 (Z.leb_gt _ _)) by done. cbn [orb mbind res_bind].
    assert (Hdn : devices ≠ []) by (intros ->; by inversion Hb).
    rewrite bool_decide_eq_false_2 by done. rewrite Hf. cbn [mbind res_bind app].
    assert (Hdn' : ds' ≠ []) by (intros ->; inversion Hs; congruence).
    rewrite bool_decide_eq_false_2 by done.
    assert (Hret : (if bool_decide (ZramSnapshotDir cfg = EmptyString) then Ok tt
      else wrap_err "persist restored pool" (Ok tt)) = Ok tt) by (by destruct (bool_decide _)).
    rewrite Hret. cbn [mbind res_bind]. eexists. split; [done|]. split.
    + apply PoolInv_initial; cbn [disks gate]; [| |done].
      * intros i d Hd. destruct (Forall2_lookup_r _ _ _ _ _ Hs Hd) as (d0 & _ & []). done.
      * intros i j di dj fid Hi Hj. destruct (Forall2_lookup_r _ _ _ _ _ Hs Hi) as (d1 & H1 & []).
        destruct (Forall2_lookup_r _ _ _ _ _ Hs Hj) as (d2 & H2 & []).
        rewrite sd_confirmed0, sd_confirmed1. by apply (pi_unique _ _ HP).
    + intros k. apply pool_contents_ext. cbn [disks]. symmetry. apply list_eq_Forall2.
      apply Forall2_fmap_2. eapply Forall2_impl; [exact Hs|]. intros d d' []. by symmetry.
Qed.

Lemma restart_pool_witness :
  ∃ s', NewServer DefaultConfig (Ok [mkPanDevice "match" "/dev/sda" "0x7" 1 0]) 0
          (λ _, Ok (clean (ds_file demo_state), demo_size, false)) (Ok tt) = Ok s' ∧ PoolInv s' ∅.
Proof.
  destruct (restart_pool DefaultConfig [mkPanDevice "match" "/dev/sda" "0x7" 1 0] 0
    (λ _, Ok (clean (ds_file demo_state), demo_size, false)) (Ok tt) demo_server ∅) as (s' & H1 & H2 & _).
  - exact demo_PoolInv.
  - apply healthy_forallb. reflexivity.
  - discriminate.
  - apply NoDup_singleton.
  - reflexivity.
  - reflexivity.
  - reflexivity.
  - constructor; [|constructor]. exists false. constructor; reflexivity.
  - exists s'. split; [exact H1|exact H2].
Defined.
