(* ===== verification/ServeConc.v ===== *)
(** * A Get among Puts

    The Get handler asks every disk in a goroutine of its own and then reads message after message, each
    under no lock but the limiter of reads; Puts of other calls go on in between.  [ConcGet] is the
    handler with the pool it meets at each of these moments; whatever the moments of a run are, it
    answers as if it had happened at one of them ([concurrent_get]). *)

From S2P Require Import Prelude Machine Loop Float Device Layout IndexScan PackedTable Interval.
From S2P Require Import Replay DirectIO DeviceState DeviceInv DeviceOps DiskStore Gate Chd Text.
From S2P Require Import Config MultiDisk Reader Server Pool Serve.
From Stdlib Require Import Strings.Byte.

(** The pool each disk is asked in, and the one each message is read in. *)
Record moments := mkMoments { at_lookup : nat → pool; at_read : Z → pool }.

Definition disk_at (p : pool) (i : nat) : option DeviceState := d_state <$> disks p.1 !! i.

Definition conc_lookups (fo : fanout) (n : nat) (m : moments) (fid : Z) : list (nat * res objectRef) :=
  arrived (arrival fo fid)
    ((λ i, (i, match disk_at (at_lookup m i) i with
               | Some d => (lookup_fid fid d).1
               | None => Err ENotFound
               end)) <$> seq 0 n).

Definition conc_stream (env : get_env) (i : nat) (m : moments) (ref : objectRef) (size start_ end_ : Z) :
    M (list GetResponse) (option status) :=
  mloop (Z.to_pos (end_ - start_ + 1)) (λ pos out,
    let next := Z.min (u64 (pos + messageBytes)) end_ in
    match disk_at (at_read m pos) i with
    | None => (Ok (inr (Some (mkStatus Internal "nil disk" None))), out)
    | Some d =>
        match (readRange (ge_acquire env pos) ref pos next d).1 with
        | Err e => (Ok (inr (Some (mkStatus Internal "get" (Some e)))), out)
        | Ok data =>
            match ge_send env pos with
            | Some e => (Ok (inr (Some (mkStatus Transport "send" (Some e)))), out)
            | None =>
                let out := out ++ [mkGetResponse size pos next (buf_list data)] in
                (Ok (if next =? end_ then inr None else inl next), out)
            end
        end
    end) start_.

(** The Get handler over [n] disks. *)
Definition ConcGet (env : get_env) (req : GetRequest) (n : nat) (m : moments) :
    list GetResponse * option status :=
  match ge_context env with
  | Some e => ([], Some (mkStatus ContextEnded "context" (Some e)))
  | None =>
      match collect_lookup (conc_lookups (ge_fanout env) n m (gq_fid req)) None with
      | inr (Some e) => ([], Some (mkStatus Internal "get" (Some e)))
      | inr None => ([], Some (mkStatus NotFound "not found" None))
      | inl (i, ref) =>
          let size := r_size ref in
          match get_range req size with
          | None => ([], Some (mkStatus InvalidArgument "invalid range" None))
          | Some (start_, end_) =>
              match conc_stream env i m ref size start_ end_ [] with
              | (Ok st, out) => (out, st)
              | (Err e, out) => (out, Some (mkStatus Internal "get" (Some e)))
              end
          end
      end
  end.

(** What a Get answers when the pool holds [stored] under the fid. *)
Definition answers (req : GetRequest) (stored : option (list byte)) (out : list GetResponse)
    (st : option status) : Prop :=
  match stored with
  | None => out = [] ∧ st = Some (mkStatus NotFound "not found" None)
  | Some l =>
      let size := Z.of_nat (length l) in
      match get_range req size with
      | None => out = [] ∧ st = Some (mkStatus InvalidArgument "invalid range" None)
      | Some (a, b) => st = None ∧ covers out a b ∧ Forall (message_ok size) out ∧
                       received out = slice l a b ∧ out ≠ []
      end
  end.

(** The moments of a run of the pool from [p] to [q]: every read comes after every lookup. *)
Record in_run (p : pool) (m : moments) (q : pool) : Prop := {
  ir_start i : ∃ tr, run p tr (at_lookup m i);
  ir_read i pos : ∃ tr, run (at_lookup m i) tr (at_read m pos);
  ir_end pos : ∃ tr, run (at_read m pos) tr q
}.

(** ** Disks only grow *)
Lemma disk_insert p (i j : nat) d st (x : Disk) :
  disks p !! i = Some d → disks p !! j = Some x → confirmed (d_state d) ⊆ confirmed st →
  ∃ x', <[i := mkDisk st (devicePath d)]> (disks p) !! j = Some x' ∧
    confirmed (d_state x) ⊆ confirmed (d_state x').
Proof.
  intros Hd Hx Hsub. destruct (decide (i = j)) as [<-|Hne].
  - rewrite list_lookup_insert_eq by (by eapply lookup_lt_Some). eexists. split; [done|].
    rewrite Hd in Hx. by injection Hx as <-.
  - rewrite list_lookup_insert_ne by done. by exists x.
Qed.

Lemma step_grows p lbl p' j x :
  PoolInv p.1 p.2 → step p lbl p' → disks p.1 !! j = Some x →
  ∃ x', disks p'.1 !! j = Some x' ∧ confirmed (d_state x) ⊆ confirmed (d_state x').
Proof.
  intros HP Hstep Hx. destruct Hstep as
    [fo k fid size al s ops g|k o s ops Hk Hph|k o i pw s s' ops Hk Hph E|k o i pw d f s ops Hk Hph Hd Hf
    |k o i pw acq r s s' ops Hk Hph Hr E|k o i pw acq r e s s' ops Hk Hph Hr E|k o i pw l s ops Hk Hph
    |k o i pw l s s' ops Hk Hph E|k o i pw l e s s' ops Hk Hph E|k o i pw res s s' ops Hk Hph E
    |k o s ops Hk Hph]; cbn [fst snd] in *;
    try (by exists x);
    try (assert (Hh : op_holds o = Some (i, pw)) by (unfold op_holds; by rewrite Hph);
         destruct (holding s ops k o i pw HP Hk Hh) as (d0 & Hd0 & Hi & Hpw & Hpf));
    try (apply on_disk_inv in E as (d & st & Hd & E & ->); [|by (left + (right; eauto))]);
    try (rewrite Hd in Hd0; injection Hd0 as <-); destruct (pi_args _ _ HP _ _ Hk) as (Hu1 & Hu2 & Hu3).
  - apply prepare_effect in E as (_ & Hc & _); [|by eapply pi_disks|done|done].
    eapply disk_insert; [done|done|]. by rewrite Hc.
  - unfold disk_file. rewrite (on_disk_Some _ _ _ d) by done. by eapply (disk_insert s i j d).
  - apply write_effect in E as (_ & Hc & _); try done. eapply disk_insert; [done|done|]. by rewrite Hc.
  - apply write_effect in E as (_ & Hc & _); try done. eapply disk_insert; [done|done|]. by rewrite Hc.
  - apply commit_effect in E as (_ & Hc & _); try done. eapply disk_insert; [done|done|]. rewrite Hc.
    apply map_union_subseteq_r, map_disjoint_spec. intros f r1 r2 Hn Hr2.
    assert (Hf : f ∈ gate_set (pw_fid pw) (op_alias o)) by (eapply new_refs_fids; by eexists).
    rewrite Hpf in Hf. rewrite (pi_free _ _ HP k o i d f) in Hr2; try done. unfold op_done. by rewrite Hph.
  - apply commit_effect in E as (_ & Hc & _); try done. eapply disk_insert; [done|done|]. by rewrite Hc.
  - apply abort_effect in E as (_ & Hc & _); [|done]. eapply disk_insert; [done|done|]. by rewrite Hc.
Qed.

Lemma run_grows p tr q j x :
  PoolInv p.1 p.2 → run p tr q → disks p.1 !! j = Some x →
  ∃ x', disks q.1 !! j = Some x' ∧ confirmed (d_state x) ⊆ confirmed (d_state x').
Proof.
  intros HP Hr Hx. induction Hr as [|p p1 p2 tr Hr IH Hs|p p1 p2 tr y Hr IH Hs]; [by exists x|..];
    destruct (IH HP Hx) as (x1 & Hx1 & Hsub1);
    destruct (step_grows p1 _ p2 j x1 (run_PoolInv _ _ _ HP Hr) Hs Hx1) as (x2 & Hx2 & Hsub2);
    exists x2; split; [done|by etrans|done|by etrans].
Qed.

Lemma run_healthy p tr q : PoolInv p.1 p.2 → run p tr q → healthy q.1 → healthy p.1.
Proof.
  intros HP Hr. induction Hr as [|p p1 p2 tr Hr IH Hs|p p1 p2 tr y Hr IH Hs]; [done|..]; intros Hh;
    apply IH, (step_healthy p1 _ p2 (run_PoolInv _ _ _ HP Hr) Hs Hh); done.
Qed.

(** What is stored stays stored. *)
Lemma step_stored p lbl p' k l :
  PoolInv p.1 p.2 → step p lbl p' → healthy p'.1 → pool_contents p.1 k = Some l → pool_contents p'.1 k = Some l.
Proof.
  intros HP Hs Hh Hk. pose proof (step_contents p lbl p' HP Hs Hh) as H. destruct lbl as [[[fid b] al]|].
  - destruct H as (Hn & _ & Hal & H). rewrite H. unfold store_put.
    destruct (decide (k = al ∧ al ≠ 0)) as [[-> Hne]|]; [|case_decide; congruence].
    destruct (Hal Hne) as (_ & ? & _). congruence.
  - by rewrite H.
Qed.

Lemma run_stored p tr q k l :
  PoolInv p.1 p.2 → run p tr q → healthy q.1 → pool_contents p.1 k = Some l → pool_contents q.1 k = Some l.
Proof.
  intros HP Hr. induction Hr as [|p p1 p2 tr Hr IH Hs|p p1 p2 tr y Hr IH Hs]; [done|..]; intros Hh Hk;
    pose proof (run_PoolInv _ _ _ HP Hr) as HP1; pose proof (step_healthy p1 _ p2 HP1 Hs Hh) as Hh1;
    eapply step_stored; eauto.
Qed.

(** ** The stream *)
Section stream.
Context (env : get_env) (i : nat) (m : moments) (ref : objectRef) (l : list byte).
Context (Hacq : ∀ pos, ge_acquire env pos = None) (Hsend : ∀ pos, ge_send env pos = None).

(** Every disk that is read holds the reference, and the bytes it stands for. *)
Context (Hread : ∀ pos, ∃ d fid, disk_at (at_read m pos) i = Some d ∧ Inv d ∧ indexErr d = None ∧
  f_faults (ds_file d) = [] ∧ confirmed d !! fid = Some ref ∧
  ref_bytes (diskBytes d) (f_data (ds_file d)) ref = l).

Lemma conc_stream_outcome a b :
  0 ≤ a ≤ b → b ≤ r_size ref → b < 2 ^ 48 →
  ∃ out, conc_stream env i m ref (r_size ref) a b [] = (Ok None, out) ∧
    covers out a b ∧ Forall (message_ok (r_size ref)) out ∧ received out = slice l a b ∧ out ≠ [].
Proof using All.
  intros Ha Hb Hsize.
  set (I := λ pos out, a ≤ pos ≤ b ∧ sent l (r_size ref) a pos out).
  set (Q := λ (r : res (option status)) out, r = Ok None ∧ sent l (r_size ref) a b out ∧ out ≠ []).
  enough (H : Q (conc_stream env i m ref (r_size ref) a b []).1 (conc_stream env i m ref (r_size ref) a b []).2).
  { destruct (conc_stream _ _ _ _ _ _ _ _) as [r out]. cbn [fst snd] in H.
    destruct H as (-> & (H1 & H2 & H3) & H4). by exists out. }
  apply (mloop_total I (λ pos, b - pos) Q).
  - split; [lia|apply sent_start].
  - lia.
  - intros pos out (Hpos & Hsent) _. cbn beta iota.
    cbv zeta. rewrite u64_small by (unfold messageBytes; lia). set (next := Z.min (pos + messageBytes) b).
    assert (Hn : pos ≤ next ≤ b ∧ next - pos ≤ messageBytes) by (unfold next, messageBytes; lia).
    destruct (Hread pos) as (d & fid & -> & Hi & He & Hf & Hr & Hl). rewrite Hacq.
    destruct (readRange_bytes d fid ref pos next Hi He Hf Hr ltac:(lia) ltac:(lia)) as (bf & -> & Hlen & Hlist).
    cbn [fst]. rewrite Hsend, Hl in *. fold (slice l pos next) in Hlist.
    pose proof (sent_message l (r_size ref) a pos next out bf Hsent ltac:(lia) ltac:(lia) ltac:(lia) Hlen Hlist) as Hsent'.
    destruct (Z.eqb_spec next b) as [E|Hne].
    + rewrite E in *. split_and!; try done; try apply Hsent'. by destruct out.
    + split; [split; [lia|done]|]. unfold next, messageBytes in *. lia.
Qed.
End stream.

(** The lookups of a run. *)
Lemma conc_lookup_race p m q fo n fid :
  PoolInv p.1 p.2 → in_run p m q → healthy q.1 → n = length (disks p.1) → fair fo n →
  match collect_lookup (conc_lookups fo n m fid) None with
  | inl (i, ref) => ∃ d, disks (at_lookup m i).1 !! i = Some d ∧ confirmed (d_state d) !! fid = Some ref
  | inr o => o = None ∧ pool_contents p.1 fid = None
  end.
Proof.
  intros HP Hin Hh -> Hfo.
  assert (Hm : ∀ i, PoolInv (at_lookup m i).1 (at_lookup m i).2 ∧ healthy (at_lookup m i).1).
  { intros i. destruct (ir_start _ _ _ Hin i) as (tr & H1), (ir_read _ _ _ Hin i 0) as (tr2 & H2),
      (ir_end _ _ _ Hin 0) as (tr3 & H3).
    pose proof (run_PoolInv _ _ _ HP H1) as HP1. split; [done|].
    eapply run_healthy; [exact HP1|eapply run_trans; [exact H2|exact H3]|done]. }
  assert (Hel : ∀ i r, (i, r) ∈ conc_lookups fo (length (disks p.1)) m fid ↔
    (i < length (disks p.1))%nat ∧ r = match disk_at (at_lookup m i) i with
      | Some d => match confirmed d !! fid with Some ref => Ok ref | None => Err ENotFound end
      | None => Err ENotFound end).
  { intros i r. unfold conc_lookups. rewrite arrived_perm by (rewrite length_fmap, length_seq; apply Hfo).
    rewrite list_elem_of_fmap. unfold disk_at. split.
    - intros (j & [= -> ->] & Hj%elem_of_seq). split; [lia|].
      destruct (disks (at_lookup m j).1 !! j) as [d|] eqn:Ed; [|done]. cbn.
      by rewrite lookup_fid_healthy by (by eapply (proj2 (Hm j))).
    - intros [Hlt ->]. exists i. split; [|apply elem_of_seq; lia]. f_equal.
      destruct (disks (at_lookup m i).1 !! i) as [d|] eqn:Ed; [|done]. cbn.
      by rewrite lookup_fid_healthy by (by eapply (proj2 (Hm i))). }
  destruct (collect_lookup _ None) as [[i ref]|o] eqn:E.
  - apply collect_lookup_inl, Hel in E as [Hlt E]. unfold disk_at in E.
    destruct (disks (at_lookup m i).1 !! i) as [d|] eqn:Ed; [|done]. cbn in E. exists d. split; [done|].
    destruct (confirmed (d_state d) !! fid); [by injection E as ->|done].
  - assert (Hnone : ∀ i r, (i, r) ∈ conc_lookups fo (length (disks p.1)) m fid → r = Err ENotFound).
    { intros i r Hir. pose proof (proj1 (Hel i r) Hir) as [_ Hr]. unfold disk_at in Hr.
      destruct (disks _ !! i); cbn in Hr; [|done]. destruct (confirmed _ !! fid) as [ref|]; [|done].
      subst r. by apply (collect_lookup_inr _ _ _ E i ref) in Hir. }
    rewrite collect_lookup_NotFound in E by done. split; [congruence|].
    apply pool_contents_None. intros i d Hd. unfold contents.
    destruct (ir_start _ _ _ Hin i) as (tr & Hrun).
    destruct (run_grows _ _ _ i d HP Hrun Hd) as (d' & Hd' & Hsub).
    destruct (confirmed (d_state d) !! fid) as [ref|] eqn:Er; [|done]. exfalso.
    assert (Hir : (i, Ok ref) ∈ conc_lookups fo (length (disks p.1)) m fid).
    { apply Hel. split; [by eapply lookup_lt_Some|]. unfold disk_at. rewrite Hd'. cbn.
      by rewrite (lookup_weaken _ _ _ _ Er Hsub). }
    by apply Hnone in Hir.
Qed.

(** C6: Gets are linearizable among Puts.  The handler asks the disks and reads the messages at any
    moments of a run in which any number of Puts take their steps; what it sends is what a Get of the
    pool would answer at one instant of the call: that at which the disk that has the object was asked,
    or the start of the call if no disk had it.  An object that was stored before the call is read in
    full, its messages contiguous, though other calls write to the same disk between any two of them. *)
Theorem concurrent_get env req p m q :
  PoolInv p.1 p.2 → in_run p m q → healthy q.1 → (∀ pos, quiet (at_read m pos).1) →
  fair (ge_fanout env) (length (disks p.1)) →
  is_u64 (gq_range_start req) → is_u64 (gq_range_end req) →
  ge_context env = None → (∀ pos, ge_acquire env pos = None) → (∀ pos, ge_send env pos = None) →
  let '(out, st) := ConcGet env req (length (disks p.1)) m in
  ∃ now, (now = p ∨ ∃ i, now = at_lookup m i) ∧
    answers req (pool_contents now.1 (gq_fid req)) out st ∧
    ∀ l, pool_contents p.1 (gq_fid req) = Some l → pool_contents now.1 (gq_fid req) = Some l.
Proof.
  intros HP Hin Hh Hq Hfo Hu1 Hu2 Hc Ha Hsd. unfold ConcGet. rewrite Hc.
  pose proof (conc_lookup_race p m q (ge_fanout env) _ (gq_fid req) HP Hin Hh eq_refl Hfo) as Hr.
  destruct (collect_lookup _ None) as [[i ref]|o].
  2: { destruct Hr as [-> Hn]. exists p. split; [by left|]. rewrite Hn. done. }
  destruct Hr as (d & Hd & Hcf). destruct (ir_start _ _ _ Hin i) as (tr & H1).
  pose proof (run_PoolInv _ _ _ HP H1) as HP1.
  assert (Hh1 : healthy (at_lookup m i).1).
  { destruct (ir_read _ _ _ Hin i 0) as (tr2 & H2), (ir_end _ _ _ Hin 0) as (tr3 & H3).
    eapply run_healthy; [exact HP1|eapply run_trans; [exact H2|exact H3]|done]. }
  set (l := ref_bytes (diskBytes (d_state d)) (f_data (ds_file (d_state d))) ref).
  assert (Hl : pool_contents (at_lookup m i).1 (gq_fid req) = Some l).
  { eapply pool_contents_at; [done|exact Hd|]. unfold contents. by rewrite Hcf. }
  assert (Hsz : Z.of_nat (length l) = r_size ref)
    by (eapply length_ref_bytes; [by eapply (pi_disks _ _ HP1)|by eapply Hh1|exact Hcf]).
  assert (Hread : ∀ pos, ∃ d fid, disk_at (at_read m pos) i = Some d ∧ Inv d ∧ indexErr d = None ∧
    f_faults (ds_file d) = [] ∧ confirmed d !! fid = Some ref ∧
    ref_bytes (diskBytes d) (f_data (ds_file d)) ref = l).
  { intros pos. destruct (ir_read _ _ _ Hin i pos) as (tr2 & H2), (ir_end _ _ _ Hin pos) as (tr3 & H3).
    pose proof (run_PoolInv _ _ _ HP1 H2) as HP2. pose proof (run_healthy _ _ _ HP2 H3 Hh) as Hh2.
    destruct (run_grows _ _ _ i d HP1 H2 Hd) as (d' & Hd' & Hsub).
    pose proof (lookup_weaken _ _ _ _ Hcf Hsub) as Hcf'.
    exists (d_state d'), (gq_fid req). unfold disk_at. rewrite Hd'. split; [done|].
    split; [by eapply (pi_disks _ _ HP2)|]. split; [by eapply Hh2|]. split; [by eapply Hq|]. split; [done|].
    pose proof (run_stored _ _ _ _ _ HP1 H2 Hh2 Hl) as Hl2.
    erewrite (pool_contents_at _ _ i d') in Hl2; [|exact HP2|exact Hd'|unfold contents; by rewrite Hcf'].
    by injection Hl2. }
  pose proof (ref_size_bound _ _ _ (pi_disks _ _ HP1 i d Hd) (Hh1 i d Hd) Hcf) as Hbound.
  cbv zeta.
  assert (Hkeep : ∀ l0, pool_contents p.1 (gq_fid req) = Some l0 →
    pool_contents (at_lookup m i).1 (gq_fid req) = Some l0) by (intros l0; by apply (run_stored p tr)).
  destruct (get_range req (r_size ref)) as [[a b]|] eqn:Er.
  - assert (Hab : 0 ≤ a ≤ b ∧ b ≤ r_size ref) by (apply (get_range_bounds req); [lia|done..]).
    destruct (conc_stream_outcome env i m ref l Ha Hsd Hread a b) as (out & -> & Hout); [lia..|].
    exists (at_lookup m i). split; [right; by exists i|]. split; [|done].
    unfold answers. rewrite Hl. cbv zeta. by rewrite Hsz, Er.
  - exists (at_lookup m i). split; [right; by exists i|]. split; [|done].
    unfold answers. rewrite Hl. cbv zeta. by rewrite Hsz, Er.
Qed.

(** ** At one moment

    When the pool does not change during the call, [ConcGet] is the handler of Server.v. *)
Definition now (p : pool) : moments := mkMoments (λ _, p) (λ _, p).

Lemma readRange_quiet acquire ref a b d :
  f_faults (ds_file d) = [] → (readRange acquire ref a b d).2 = d.
Proof.
  intros Hf. unfold readRange. destruct acquire; [done|]. destruct (AddrForFID _ _ _) as [[[addr i] n]|]; [|done].
  cbv zeta. destruct (maxAlloc <? _); [done|]. unfold ReadAt, next_fault. rewrite Hf.
  destruct (_ <? 0); [apply set_file_id|]. destruct (_ =? _); try apply set_file_id.
  all: repeat case_match; try apply set_file_id; simplify_eq; apply set_file_id.
Qed.

Lemma conc_lookups_now fo fid p :
  conc_lookups fo (length (disks p.1)) (now p) fid = lookups fo p.1 fid.
Proof.
  unfold conc_lookups, lookups. f_equal. apply list_eq. intros i.
  rewrite list_lookup_fmap, list_lookup_imap. unfold disk_at. cbn [at_lookup now].
  destruct (disks p.1 !! i) as [d|] eqn:E.
  - pose proof (lookup_lt_Some _ _ _ E). rewrite lookup_seq_lt by done. cbn. by rewrite E.
  - apply lookup_ge_None in E. by rewrite lookup_seq_ge.
Qed.

Lemma conc_get_now env req p :
  quiet p.1 → GetRPC env req p.1 = (ConcGet env req (length (disks p.1)) (now p), p.1).
Proof.
  intros Hq. unfold GetRPC, ConcGet. destruct (ge_context env); [done|]. rewrite conc_lookups_now.
  destruct (collect_lookup _ _) as [[i ref]|[e|]]; [|done|done]. cbv zeta.
  destruct (get_range req (r_size ref)) as [[a b]|]; [|done].
  destruct (disks p.1 !! i) as [d|] eqn:Ed.
  - assert (Hs : get_stream env ref (r_size ref) a b (d_state d, []) =
      let '(r, out) := conc_stream env i (now p) ref (r_size ref) a b [] in (r, (d_state d, out))).
    { unfold get_stream, conc_stream. apply (mloop_map (λ out, (d_state d, out))). intros pos out. cbv zeta.
      unfold disk_at. cbn [at_read now]. rewrite Ed. cbn [fmap option_fmap option_map].
      pose proof (readRange_quiet (ge_acquire env pos) ref pos (Z.min (u64 (pos + messageBytes)) b) (d_state d)
        (Hq i d Ed)) as Hd.
      destruct (readRange _ _ _ _ _) as [[data|e] d'] eqn:Er; cbn [fst snd] in *; subst d'; [|done].
      by destruct (ge_send env pos). }
    rewrite Hs. assert (Hid : set_disks p.1 (<[i := mkDisk (d_state d) (devicePath d)]> (disks p.1)) = p.1).
    { rewrite list_insert_id by (rewrite Ed; by destruct d). by destruct p.1. }
    destruct (conc_stream _ _ _ _ _ _ _ _) as [[st|e] out]; by rewrite Hid.
  - unfold conc_stream, mloop. rewrite loop_nat_eq.
    destruct (Pos2Nat.is_succ (Z.to_pos (b - a + 1))) as [k ->]. cbn. unfold disk_at. cbn [at_read now].
    by rewrite Ed.
Qed.

Lemma concurrent_get_witness :
  let '(out, st) := ConcGet demo_get_env (mkGetRequest 5 true 2 7) 1 (now (demo_call.2, ∅)) in
  ∃ p : pool, (p = (demo_server, ∅) ∨ p = (demo_call.2, ∅)) ∧
    answers (mkGetRequest 5 true 2 7) (pool_contents p.1 5) out st.
Proof.
  destruct demo_run as (tr & Hrun & _).
  assert (Hin : in_run (demo_server, ∅) (now (demo_call.2, ∅)) (demo_call.2, ∅)).
  { split; [intros ?; exists tr; exact Hrun|intros ? ?; exists []; constructor|intros ?; exists []; constructor]. }
  pose proof (concurrent_get demo_get_env (mkGetRequest 5 true 2 7) (demo_server, ∅) (now (demo_call.2, ∅))
    (demo_call.2, ∅) demo_PoolInv Hin (proj2 demo_outcome)) as H.
  specialize (H ltac:(intros ?; apply quiet_forallb; reflexivity) ltac:(intros fid; reflexivity)
    ltac:(unfold is_u64; cbn; lia) ltac:(unfold is_u64; cbn; lia) eq_refl ltac:(reflexivity) ltac:(reflexivity)).
  change (length (disks (demo_server, ∅ : gmap nat op).1)) with 1%nat in H.
  destruct (ConcGet _ _ _ _) as [out st]. destruct H as (p & Hp & Hans & _).
  exists p. split; [|exact Hans]. destruct Hp as [->|[i ->]]; [left|right]; reflexivity.
Defined.
