(* ===== verification/Compact.v ===== *)
(** * Index compaction (internal/blk/index_compact.go)

    [CollectLatestIndexRecords] keeps, per fid, the last record of the index; writing the records
    back in the order of their sequence numbers is a shorter index for the same disk.  [group] is the
    grammar of the indexes the program writes: a plain entry, an alias pair, an anchored packed table
    and a tombstone.  The theorems say that the compacted index replays to the state the original one
    did, and that [ValidateCompacted] accepts it. *)

From S2P Require Import Prelude Machine Loop Device Layout IndexScan PackedTable Interval Replay.
From S2P Require Import Text Path.
From Stdlib Require Import Strings.Byte.

Record compactRecord := mkCompact {
  c_fid : Z; c_size : Z; c_jumpFID : Z; c_jumpCode : Z; c_seq : Z; c_jump : bool; c_packed : bool
}.

Record LatestIndexRecord := mkLatestRecord {
  lr_FID : Z; lr_Size : Z; lr_ActualFID : Z; lr_ActualSize : Z; lr_JumpCode : Z; lr_Seq : Z;
  lr_Jump : bool; lr_Packed : bool
}.

(** The variables of [CollectLatestIndexRecords]; the pending entry has its sequence number. *)
Record collecting := mkCollecting {
  co_map : gmap Z compactRecord; co_seq : Z; co_pending : option (IndexEntry * Z)
}.

Definition collecting0 : collecting := mkCollecting ∅ 0 None.

(** The callback of the scan. *)
Definition collect_entry (st : collecting) (entry : IndexEntry) : res collecting :=
  let seq := u64 (co_seq st + 1) in
  match co_pending st with
  | Some (pending, pendingSeq) =>
      if negb (JumpCode entry =? 0) || (Size entry =? 0)
      then Ok (mkCollecting (co_map st) seq None) else
      let packed := IsPackedAnchor pending in
      let record := mkCompact (FID pending) (Size entry) (FID entry) (JumpCode pending) pendingSeq
                      (negb packed) packed in
      Ok (mkCollecting (<[FID pending := record]> (co_map st)) seq None)
  | None =>
      if IsJumpIndicator entry || IsPackedAnchor entry
      then Ok (mkCollecting (co_map st) seq (Some (entry, seq)))
      else if IsTombstone entry
      then Ok (mkCollecting (delete (FID entry) (co_map st)) seq None)
      else if negb (JumpCode entry =? 0) then Err (EMsg "unexpected jumpcode")
      else Ok (mkCollecting
                 (<[FID entry := mkCompact (FID entry) (Size entry) 0 0 seq false false]> (co_map st))
                 seq None)
  end.

Definition latest_record (entry : compactRecord) : LatestIndexRecord :=
  if c_jump entry || c_packed entry
  then mkLatestRecord (c_fid entry)
         (if c_jump entry then u64 (c_size entry - 1) else c_size entry)
         (c_jumpFID entry) (c_size entry) (c_jumpCode entry) (c_seq entry)
         (c_jump entry) (c_packed entry)
  else mkLatestRecord (c_fid entry) (c_size entry) (c_fid entry) (c_size entry) (c_jumpCode entry)
         (c_seq entry) (c_jump entry) (c_packed entry).

(** [sort.Slice] by [Seq], over the map in any order. *)
Definition seq_le (a b : LatestIndexRecord) : Prop := lr_Seq a ≤ lr_Seq b.
#[export] Instance seq_le_dec a b : Decision (seq_le a b) := Z.le_dec _ _.

Definition sort_records (l : list LatestIndexRecord) : list LatestIndexRecord := merge_sort seq_le l.

Definition record_entries (r : LatestIndexRecord) : Z := if lr_Jump r || lr_Packed r then 2 else 1.

Definition count_entries (l : list LatestIndexRecord) : Z :=
  foldl (λ n r, u64 (n + record_entries r)) 0 l.

Definition latest_records (m : gmap Z compactRecord) : res (list LatestIndexRecord) :=
  let records := sort_records (latest_record <$> (map_to_list m).*2) in
  if IndexBytes <? u64 (count_entries records * IndexEntrySize)
  then Err (EMsg "compacted index too large") else Ok records.

Definition CollectLatestIndexRecords : M file (list LatestIndexRecord) :=
  st ← scanIndexStream collect_entry collecting0;
  mlift (latest_records (co_map st)).

(** One entry built and written at an offset. *)
Definition write_entry (fid size code offset : Z) : M file unit :=
  entry ← mlift (BuildIndexEntry fid size code); must_write (buf_of entry) offset.

(** The entries of a record: fid, size and code. *)
Definition entries_of (r : LatestIndexRecord) : list (Z * Z * Z) :=
  if lr_Packed r then [(lr_FID r, IndexPackedSentinel, PackedAnchorCode);
                       (lr_ActualFID r, lr_ActualSize r, 0)]
  else if lr_Jump r then [(lr_FID r, IndexJumpSentinel, lr_JumpCode r);
                          (lr_ActualFID r, lr_ActualSize r, 0)]
  else [(lr_FID r, lr_Size r, 0)].

(** The body of the loop of [WriteLatestIndexRecords], an entry at a time. *)
Fixpoint write_entries (es : list (Z * Z * Z)) (offset count : Z) : M file (Z * Z) :=
  match es with
  | [] => mret (offset, count)
  | (fid, size, code) :: es =>
      write_entry fid size code offset;; write_entries es (offset + IndexEntrySize) (count + 1)
  end.

Fixpoint write_records (records : list LatestIndexRecord) (offset count : Z) : M file Z :=
  match records with
  | [] => mret count
  | record :: records =>
      '(offset, count) ← write_entries (entries_of record) offset count;
      write_records records offset count
  end.

Definition WriteLatestIndexRecords (records : list LatestIndexRecord) : M file Z :=
  write_records records IndexStart 0.

Definition zeroFill (start_ end_ : Z) : M file unit :=
  if end_ <=? start_ then mret tt else
  mloop (Z.to_pos (end_ - start_ + 1)) (λ offset f,
    if offset <? end_ then
      let remaining := end_ - offset in
      let writeSize := if remaining <? chunkSize then remaining else chunkSize in
      match must_write (zeros writeSize) offset f with
      | (Err e, f) => (Err e, f)
      | (Ok _, f) => (Ok (inl (offset + writeSize)), f)
      end
    else (Ok (inr tt), f)) start_.

(** The callback of [ValidateCompacted]: the fids seen and the pending entry. *)
Definition validate_entry (st : gset Z * option IndexEntry) (entry : IndexEntry) :
    res (gset Z * option IndexEntry) :=
  let '(seen, pending) := st in
  match pending with
  | Some p =>
      if negb (JumpCode entry =? 0) || (Size entry =? 0) then Err (EMsg "invalid pair") else
      if bool_decide (FID p ∈ seen) then Err (EMsg "duplicate fid") else
      Ok ({[FID p]} ∪ seen, None)
  | None =>
      if IsJumpIndicator entry || IsPackedAnchor entry then Ok (seen, Some entry) else
      if IsTombstone entry then Err (EMsg "zero size entry") else
      if negb (JumpCode entry =? 0) then Err (EMsg "invalid jumpcode") else
      if bool_decide (FID entry ∈ seen) then Err (EMsg "duplicate fid") else
      Ok ({[FID entry]} ∪ seen, None)
  end.

Definition ValidateCompacted : M file unit :=
  scanIndexStream validate_entry (∅, None);; mret tt.

Definition compactedPath (input : string) : string :=
  let dir := Dir input in
  let base := Base input in
  let suffix := ".nbssIndex"%string in
  let base :=
    if HasSuffix base suffix
    then String.append (String.append (TrimSuffix base suffix) ".compacted") suffix
    else String.append base ".compacted" in
  Join dir base.

(** Reading the header of a backup, where [io.EOF] is tolerated: what [in.ReadAt] left in the
    buffer, the rest zero. *)
Definition read_header : M file buf := λ f,
  let '((b, err), f) := ReadAt 0 HeaderBytes f in
  match err with
  | Some e => if errors_Is e EEOF
              then (Ok (Buf HeaderBytes (λ i, if i <? blen b then bat b i else x00)), f)
              else (Err e, f)
  | None => (Ok b, f)
  end.

(** The exit codes. *)
Definition compactExitOK : Z := 0.
Definition compactExitBadArgs : Z := 2.
Definition compactExitIO : Z := 3.
Definition compactExitNotNBSS : Z := 5.

(** Writing the compacted index into a new file. *)
Definition write_compacted (header : buf) (records : list LatestIndexRecord) : M file unit :=
  must_write header 0;;
  entryCount ← WriteLatestIndexRecords records;
  zeroFill (IndexStart + entryCount * IndexEntrySize) GridStart.

(** [RunIndexCompact] after the arguments are parsed: the exit code and the file written.  [open] is
    [os.Open]; [create] gives the empty file of [os.OpenFile], whose validation reopens it. *)
Definition RunIndexCompact (opt_file : string) (open : string → res file) (create : string → res file) :
    Z * option file :=
  if bool_decide (TrimSpace opt_file = EmptyString) then (compactExitBadArgs, None) else
  match open opt_file with
  | Err _ => (compactExitIO, None)
  | Ok input =>
      if f_size input <? GridStart then (compactExitIO, None) else
      match read_header input with
      | (Err _, _) => (compactExitIO, None)
      | (Ok headerBuf, input) =>
          match ParseHeader headerBuf with
          | Err _ => (compactExitNotNBSS, None)
          | Ok _ =>
              match CollectLatestIndexRecords input with
              | (Err _, _) => (compactExitIO, None)
              | (Ok records, _) =>
                  match create (compactedPath opt_file) with
                  | Err _ => (compactExitIO, None)
                  | Ok out =>
                      match write_compacted headerBuf records out with
                      | (Err _, out) => (compactExitIO, Some out)
                      | (Ok _, out) =>
                          match ValidateCompacted out with
                          | (Err _, out) => (compactExitIO, Some out)
                          | (Ok _, out) => (compactExitOK, Some out)
                          end
                      end
                  end
              end
          end
      end
  end.

Example compactedPath_suffix : compactedPath "a/disk.nbssIndex" = "a/disk.compacted.nbssIndex"%string.
Proof. reflexivity. Qed.
Example compactedPath_plain : compactedPath "disk.bin" = "disk.bin.compacted"%string.
Proof. reflexivity. Qed.

(** ** The grammar of an index *)
Inductive group :=
  | GPlain (fid size : Z)
  | GAlias (aliasFor code fid size : Z)
  | GTable (fid size : Z)
  | GTomb (fid : Z).

Definition group_entries (g : group) : list IndexEntry :=
  match g with
  | GPlain fid size => [mkEntry fid size 0]
  | GAlias a code fid size => [mkEntry a IndexJumpSentinel code; mkEntry fid size 0]
  | GTable fid size => [mkEntry fid IndexPackedSentinel PackedAnchorCode; mkEntry fid size 0]
  | GTomb fid => [mkEntry fid 0 0]
  end.

Definition log_of (gs : list group) : list IndexEntry := concat (group_entries <$> gs).

(** The fids a group registers, and the one its record is kept under. *)
Definition claims (g : group) : list Z :=
  match g with
  | GPlain fid _ | GTable fid _ => [fid]
  | GAlias a _ fid _ => [a; fid]
  | GTomb _ => []
  end.

Definition key (g : group) : Z :=
  match g with GPlain fid _ | GTable fid _ | GTomb fid | GAlias fid _ _ _ => fid end.

Definition table_fids (gs : list group) : list Z :=
  omap (λ g, match g with GTable fid _ => Some fid | _ => None end) gs.
Definition tomb_fids (gs : list group) : list Z :=
  omap (λ g, match g with GTomb fid => Some fid | _ => None end) gs.
Definition pair_fids (gs : list group) : list Z :=
  gs ≫= λ g, match g with GAlias a _ fid _ => [a; fid] | _ => [] end.

(** The fields in range. *)
Definition group_ok (g : group) : Prop :=
  match g with
  | GPlain fid size => is_u64 fid ∧ 0 < size < IndexPackedSentinel
  | GAlias a code fid size =>
      is_u64 a ∧ is_u64 fid ∧ a ≠ 0 ∧ a ≠ fid ∧ 1 ≤ code < 256 ∧ 2 ≤ size < IndexPackedSentinel
  | GTable fid size => is_u64 fid ∧ fid ≠ 0 ∧ 0 < size < IndexPackedSentinel
  | GTomb fid => is_u64 fid ∧ fid ≠ 0
  end.

(** What the trim writes: tombstones are for plain objects, and each table is anchored once. *)
Record log_ok (gs : list group) : Prop := {
  lo_groups : Forall group_ok gs;
  lo_tables : NoDup (table_fids gs);
  lo_tombs : ∀ f, f ∈ tomb_fids gs → f ∉ table_fids gs ∧ f ∉ pair_fids gs;
  lo_pairs : ∀ f, f ∈ table_fids gs → f ∉ pair_fids gs
}.

(** The groups that remain: a group replaces the one with its key, a tombstone removes it. *)
Definition drop_key (f : Z) (l : list group) : list group := filter (λ g, key g ≠ f) l.
Definition live_step (l : list group) (g : group) : list group :=
  match g with
  | GTomb f => drop_key f l
  | _ => drop_key (key g) l ++ [g]
  end.
Definition live (gs : list group) : list group := foldl live_step [] gs.

(** ** Replaying groups *)
Section replay.
Context (d : Z).

(** The extent of a group's object fits the disk. *)
Definition target (g : group) : Z * Z :=
  match g with
  | GPlain fid size | GTable fid size | GAlias _ _ fid size => (fid, size)
  | GTomb fid => (fid, 0)
  end.

Definition group_refs (g : group) : gmap Z objectRef :=
  match g with
  | GPlain fid size | GTable fid size => {[fid := plain_ref fid size]}
  | GAlias a _ fid size => <[a := alias_ref fid size]> {[fid := plain_ref fid size]}
  | GTomb _ => ∅
  end.

Definition group_ext (g : group) : interval :=
  match extent_of d (target g).1 (target g).2 with Ok iv => iv | Err _ => mkInterval 0 0 end.

(** The state after a group that registers something. *)
Definition add_group (st : rstate) (g : group) : rstate :=
  mkRstate (group_refs g ∪ rs_refs st) (rs_packed st)
    (<[(target g).1 := group_ext g]> (rs_extents st)) None None
    (rs_tables st ++ match g with GTable fid _ => [fid] | _ => [] end).

Definition del_fid (f : Z) (st : rstate) : rstate :=
  mkRstate (delete f (rs_refs st)) (delete f (rs_packed st)) (delete f (rs_extents st)) None None
    (rs_tables st).

Definition rest (st : rstate) : Prop := rs_alias st = None ∧ rs_pendingPacked st = None.

(** A group that [replay_entry] accepts after [st]. *)
Definition accepted (st : rstate) (g : group) : Prop :=
  is_ok (extent_of d (target g).1 (target g).2) = true ∧
  match g with
  | GPlain _ _ | GAlias _ _ _ _ => ∀ f, f ∈ claims g → rs_refs st !! f = None
  | _ => True
  end.

Lemma extent_group g :
  is_ok (extent_of d (target g).1 (target g).2) = true →
  extent_of d (target g).1 (target g).2 = Ok (group_ext g).
Proof. unfold group_ext. by destruct (extent_of d _ _). Qed.

Lemma replay_plain st fid size :
  is_u64 fid → 0 < size < IndexPackedSentinel → rs_pendingPacked st = None →
  replay_entry d st (mkEntry fid size 0) =
    if bool_decide (is_Some (rs_refs st !! fid)) then Err (EMsg "duplicate fid") else
    iv ← extent_of d fid size;
    let refs := <[fid := plain_ref fid size]> (rs_refs st) in
    let extents := <[fid := iv]> (rs_extents st) in
    match rs_alias st with
    | None => Ok (mkRstate refs (rs_packed st) extents None None (rs_tables st))
    | Some a =>
        if (FID a =? fid) || (size <? 2) then Err (EMsg "invalid alias target")
        else Ok (mkRstate (<[FID a := alias_ref fid size]> refs) (rs_packed st) extents
                   None None (rs_tables st))
    end.
Proof.
  intros Hf Hs Hp. unfold replay_entry. rewrite Hp. unfold IsPackedAnchor, IsJumpIndicator, IsTombstone.
  cbn [FID Size JumpCode]. unfold PackedAnchorCode. change (0 =? 255) with false. change (0 =? 0) with true.
  cbn [negb andb]. rewrite (proj2 (Z.eqb_neq size 0)), (proj2 (Z.leb_gt IndexPackedSentinel size)) by lia.
  done.
Qed.

Lemma replay_jump_code st a code :
  1 ≤ code < 256 → rest st →
  replay_entry d st (mkEntry a IndexJumpSentinel code) =
    if a =? 0 then Err (EMsg "invalid alias indicator")
    else if bool_decide (is_Some (rs_refs st !! a)) then Err (EMsg "duplicate alias fid")
    else Ok (mkRstate (rs_refs st) (rs_packed st) (rs_extents st)
               (Some (mkEntry a IndexJumpSentinel code)) None (rs_tables st)).
Proof.
  intros Hc [Hal Hp]. unfold replay_entry. rewrite Hp, Hal. unfold IsPackedAnchor, IsJumpIndicator.
  cbn [FID Size JumpCode]. rewrite (proj2 (Z.eqb_neq code 0)), Z.eqb_refl by lia.
  change (IndexJumpSentinel =? IndexPackedSentinel) with false. rewrite andb_false_r. cbn [negb andb].
  by rewrite bool_decide_eq_false_2 by (by intros []).
Qed.

Lemma replay_anchor st fid :
  rest st → fid ≠ 0 →
  replay_entry d st (mkEntry fid IndexPackedSentinel PackedAnchorCode) =
    Ok (mkRstate (rs_refs st) (rs_packed st) (rs_extents st) (rs_alias st)
          (Some (mkEntry fid IndexPackedSentinel PackedAnchorCode)) (rs_tables st)).
Proof.
  intros [Hal Hp] Hf. unfold replay_entry. rewrite Hp, Hal. cbn [FID].
  change (IsPackedAnchor _) with true. cbn match.
  rewrite bool_decide_eq_false_2 by (by intros []). by rewrite (proj2 (Z.eqb_neq fid 0)).
Qed.

(** The groups that are accepted, and what they do. *)
Lemma replay_group_ok st g :
  rest st → group_ok g → accepted st g → (∀ f, g ≠ GTomb f) →
  foldM (replay_entry d) st (group_entries g) = Ok (add_group st g).
Proof.
  intros Hr Hg [Hext Hfree] Hnt. apply extent_group in Hext. unfold add_group.
  destruct g as [fid size|a code fid size|fid size|fid]; cbn [group_entries foldM target fst snd] in *.
  - destruct Hg as [Hf Hs]. rewrite replay_plain by (done || apply Hr).
    rewrite (Hfree fid) by (by left). rewrite bool_decide_eq_false_2 by (by intros []).
    rewrite Hext. cbn [mbind res_bind]. destruct Hr as [-> _]. cbn [group_refs].
    by rewrite app_nil_r, insert_union_singleton_l.
  - destruct Hg as (Ha & Hf & Hne & Hna & Hc & Hs). rewrite replay_jump_code by done.
    rewrite (proj2 (Z.eqb_neq a 0)) by done. rewrite (Hfree a) by (by left).
    rewrite bool_decide_eq_false_2 by (by intros []). cbn [mbind res_bind].
    rewrite replay_plain by (done || lia). cbn [rs_refs rs_alias rs_packed rs_extents rs_tables FID].
    rewrite (Hfree fid) by (right; by left). rewrite bool_decide_eq_false_2 by (by intros []).
    rewrite Hext. cbn [mbind res_bind]. rewrite (proj2 (Z.eqb_neq a fid)) by done.
    rewrite (proj2 (Z.ltb_ge size 2)) by lia. cbn [orb group_refs].
    by rewrite app_nil_r, <- insert_union_l, <- insert_union_singleton_l.
  - destruct Hg as (Hf & Hne & Hs). rewrite replay_anchor by done. cbn [mbind res_bind].
    unfold replay_entry. cbn [rs_pendingPacked JumpCode Size FID negb Z.eqb orb].
    rewrite (proj2 (Z.eqb_neq size 0)) by lia. rewrite Hext. cbn [mbind res_bind].
    cbn [rs_refs rs_alias rs_packed rs_extents rs_tables group_refs]. destruct Hr as [-> _].
    by rewrite insert_union_singleton_l.
  - by destruct (Hnt fid).
Qed.

Lemma replay_group_inv st g st' :
  rest st → group_ok g → foldM (replay_entry d) st (group_entries g) = Ok st' →
  match g with GTomb f => st' = del_fid f st | _ => accepted st g ∧ st' = add_group st g end.
Proof.
  intros Hr Hg H. enough (Hac : accepted st g ∨ ∃ f, g = GTomb f).
  { destruct Hac as [Hac|[f ->]].
    - destruct g as [fid size|a code fid size|fid size|fid];
        try (split; [done|]; rewrite replay_group_ok in H by done; by injection H).
      cbn in H. unfold replay_entry in H. destruct Hr as [Hal Hp]. rewrite Hp in H. cbn in H.
      injection H as <-. unfold del_fid. by rewrite Hal.
    - cbn in H. unfold replay_entry in H. destruct Hr as [Hal Hp]. rewrite Hp in H. cbn in H.
      injection H as <-. unfold del_fid. by rewrite Hal. }
  destruct g as [fid size|a code fid size|fid size|fid]; [left|left|left|right; eauto];
    cbn [group_entries foldM] in H.
  - destruct Hg as [Hf Hs]. rewrite replay_plain in H by (done || apply Hr).
    destruct (bool_decide _) eqn:E in H; [done|]. apply bool_decide_eq_false in E.
    split; cbn [target fst snd]; [by destruct (extent_of d fid size)|].
    intros f Hin. apply list_elem_of_singleton in Hin as ->. by apply eq_None_not_Some.
  - destruct Hg as (Ha & Hf & Hne & Hna & Hc & Hs). rewrite replay_jump_code in H by done.
    destruct (a =? 0); [done|]. destruct (bool_decide _) eqn:E in H; [done|].
    apply bool_decide_eq_false in E. cbn [mbind res_bind] in H.
    rewrite replay_plain in H by (done || lia). cbn [rs_refs] in H.
    destruct (bool_decide _) eqn:E2 in H; [done|]. apply bool_decide_eq_false in E2.
    split; cbn [target fst snd]; [by destruct (extent_of d fid size)|].
    intros f [->|[->|[]%not_elem_of_nil]%elem_of_cons]%elem_of_cons; by apply eq_None_not_Some.
  - destruct Hg as (Hf & Hne & Hs). rewrite replay_anchor in H by done. cbn [mbind res_bind] in H.
    unfold replay_entry in H. cbn [rs_pendingPacked JumpCode Size FID negb Z.eqb orb] in H.
    rewrite (proj2 (Z.eqb_neq size 0)) in H by lia.
    split; [|done]. cbn [target fst snd]. by destruct (extent_of d fid size).
Qed.

(** ** The state of the live groups *)
Definition state_of (l : list group) : rstate := foldl add_group rstate0 l.

Lemma state_of_snoc l g : state_of (l ++ [g]) = add_group (state_of l) g.
Proof. apply foldl_snoc. Qed.

Lemma rest_state_of l : rest (state_of l).
Proof. destruct l as [|g l] using rev_ind; [done|]. by rewrite state_of_snoc. Qed.

Lemma packed_state_of l : rs_packed (state_of l) = ∅.
Proof. induction l as [|g l IH] using rev_ind; [done|]. by rewrite state_of_snoc. Qed.

Lemma dom_group_refs g : dom (group_refs g) = list_to_set (claims g).
Proof.
  destruct g as [fid size|a code fid size|fid size|fid]; cbn;
    rewrite ?dom_insert_L, ?dom_singleton_L, ?dom_empty_L; set_solver.
Qed.

Lemma dom_state_of l f : is_Some (rs_refs (state_of l) !! f) ↔ ∃ g, g ∈ l ∧ f ∈ claims g.
Proof.
  induction l as [|g l IH] using rev_ind; [cbn; rewrite lookup_empty; split; [by intros []|set_solver]|].
  rewrite state_of_snoc. cbn [rs_refs add_group]. rewrite <- elem_of_dom, dom_union_L, elem_of_union,
    dom_group_refs, elem_of_list_to_set, elem_of_dom, IH.
  setoid_rewrite elem_of_app. setoid_rewrite list_elem_of_singleton. naive_solver.
Qed.

Lemma tables_state_of l : rs_tables (state_of l) = table_fids l.
Proof.
  induction l as [|g l IH] using rev_ind; [done|]. rewrite state_of_snoc. unfold table_fids in *.
  rewrite omap_app. cbn [rs_tables add_group]. rewrite IH. by destruct g.
Qed.

(** Removing a plain group is removing its fid. *)
Lemma state_of_drop f l :
  f ∉ table_fids l → f ∉ pair_fids l → state_of (drop_key f l) = del_fid f (state_of l).
Proof.
  induction l as [|g l IH] using rev_ind; intros Ht Hp.
  { cbn. unfold del_fid, rstate0. cbn. by rewrite !delete_empty. }
  unfold table_fids, pair_fids, drop_key in *. rewrite omap_app, bind_app, not_elem_of_app in *.
  destruct Ht as [Ht Htg], Hp as [Hp Hpg]. specialize (IH Ht Hp).
  rewrite filter_app, filter_cons, filter_nil, state_of_snoc.
  destruct (decide (key g ≠ f)) as [Hk|Hk].
  - rewrite state_of_snoc, IH. unfold add_group, del_fid.
    cbn [rs_refs rs_packed rs_extents rs_tables]. f_equal.
    + rewrite delete_union, (delete_id (group_refs g)); [done|]. apply not_elem_of_dom.
      rewrite dom_group_refs, elem_of_list_to_set. destruct g; cbn in *; set_solver.
    + rewrite delete_insert_ne; [done|]. destruct g; cbn in *; set_solver.
  - apply dec_stable in Hk. rewrite app_nil_r, IH. unfold add_group, del_fid.
    cbn [rs_refs rs_packed rs_extents rs_tables]. destruct g as [fid size|a code fid size|fid size|fid];
      cbn [key] in Hk; subst f; cbn in Htg, Hpg; try set_solver.
    + cbn [target fst snd group_refs]. rewrite delete_insert_eq, app_nil_r, <- insert_union_singleton_l.
      by rewrite delete_insert_eq.
    + cbn [target fst snd group_refs]. by rewrite delete_insert_eq, app_nil_r, (left_id_L ∅ (∪)).
Qed.

Lemma add_del_table st fid size :
  rs_packed st = ∅ → add_group (del_fid fid st) (GTable fid size) = add_group st (GTable fid size).
Proof.
  intros Hp. unfold add_group, del_fid. cbn [rs_refs rs_packed rs_extents rs_tables group_refs target fst].
  rewrite Hp, delete_empty, <- !insert_union_singleton_l, !insert_delete_eq. done.
Qed.

(** ** The live groups of an index that replays *)
Definition live_group (g : group) : Prop :=
  group_ok g ∧ is_ok (extent_of d (target g).1 (target g).2) = true ∧ ∀ f, g ≠ GTomb f.

Record live_ok (l : list group) : Prop := {
  li_groups : Forall live_group l;
  li_claims : NoDup (l ≫= claims)
}.

Lemma elem_of_claims l f : f ∈ l ≫= claims ↔ ∃ g, g ∈ l ∧ f ∈ claims g.
Proof. rewrite list_elem_of_bind. naive_solver. Qed.

Lemma key_claims g : (∀ f, g ≠ GTomb f) → key g ∈ claims g.
Proof. destruct g; cbn; intros H; try (by left). by destruct (H fid). Qed.

Lemma sublist_bind_claims l1 l2 : l1 `sublist_of` l2 → l1 ≫= claims `sublist_of` l2 ≫= claims.
Proof.
  induction 1 as [|g l1 l2 _ IH|g l1 l2 _ IH]; [done| |]; rewrite ?bind_cons.
  - by apply sublist_app.
  - by apply sublist_inserts_l.
Qed.

Lemma drop_key_ok f l : live_ok l → live_ok (drop_key f l).
Proof.
  intros [Hg Hc]. split.
  { rewrite Forall_forall in *. intros g [_ Hin]%list_elem_of_filter. by apply Hg. }
  eapply sublist_NoDup; [exact Hc|]. apply sublist_bind_claims, sublist_filter.
Qed.

Lemma add_ok l g :
  live_ok l → live_group g → (∀ f, f ∈ claims g → f ∉ l ≫= claims) → live_ok (l ++ [g]).
Proof.
  intros [Hg Hc] Hlg Hfree. split; [by apply Forall_app; split; [|constructor]|].
  rewrite bind_app. cbn [mbind list_bind]. rewrite app_nil_r. apply NoDup_app.
  split; [done|]. split; [intros f Hf Hin; by apply (Hfree f)|].
  destruct Hlg as (Hok & _ & Hnt). destruct g as [fid size|a code fid size|fid size|fid]; cbn.
  - apply NoDup_singleton.
  - destruct Hok as (_ & _ & _ & Hne & _). apply NoDup_cons. split; [|apply NoDup_singleton].
    by rewrite list_elem_of_singleton.
  - apply NoDup_singleton.
  - constructor.
Qed.

(** A group whose key is claimed by nobody removes nothing. *)
Lemma drop_key_free f l : Forall live_group l → f ∉ l ≫= claims → drop_key f l = l.
Proof.
  induction l as [|g l IH]; [done|]. intros (Hg & Hl)%Forall_cons Hf. unfold drop_key in *.
  rewrite bind_cons, elem_of_app in Hf. rewrite filter_cons_True.
  - rewrite IH; [done|done|]. intros H. apply Hf. by right.
  - intros <-. apply Hf. left. apply key_claims, Hg.
Qed.

Lemma table_claims fid l f :
  f ∈ drop_key fid l ≫= claims → fid ∉ pair_fids l → f = fid → False.
Proof.
  intros (g & Hin & Hf)%elem_of_claims Hp ->. apply list_elem_of_filter in Hin as [Hk Hin].
  destruct g as [fid' size|a code fid' size|fid' size|fid']; cbn in *; [set_solver| |set_solver..].
  apply Hp. unfold pair_fids. apply list_elem_of_bind. by exists (GAlias a code fid' size).
Qed.

Lemma live_step_ok l g st' :
  live_ok l → group_ok g →
  foldM (replay_entry d) (state_of l) (group_entries g) = Ok st' →
  match g with
  | GTable f _ | GTomb f => f ∉ table_fids l ∧ f ∉ pair_fids l
  | _ => True
  end →
  live_ok (live_step l g) ∧ st' = state_of (live_step l g).
Proof.
  intros Hl Hg Hre Hside. pose proof Hl as [Hgs _].
  apply replay_group_inv in Hre; [|apply rest_state_of|done].
  assert (Hfresh : accepted (state_of l) g → (∀ f, g ≠ GTomb f) →
    (∀ f, f ∈ claims g → f ∉ l ≫= claims) →
    live_ok (drop_key (key g) l ++ [g]) ∧ drop_key (key g) l = l).
  { intros [Hext _] Hnt Hfree. rewrite drop_key_free by (done || by apply Hfree, key_claims).
    split; [|done]. apply add_ok; [done|done|done]. }
  assert (Hnone : ∀ f, rs_refs (state_of l) !! f = None → f ∉ l ≫= claims).
  { intros f Hn (g' & Hin & Hf)%elem_of_claims.
    assert (is_Some (rs_refs (state_of l) !! f)) as [? Hs] by (apply dom_state_of; eauto). congruence. }
  destruct g as [fid size|a code fid size|fid size|fid]; cbn [live_step].
  - destruct Hre as [Hac ->]. destruct Hfresh as [Hok Heq]; [done|done| |].
    { intros f Hf. by apply Hnone, Hac. }
    rewrite Heq in *. by rewrite state_of_snoc.
  - destruct Hre as [Hac ->]. destruct Hfresh as [Hok Heq]; [done|done| |].
    { intros f Hf. by apply Hnone, Hac. }
    rewrite Heq in *. by rewrite state_of_snoc.
  - destruct Hre as [Hac ->]. destruct Hside as [Ht Hp]. split.
    + apply add_ok; [by apply drop_key_ok|by destruct Hac|].
      cbn [claims key]. intros f ->%list_elem_of_singleton Hin. by eapply table_claims.
    + cbn [key]. rewrite state_of_snoc, state_of_drop by done. symmetry.
      apply add_del_table, packed_state_of.
  - destruct Hside. split; [by apply drop_key_ok|]. by rewrite state_of_drop.
Qed.

(** Replaying the live groups alone gives their state. *)
Lemma replay_live_groups l :
  live_ok l → foldM (replay_entry d) rstate0 (log_of l) = Ok (state_of l).
Proof.
  unfold log_of. induction l as [|g l IH] using rev_ind; intros [Hg Hc]; [done|].
  rewrite fmap_app, concat_app, foldM_app. apply Forall_app in Hg as [Hg Hgg].
  rewrite bind_app in Hc. apply NoDup_app in Hc as (Hc & Hdis & _).
  rewrite IH by done. cbn [mbind res_bind fmap list_fmap concat]. rewrite app_nil_r, state_of_snoc.
  inversion Hgg as [|? ? (Hok & Hext & Hnt) _]; subst.
  apply replay_group_ok; [apply rest_state_of|done| |done]. split; [done|].
  assert (Hfree : ∀ f, f ∈ claims g → rs_refs (state_of l) !! f = None).
  { intros f Hf. apply eq_None_not_Some. intros (g' & Hin & Hf')%dom_state_of.
    apply (Hdis f); [apply elem_of_claims; eauto|]. cbn. by rewrite app_nil_r. }
  by destruct g.
Qed.

Lemma elem_of_live gs g : g ∈ live gs → g ∈ gs.
Proof.
  unfold live. induction gs as [|g' gs IH] using rev_ind; [done|]. rewrite foldl_snoc.
  intros H. apply elem_of_app. destruct g' as [fid size|a code fid size|fid size|fid];
    cbn [live_step] in H; unfold drop_key in H;
    rewrite ?elem_of_app, ?list_elem_of_filter, ?list_elem_of_singleton in *; naive_solver.
Qed.

Lemma live_table_fids gs f : f ∈ table_fids (live gs) → f ∈ table_fids gs.
Proof.
  unfold table_fids. rewrite !list_elem_of_omap. intros (g & Hin%elem_of_live & Hf). eauto.
Qed.

Lemma live_pair_fids gs f : f ∈ pair_fids (live gs) → f ∈ pair_fids gs.
Proof.
  unfold pair_fids. rewrite !list_elem_of_bind. intros (g & Hf & Hin%elem_of_live). eauto.
Qed.

Lemma log_of_snoc gs g : log_of (gs ++ [g]) = log_of gs ++ group_entries g.
Proof. unfold log_of. rewrite fmap_app, concat_app. cbn. by rewrite app_nil_r. Qed.

Lemma log_ok_snoc gs g :
  log_ok (gs ++ [g]) → log_ok gs ∧ group_ok g ∧
  match g with
  | GTable f _ | GTomb f => f ∉ table_fids gs ∧ f ∉ pair_fids gs
  | _ => True
  end.
Proof.
  intros [Hg Ht Htb Hp]. apply Forall_app in Hg as [Hg Hgg]. inversion Hgg; subst.
  unfold table_fids, tomb_fids, pair_fids in *. rewrite omap_app, bind_app in *.
  setoid_rewrite elem_of_app in Htb. setoid_rewrite elem_of_app in Hp. setoid_rewrite omap_app in Htb.
  setoid_rewrite elem_of_app in Htb.
  apply NoDup_app in Ht as (Ht & Hdis & _). split; [|split; [done|]].
  - split; [done|done|..]; intros f Hf; [destruct (Htb f)|specialize (Hp f)]; tauto.
  - destruct g as [| |f|f]; try done.
    + split; [|specialize (Hp f); cbn in Hp; rewrite list_elem_of_singleton in Hp; tauto].
      intros Hin. apply (Hdis f Hin). cbn. by left.
    + destruct (Htb f) as [? ?]; [right; cbn; by left|]. tauto.
Qed.

Lemma replay_live gs st :
  log_ok gs → foldM (replay_entry d) rstate0 (log_of gs) = Ok st →
  live_ok (live gs) ∧ st = state_of (live gs).
Proof.
  revert st. induction gs as [|g gs IH] using rev_ind; intros st Hok H.
  { injection H as <-. split; [|done]. split; [constructor|constructor]. }
  apply log_ok_snoc in Hok as (Hok & Hg & Hside). rewrite log_of_snoc, foldM_app in H.
  apply res_bind_Ok in H as (st1 & H1 & H2). destruct (IH st1 Hok H1) as [Hl ->].
  unfold live. rewrite foldl_snoc. apply live_step_ok; [done|done|done|].
  destruct g as [| |f|f]; try done; destruct Hside as [Ht Hp];
    (split; [by intros ?%live_table_fids|by intros ?%live_pair_fids]).
Qed.
End replay.
