(* ===== verification/CompactRun.v ===== *)
(** * The compacted index (internal/blk/index_compact.go)

    What [CollectLatestIndexRecords], [WriteLatestIndexRecords] and [ValidateCompacted] compute on an
    index in the grammar of [Compact]: the live groups, in the order in which they were written; and
    what the file [RunIndexCompact] leaves contains. *)

From S2P Require Import Prelude Machine Loop Device Layout IndexScan PackedTable Interval Replay Compact.
From S2P Require Import Text Path.
From Stdlib Require Import Strings.Byte.

(** ** Collecting *)

(** A live group with the sequence number of its first entry. *)
Definition tag_step (st : list (group * Z) * Z) (g : group) : list (group * Z) * Z :=
  let '(l, seq) := st in
  (match g with
   | GTomb f => filter (λ p, key p.1 ≠ f) l
   | _ => filter (λ p, key p.1 ≠ key g) l ++ [(g, seq + 1)]
   end, seq + Z.of_nat (length (group_entries g))).
Definition tagged (gs : list group) : list (group * Z) * Z := foldl tag_step ([], 0) gs.

Definition record_of (p : group * Z) : compactRecord :=
  match p.1 with
  | GPlain fid size => mkCompact fid size 0 0 p.2 false false
  | GAlias a code fid size => mkCompact a size fid code p.2 true false
  | GTable fid size => mkCompact fid size fid PackedAnchorCode p.2 false true
  | GTomb fid => mkCompact fid 0 0 0 p.2 false false
  end.

(** The record written for a group. *)
Definition group_record (p : group * Z) : LatestIndexRecord := latest_record (record_of p).

Definition entry_fields (e : IndexEntry) : Z * Z * Z := (FID e, Size e, JumpCode e).

Lemma filter_tag_fst f (l : list (group * Z)) :
  (filter (λ p, key p.1 ≠ f) l).*1 = drop_key f l.*1.
Proof.
  unfold drop_key. induction l as [|p l IH]; [done|]. cbn [fmap list_fmap]. rewrite !filter_cons.
  destruct (decide (key p.1 ≠ f)); cbn [fmap list_fmap]; by rewrite IH.
Qed.

Lemma tagged_fst gs : (tagged gs).1.*1 = live gs.
Proof.
  unfold tagged, live. induction gs as [|g gs IH] using rev_ind; [done|]. rewrite !foldl_snoc.
  destruct (foldl tag_step ([], 0) gs) as [l s]. cbn [fst] in IH. rewrite <- IH.
  destruct g; cbn [tag_step fst live_step]; rewrite ?fmap_app, filter_tag_fst; done.
Qed.

Lemma tagged_snd gs : (tagged gs).2 = Z.of_nat (length (log_of gs)).
Proof.
  unfold tagged. induction gs as [|g gs IH] using rev_ind; [done|]. rewrite foldl_snoc, log_of_snoc.
  destruct (foldl tag_step ([], 0) gs) as [l s]. cbn [snd tag_step] in *. rewrite length_app. lia.
Qed.

(** The map [CollectLatestIndexRecords] builds holds exactly the tagged groups. *)
Definition collected (m : gmap Z compactRecord) (l : list (group * Z)) : Prop :=
  ∀ k x, m !! k = Some x ↔ ∃ p, p ∈ l ∧ key p.1 = k ∧ record_of p = x.

Lemma collected_delete m l f :
  collected m l → collected (delete f m) (filter (λ p, key p.1 ≠ f) l).
Proof.
  intros H k x. rewrite lookup_delete_Some, (H k x). split.
  - intros (Hne & p & Hp & <- & Hx). exists p. rewrite list_elem_of_filter. eauto.
  - intros (p & [Hne Hp]%list_elem_of_filter & <- & Hx). eauto.
Qed.

Lemma collected_insert m l p :
  collected m l → collected (<[key p.1 := record_of p]> m) (filter (λ q, key q.1 ≠ key p.1) l ++ [p]).
Proof.
  intros H k x. rewrite lookup_insert_Some, (H k x). split.
  - intros [[<- <-]|(Hne & q & Hq & <- & Hx)].
    + exists p. rewrite elem_of_app, list_elem_of_singleton. auto.
    + exists q. rewrite elem_of_app, list_elem_of_filter. auto.
  - intros (q & [[Hne Hq]%list_elem_of_filter| ->%list_elem_of_singleton]%elem_of_app & <- & Hx);
      [right; split; [by intros ?|]; eauto|by left].
Qed.

Lemma collect_plain m seq fid size :
  0 ≤ seq < 2 ^ 64 - 1 → 0 < size < IndexPackedSentinel →
  collect_entry (mkCollecting m seq None) (mkEntry fid size 0) =
    Ok (mkCollecting (<[fid := mkCompact fid size 0 0 (seq + 1) false false]> m) (seq + 1) None).
Proof.
  intros Hseq Hs. unfold collect_entry. cbn [co_pending co_seq co_map].
  unfold IsJumpIndicator, IsPackedAnchor, IsTombstone. cbn [FID Size JumpCode].
  change (0 =? 0) with true. change (0 =? PackedAnchorCode) with false. cbn [negb andb orb].
  rewrite (proj2 (Z.eqb_neq size 0)) by lia. by rewrite u64_small by lia.
Qed.

Lemma collect_pair m seq first fid size :
  0 ≤ seq < 2 ^ 64 - 2 → 0 < size → IsJumpIndicator first || IsPackedAnchor first = true →
  foldM collect_entry (mkCollecting m seq None) [first; mkEntry fid size 0] =
    Ok (mkCollecting (<[FID first := mkCompact (FID first) size fid (JumpCode first) (seq + 1)
                          (negb (IsPackedAnchor first)) (IsPackedAnchor first)]> m) (seq + 2) None).
Proof.
  intros Hseq Hs Hfirst.
  assert (E : collect_entry (mkCollecting m seq None) first
    = Ok (mkCollecting m (u64 (seq + 1)) (Some (first, u64 (seq + 1)))))
    by (unfold collect_entry; cbn [co_pending co_seq co_map]; by rewrite Hfirst).
  cbn [foldM]. rewrite E. cbn [mbind res_bind]. unfold collect_entry. cbn [co_pending co_seq co_map JumpCode Size FID].
  change (0 =? 0) with true. rewrite (proj2 (Z.eqb_neq size 0)) by lia. cbn [negb orb mbind res_bind].
  u64_simpl. do 2 f_equal. lia.
Qed.

Lemma collect_group m seq g :
  0 ≤ seq → seq + 2 < 2 ^ 64 → group_ok g →
  foldM collect_entry (mkCollecting m seq None) (group_entries g) =
    Ok (mkCollecting (match g with GTomb f => delete f m
                      | _ => <[key g := record_of (g, seq + 1)]> m end)
          (seq + Z.of_nat (length (group_entries g))) None).
Proof.
  intros H0 Hseq Hg. destruct g as [fid size|a code fid size|fid size|fid]; cbn [group_entries].
  - cbn [foldM]. rewrite collect_plain by (lia || apply Hg). done.
  - destruct Hg as (? & ? & ? & ? & Hc & Hs). rewrite collect_pair; [|lia|lia|].
    + unfold IsPackedAnchor. cbn [Size JumpCode FID].
      change (IndexJumpSentinel =? IndexPackedSentinel) with false. by rewrite andb_false_r.
    + unfold IsJumpIndicator. cbn [JumpCode Size]. rewrite (proj2 (Z.eqb_neq code 0)) by lia. done.
  - destruct Hg as (? & ? & Hs). by rewrite collect_pair by (lia || done).
  - cbn [foldM]. unfold collect_entry. cbn [co_pending co_seq co_map].
    change (IsJumpIndicator _ || IsPackedAnchor _) with false. change (IsTombstone _) with true.
    cbn [FID mbind res_bind length]. by rewrite u64_small by lia.
Qed.

Definition seq_lt (p q : group * Z) : Prop := p.2 < q.2.

Record tagged_ok (l : list (group * Z)) (seq : Z) (m : gmap Z compactRecord) : Prop := {
  tg_map : collected m l;
  tg_sorted : StronglySorted seq_lt l;
  tg_bound : Forall (λ p, p.2 ≤ seq) l
}.

Lemma StronglySorted_filter {A} (R : A → A → Prop) (P : A → Prop) `{∀ x, Decision (P x)} l :
  StronglySorted R l → StronglySorted R (filter P l).
Proof.
  induction 1 as [|x l Hs IH Hx]; [constructor|]. rewrite filter_cons. case_decide; [|done].
  constructor; [done|]. rewrite Forall_forall in *. intros y [_ Hy]%list_elem_of_filter. auto.
Qed.

Lemma tagged_drop f l seq seq' m :
  tagged_ok l seq m → seq ≤ seq' → tagged_ok (filter (λ p, key p.1 ≠ f) l) seq' (delete f m).
Proof.
  intros [Hm Hs Hb] Hle. split; [by apply collected_delete|by apply StronglySorted_filter|].
  rewrite Forall_forall in *. intros p [_ Hin]%list_elem_of_filter. apply Hb in Hin. lia.
Qed.

Lemma tagged_add g l seq seq' m :
  tagged_ok l seq m → seq + 1 ≤ seq' →
  tagged_ok (filter (λ p, key p.1 ≠ key g) l ++ [(g, seq + 1)]) seq' (<[key g := record_of (g, seq + 1)]> m).
Proof.
  intros [Hm Hs Hb] Hle. split; [by apply (collected_insert m l (g, seq + 1))| |].
  - apply StronglySorted_app. split; [|split; [by apply StronglySorted_filter|repeat constructor]].
    intros p q [_ Hin]%list_elem_of_filter ->%list_elem_of_singleton. rewrite Forall_forall in Hb.
    apply Hb in Hin. unfold seq_lt. cbn [snd]. lia.
  - apply Forall_app. split; [|by repeat constructor].
    rewrite Forall_forall in *. intros p [_ Hin]%list_elem_of_filter. apply Hb in Hin. lia.
Qed.

Lemma collect_log gs :
  Forall group_ok gs → Z.of_nat (length (log_of gs)) < 2 ^ 63 →
  ∃ m, foldM collect_entry collecting0 (log_of gs) = Ok (mkCollecting m (tagged gs).2 None) ∧
    tagged_ok (tagged gs).1 (tagged gs).2 m.
Proof.
  induction gs as [|g gs IH] using rev_ind; intros Hg Hlen.
  { exists ∅. split; [done|]. split; [|constructor|constructor]. intros k x.
    rewrite lookup_empty. split; [done|]. intros (p & Hp & _). by apply not_elem_of_nil in Hp. }
  apply Forall_app in Hg as [Hg Hgg]. inversion Hgg as [|? ? Hok _]; subst.
  rewrite log_of_snoc, length_app in Hlen.
  destruct IH as (m & Hfold & Ht); [done|lia|]. pose proof (tagged_snd gs) as Hsnd.
  rewrite log_of_snoc, foldM_app, Hfold. cbn [mbind res_bind]. rewrite collect_group; [|rewrite Hsnd; lia|rewrite Hsnd; lia|done].
  eexists. split; [do 2 f_equal; unfold tagged; rewrite foldl_snoc; fold (tagged gs);
    rewrite (surjective_pairing (tagged gs)); done|].
  unfold tagged. rewrite foldl_snoc. fold (tagged gs). destruct (tagged gs) as [l s].
  cbn [tag_step fst snd] in *.
  destruct g; try (apply tagged_add; [done|cbn [group_entries length]; lia]).
  apply tagged_drop with s; [done|lia].
Qed.

(** ** Sorting and counting *)
#[export] Instance seq_le_total : Total seq_le.
Proof. intros a b. unfold seq_le. lia. Qed.
#[export] Instance seq_le_trans : Transitive seq_le.
Proof. intros a b c. unfold seq_le. lia. Qed.

Lemma group_record_seq p : lr_Seq (group_record p) = p.2.
Proof. unfold group_record, latest_record, record_of. by destruct p as [[] s]. Qed.

Lemma tagged_seq_inj l p q : StronglySorted seq_lt l → p ∈ l → q ∈ l → p.2 = q.2 → p = q.
Proof.
  induction 1 as [|x l Hs IH Hx]; [by intros ?%not_elem_of_nil|]. rewrite Forall_forall in Hx.
  intros [->|Hp]%elem_of_cons [->|Hq]%elem_of_cons Heq; auto; exfalso.
  - apply Hx in Hq. unfold seq_lt in Hq. lia.
  - apply Hx in Hp. unfold seq_lt in Hp. lia.
Qed.

Lemma tagged_records l seq m :
  tagged_ok l seq m → NoDup (key ∘ fst <$> l) →
  sort_records (latest_record <$> (map_to_list m).*2) = group_record <$> l.
Proof.
  intros [Hm Hs _] Hk.
  assert (Hp : map_to_list m ≡ₚ (λ p, (key p.1, record_of p)) <$> l).
  { apply NoDup_Permutation; [apply NoDup_map_to_list| |].
    - eapply NoDup_fmap_1 with (f := fst). by rewrite <- list_fmap_compose.
    - intros [k x]. rewrite elem_of_map_to_list, (Hm k x), list_elem_of_fmap.
      split; [intros (p & Hin & <- & <-)|intros (p & [= -> ->] & Hin)]; eauto. }
  assert (Hl : latest_record <$> (map_to_list m).*2 ≡ₚ group_record <$> l).
  { rewrite Hp, <- !list_fmap_compose. done. }
  assert (Hsort : StronglySorted seq_le (group_record <$> l)).
  { clear -Hs. induction Hs as [|p l Hs IH Hp]; [constructor|]. cbn. constructor; [done|].
    rewrite Forall_forall in Hp. apply Forall_forall.
    intros r (q & -> & Hq)%list_elem_of_fmap. apply Hp in Hq. unfold seq_le. rewrite !group_record_seq. unfold seq_lt in Hq. lia. }
  apply StronglySorted_unique_strong with seq_le; [|apply StronglySorted_merge_sort; apply _|done|].
  - intros a b. unfold sort_records. rewrite merge_sort_Permutation, Hl.
    intros (p & -> & Hp')%list_elem_of_fmap (q & -> & Hq)%list_elem_of_fmap.
    unfold seq_le. rewrite !group_record_seq. intros. f_equal.
    apply (tagged_seq_inj l); [done..|lia].
  - unfold sort_records. by rewrite merge_sort_Permutation.
Qed.

(** The entries of a record are those of its group. *)
Lemma entries_of_group g s :
  (∀ f, g ≠ GTomb f) → entries_of (group_record (g, s)) = entry_fields <$> group_entries g.
Proof. intros Hnt. destruct g as [| | |f]; [done..|]. by destruct (Hnt f). Qed.

Lemma record_entries_group g s :
  record_entries (group_record (g, s)) = Z.of_nat (length (group_entries g)).
Proof. by destruct g. Qed.

Lemma count_entries_log l n :
  0 ≤ n → n + Z.of_nat (length (log_of l.*1)) < 2 ^ 64 →
  foldl (λ n r, u64 (n + record_entries r)) n (group_record <$> l) = n + Z.of_nat (length (log_of l.*1)).
Proof.
  revert n. induction l as [|[g s] l IH]; intros n Hn Hlt; [cbn; lia|].
  cbn [fmap list_fmap foldl fst] in *. unfold log_of in *. cbn [fmap list_fmap concat] in *.
  rewrite length_app in *. rewrite record_entries_group, u64_small by lia. rewrite IH by lia. lia.
Qed.

Lemma length_log_live gs : (length (log_of (live gs)) ≤ length (log_of gs))%nat.
Proof.
  unfold live. induction gs as [|g gs IH] using rev_ind; [done|].
  rewrite foldl_snoc, log_of_snoc, length_app.
  assert (Hd : ∀ f l, (length (log_of (drop_key f l)) ≤ length (log_of l))%nat).
  { intros f l. unfold drop_key, log_of. induction l as [|g' l IHl]; [done|]. rewrite filter_cons.
    case_decide; cbn [fmap list_fmap concat]; rewrite ?length_app; lia. }
  specialize (Hd (key g) (foldl live_step [] gs)).
  destruct g; cbn [live_step]; rewrite ?log_of_snoc, ?length_app; cbn [key] in *; lia.
Qed.

(** Collecting an index gives the records of its live groups, in order. *)
Lemma latest_records_log gs m :
  Z.of_nat (length (log_of gs)) ≤ index_capacity → tagged_ok (tagged gs).1 (tagged gs).2 m →
  NoDup (key <$> live gs) →
  latest_records m = Ok (group_record <$> (tagged gs).1).
Proof.
  intros Hcap Ht Hk. pose proof (length_log_live gs) as Hle. pose proof (tagged_fst gs) as Hfst.
  unfold latest_records. rewrite (tagged_records _ _ _ Ht)
    by (by rewrite list_fmap_compose, Hfst).
  unfold count_entries. rewrite count_entries_log by (rewrite ?Hfst; unfold index_capacity in Hcap; lia).
  rewrite Hfst. pose proof index_capacity_eq as Hce. unfold IndexEntrySize, index_capacity in *.
  rewrite u64_small by lia. destruct (Z.ltb_spec IndexBytes ((0 + Z.of_nat (length (log_of (live gs)))) * 16));
    [lia|done].
Qed.

Lemma live_keys d l : live_ok d l → NoDup (key <$> l).
Proof.
  intros [Hg Hc]. eapply sublist_NoDup; [exact Hc|]. clear Hc.
  induction Hg as [|g l (_ & _ & Hnt) Hg IH]; [done|]. cbn [fmap list_fmap]. rewrite bind_cons.
  destruct g as [| | |f]; cbn; try (by constructor); [by apply sublist_skip, sublist_cons|].
  by destruct (Hnt f).
Qed.

(** ** Validating *)
Lemma validate_group seen g :
  group_ok g → (∀ f, g ≠ GTomb f) → key g ∉ seen →
  foldM validate_entry (seen, None) (group_entries g) = Ok ({[key g]} ∪ seen, None).
Proof.
  intros Hg Hnt Hk. destruct g as [fid size|a code fid size|fid size|fid]; cbn [group_entries key] in *.
  - destruct Hg as [Hf Hs]. cbn [foldM]. unfold validate_entry, IsJumpIndicator, IsPackedAnchor, IsTombstone.
    cbn [FID Size JumpCode]. change (0 =? 0) with true. change (0 =? PackedAnchorCode) with false.
    rewrite (proj2 (Z.eqb_neq size 0)) by lia. cbn [negb andb orb].
    by rewrite bool_decide_eq_false_2.
  - destruct Hg as (? & ? & ? & ? & Hc & Hs). cbn [foldM].
    unfold validate_entry, IsJumpIndicator. cbn [FID Size JumpCode].
    rewrite (proj2 (Z.eqb_neq code 0)) by lia. change (0 =? 0) with true.
    change (IndexJumpSentinel =? IndexJumpSentinel) with true.
    rewrite (proj2 (Z.eqb_neq size 0)) by lia. cbn [negb andb orb mbind res_bind].
    by rewrite bool_decide_eq_false_2.
  - destruct Hg as (? & ? & Hs). cbn [foldM]. unfold validate_entry.
    change (IsJumpIndicator (mkEntry fid IndexPackedSentinel PackedAnchorCode) ||
      IsPackedAnchor (mkEntry fid IndexPackedSentinel PackedAnchorCode)) with true.
    cbn [FID Size JumpCode mbind res_bind]. change (0 =? 0) with true.
    rewrite (proj2 (Z.eqb_neq size 0)) by lia. cbn [negb andb orb mbind res_bind].
    by rewrite bool_decide_eq_false_2.
  - by destruct (Hnt fid).
Qed.

Lemma validate_log d l :
  live_ok d l → foldM validate_entry (∅, None) (log_of l) = Ok (list_to_set (key <$> l), None).
Proof.
  intros Hl. pose proof (live_keys d l Hl) as Hk. destruct Hl as [Hg _].
  induction l as [|g l IH] using rev_ind; [done|].
  apply Forall_app in Hg as [Hg Hgg]. inversion Hgg as [|? ? (Hok & _ & Hnt) _]; subst.
  rewrite fmap_app in Hk. apply NoDup_app in Hk as (Hk & Hdis & _).
  rewrite log_of_snoc, foldM_app, IH by done. cbn [mbind res_bind]. rewrite validate_group; [|done..|].
  - do 2 f_equal. rewrite fmap_app, list_to_set_app_L. set_solver.
  - rewrite elem_of_list_to_set. intros Hin. apply (Hdis _ Hin). cbn. by left.
Qed.

(** ** Short indexes *)

(** Few enough entries for one chunk of [scanIndexStream]. *)
Definition short_log (gs : list group) : Prop := Z.of_nat (length (log_of gs)) < chunk_entries.

(** The records of an index that replays. *)
Lemma collect_index d f gs st :
  f_faults f = [] → GridStart ≤ f_size f → index_log (f_data f) (log_of gs) → log_ok gs → short_log gs →
  foldM (replay_entry d) rstate0 (log_of gs) = Ok st →
  CollectLatestIndexRecords f = (Ok (group_record <$> (tagged gs).1), f).
Proof.
  intros Hf Hs Hl Hlog Hshort Hre. destruct (replay_live d gs st Hlog Hre) as [Hlive _].
  pose proof (log_capacity _ _ Hl) as Hcap.
  destruct (collect_log gs) as (m & Hcol & Htag); [apply Hlog|unfold index_capacity in Hcap; lia|].
  unfold CollectLatestIndexRecords. unfold mbind at 1, M_bind.
  unfold scanIndexStream at 1. unfold mbind at 1, M_bind.
  rewrite (scan_stream_log _ _ _ _ _ (log_of gs)); [|done|done|done|by left].
  rewrite Hcol. cbn [mbind res_bind]. unfold mret at 1, M_ret. unfold mlift. cbn [co_map].
  by rewrite (latest_records_log gs) by (done || by eapply live_keys).
Qed.

Lemma validate_index d f l :
  f_faults f = [] → GridStart ≤ f_size f → index_log (f_data f) (log_of l) → live_ok d l → short_log l →
  ValidateCompacted f = (Ok tt, f).
Proof.
  intros Hf Hs Hl Hlive Hshort.
  unfold ValidateCompacted. unfold mbind at 1, M_bind. unfold scanIndexStream. unfold mbind at 1, M_bind.
  rewrite (scan_stream_log _ _ _ _ _ (log_of l)); [|done|done|done|by left].
  by rewrite (validate_log d).
Qed.

(** ** Writing *)

(** A file that takes writes: it grows, and nothing fails. *)
Definition growing (f : file) : Prop := f_grow f = true ∧ f_faults f = [].

Lemma must_write_grow b off f :
  growing f → 0 ≤ off → 0 ≤ blen b →
  ∃ f', must_write b off f = (Ok tt, f') ∧ growing f' ∧
    (∀ a, f_data f' a = upd (f_data f) off b a) ∧ f_size f' = Z.max (f_size f) (off + blen b).
Proof.
  intros [Hg Hf] Hoff Hb. unfold must_write, WriteAt, next_fault. rewrite Hf, Hg.
  destruct (Z.ltb_spec off 0); [lia|]. rewrite Z.ltb_irrefl. eexists. split; [done|].
  split; [done|]. split.
  - intros a. rewrite f_data_write. apply upd_slice_full.
  - unfold f_write. cbn [f_size]. rewrite Hg. cbn [blen buf_slice]. by rewrite Z.sub_0_r.
Qed.

(** The state after a run of writes: [g] is the contents, [n] the size. *)
Definition holds_data (f : file) (g : Z → byte) (n : Z) : Prop :=
  growing f ∧ (∀ a, f_data f a = g a) ∧ f_size f = n.

Lemma upd_ext g g' off b a : g a = g' a → upd g off b a = upd g' off b a.
Proof. intros H. unfold upd. by destruct (_ && _). Qed.

Lemma upd_app g off l1 l2 a :
  upd g off (buf_of (l1 ++ l2)) a = upd (upd g off (buf_of l1)) (off + Z.of_nat (length l1)) (buf_of l2) a.
Proof.
  unfold upd, buf_of. cbn [blen bat]. rewrite length_app.
  destruct (Z.leb_spec off a), (Z.ltb_spec a (off + Z.of_nat (length l1 + length l2))),
    (Z.leb_spec (off + Z.of_nat (length l1)) a),
    (Z.ltb_spec a (off + Z.of_nat (length l1) + Z.of_nat (length l2))),
    (Z.ltb_spec a (off + Z.of_nat (length l1))); cbn [andb]; try lia; try done;
    f_equal; rewrite ?lookup_app_l by lia; rewrite ?lookup_app_r by lia; try done; f_equal; lia.
Qed.

(** An entry the program can build. *)
Definition buildable (e : IndexEntry) : Prop :=
  BuildIndexEntry (FID e) (Size e) (JumpCode e) = Ok (entry_bytes e).

Lemma write_entries_ok es offset count f g n :
  Forall buildable es → holds_data f g n → 0 ≤ offset → offset ≤ n →
  ∃ f', write_entries (entry_fields <$> es) offset count f
      = (Ok (offset + 16 * Z.of_nat (length es), count + Z.of_nat (length es)), f') ∧
    holds_data f' (upd g offset (buf_of (encode_entries es))) (Z.max n (offset + 16 * Z.of_nat (length es))).
Proof.
  intros Hb. revert offset count f g n. induction Hb as [|e es He Hb IH]; intros offset count f g n (Hg & Hd & Hn) Ho Hle.
  - exists f. cbn. rewrite !Z.add_0_r, Z.max_l by lia. split; [done|]. split; [done|]. split; [|done].
    intros a. rewrite upd_out by (cbn; lia). done.
  - cbn [fmap list_fmap entry_fields write_entries]. unfold write_entry, mlift. unfold mbind at 1 2, M_bind.
    rewrite He. destruct (must_write_grow (buf_of (entry_bytes e)) offset f Hg) as (f1 & -> & Hg1 & Hd1 & Hn1);
      [done|cbn; lia|].
    assert (Hlen : blen (buf_of (entry_bytes e)) = 16) by (cbn [buf_of blen]; by rewrite length_entry_bytes).
    rewrite Hlen in Hn1.
    destruct (IH (offset + 16) (count + 1) f1 (upd g offset (buf_of (entry_bytes e))) (Z.max n (offset + 16)))
      as (f' & Hw & Hg' & Hd' & Hn'); [|lia|lia|].
    { split; [done|]. split; [|lia]. intros a. rewrite Hd1. by apply upd_ext. }
    exists f'. unfold IndexEntrySize. rewrite Hw. cbn [length]. split; [do 2 f_equal; f_equal; lia|].
    split; [done|]. split; [|lia]. intros a. rewrite Hd'.
    change (encode_entries (e :: es)) with (entry_bytes e ++ encode_entries es).
    rewrite upd_app, length_entry_bytes. done.
Qed.

Lemma write_records_ok l offset count f g n :
  Forall (λ p, Forall buildable (group_entries p.1) ∧ ∀ f, p.1 ≠ GTomb f) l →
  holds_data f g n → 0 ≤ offset → offset ≤ n →
  ∃ f', write_records (group_record <$> l) offset count f
      = (Ok (count + Z.of_nat (length (log_of l.*1))), f') ∧
    holds_data f' (upd g offset (buf_of (encode_entries (log_of l.*1))))
      (Z.max n (offset + 16 * Z.of_nat (length (log_of l.*1)))).
Proof.
  intros Hb. revert offset count f g n.
  induction Hb as [|[e s] l [He Hnt] Hb IH]; intros offset count f g n Hf Ho Hle.
  - exists f. destruct Hf as (Hg & Hd & Hn). cbn. rewrite !Z.add_0_r, Z.max_l by lia.
    split; [done|]. split; [done|]. split; [|done]. intros a. by rewrite upd_out by (cbn; lia).
  - cbn [fmap list_fmap fst write_records] in *. rewrite entries_of_group by done.
    unfold log_of. cbn [fmap list_fmap concat]. fold (log_of l.*1).
    destruct (write_entries_ok (group_entries e) offset count f g n) as (f1 & Hw1 & Hf1); [done..|].
    unfold mbind at 1, M_bind. rewrite Hw1.
    destruct (IH (offset + 16 * Z.of_nat (length (group_entries e)))
      (count + Z.of_nat (length (group_entries e))) f1 _ _ Hf1) as (f' & Hw & Hg' & Hd' & Hn'); [lia|lia|].
    exists f'. rewrite Hw, length_app. split; [do 2 f_equal; lia|]. split; [done|]. split; [|lia].
    intros a. rewrite Hd', encode_entries_app, upd_app, length_encode_entries. unfold upd.
    rewrite !Nat2Z.inj_mul. done.
Qed.

Lemma zeroFill_ok start_ end_ f g n :
  holds_data f g n → 0 ≤ start_ → start_ ≤ n →
  ∃ f', zeroFill start_ end_ f = (Ok tt, f') ∧
    holds_data f' (λ a, if (start_ <=? a) && (a <? end_) then x00 else g a) (Z.max n end_).
Proof.
  intros (Hg & Hd & Hn) H0 Hle. unfold zeroFill. destruct (Z.leb_spec end_ start_) as [He|He].
  { exists f. split; [done|]. split; [done|]. split; [|lia]. intros a. rewrite Hd.
    destruct (Z.leb_spec start_ a), (Z.ltb_spec a end_); try done; lia. }
  match goal with |- ∃ f', ?m f = _ ∧ _ => set (run := m) end.
  enough (∃ f', run f = (Ok tt, f') ∧ holds_data f' (λ a, if (start_ <=? a) && (a <? end_) then x00 else g a)
    (Z.max n end_)) by done.
  assert (H : (λ r f', r = Ok tt ∧ holds_data f' (λ a, if (start_ <=? a) && (a <? end_) then x00 else g a)
    (Z.max n end_)) (run f).1 (run f).2).
  2:{ destruct (run f) as [r f'] eqn:E. cbn [fst snd] in H. destruct H as [-> H]. eauto. }
  unfold run. apply (mloop_total
    (λ o f', start_ ≤ o ≤ end_ ∧
       holds_data f' (λ a, if (start_ <=? a) && (a <? o) then x00 else g a) (Z.max n o))
    (λ o, end_ - o) (λ r f', r = Ok tt ∧ holds_data f'
       (λ a, if (start_ <=? a) && (a <? end_) then x00 else g a) (Z.max n end_))).
  - split; [lia|]. split; [done|]. split; [|lia]. intros a. rewrite Hd.
    destruct (Z.leb_spec start_ a), (Z.ltb_spec a start_); try done; lia.
  - rewrite Z2Pos.id by lia. lia.
  - intros o f1 [Ho (Hg1 & Hd1 & Hn1)] _. destruct (Z.ltb_spec o end_) as [Hlt|Hge].
    2:{ replace o with end_ in * by lia. done. }
    set (w := if end_ - o <? chunkSize then end_ - o else chunkSize).
    assert (Hw : 0 < w ≤ end_ - o) by (unfold w, chunkSize; destruct (Z.ltb_spec (end_ - o) (4 * 1024 * 1024)); lia).
    destruct (must_write_grow (zeros w) o f1 Hg1) as (f2 & -> & Hg2 & Hd2 & Hn2); [lia|cbn; lia|].
    cbn [blen zeros] in Hn2. split; [|lia]. split; [lia|]. split; [done|]. split; [|lia].
    intros a. rewrite Hd2. unfold upd. cbn [blen bat zeros]. rewrite Hd1.
    destruct (Z.leb_spec start_ a), (Z.ltb_spec a o), (Z.leb_spec o a), (Z.ltb_spec a (o + w));
      try done; lia.
Qed.

(** ** The file RunIndexCompact leaves *)
Definition new_file : file := File (λ _, x00) [] 0 true [].

Lemma group_buildable g : group_ok g → (∀ f, g ≠ GTomb f) → Forall buildable (group_entries g).
Proof.
  intros Hg Hnt.
  assert (Hplain : ∀ fid size, size < IndexPackedSentinel → buildable (mkEntry fid size 0)).
  { intros fid size Hs. apply BuildIndexEntry_plain. unfold IndexPackedSentinel, IndexJumpSentinel in *.
    cbn [Size]. lia. }
  destruct g as [fid size|a code fid size|fid size|fid]; cbn [group_entries].
  - apply Forall_singleton, Hplain. apply Hg.
  - destruct Hg as (? & ? & ? & ? & Hc & Hs). apply Forall_cons; split; [|apply Forall_singleton, Hplain; lia].
    unfold buildable, BuildIndexEntry. cbn [FID Size JumpCode]. rewrite Z.ltb_irrefl, Z.eqb_refl.
    cbn [negb]. rewrite andb_false_r. unfold entry_bytes. cbn [FID Size JumpCode].
    by rewrite EncodeSize7_le.
  - destruct Hg as (? & ? & Hs). apply Forall_cons; split; [|apply Forall_singleton, Hplain; lia].
    unfold buildable, BuildIndexEntry. cbn [FID Size JumpCode].
    change (IndexJumpSentinel <? IndexPackedSentinel) with false.
    rewrite (Z.eqb_refl IndexPackedSentinel), Z.eqb_refl. cbn [negb orb andb].
    unfold entry_bytes. cbn [FID Size JumpCode]. rewrite EncodeSize7_le.
    by destruct (negb _ && _ && _) eqn:E.
  - by destruct (Hnt fid).
Qed.

Lemma group_entries_ok g :
  group_ok g → Forall (λ e, entry_ok e ∧ e ≠ zero_entry) (group_entries g).
Proof.
  intros Hg. unfold entry_ok, zero_entry, is_u64. destruct g; cbn [group_entries];
    unfold group_ok, is_u64, IndexPackedSentinel, IndexJumpSentinel, PackedAnchorCode in *;
    repeat constructor; cbn [FID Size JumpCode]; try lia; intros [=]; lia.
Qed.

Lemma log_entries_ok l : Forall group_ok l → Forall (λ e, entry_ok e ∧ e ≠ zero_entry) (log_of l).
Proof.
  unfold log_of. induction 1 as [|g l Hg Hl IH]; [constructor|]. cbn [fmap list_fmap concat].
  apply Forall_app. split; [by apply group_entries_ok|done].
Qed.

Lemma scannable_ext g g' es :
  (∀ a, IndexStart ≤ a < log_end es → g a = g' a) → scannable g es → scannable g' es.
Proof.
  intros H [Hs|Hs]; [by left|right]. intros a Ha1 Ha2. destruct (Hs a Ha1 Ha2) as (i & Hi & Hne).
  exists i. split; [done|]. rewrite <- H by lia. done.
Qed.

(** Writing the compacted index: the header, the live entries, zeros to the end of the region. *)
(** Something that zeroes the index after its [n] entries. *)
Definition fills (fill : Z → M file unit) : Prop := ∀ n f g m,
  holds_data f g m → 0 ≤ n ≤ index_capacity → IndexStart + n * IndexEntrySize ≤ m →
  ∃ f', fill n f = (Ok tt, f') ∧
    holds_data f' (λ a, if (IndexStart + n * IndexEntrySize <=? a) && (a <? GridStart) then x00 else g a)
      (Z.max m GridStart).

(** The header, the live groups and zeros behind them are an image of the compacted index. *)
Lemma write_image_ok gs l hb fill :
  fills fill → l.*1 = live gs → blen hb = HeaderBytes →
  Forall (λ p, Forall buildable (group_entries p.1) ∧ ∀ f, p.1 ≠ GTomb f) l →
  Forall group_ok (live gs) → Z.of_nat (length (log_of (live gs))) ≤ index_capacity →
  ∃ out, (must_write hb 0;; n ← WriteLatestIndexRecords (group_record <$> l); fill n) new_file = (Ok tt, out) ∧
    f_grow out = true ∧ f_faults out = [] ∧ f_size out = GridStart ∧
    (∀ a, 0 ≤ a < HeaderBytes → f_data out a = bat hb a) ∧
    (∀ a, IndexStart ≤ a < GridStart → f_data out a = image_of (log_of (live gs)) a).
Proof.
  intros Hfill Hfst Hh Hb Hok Hcap. pose proof index_capacity_eq as Hce.
  unfold mbind at 1 2, M_bind.
  destruct (must_write_grow hb 0 new_file) as (f1 & -> & Hg1 & Hd1 & Hn1);
    [done|lia|rewrite Hh; unfold HeaderBytes; lia|].
  destruct (write_records_ok l IndexStart 0 f1 (upd (λ _, x00) 0 hb) HeaderBytes) as (f2 & Hw2 & Hf2).
  { done. }
  { split; [done|]. split; [intros a; by rewrite Hd1|]. rewrite Hn1, Hh. done. }
  { by unfold IndexStart, HeaderBytes. }
  { by unfold IndexStart. }
  unfold WriteLatestIndexRecords. rewrite Hw2. rewrite Hfst in *.
  set (n := Z.of_nat (length (log_of (live gs)))) in *. set (es := log_of (live gs)) in *.
  destruct (Hfill (0 + n) f2 _ _ Hf2) as (out & Hz & ([Hgr Hfa] & Hd & Hn));
    [lia|unfold IndexStart, HeaderBytes, IndexEntrySize; lia|].
  exists out. split; [exact Hz|]. split; [done|]. split; [done|].
  unfold IndexBytes, IndexStart, HeaderBytes, GridStart, IndexEntrySize, index_capacity in *.
  split; [rewrite Hn; lia|].
  assert (Hlen : blen (buf_of (encode_entries es)) = 16 * n)
    by (cbn [buf_of blen]; rewrite length_encode_entries; lia).
  split; intros a Ha; rewrite Hd.
  - destruct (Z.leb_spec (4096 + (0 + n) * 16) a); [lia|]. cbn [andb]. rewrite upd_out by lia.
    rewrite upd_in by lia. f_equal. lia.
  - unfold image_of. destruct (Z.leb_spec (4096 + (0 + n) * 16) a).
    + destruct (Z.ltb_spec a 0x10000000); [|lia]. cbn [andb].
      rewrite upd_out; [done|]. unfold IndexStart, HeaderBytes. rewrite Hlen. lia.
    + cbn [andb]. by rewrite !upd_in by (unfold IndexStart, HeaderBytes; lia).
Qed.

Lemma zeroFill_fills : fills (λ n, zeroFill (IndexStart + n * IndexEntrySize) GridStart).
Proof. intros n f g m Hf Hn Hm. apply zeroFill_ok; [done| |done]. unfold IndexStart, HeaderBytes, IndexEntrySize in *. lia. Qed.

Section run.
Context (d : Z) (gs : list group) (st : rstate) (input : file) (header : Header) (path : string).
Context (open create : string → res file).

(** The conditions of [bsos index compact]: a path that is not blank, an image that opens and reads without
    faults and holds a valid header and the whole index region, an output that can be created, an index
    [gs] in the grammar of [log_ok] that replays to [st], and neither the index nor its compacted one cut
    short by the zero-run test. *)
Record compactable : Prop := {
  ca_path : TrimSpace path ≠ EmptyString;
  ca_open : open path = Ok input;
  ca_create : create (compactedPath path) = Ok new_file;
  ca_faults : f_faults input = [];
  ca_size : GridStart ≤ f_size input;
  ca_header : ParseHeader (region (f_data input) 0 HeaderBytes) = Ok header;
  ca_log : index_log (f_data input) (log_of gs);
  ca_ok : log_ok gs;
  ca_scan : scannable (f_data input) (log_of gs);
  ca_scan_out : scannable (image_of (log_of (live gs))) (log_of (live gs));
  ca_replay : foldM (replay_entry d) rstate0 (log_of gs) = Ok st
}.

Lemma compact_outcome :
  compactable →
  ∃ out, RunIndexCompact path open create = (compactExitOK, Some out) ∧
    f_size out = GridStart ∧
    (∀ a, 0 ≤ a < HeaderBytes → f_data out a = f_data input a) ∧
    index_log (f_data out) (log_of (live gs)) ∧
    foldM (replay_entry d) rstate0 (log_of (live gs)) = Ok st.
Proof.
  intros [Hpath Hopen Hcreate Hfl Hsize Hhead Hlog Hok Hsc Hsco Hre].
  destruct (replay_live d gs st Hok Hre) as [Hl ->]. pose proof (log_capacity _ _ Hlog) as Hcap.
  destruct (collect_log gs) as (m & Hcol & Htag); [apply Hok|unfold index_capacity in Hcap; lia|].
  pose proof (length_log_live gs) as Hlen.
  assert (Hgs : Forall group_ok (live gs)).
  { eapply Forall_impl; [apply (li_groups _ _ Hl)|]. by intros g []. }
  destruct (write_image_ok gs (tagged gs).1 (region (f_data input) 0 HeaderBytes) _ zeroFill_fills)
    as (out & Hw & _ & Hof & Hos & Hoh & Hoi); [apply tagged_fst|done| |done|lia|].
  { apply Forall_forall. intros p Hp. assert (p.1 ∈ live gs) as Hin
      by (rewrite <- tagged_fst; by apply list_elem_of_fmap_2).
    pose proof (li_groups _ _ Hl) as Hlg. rewrite Forall_forall in Hlg.
    destruct (Hlg _ Hin) as (? & _ & ?). split; [by apply group_buildable|done]. }
  assert (Holog : index_log (f_data out) (log_of (live gs))).
  { eapply index_log_ext; [|apply image_of_log; [by apply log_entries_ok|lia]].
    intros a Ha. by rewrite Hoi. }
  exists out. split; [|split; [done|]; split; [|split; [done|by apply replay_live_groups]]].
  - unfold RunIndexCompact. rewrite bool_decide_eq_false_2 by done. rewrite Hopen.
    destruct (Z.ltb_spec (f_size input) GridStart); [lia|].
    unfold read_header. rewrite ReadAt_ok by (done || unfold HeaderBytes; lia || unfold HeaderBytes, GridStart in *; lia).
    rewrite Hhead. unfold CollectLatestIndexRecords. unfold mbind at 1, M_bind.
    unfold scanIndexStream at 1. unfold mbind at 1, M_bind.
    rewrite (scan_stream_log _ _ _ _ _ (log_of gs)) by done. rewrite Hcol. cbn [mbind res_bind].
    unfold mret at 1, M_ret. unfold mlift. cbn [co_map].
    rewrite (latest_records_log gs) by (done || by eapply live_keys). rewrite Hcreate.
    unfold write_compacted. rewrite Hw.
    unfold ValidateCompacted. unfold mbind at 1, M_bind. unfold scanIndexStream. unfold mbind at 1, M_bind.
    rewrite (scan_stream_log _ _ _ _ _ (log_of (live gs))); [|done|lia|done|].
    + by rewrite (validate_log d).
    + intros _. eapply scannable_ext; [|exact Hsco]. intros a Ha. rewrite Hoi; [done|].
      unfold log_end, IndexStart, HeaderBytes, GridStart, index_capacity in *. lia.
  - intros a Ha. by rewrite Hoh.
Qed.
End run.

(** C19: [bsos index compact].  The path is not blank, the image opens and reads without faults, holds a
    valid header and the whole index region, and the output can be created.  The index is a sequence of
    plain objects, alias pairs, tables behind their anchor, and tombstones, with sizes the format can tell
    from its marks; a tombstone only names a fid that no alias pair and no anchor of the index has, and a
    table is anchored once and is in no alias pair.  The index replays on a disk of [d] bytes; and both it
    and its live part have fewer than 262144 entries or no 16 zero bytes in a row, so that the zero-run
    test of the scan does not cut them short.  Then the command succeeds and leaves a file of the size of
    the index region with the same header, whose index is exactly the groups that no later group replaced
    or removed, and replaying it gives the maps the original index gives.  (Excluded are, among
    others, an alias pair whose target a later tombstone removes, and a long index with such a run, of
    which the command drops entries: [IndexScan.zero_run_truncates_scan].) *)
Theorem compact_preserves_replay d gs st input header path open create :
  compactable d gs st input header path open create →
  ∃ out, RunIndexCompact path open create = (compactExitOK, Some out) ∧
    f_size out = GridStart ∧
    (∀ a, 0 ≤ a < HeaderBytes → f_data out a = f_data input a) ∧
    index_log (f_data out) (log_of (live gs)) ∧
    foldM (replay_entry d) rstate0 (log_of (live gs)) = Ok st.
Proof. apply compact_outcome. Qed.

Definition sample_groups : list group :=
  [GPlain 5 100; GAlias 9 3 6 50; GPlain 7 60; GTomb 5; GTable 11 4096; GTomb 7; GPlain 5 200].
Definition sample_live : list group := [GAlias 9 3 6 50; GTable 11 4096; GPlain 5 200].
Definition sample_input : file :=
  plain_file (upd (image_of (log_of sample_groups)) 0 (buildHeader 1 7 [])) sample_disk.
Definition sample_state : rstate := state_of sample_disk sample_live.

Lemma sample_compactable :
  compactable sample_disk sample_groups sample_state sample_input
    (mkHeader 2 1 7 0) "disk.nbssIndex" (λ _, Ok sample_input) (λ _, Ok new_file).
Proof.
  assert (Hok : Forall group_ok sample_groups).
  { repeat constructor; cbn; unfold is_u64, IndexPackedSentinel; lia. }
  split; try done.
  - eapply index_log_ext; [|apply image_of_log; [by apply log_entries_ok|vm_compute; done]].
    intros a Ha. unfold f_data. cbn. rewrite upd_out; [done|]. right. unfold buildHeader. cbn. llia.
  - split; [done|by apply (bool_decide_unpack _); vm_compute|..]; cbn; intros f Hf; set_solver.
  - by left.
  - by left.
Qed.

Lemma compact_preserves_replay_witness :
  ∃ out, RunIndexCompact "disk.nbssIndex" (λ _, Ok sample_input) (λ _, Ok new_file)
      = (compactExitOK, Some out) ∧
    f_size out = GridStart ∧
    (∀ a, 0 ≤ a < HeaderBytes → f_data out a = f_data sample_input a) ∧
    index_log (f_data out) (log_of (live sample_groups)) ∧
    foldM (replay_entry sample_disk) rstate0 (log_of (live sample_groups)) = Ok sample_state.
Proof. exact (compact_preserves_replay _ _ _ _ _ _ _ _ sample_compactable). Defined.
