(* ===== verification/Backup.v ===== *)
(** * Backing up and restoring an index (internal/blk: index_backup.go, index_restore.go)

    The two commands that copy the header and the index region of a device to a file and back, and
    the copy loop of Go's [io.CopyBuffer] over a section, which the trim uses too.  What the
    operating system answers (stat, open, the size of a block device) is an argument.  Restoring the
    backup of a disk brings back the header and every entry of the index. *)

From S2P Require Import Prelude Machine Loop Device Layout IndexScan PackedTable Interval Replay.
From S2P Require Import DirectIO DeviceState DeviceInv DeviceOps DiskStore Text Path Compact CompactRun.
From Stdlib Require Import Strings.Byte.

(** ** Copying *)
Definition copyChunk : Z := 1048576.

(** [io.CopyBuffer] from an [io.NewSectionReader] of [n] bytes at 0 to a writer at 0. *)
Definition copy_section (n : Z) : M (file * file) unit :=
  mloop (Z.to_pos (n + 1)) (λ off '(src, dst),
    if n <=? off then (Ok (inr tt), (src, dst)) else
    let '((b, rerr), src) := ReadAt off (Z.min copyChunk (n - off)) src in
    if 0 <? blen b then
      let '((nw, werr), dst) := WriteAt b off dst in
      match werr with
      | Some e => (Err e, (src, dst))
      | None =>
          if negb (nw =? blen b) then (Err EShortWrite, (src, dst)) else
          match rerr with
          | Some e => (if errors_Is e EEOF then Ok (inr tt) else Err e, (src, dst))
          | None => (Ok (inl (off + blen b)), (src, dst))
          end
      end
    else match rerr with
         | Some e => (if errors_Is e EEOF then Ok (inr tt) else Err e, (src, dst))
         | None => (Ok (inl off), (src, dst))
         end) 0.

(** ** Opening a device

    What the operating system answers for a path: [os.Stat] with the block-device bit,
    [os.Open], [Stat] on the open file and [DeviceSizeBytes]. *)
Record os_device := mkOsDevice {
  od_stat : res bool;      (* it is a block device *)
  od_open : res file;
  od_fstat : option error;
  od_bytes : res Z
}.

(** The first part of the two commands, up to the size of the device. *)
Inductive open_failure := OStat (e : error) | OPermission | OOpen (e : error) | OFstat (e : error)
  | OSize (e : error) | OSmall.

Definition open_device (root : bool) (od : os_device) : file + open_failure :=
  match od_stat od with
  | Err e => inr (OStat e)
  | Ok block =>
      if block && negb root then inr OPermission else
      match od_open od with
      | Err e => inr (OOpen e)
      | Ok f =>
          match od_fstat od with
          | Some e => inr (OFstat e)
          | None =>
              match od_bytes od with
              | Err e => inr (OSize e)
              | Ok diskBytes => if diskBytes <? GridStart then inr OSmall else inl f
              end
          end
      end
  end.

Definition ErrPermission : error := EMsg "permission denied".

Definition open_error (o : open_failure) : error :=
  match o with
  | OStat e | OOpen e | OFstat e | OSize e => e
  | OPermission => ErrPermission
  | OSmall => EMsg "disk too small"
  end.

(** ** Backup *)

(** The error and the file written.  [mkdir] is [os.MkdirAll], [create] is [os.OpenFile]. *)
Definition BackupDeviceIndexToPathVerbose (root : bool) (od : os_device) (dev : PanDevice)
    (mkdir : option error) (create : res file) : option error * option file :=
  match open_device root od with
  | inr o => (Some (open_error o), None)
  | inl f =>
      match read_header f with
      | (Err e, _) => (Some e, None)
      | (Ok headerBuf, f) =>
          match ParseHeader headerBuf with
          | Err e => (Some (EWrap "not nbss" ENotNBSS), None)
          | Ok header =>
              if negb (h_Version header =? FormatVersion) then (Some (EMsg "unsupported version"), None) else
              match ParseDiskID (DiskID dev) with
              | Err e => (Some e, None)
              | Ok wantID =>
                  if negb (h_DiskID header =? wantID) then (Some (EMsg "disk id mismatch"), None) else
                  match mkdir with
                  | Some e => (Some e, None)
                  | None =>
                      match create with
                      | Err e => (Some e, None)
                      | Ok out =>
                          match copy_section GridStart (f, out) with
                          | (Err e, (_, out)) => (Some e, Some out)
                          | (Ok _, (_, out)) => (None, Some out)
                          end
                      end
                  end
              end
          end
      end
  end.

Definition BackupDeviceIndexToPath := BackupDeviceIndexToPathVerbose.

(** The name a backup gets; [timestamp] is the formatted time. *)
Definition backup_path (dev : PanDevice) (timestamp outDir : string) : string :=
  Join outDir (String.append "index_" (String.append (NormalizeID (DiskID dev))
    (String.append "_" (String.append timestamp ".nbssIndex")))).

Definition backupExitOK : Z := 0.
Definition backupExitBadArgs : Z := 2.
Definition backupExitIO : Z := 3.
Definition backupExitPerm : Z := 4.
Definition backupExitNotNBSS : Z := 5.

(** The loop over the devices; the files are given by their paths. *)
Fixpoint backup_devices (root : bool) (timestamp : string) (od : PanDevice → os_device)
    (mkdir : option error) (create : string → res file) (devices : list PanDevice)
    (written : list (string * file)) : Z * list (string * file) :=
  match devices with
  | [] => (backupExitOK, written)
  | dev :: devices =>
      if negb (bool_decide (Status dev = EmptyString)) && negb (bool_decide (Status dev = "match"%string))
      then backup_devices root timestamp od mkdir create devices written else
      let path := backup_path dev timestamp "nbss_index_backup" in
      let '(err, out) := BackupDeviceIndexToPathVerbose root (od dev) dev mkdir (create path) in
      let written := written ++ match out with Some f => [(path, f)] | None => [] end in
      match err with
      | Some e => (if errors_Is e ErrPermission then backupExitPerm
                   else if errors_Is e ENotNBSS then backupExitNotNBSS else backupExitIO, written)
      | None => backup_devices root timestamp od mkdir create devices written
      end
  end.

(** [RunIndexBackup] after the flags are parsed; [panFile] is the decoded pan.json. *)
Definition RunIndexBackup (panFile : res (list PanDevice)) (diskID : string) (root : bool)
    (timestamp : string) (od : PanDevice → os_device) (mkdir : option error)
    (create : string → res file) : Z * list (string * file) :=
  match panFile with
  | Err _ => (backupExitIO, [])
  | Ok [] => (backupExitIO, [])
  | Ok all =>
      let devices := if bool_decide (TrimSpace diskID = EmptyString) then Ok all
                     else dev ← SelectDevice all diskID; Ok [dev] in
      match devices with
      | Err _ => (backupExitBadArgs, [])
      | Ok devices =>
          match mkdir with
          | Some _ => (backupExitIO, [])
          | None => backup_devices root timestamp od mkdir create devices []
          end
      end
  end.

(** ** Restore *)
Definition readHeader : M file Header :=
  buf ← read_header; mlift (ParseHeader buf).

Definition restoreExitOK : Z := 0.
Definition restoreExitBadArgs : Z := 2.
Definition restoreExitIO : Z := 3.
Definition restoreExitPerm : Z := 4.
Definition restoreExitNotNBSS : Z := 5.

Record restoreOptions := mkRestore { ro_file : string; ro_force : bool; ro_yes : bool }.

(** What the user types. *)
Definition confirmRestore (line : string) : bool := bool_decide (TrimSpace line = "yes"%string).

(** [RunIndexRestore] after the flags are parsed: the exit code and the device.  The backup is given
    by [os.Open] and [Stat]. *)
Definition RunIndexRestore (opts : restoreOptions) (backup : res file) (root : bool) (od : os_device)
    (line : string) : Z * option file :=
  if bool_decide (TrimSpace (ro_file opts) = EmptyString) then (restoreExitBadArgs, None) else
  match backup with
  | Err _ => (restoreExitIO, None)
  | Ok backup =>
      if f_size backup <? GridStart then (restoreExitIO, None) else
      match readHeader backup with
      | (Err _, _) => (restoreExitNotNBSS, None)
      | (Ok backupHeader, backup) =>
          if negb (h_Version backupHeader =? FormatVersion) then (restoreExitNotNBSS, None) else
          match open_device root od with
          | inr OPermission => (restoreExitPerm, None)
          | inr _ => (restoreExitIO, None)
          | inl out =>
              match readHeader out with
              | (Err _, out) => (restoreExitNotNBSS, Some out)
              | (Ok deviceHeader, out) =>
                  if negb (h_Version deviceHeader =? FormatVersion) then (restoreExitNotNBSS, Some out) else
                  if negb (h_DiskID backupHeader =? h_DiskID deviceHeader) && negb (ro_force opts)
                  then (restoreExitBadArgs, Some out) else
                  if negb (ro_yes opts) && negb (confirmRestore line) then (restoreExitBadArgs, Some out) else
                  match copy_section GridStart (backup, out) with
                  | (Err _, (_, out)) => (restoreExitIO, Some out)
                  | (Ok _, (_, out)) => (restoreExitOK, Some out)
                  end
              end
          end
      end
  end.

(** ** What the copy does *)

(** A device without faults that can take the bytes below [n]. *)
Definition takes (f : file) (n : Z) : Prop := f_faults f = [] ∧ (f_grow f = true ∨ n ≤ f_size f).

Lemma WriteAt_takes b off f n :
  takes f n → 0 ≤ off → 0 ≤ blen b → off + blen b ≤ n →
  ∃ f', WriteAt b off f = ((blen b, None), f') ∧ takes f' n ∧ f_grow f' = f_grow f ∧
    (∀ a, f_data f' a = upd (f_data f) off b a) ∧
    f_size f' = if f_grow f then Z.max (f_size f) (off + blen b) else f_size f.
Proof.
  intros [Hf Hg] Ho Hb Hn. unfold WriteAt, next_fault. rewrite Hf.
  destruct (Z.ltb_spec off 0); [lia|].
  assert (Hav : (if f_grow f then blen b else clamp 0 (blen b) (f_size f - off)) = blen b).
  { unfold clamp. destruct (f_grow f); [done|]. destruct Hg; [done|lia]. }
  rewrite Hav, Z.ltb_irrefl. eexists. split; [done|].
  assert (Hs : f_size (f_write off (buf_slice b 0 (blen b)) f) =
    if f_grow f then Z.max (f_size f) (off + blen b) else f_size f).
  { unfold f_write. cbn. by rewrite Z.sub_0_r. }
  split_and!; try done.
  - split; [done|]. destruct Hg as [Hg|Hg]; [by left|right]. rewrite Hs. destruct (f_grow f); lia.
  - intros a. rewrite f_data_write. apply upd_slice_full.
Qed.

(** The copy of the first [m] bytes. *)
Record copied (src dst : file) (m : Z) (dst' : file) : Prop := {
  cp_low a : 0 ≤ a < m → f_data dst' a = f_data src a;
  cp_high a : a < 0 ∨ m ≤ a → f_data dst' a = f_data dst a;
  cp_grow : f_grow dst' = f_grow dst;
  cp_size : f_size dst' = if f_grow dst then Z.max (f_size dst) m else f_size dst;
  cp_faults : f_faults dst' = []
}.

Lemma copy_section_ok n src dst :
  0 ≤ n → f_faults src = [] → n ≤ f_size src → takes dst n → 0 ≤ f_size dst →
  ∃ dst', copy_section n (src, dst) = (Ok tt, (src, dst')) ∧ copied src dst n dst'.
Proof.
  intros Hn Hf Hs Hd H0.
  enough (H : (λ r st, r = Ok tt ∧ ∃ dst', st = (src, dst') ∧ copied src dst n dst')
    (copy_section n (src, dst)).1 (copy_section n (src, dst)).2).
  { destruct (copy_section n (src, dst)) as [r st]. cbn [fst snd] in H. destruct H as (-> & dst' & -> & H). by exists dst'. }
  unfold copy_section. apply (mloop_total
    (λ off st, 0 ≤ off ≤ n ∧ ∃ dst', st = (src, dst') ∧ takes dst' n ∧ copied src dst off dst')
    (λ off, n - off)
    (λ r st, r = Ok tt ∧ ∃ dst', st = (src, dst') ∧ copied src dst n dst')).
  - split; [lia|]. exists dst. split; [done|]. split; [done|]. destruct Hd.
    split; try done; [lia|]. destruct (f_grow dst); lia.
  - rewrite Z2Pos.id by lia. lia.
  - intros off st (Ho & d1 & -> & Ht & Hc) _. destruct (Z.leb_spec n off) as [Hle|Hlt].
    { replace off with n in * by lia. split; [done|]. by exists d1. }
    set (w := Z.min copyChunk (n - off)). assert (Hw : 0 < w ≤ n - off) by (unfold w, copyChunk; lia).
    rewrite (ReadAt_ok src Hf) by lia. cbn [blen region]. rewrite (proj2 (Z.ltb_lt 0 w)) by lia.
    destruct (WriteAt_takes (region (f_data src) off w) off d1 n Ht) as (d2 & -> & Ht2 & Hg2 & Hd2 & Hs2);
      [lia|cbn; lia|cbn; lia|]. cbn [blen region] in *. rewrite Z.eqb_refl. cbn [negb].
    split; [|lia]. split; [lia|]. exists d2. split; [done|]. split; [done|].
    destruct Hc as [Hl Hh Hg Hz Hfl]. split.
    + intros a Ha. rewrite Hd2. destruct (Z.lt_ge_cases a off).
      * rewrite upd_out by lia. apply Hl. lia.
      * rewrite upd_in by (cbn; lia). cbn. f_equal. lia.
    + intros a Ha. rewrite Hd2, upd_out by (cbn; lia). apply Hh. lia.
    + congruence.
    + rewrite Hs2, Hg, Hz. destruct (f_grow dst); lia.
    + apply Ht2.
Qed.

Lemma read_header_ok f :
  f_faults f = [] → HeaderBytes ≤ f_size f → read_header f = (Ok (region (f_data f) 0 HeaderBytes), f).
Proof. intros Hf Hs. unfold read_header. by rewrite (ReadAt_ok f Hf) by (unfold HeaderBytes in *; lia). Qed.

Lemma readHeader_valid f id :
  f_faults f = [] → HeaderBytes ≤ f_size f → header_valid id (f_data f) →
  ∃ h, readHeader f = (Ok h, f) ∧ h_Version h = FormatVersion ∧ h_DiskID h = id.
Proof.
  intros Hf Hs Hv. destruct (ParseHeader_valid id _ Hv) as (h & Hp & H). exists h.
  unfold readHeader, mbind, M_bind. by rewrite read_header_ok, Hp.
Qed.

(** ** Backup and restore *)

(** A path that opens a device of [d] bytes without failures. *)
Definition opens (od : os_device) (f : file) (d : Z) : Prop :=
  od_stat od = Ok true ∧ od_open od = Ok f ∧ od_fstat od = None ∧ od_bytes od = Ok d.

Lemma open_device_opens od f d : opens od f d → GridStart ≤ d → open_device true od = inl f.
Proof.
  intros (H1 & H2 & H3 & H4) Hd. unfold open_device. rewrite H1, H2, H3, H4. cbn.
  by rewrite (proj2 (Z.ltb_ge d GridStart)).
Qed.

Lemma backup_outcome od dev f d id :
  opens od f d → f_faults f = [] → f_size f = d → GridStart ≤ d →
  header_valid id (f_data f) → ParseDiskID (DiskID dev) = Ok id →
  ∃ bak, BackupDeviceIndexToPath true od dev None (Ok new_file) = (None, Some bak) ∧
    f_faults bak = [] ∧ f_size bak = GridStart ∧ ∀ a, 0 ≤ a < GridStart → f_data bak a = f_data f a.
Proof.
  intros Ho Hf Hs Hd Hv Hid. unfold BackupDeviceIndexToPath, BackupDeviceIndexToPathVerbose.
  rewrite (open_device_opens od f d) by done.
  rewrite read_header_ok by (done || (rewrite Hs; llia)).
  destruct (ParseHeader_valid id _ Hv) as (h & -> & -> & ->). rewrite Z.eqb_refl, Hid, Z.eqb_refl. cbn [negb].
  destruct (copy_section_ok GridStart f new_file) as (out & -> & [Hl Hh Hg Hz Hfl]);
    [llia|done|lia|split; [done|by left]|done|].
  exists out. by split_and!.
Qed.

Lemma restore_outcome opts bak od f d id line :
  TrimSpace (ro_file opts) ≠ EmptyString → ro_yes opts = true →
  f_faults bak = [] → GridStart ≤ f_size bak → header_valid id (f_data bak) →
  opens od f d → f_faults f = [] → f_size f = d → f_grow f = false → GridStart ≤ d →
  header_valid id (f_data f) →
  ∃ f', RunIndexRestore opts (Ok bak) true od line = (restoreExitOK, Some f') ∧ copied bak f GridStart f'.
Proof.
  intros Hp Hy Hbf Hbs Hbv Ho Hf Hs Hg Hd Hv. unfold RunIndexRestore.
  rewrite bool_decide_eq_false_2 by done. rewrite (proj2 (Z.ltb_ge _ _)) by done.
  destruct (readHeader_valid bak id) as (h & -> & -> & Hi); [done|llia|done|].
  rewrite Z.eqb_refl, (open_device_opens od f d) by done.
  destruct (readHeader_valid f id) as (h2 & -> & -> & Hi2); [done|llia|done|].
  rewrite Z.eqb_refl, Hi, Hi2, Z.eqb_refl, Hy. cbn [negb andb].
  destruct (copy_section_ok GridStart bak f) as (out & -> & Hc);
    [llia|done|done|split; [done|right; lia]|llia|].
  by exists out.
Qed.

(** A backup can be restored.  Backing up a disk writes a file with its header and index; restoring
    that file on the same disk, at any later time when the extents of the objects of the backup still
    hold their bytes, gives a device that opens with exactly the objects the disk had when the backup
    was made, each with its bytes: what was stored since is gone, and nothing else has changed. *)
Theorem backup_restore_roundtrip s od dev f2 od2 opts line direct :
  Inv s → indexErr s = None → f_faults (ds_file s) = [] →
  opens od (ds_file s) (diskBytes s) → ParseDiskID (DiskID dev) = Ok (diskID s) →
  opens od2 f2 (diskBytes s) → f_faults f2 = [] → f_size f2 = diskBytes s → f_grow f2 = false →
  header_valid (diskID s) (f_data f2) →
  (∀ iv a, iv ∈ intervals s → ext_addr iv a → f_data f2 a = f_data (ds_file s) a) →
  TrimSpace (ro_file opts) ≠ EmptyString → ro_yes opts = true →
  ∃ bak f3 s', BackupDeviceIndexToPath true od dev None (Ok new_file) = (None, Some bak) ∧
    RunIndexRestore opts (Ok bak) true od2 line = (restoreExitOK, Some f3) ∧
    OpenDevice (clean f3) (diskBytes s) direct (diskID s) = (Ok s', clean f3) ∧
    Inv s' ∧ confirmed s' = confirmed s ∧ indexEnd s' = indexEnd s ∧ ∀ k, contents s' k = contents s k.
Proof.
  intros Hs He Hf Ho Hid Ho2 Hf2 Hs2 Hg2 Hv2 Hext Hfile Hyes.
  pose proof (i_disk _ Hs) as Hd. assert (HG : GridStart ≤ diskBytes s) by (unfold disk_fits in Hd; lia).
  destruct (backup_outcome od dev _ _ _ Ho Hf (i_size _ Hs) HG (i_header _ Hs) Hid) as (bak & Hb & Hbf & Hbs & Hbd).
  assert (Hbv : header_valid (diskID s) (f_data bak)).
  { eapply header_valid_ext; [|exact (i_header _ Hs)]. intros a Ha. apply Hbd. llia. }
  destruct (restore_outcome opts bak od2 f2 (diskBytes s) (diskID s) line) as (f3 & Hr & [Hl Hh Hg Hz Hfl]);
    [done..|lia|done|done|done|done|done|done|done|].
  assert (Hag : agrees (intervals s) (ds_file s) f3).
  { rewrite Hg2 in Hz. split; [by rewrite Hz, Hs2, (i_size _ Hs)|]. split; [by rewrite Hg, Hg2, (i_grow _ Hs)|].
    intros a [Ha|(iv & Hiv & Ha)]; [by rewrite Hl, Hbd|].
    pose proof (i_grid _ Hs) as Hgr. apply Forall_app in Hgr as [Hgr _]. rewrite Forall_forall in Hgr.
    pose proof (in_grid_addr _ _ _ (disk_fits_ok _ Hd) (Hgr iv Hiv) Ha). rewrite Hh by lia.
    by eapply Hext. }
  destruct (i_mirror _ Hs He) as (es & st & Hm).
  pose proof (i_disjoint _ Hs) as Hdis. apply disjoint_all_app in Hdis as (Hdis & _ & _).
  destruct (open_mirrors (diskBytes s) f3 (confirmed s) (packed s) (intervals s) (indexEnd s) es st direct
    (diskID s)) as [Hop Hi]; [done|rewrite Hz, Hg2; done|congruence| |done|by eapply mirrors_frame; [apply disk_fits_ok|..]|].
  { eapply header_valid_ext; [|exact Hbv]. intros a Ha. apply Hl. llia. }
  eexists bak, f3, _. split; [exact Hb|]. split; [exact Hr|]. split; [exact Hop|].
  split; [exact Hi|]. split; [done|]. split; [done|].
  intros k. apply contents_frame; try done.
  intros iv a Hiv Ha. cbn. apply Hag. right. by exists iv.
Qed.

(** The demonstration disk, and the same disk after an entry was added to its index. *)
Definition demo_os (f : file) : os_device := mkOsDevice (Ok true) (Ok f) None (Ok demo_size).
Definition demo_later : file :=
  f_write IndexStart (buf_of (entry_bytes (mkEntry 5 10 0))) (ds_file demo_state).

Lemma backup_restore_roundtrip_witness :
  ∃ bak f3 s',
    BackupDeviceIndexToPath true (demo_os (ds_file demo_state)) (mkPanDevice "match" "d" "0x7" 2 0) None
      (Ok new_file) = (None, Some bak) ∧
    RunIndexRestore (mkRestore "b" false true) (Ok bak) true (demo_os demo_later) "" = (restoreExitOK, Some f3) ∧
    OpenDevice (clean f3) demo_size true 7 = (Ok s', clean f3) ∧ confirmed s' = ∅.
Proof.
  destruct (backup_restore_roundtrip demo_state (demo_os (ds_file demo_state)) (mkPanDevice "match" "d" "0x7" 2 0)
    demo_later (demo_os demo_later) (mkRestore "b" false true) "" true demo_Inv eq_refl eq_refl)
    as (bak & f3 & s' & H1 & H2 & H3 & _ & H4 & _).
  - by split_and!.
  - reflexivity.
  - by split_and!.
  - reflexivity.
  - reflexivity.
  - reflexivity.
  - eapply header_valid_ext; [|exact (i_header _ demo_Inv)]. intros a Ha. unfold demo_later.
    rewrite f_data_write. apply upd_out. unfold buf_of. cbn [blen]. llia.
  - intros iv a Hiv. by apply not_elem_of_nil in Hiv.
  - discriminate.
  - reflexivity.
  - exists bak, f3, s'. split; [exact H1|]. split; [exact H2|]. split; [exact H3|exact H4].
Defined.
