(* ===== verification/Trim.v ===== *)
(** * Packing small objects (internal/daemon/trim.go)

    The background job of a disk: small objects are copied into one container object, a packed table
    that says where each of them is becomes another object, an anchor entry tells replay to read the
    table, tombstones free the extents of the originals, and the index is compacted in place.  All of
    it runs under the locks of the disk.  The temporary file is a [file] next to the device; [Hash] is
    xxh3; the clock and what the operating system answers are in the environment. *)

From S2P Require Import Prelude Machine Loop Float Device Layout IndexScan PackedTable Interval.
From S2P Require Import Replay DirectIO DeviceState Chd Fragmentation Text Path Config Compact Backup.
From Stdlib Require Import Strings.Byte.

Record trimCandidate := mkCandidate { tc_fid : Z; tc_size : Z }.
Record containerEntry := mkContainer { ce_fid : Z; ce_offset : Z; ce_size : Z }.

(** [trimStatus]; the times are Unix times. *)
Record trimStatus := mkTrim {
  t_DiskID : string; t_DevicePath : string; t_LastCheckAt : Z; t_LastRunAt : Z; t_LastSuccessAt : Z;
  t_LastTrigger : bool; t_LastThreshold : Z; t_LastTotalFiles : Z; t_LastSmallFiles : Z;
  t_LastPackedFiles : Z; t_LastContainerFID : string; t_LastTableFID : string;
  t_LastBackupPath : string; t_LastError : option error
}.

Definition set_check (t : trimStatus) (id path : string) (now : Z) : trimStatus :=
  mkTrim id path now (t_LastRunAt t) (t_LastSuccessAt t) (t_LastTrigger t) (t_LastThreshold t)
    (t_LastTotalFiles t) (t_LastSmallFiles t) (t_LastPackedFiles t) (t_LastContainerFID t)
    (t_LastTableFID t) (t_LastBackupPath t) None.
Definition set_counts (t : trimStatus) (threshold total small : Z) : trimStatus :=
  mkTrim (t_DiskID t) (t_DevicePath t) (t_LastCheckAt t) (t_LastRunAt t) (t_LastSuccessAt t) false
    threshold total small (t_LastPackedFiles t) (t_LastContainerFID t)
    (t_LastTableFID t) (t_LastBackupPath t) (t_LastError t).
Definition set_backup (t : trimStatus) (path : string) : trimStatus :=
  mkTrim (t_DiskID t) (t_DevicePath t) (t_LastCheckAt t) (t_LastRunAt t) (t_LastSuccessAt t) (t_LastTrigger t)
    (t_LastThreshold t) (t_LastTotalFiles t) (t_LastSmallFiles t) (t_LastPackedFiles t) (t_LastContainerFID t)
    (t_LastTableFID t) path (t_LastError t).
Definition set_container (t : trimStatus) (fid : string) : trimStatus :=
  mkTrim (t_DiskID t) (t_DevicePath t) (t_LastCheckAt t) (t_LastRunAt t) (t_LastSuccessAt t) (t_LastTrigger t)
    (t_LastThreshold t) (t_LastTotalFiles t) (t_LastSmallFiles t) (t_LastPackedFiles t) fid
    (t_LastTableFID t) (t_LastBackupPath t) (t_LastError t).
Definition set_table (t : trimStatus) (fid : string) : trimStatus :=
  mkTrim (t_DiskID t) (t_DevicePath t) (t_LastCheckAt t) (t_LastRunAt t) (t_LastSuccessAt t) (t_LastTrigger t)
    (t_LastThreshold t) (t_LastTotalFiles t) (t_LastSmallFiles t) (t_LastPackedFiles t) (t_LastContainerFID t)
    fid (t_LastBackupPath t) (t_LastError t).
Definition set_success (t : trimStatus) (n now : Z) : trimStatus :=
  mkTrim (t_DiskID t) (t_DevicePath t) (t_LastCheckAt t) (t_LastRunAt t) now (t_LastTrigger t)
    (t_LastThreshold t) (t_LastTotalFiles t) (t_LastSmallFiles t) n (t_LastContainerFID t)
    (t_LastTableFID t) (t_LastBackupPath t) (t_LastError t).
Definition set_error (t : trimStatus) (e : error) : trimStatus :=
  mkTrim (t_DiskID t) (t_DevicePath t) (t_LastCheckAt t) (t_LastRunAt t) (t_LastSuccessAt t) (t_LastTrigger t)
    (t_LastThreshold t) (t_LastTotalFiles t) (t_LastSmallFiles t) (t_LastPackedFiles t) (t_LastContainerFID t)
    (t_LastTableFID t) (t_LastBackupPath t) (Some e).

Definition formatHexFID (fid : Z) : string := if fid =? 0 then EmptyString else formatID fid.

(** ** Reading *)
Definition readLogicalObjectLocked (fid : Z) : M DeviceState (list byte * Z) :=
  ref ← lookup_fid fid;
  data ← readRange None ref 0 (r_size ref);
  mret (buf_list data, r_size ref).

(** ** Choosing the candidates *)

(** What the first loop over the records gathers. *)
Record exclusions := mkExclusions {
  packedTableFIDs : gset Z; packedContainerFIDs : gset Z; jumpTargets : gset Z
}.

Fixpoint gather (records : list LatestIndexRecord) (x : exclusions) : M DeviceState exclusions :=
  match records with
  | [] => mret x
  | record :: records =>
      if lr_Jump record then
        gather records (mkExclusions (packedTableFIDs x) (packedContainerFIDs x)
                          ({[lr_ActualFID record]} ∪ jumpTargets x))
      else if negb (lr_Packed record) then gather records x else
      '(blob, _) ← mwrap "read packed table" (readLogicalObjectLocked (lr_FID record));
      '(header, _) ← mlift (wrap_err "decode packed table" (decodePackedTable blob));
      gather records (mkExclusions ({[lr_FID record]} ∪ packedTableFIDs x)
                        ({[h_containerFID header]} ∪ packedContainerFIDs x) (jumpTargets x))
  end.

Definition eligible (x : exclusions) (records : list LatestIndexRecord) : list trimCandidate :=
  (λ r, mkCandidate (lr_FID r) (lr_Size r)) <$>
  filter (λ r, lr_Packed r = false ∧ lr_Jump r = false ∧ lr_FID r ∉ jumpTargets x ∧
               lr_FID r ∉ packedTableFIDs x ∧ lr_FID r ∉ packedContainerFIDs x) records.

Definition trim_threshold (cfg : Config) (sizes : list Z) : Z :=
  let threshold := thresholdBytes (computeFragmentationThreshold sizes) in
  let threshold := if threshold <? TrimMinThresholdBytes cfg then TrimMinThresholdBytes cfg else threshold in
  if (0 <? TrimMaxThresholdBytes cfg) && (TrimMaxThresholdBytes cfg <? threshold)
  then TrimMaxThresholdBytes cfg else threshold.

Definition batch_limit (HashString : string → Z) (cfg : Config) (s : DeviceState) : Z :=
  let limit := computeCHD HashString (diskBytes s) (diskID s) (intervals s) (ChdTargetP cfg) in
  let limit := if limit <? Z.shiftl 8 20 then Z.shiftl 8 20 else limit in
  let limit := if Z.shiftl 256 20 <? limit then Z.shiftl 256 20 else limit in
  if (0 <? MaxPutBytes cfg) && (MaxPutBytes cfg <? limit) then MaxPutBytes cfg else limit.

(** The last loop: the first small objects that fit in a batch. *)
Fixpoint pick (threshold limit : Z) (es : list trimCandidate) (picked : list trimCandidate) (size : Z) :
    list trimCandidate :=
  match es with
  | [] => picked
  | c :: es =>
      if tc_size c <? threshold then
        if (limit <? u64 (size + tc_size c)) && (0 <? Z.of_nat (length picked)) then picked
        else pick threshold limit es (picked ++ [c]) (u64 (size + tc_size c))
      else pick threshold limit es picked size
  end.

Section trim.
Context (Hash : list byte → Z) (HashString : string → Z) (cfg : Config).

(** The candidates, the threshold, the number of small objects and of eligible ones. *)
Definition collectTrimCandidatesLocked : M DeviceState (list trimCandidate * Z * Z * Z) :=
  records ← fileM CollectLatestIndexRecords;
  x ← gather records (mkExclusions ∅ ∅ ∅);
  let es := eligible x records in
  let threshold := trim_threshold cfg (tc_size <$> es) in
  let small := filter (λ c, tc_size c < threshold) es in
  s ← mget;
  mret (pick threshold (batch_limit HashString cfg s) es [] 0, threshold, Z.of_nat (length small), Z.of_nat (length es)).

(** ** The container *)

(** The device and the temporary file. *)
Definition on_dev {A} (m : M DeviceState A) : M (DeviceState * file) A := λ '(s, tmp),
  let '(r, s) := m s in (r, (s, tmp)).
Definition on_tmp {A} (m : M file A) : M (DeviceState * file) A := λ '(s, tmp),
  let '(r, tmp) := m tmp in (r, (s, tmp)).

Fixpoint build_container (candidates : list trimCandidate) (offset : Z) :
    M (DeviceState * file) (list containerEntry) :=
  match candidates with
  | [] => mret []
  | c :: candidates =>
      '(data, size) ← mwrap "read fid" (on_dev (readLogicalObjectLocked (tc_fid c)));
      on_tmp (must_write (buf_of data) offset);;
      entries ← build_container candidates (u64 (offset + size));
      mret (mkContainer (tc_fid c) offset size :: entries)
  end.

(** The file starts empty. *)
Definition buildContainerFileLocked (candidates : list trimCandidate) :
    M (DeviceState * file) (list containerEntry) := build_container candidates 0.

(** ** Writing an object without a pool put *)

(** The checks both writers make before they touch the device. *)
Definition place_object (fid size : Z) : M DeviceState (Z * Z * interval) := λ s,
  match indexErr s with
  | Some fault => (Err fault, s)
  | None =>
      if bool_decide (is_Some (confirmed s !! fid)) then (Err EConflict, s) else
      match AddrForFID (diskBytes s) fid size with
      | Err e => (Err e, s)
      | Ok (addr, slotIndex, slotsNeeded) =>
          let newInterval := mkInterval slotIndex (u64 (slotIndex + slotsNeeded - 1)) in
          if anyOverlap (intervals s) newInterval || anyOverlap (pendingIntervals s) newInterval
          then (Err EConflict, s) else (Ok (addr, slotsNeeded, newInterval), s)
      end
  end.

(** The zero fill of the last slot. *)
Definition pad_object (addr size slotsNeeded : Z) : M file unit :=
  let pad := u64 (slotsNeeded * SlotSize - size) in
  if 0 <? pad then writeZeros (u64 (addr + size)) pad else mret tt.

(** The part both writers share after the payload is synced: the index entry and the maps. *)
Definition register_object (fid size : Z) (iv : interval) : M DeviceState unit := λ s,
  match BuildIndexEntry fid size 0 with
  | Err e => (Err e, s)
  | Ok entry =>
      let len := Z.of_nat (length entry) in
      if GridStart <? u64 (indexEnd s + len) then (Err EIndexFull, s) else
      match (must_write (buf_of entry) (int64 (indexEnd s));; mwrap "sync index" must_sync) (ds_file s) with
      | (Err e, f) => (Err e, set_file s f)
      | (Ok _, f) =>
          let s := set_confirmed (set_file s f) (<[fid := plain_ref fid size]> (confirmed s)) in
          (Ok tt, set_extents (set_indexEnd s (u64 (indexEnd s + len))) (intervals s ++ [iv])
                    (pendingIntervals s))
      end
  end.

(** The copy loop of [writeFileObjectNoJumpLocked], 4 MiB at a time. *)
Definition trimChunk : Z := 4194304.

Definition copy_piece (addr written : Z) (b : buf) (s : DeviceState) (tmp : file) :
    res (Z + unit) * (DeviceState * file) :=
  if blen b =? 0 then (Ok (inr tt), (s, tmp)) else
  match must_write b (int64 (u64 (addr + written))) (ds_file s) with
  | (Err e, f) => (Err e, (set_file s f, tmp))
  | (Ok _, f) => (Ok (inl (written + blen b)), (set_file s f, tmp))
  end.

Definition copy_payload (addr size : Z) : M (DeviceState * file) unit :=
  mloop (Z.to_pos (size + 1)) (λ written '(s, tmp),
    if size <=? written then (Ok (inr tt), (s, tmp)) else
    let '((b, err), tmp) := ReadAt written trimChunk tmp in
    match err with
    | Some e => if negb (errors_Is e EEOF) then (Err e, (s, tmp)) else copy_piece addr written b s tmp
    | None => copy_piece addr written b s tmp
    end) 0.

(** [open] is what opening and [Stat] give. *)
Definition writeFileObjectNoJumpLocked (open : option error) : M (DeviceState * file) (Z * Z) :=
  match open with
  | Some e => mfail e
  | None => λ '(s, tmp),
      let size := f_size tmp in
      if size =? 0 then (Err (EMsg "empty object"), (s, tmp)) else
      (data ← on_tmp (must_read 0 size);
       let fid := Hash (buf_list data) in
       '(addr, slotsNeeded, iv) ← on_dev (place_object fid size);
       copy_payload addr size;;
       on_dev (fileM (pad_object addr size slotsNeeded));;
       on_dev (fileM (mwrap "sync container payload" must_sync));;
       on_dev (register_object fid size iv);;
       mret (fid, size)) (s, tmp)
  end.

(** The nonces still to try; [open] and [reopen] are what the two opens of an attempt give. *)
Fixpoint write_container (open reopen : Z → option error) (nonces : list Z) :
    M (DeviceState * file) (Z * Z) :=
  match nonces with
  | [] => mfail EConflict
  | nonce :: nonces => λ st,
      match writeFileObjectNoJumpLocked (open nonce) st with
      | (Ok r, st) => (Ok r, st)
      | (Err e, (s, tmp)) =>
          if negb (errors_Is e EConflict) then (Err e, (s, tmp)) else
          match reopen nonce with
          | Some e => (Err e, (s, tmp))
          | None =>
              match must_write (buf_of (le_bytes 8 (nonce + 1))) (f_size tmp) tmp with
              | (Err e, tmp) => (Err e, (s, tmp))
              | (Ok _, tmp) => write_container open reopen nonces (s, tmp)
              end
          end
      end
  end.

Definition writeContainerObjectNoJumpLocked (open reopen : Z → option error) :
    M (DeviceState * file) (Z * Z) := write_container open reopen (seqZ 0 256).

Definition writeObjectNoJumpLocked (data : list byte) : M DeviceState Z :=
  let size := Z.of_nat (length data) in
  if size =? 0 then mfail (EMsg "empty object") else
  let fid := Hash data in
  '(addr, slotsNeeded, iv) ← place_object fid size;
  fileM (must_write (buf_of data) (int64 addr));;
  fileM (pad_object addr size slotsNeeded);;
  fileM (mwrap "sync packed table payload" must_sync);;
  register_object fid size iv;;
  mret fid.

(** ** The packed table *)
Fixpoint write_table (header : packedTableHeader) (entries : list packedTableEntry) (nonces : list Z) :
    M DeviceState (Z * Z) :=
  match nonces with
  | [] => mfail EConflict
  | nonce :: nonces => λ s,
      let blob := encodePackedTable (mkTableHeader (h_diskID header) (h_containerFID header)
                    (h_containerSize header) (h_entryCount header) nonce) entries in
      match writeObjectNoJumpLocked blob s with
      | (Ok fid, s) => (Ok (fid, Z.of_nat (length blob)), s)
      | (Err e, s) => if negb (errors_Is e EConflict) then (Err e, s) else write_table header entries nonces s
      end
  end.

Definition writePackedTableObjectNoJumpLocked (header : packedTableHeader)
    (entries : list packedTableEntry) : M DeviceState (Z * Z) :=
  write_table header entries (seqZ 0 256).

Definition advance_index (n : Z) : M DeviceState unit := λ s,
  (Ok tt, set_indexEnd s (u64 (indexEnd s + n))).

Definition appendPackedAnchorLocked (tableFID tableSize : Z) : M DeviceState unit :=
  entryPacked ← mlift (BuildIndexEntry tableFID IndexPackedSentinel PackedAnchorCode);
  entryReal ← mlift (BuildIndexEntry tableFID tableSize 0);
  let n := Z.of_nat (length entryPacked) in
  let needed := n + Z.of_nat (length entryReal) in
  s ← mget;
  if GridStart <? u64 (indexEnd s + needed) then mfail EIndexFull else
  fileM (must_write (buf_of entryPacked) (int64 (indexEnd s)));;
  fileM (must_write (buf_of entryReal) (int64 (u64 (indexEnd s + n))));;
  fileM (mwrap "sync packed anchor" must_sync);;
  advance_index needed.

Definition set_packed (s : DeviceState) (c : gmap Z objectRef) (p : gmap Z packedRecord) : DeviceState :=
  mkState (ds_file s) (directFile s) (diskID s) (diskBytes s) (intervals s) (pendingIntervals s)
    c p (indexEnd s) (indexErr s).

Fixpoint loadPackedTablesLocked (tableFIDs : list Z) : M DeviceState unit :=
  match tableFIDs with
  | [] => mret tt
  | tableFID :: tableFIDs =>
      '(blob, tableSize) ← mwrap "load packed table" (readLogicalObjectLocked tableFID);
      '(header, entries) ← mlift (wrap_err "decode packed table" (decodePackedTable blob));
      s ← mget;
      if negb (h_diskID header =? diskID s) then mfail (EMsg "disk_id mismatch") else
      if h_containerSize header =? 0 then mfail (EMsg "zero container size") else
      let maps := add_packed header tableFID tableSize (confirmed s, packed s) entries in
      mput (set_packed s maps.1 maps.2);;
      loadPackedTablesLocked tableFIDs
  end.

Fixpoint verifyPackedCandidatesLocked (candidates : list trimCandidate) : M DeviceState unit :=
  match candidates with
  | [] => mret tt
  | c :: candidates => λ s,
      match packed s !! tc_fid c with
      | None => (Err (EMsg "missing packed mapping"), s)
      | Some record =>
          if negb (match confirmed s !! tc_fid c with Some ref => r_packed ref | None => false end)
          then (Err (EMsg "missing confirmed packed ref"), s) else
          match AddrForFID (diskBytes s) (containerFID record) (containerSize record) with
          | Err e => (Err e, s)
          | Ok (addr, _, _) =>
              if maxAlloc <? logicSize record then (Err (EPanic "makeslice: len out of range"), s) else
              let '((b, err), f) :=
                ReadAt (int64 (u64 (addr + pr_offset record))) (logicSize record) (ds_file s) in
              let s := set_file s f in
              if negb (bool_decide (err = None)) && (blen b =? 0)
              then (Err (default EDevice err), s) else
              if negb (logicSize record =? tc_size c) then (Err (EMsg "packed size mismatch"), s)
              else verifyPackedCandidatesLocked candidates s
          end
      end
  end.

Definition appendTombstoneLocked (fid : Z) : M DeviceState unit :=
  entry ← mlift (BuildIndexEntry fid 0 0);
  s ← mget;
  let len := Z.of_nat (length entry) in
  if GridStart <? u64 (indexEnd s + len) then mfail EIndexFull else
  fileM (must_write (buf_of entry) (int64 (indexEnd s)));;
  advance_index len.

Fixpoint append_tombstones (candidates : list trimCandidate) : M DeviceState unit :=
  match candidates with
  | [] => mret tt
  | c :: candidates =>
      mwrap "tombstone candidate" (appendTombstoneLocked (tc_fid c));;
      append_tombstones candidates
  end.

(** ** Compacting the index in place *)

(** The temporary file once it is written and validated. *)
Definition compacted_image (header : buf) (records : list LatestIndexRecord) (tmp : file) : res file :=
  match (must_write header 0;;
         entryCount ← WriteLatestIndexRecords records;
         let first := u64 (IndexStart + u64 (entryCount * IndexEntrySize)) in
         writeZeros first (u64 (GridStart - first));;
         ValidateCompacted) tmp with
  | (Err e, _) => Err e
  | (Ok _, tmp) => Ok tmp
  end.

(** Copying it over the index of the device and replaying that. *)
Definition install_index (tmp : file) : M DeviceState unit := λ s,
  match copy_section GridStart (tmp, ds_file s) with
  | (Err e, (_, f)) => (Err (EWrap "copy compacted index to device" e), set_file s f)
  | (Ok _, (_, f)) =>
      match mwrap "sync compacted index" must_sync f with
      | (Err e, f) => (Err e, set_file s f)
      | (Ok _, f) =>
          match replayIndex (diskBytes s) f with
          | (Err e, f) =>
              let fault := EWrap "replay compacted index" e in
              (Err fault, set_indexErr (set_file s f) (Some fault))
          | (Ok (confirmed, packed, intervals, indexEnd), f) =>
              (Ok tt, mkState f (directFile s) (diskID s) (diskBytes s) intervals
                        (pendingIntervals s) confirmed packed indexEnd None)
          end
      end
  end.

(** [compactIndexLocked] up to the validated temporary file.  [create] is [os.CreateTemp]; validating
    opens the file again. *)
Definition compact_prepare (create : res file) : M DeviceState file :=
  fileM (mwrap "sync before compact" must_sync);;
  records ← fileM (mwrap "collect records" CollectLatestIndexRecords);
  tmp ← mlift (wrap_err "create temp compact index" create);
  header ← fileM (mwrap "read header" read_header);
  mlift (compacted_image header records tmp).

Definition compactIndexLocked (create : res file) : M DeviceState unit :=
  tmp ← compact_prepare create;
  install_index tmp.

(** ** The job *)
Record trim_env := mkTrimEnv {
  te_checkAt : Z; te_runAt : Z; te_successAt : Z;   (* time.Now *)
  te_root : bool;                                   (* Geteuid is 0 *)
  te_os : file → os_device;                         (* opening the device again *)
  te_mkdir : option error;
  te_backup_mkdir : option error;
  te_backup : res file;                             (* os.OpenFile of the backup *)
  te_create : res file;                             (* os.CreateTemp of the container *)
  te_open : Z → option error;
  te_reopen : Z → option error;
  te_compact : res file                             (* os.CreateTemp of the new index *)
}.

Definition failpoint (failPoint name : string) : res unit :=
  if bool_decide (failPoint = name) then Err (EMsg (String.append "failpoint: " name)) else Ok tt.

(** The two checks on the number of small objects. *)
Definition trim_triggers (small total : Z) : bool :=
  negb ((small <=? TrimMinFileCount cfg) ||
        f64_le (f64_of_Z small) (f64_mul_count total (TrimThresholdRatio cfg))).

Definition backup_name (s : DeviceState) : string :=
  let dir := if bool_decide (TrimTempDir cfg = EmptyString) then "bsos_trim_backup"%string
             else Join (TrimTempDir cfg) "bsos_trim_backup" in
  Join dir (String.append "index_" (String.append (formatID (diskID s)) ".nbssIndex")).

Definition table_entries (entries : list containerEntry) : list packedTableEntry :=
  (λ e, mkTableEntry (ce_fid e) (ce_offset e) (ce_size e)) <$> entries.

(** From the backup on, when the trim is triggered. *)
Definition trim_steps (env : trim_env) (failPoint : string) (candidates : list trimCandidate) :
    M (DeviceState * trimStatus) unit := λ '(s, t),
  let t := mkTrim (t_DiskID t) (t_DevicePath t) (t_LastCheckAt t) (te_runAt env) (t_LastSuccessAt t) true
             (t_LastThreshold t) (t_LastTotalFiles t) (t_LastSmallFiles t) (t_LastPackedFiles t)
             (t_LastContainerFID t) (t_LastTableFID t) (t_LastBackupPath t) (t_LastError t) in
  match te_mkdir env with
  | Some e => (Err (EWrap "create backup dir" e), (s, t))
  | None =>
      let dev := mkPanDevice "match" (t_DevicePath t) (formatID (diskID s)) 0 0 in
      match (BackupDeviceIndexToPath (te_root env) (te_os env (ds_file s)) dev (te_backup_mkdir env)
               (te_backup env)).1 with
      | Some e => (Err (EWrap "backup index" e), (s, t))
      | None =>
          let t := set_backup t (backup_name s) in
          match (mlift (failpoint failPoint "after-backup");;
                 mlift (te_create env)) s with
          | (Err e, s) => (Err e, (s, t))
          | (Ok tmp, s) =>
              match (entries ← buildContainerFileLocked candidates;
                     mlift (failpoint failPoint "after-container-build");;
                     r ← mwrap "write container object"
                           (writeContainerObjectNoJumpLocked (te_open env) (te_reopen env));
                     mret (entries, r)) (s, tmp) with
              | (Err e, (s, _)) => (Err e, (s, t))
              | (Ok (entries, (containerFID, containerSize)), (s, _)) =>
                  let t := set_container t (formatHexFID containerFID) in
                  let header := mkTableHeader (diskID s) containerFID containerSize
                                  (Z.of_nat (length entries)) 0 in
                  match (mlift (failpoint failPoint "after-container-write");;
                         mwrap "write packed table object"
                           (writePackedTableObjectNoJumpLocked header (table_entries entries))) s with
                  | (Err e, s) => (Err e, (s, t))
                  | (Ok (tableFID, tableSize), s) =>
                      let t := set_table t (formatHexFID tableFID) in
                      match (mlift (failpoint failPoint "after-table-write");;
                             mwrap "append packed anchor" (appendPackedAnchorLocked tableFID tableSize);;
                             mlift (failpoint failPoint "after-anchor-append");;
                             mwrap "expand packed table" (loadPackedTablesLocked [tableFID]);;
                             mwrap "verify packed candidates" (verifyPackedCandidatesLocked candidates);;
                             append_tombstones candidates;;
                             fileM (mwrap "sync tombstones" must_sync);;
                             mlift (failpoint failPoint "after-delete");;
                             mwrap "compact index" (compactIndexLocked (te_compact env))) s with
                      | (Err e, s) => (Err e, (s, t))
                      | (Ok _, s) =>
                          (Ok tt, (s, set_success t (Z.of_nat (length candidates)) (te_successAt env)))
                      end
                  end
              end
          end
      end
  end.

Definition maybeTrim (env : trim_env) (failPoint devicePath : string) : M (DeviceState * trimStatus) unit :=
  λ '(s, t),
  let t := set_check t (formatHexFID (diskID s)) devicePath (te_checkAt env) in
  let '(r, (s, t)) :=
    match collectTrimCandidatesLocked s with
    | (Err e, s) => (Err e, (s, t))
    | (Ok (candidates, threshold, smallFiles, totalFiles), s) =>
        let t := set_counts t threshold totalFiles smallFiles in
        if bool_decide (candidates = []) || (totalFiles =? 0) then (Ok tt, (s, t)) else
        if negb (trim_triggers smallFiles totalFiles) then (Ok tt, (s, t)) else
        trim_steps env failPoint candidates (s, t)
    end in
  (r, (s, match r with Err e => set_error t e | Ok _ => t end)).
End trim.
