(* ===== verification/TrimIndex.v ===== *)
(** * What the entries of a trim do to the index

    The two appends of a trim that [DeviceInv] has no counterpart for: the anchor of a packed table,
    after which replay finds the packed objects inside their container, and a tombstone, which frees
    the extent of an object that replay finds elsewhere.  Both keep the maps in memory the mirror of
    the index ([mirrors]). *)

From S2P Require Import Prelude Machine Loop Device Layout IndexScan PackedTable Interval Replay.
From S2P Require Import DirectIO DeviceState DeviceInv DeviceOps DiskStore Compact CompactRun.
From Stdlib Require Import Strings.Byte.

(** Every object's bytes belong to an object that is stored directly. *)
Definition owned (refs : gmap Z objectRef) : Prop :=
  ∀ k ref, refs !! k = Some ref → refs !! r_fid ref = Some (plain_ref (r_fid ref) (storedSize ref)).

(** ** Tables *)
Lemma load_tables_snoc d ts t maps f out f1 :
  load_tables d ts maps f = (Ok out, f1) →
  load_tables d (ts ++ [t]) maps f = load_tables d [t] out f1.
Proof.
  revert maps f. induction ts as [|t' ts IH]; intros maps f; [by intros [= <- <-]|].
  cbn [app]. rewrite !(load_tables_cons d t'). destruct (maps.1 !! t') as [ref|]; [|apply IH].
  unfold mbind, M_bind, mlift. destruct (AddrForFID d _ _) as [[[addr i] k]|]; [|done].
  destruct (read_blob addr (r_size ref) f) as [[blob|] f2]; [|done].
  destruct (wrap_err _ _) as [[hd es]|]; [|done]. apply IH.
Qed.

Definition reg (es : list packedTableEntry) (k : Z) : bool := existsb (λ e, e_fid e =? k) es.

(** A map without a fid some table registers loads to the same maps. *)
Lemma add_packed_delete hd t sz es refs pk k :
  add_packed hd t sz (delete k refs, pk) es =
    let '(refs', pk') := add_packed hd t sz (refs, pk) es in
    (if reg es k then refs' else delete k refs', pk').
Proof.
  unfold add_packed. revert refs pk. induction es as [|e es IH]; intros refs pk; [done|].
  cbn [foldl reg existsb]. destruct (Z.eqb_spec (e_fid e) k) as [->|Hne]; cbn [orb].
  - rewrite insert_delete_eq. by destruct (foldl _ _ es).
  - rewrite <- delete_insert_ne by done. apply IH.
Qed.

Lemma add_packed_unreg hd t sz es maps k :
  reg es k = false → (add_packed hd t sz maps es).1 !! k = maps.1 !! k.
Proof.
  unfold add_packed. revert maps. induction es as [|e es IH]; intros [refs pk]; [done|].
  cbn [foldl reg existsb]. intros [H1 H2]%orb_false_iff. rewrite IH by done. cbn [fst].
  apply lookup_insert_ne. by apply Z.eqb_neq.
Qed.

Lemma load_tables_delete d ts refs pk f out k ref :
  load_tables d ts (refs, pk) f = (Ok out, f) → f_faults f = [] →
  out.1 !! k = Some ref → r_packed ref = true → k ∉ ts →
  (∀ ref, refs !! k = Some ref → r_packed ref = false) →
  load_tables d ts (delete k refs, pk) f = (Ok out, f).
Proof.
  intros H Hf Hk Hp. revert refs pk H. induction ts as [|t ts IH]; intros refs pk H Hts Hn.
  { injection H as <-. cbn in Hk. apply Hn in Hk. congruence. }
  apply not_elem_of_cons in Hts as [Hne Hts]. rewrite !load_tables_cons in *. cbn [fst] in *.
  rewrite lookup_delete_ne by done. destruct (refs !! t) as [tref|]; [|by apply IH].
  unfold mbind, M_bind, mlift in *. destruct (AddrForFID d _ _) as [[[addr i] n]|]; [|done].
  destruct (read_blob addr (r_size tref) f) as [[blob|] f1] eqn:Er; [|done].
  assert (f1 = f) as -> by (by eapply read_blob_file).
  destruct (wrap_err _ _) as [[hd es]|]; [|done].
  rewrite add_packed_delete. destruct (add_packed hd t (r_size tref) (refs, pk) es) as [refs' pk'] eqn:Ea.
  destruct (reg es k) eqn:Eg; [done|]. apply IH; [done|done|].
  intros ref' Hr'. apply Hn. rewrite <- Hr'.
  pose proof (add_packed_unreg hd t (r_size tref) es (refs, pk) k Eg) as Hu. rewrite Ea in Hu. done.
Qed.

(** The entries of one more group, appended where the index ends. *)
Lemma mirrors_log_append d f f' refs pk ivs iend es st g :
  mirrors d f refs pk ivs iend es st → group_ok g →
  let new := group_entries g in
  Z.of_nat (length es + length new) ≤ index_capacity →
  (∀ a, IndexStart ≤ a < GridStart →
     f_data f' a = upd (f_data f) iend (buf_of (encode_entries new)) a) →
  index_log (f_data f') (es ++ new) ∧ tail_zero (f_data f') (log_end (es ++ new)) ∧
  log_end (es ++ new) = iend + 16 * Z.of_nat (length new).
Proof.
  intros Hm Hg new Hcap Hidx. rewrite (m_end _ _ _ _ _ _ _ _ Hm) in *.
  destruct (index_log_append (f_data f) (f_data f') es new (m_log _ _ _ _ _ _ _ _ Hm)
    (m_tail _ _ _ _ _ _ _ _ Hm)) as [H1 H2]; [|done|done|].
  - by apply group_entries_ok.
  - split; [done|]. split; [done|]. unfold log_end. rewrite length_app. lia.
Qed.

(** The extent of a directly stored object is kept under its fid. *)
Lemma direct_extent d f refs pk ivs iend es st k ref :
  mirrors d f refs pk ivs iend es st → owned refs → refs !! k = Some ref →
  ∃ iv, rs_extents st !! r_fid ref = Some iv ∧ extent_of d (r_fid ref) (storedSize ref) = Ok iv.
Proof.
  intros Hm Ho Hk. apply Ho in Hk.
  pose proof (replay_fold_ok d es st (index_log_entries_ok _ _ (m_log _ _ _ _ _ _ _ _ Hm))
    (m_fold _ _ _ _ _ _ _ _ Hm)) as Hst.
  pose proof (load_tables_direct _ _ _ _ _ _ _ _ (m_load _ _ _ _ _ _ _ _ Hm) Hk eq_refl) as Hr.
  cbn [fst] in Hr. by apply (rs_ref_ok _ _ Hst) in Hr as (_ & _ & _ & _ & _ & _ & []).
Qed.

(** ** A tombstone *)
Lemma mirrors_tombstone d f f' refs pk ivs iend es st k ref :
  disk_ok d → mirrors d f refs pk ivs iend es st → owned refs →
  refs !! k = Some ref → r_packed ref = true → is_u64 k → k ≠ 0 →
  Z.of_nat (length es + 1) ≤ index_capacity →
  f_size f' = f_size f →
  (∀ a, IndexStart ≤ a < GridStart →
     f_data f' a = upd (f_data f) iend (buf_of (encode_entries [mkEntry k 0 0])) a) →
  (∀ a, (∃ iv, iv ∈ ivs ∧ ext_addr iv a) → f_data f' a = f_data f a) →
  mirrors d f' refs pk ivs (iend + 16) (es ++ [mkEntry k 0 0]) (del_fid k st).
Proof.
  intros Hd Hm Ho Hk Hp Hu Hne Hcap Hsz Hidx Hext.
  destruct (mirrors_log_append d f f' refs pk ivs iend es st (GTomb k) Hm) as (Hl & Ht & He);
    [done|done|done|]. cbn [group_entries length] in *.
  pose proof Hm as [Hlog Htail Hfold Hal Hpp Hload Hend Hexts Htables Hback].
  pose proof (replay_fold_ok d es st (index_log_entries_ok _ _ Hlog) Hfold) as Hst.
  assert (Hkt : k ∉ rs_tables st) by (intros Hin; apply Htables in Hin as (r & Hr & ?); congruence).
  constructor; try done.
  - rewrite foldM_app, Hfold. cbn [mbind res_bind foldM]. unfold replay_entry. rewrite Hpp.
    unfold del_fid. by rewrite Hal.
  - cbn [rs_tables rs_refs rs_packed del_fid]. rewrite (rs_packed_none _ _ Hst), delete_empty in *.
    apply (load_tables_delete d (rs_tables st) (rs_refs st) ∅ (clean f) (refs, pk) k ref) in Hload; try done.
    2:{ intros r Hr. by apply (rs_ref_ok _ _ Hst) in Hr as (_ & _ & ? & _). }
    pose proof (load_tables_frame d (rs_tables st) (delete k (rs_refs st), ∅) (clean f) (clean f')
      (refs, pk) ∅ eq_refl eq_refl Hsz Hload) as Hfr. cbn [fst snd] in Hfr.
    rewrite !(left_id_L ∅ (∪)) in Hfr. apply Hfr; [|by intros ? [? ?]].
    by apply (mirrors_tables_local d f refs pk ivs iend es).
  - cbn [rs_extents del_fid]. etransitivity; [|exact Hexts].
    destruct (rs_extents st !! k) as [iv|] eqn:Ek.
    + rewrite <- (map_to_list_delete _ _ _ Ek). cbn. by apply submseteq_cons.
    + by rewrite delete_id.
  - cbn [rs_extents del_fid]. intros k' ref' Hk'. destruct (Hback k' ref' Hk') as [Hu' [Hf Hr Hs _]].
    split; [done|]. split; [done..|].
    destruct (direct_extent d f refs pk ivs iend es st k' ref' Hm Ho Hk') as (iv & Hiv & Hx).
    exists iv. split; [|done].
    assert (r_fid ref' ≠ k).
    { intros E. apply Ho in Hk'. rewrite E, Hk in Hk'. injection Hk' as ->. done. }
    apply list_elem_of_fmap. exists (r_fid ref', iv). split; [done|]. apply elem_of_map_to_list.
    by rewrite lookup_delete_ne by congruence.
Qed.

(** ** The anchor of a packed table *)
Lemma add_packed_cases hd t sz es maps k ref :
  (add_packed hd t sz maps es).1 !! k = Some ref →
  (reg es k = false ∧ maps.1 !! k = Some ref) ∨
  ∃ e, e ∈ es ∧ e_fid e = k ∧ ref = mkRef (h_containerFID hd) (h_containerSize hd) (e_size e) (e_offset e) true.
Proof.
  unfold add_packed. revert maps. induction es as [|e es IH]; intros [refs pk]; [by left|].
  cbn [foldl reg existsb]. intros [[H1 H2]|(e' & Hin & H)]%IH.
  2:{ right. exists e'. split; [by right|done]. }
  cbn [fst] in H2. destruct (Z.eqb_spec (e_fid e) k) as [<-|Hne].
  - rewrite lookup_insert_eq in H2. injection H2 as <-. right. exists e. split; [by left|done].
  - rewrite lookup_insert_ne in H2 by done. by left.
Qed.

Lemma reg_spec es k : reg es k = true ↔ ∃ e, e ∈ es ∧ e_fid e = k.
Proof.
  unfold reg. rewrite existsb_exists. setoid_rewrite <- list_elem_of_In. setoid_rewrite Z.eqb_eq. done.
Qed.

Lemma reg_false es k : reg es k = false ↔ ∀ e, e ∈ es → e_fid e ≠ k.
Proof.
  rewrite <- not_true_iff_false, reg_spec. split.
  - intros H e He E. apply H. by exists e.
  - intros H (e & He & E). by apply (H e).
Qed.

(** A table that can be anchored: it is stored, its container is, and it lists objects that no table
    and no other object depends on. *)
Record anchorable (d : Z) (g : Z → byte) (refs : gmap Z objectRef) (ts : list Z) (t size : Z)
    (hd : packedTableHeader) (ents : list packedTableEntry) : Prop := {
  an_table : refs !! t = Some (plain_ref t size);
  an_group : group_ok (GTable t size);
  an_blob : decodePackedTable (ref_bytes d g (plain_ref t size)) = Ok (hd, ents);
  an_container : refs !! h_containerFID hd = Some (plain_ref (h_containerFID hd) (h_containerSize hd));
  an_entries e : e ∈ ents → is_u64 (e_fid e) ∧ 0 < e_size e ∧ 0 ≤ e_offset e ∧
    e_offset e + e_size e ≤ h_containerSize hd ∧ e_fid e ∉ t :: ts ∧ e_fid e ≠ h_containerFID hd ∧
    ∀ k ref, refs !! k = Some ref → r_fid ref = e_fid e → k = e_fid e
}.

Lemma anchor_owned d g refs ts t size hd ents pk :
  anchorable d g refs ts t size hd ents → owned refs → owned (add_packed hd t size (refs, pk) ents).1.
Proof.
  intros [Ht Hg Hb Hc He] Ho k ref Hk.
  assert (Hunreg : ∀ k r, (∀ e, e ∈ ents → e_fid e ≠ k) → refs !! k = Some r →
    (add_packed hd t size (refs, pk) ents).1 !! k = Some r).
  { intros k' r Hn Hr. rewrite add_packed_unreg; [done|]. by apply reg_false. }
  apply add_packed_cases in Hk as [[Hu Hk]|(e & Hin & <- & ->)].
  - cbn [fst] in Hk. apply Hunreg; [|by apply Ho in Hk]. intros e Hin E.
    destruct (He e Hin) as (_ & _ & _ & _ & _ & _ & Hx). symmetry in E.
    pose proof (Hx _ _ Hk E) as ->. by rewrite (proj2 (reg_spec ents (e_fid e))) in Hu by eauto.
  - cbn [r_fid storedSize]. apply Hunreg; [|done]. intros e' Hin'.
    by destruct (He e' Hin') as (_ & _ & _ & _ & _ & ? & _).
Qed.

Lemma mirrors_anchor d f f' refs pk ivs iend es st t size hd ents :
  disk_fits d → mirrors d f refs pk ivs iend es st → owned refs →
  anchorable d (f_data f) refs (rs_tables st) t size hd ents →
  Z.of_nat (length es + 2) ≤ index_capacity →
  f_size f = d → f_size f' = d →
  (∀ a, IndexStart ≤ a < GridStart →
     f_data f' a = upd (f_data f) iend (buf_of (encode_entries (group_entries (GTable t size)))) a) →
  (∀ a, (∃ iv, iv ∈ ivs ∧ ext_addr iv a) → f_data f' a = f_data f a) →
  let maps := add_packed hd t size (refs, pk) ents in
  mirrors d f' maps.1 maps.2 ivs (iend + 32) (es ++ group_entries (GTable t size))
    (mkRstate (rs_refs st) (rs_packed st) (rs_extents st) None None (rs_tables st ++ [t])).
Proof.
  intros Hfits Hm Ho Han Hcap Hsz Hsz' Hidx Hext maps. pose proof (disk_fits_ok _ Hfits) as Hd.
  pose proof Han as [Ht Hg Hb Hc He].
  destruct (mirrors_log_append d f f' refs pk ivs iend es st (GTable t size) Hm) as (Hl & Htl & Hend');
    [done|done|done|].
  pose proof Hm as [Hlog Htail Hfold Hal Hpp Hload Hend Hexts Htables Hback].
  pose proof (replay_fold_ok d es st (index_log_entries_ok _ _ Hlog) Hfold) as Hst.
  pose proof (load_tables_direct _ _ _ _ _ _ _ _ Hload Ht eq_refl) as Hrt. cbn [fst] in Hrt.
  destruct (direct_extent d f refs pk ivs iend es st t _ Hm Ho Ht) as (iv & Hiv & Hxt). cbn [r_fid storedSize plain_ref] in *.
  assert (Hmaps : ∀ k, (∀ e, e ∈ ents → e_fid e ≠ k) → maps.1 !! k = refs !! k).
  { intros k Hn. apply add_packed_unreg. by apply reg_false. }
  constructor; try done.
  - rewrite foldM_app, Hfold. cbn [mbind res_bind].
    rewrite (replay_group_ok d st (GTable t size)); [|done|done| |done].
    + unfold add_group. cbn [group_refs target fst]. do 2 f_equal.
      * rewrite <- insert_union_singleton_l. by apply insert_id.
      * unfold group_ext. cbn [target fst snd]. rewrite Hxt. by apply insert_id.
    + split; [|done]. cbn [target fst snd]. by rewrite Hxt.
  - cbn [rs_tables rs_refs rs_packed].
    assert (Hload' : load_tables d (rs_tables st) (rs_refs st, rs_packed st) (clean f') = (Ok (refs, pk), clean f')).
    { pose proof (load_tables_frame d (rs_tables st) (rs_refs st, rs_packed st) (clean f) (clean f')
        (refs, pk) ∅ eq_refl eq_refl ltac:(cbn; congruence) Hload) as Hfr. cbn [fst snd] in Hfr.
      rewrite !(left_id_L ∅ (∪)) in Hfr. apply Hfr; [|by intros ? [? ?]].
      by apply (mirrors_tables_local d f refs pk ivs iend es). }
    rewrite (load_tables_snoc _ _ _ _ _ _ _ Hload'), load_tables_cons. cbn [fst]. rewrite Ht.
    cbn [r_fid storedSize r_size plain_ref].
    pose proof (mirrors_backed _ _ _ _ _ _ _ _ _ _ Hm Ht) as Hbr.
    destruct (ref_backed_addr d ivs _ Hd Hbr) as (iv' & Hiv' & HA & Hgrid & Hcov).
    cbn [r_fid storedSize plain_ref] in *. unfold mbind at 1, M_bind, mlift at 1. rewrite HA.
    assert (Hsize : 0 < size) by (destruct Hg as (_ & _ & ?); lia).
    set (addr := GridStart + start iv' * SlotSize) in *.
    pose proof (in_grid_addr d iv' addr Hd Hgrid (Hcov addr ltac:(lia))) as Ha1.
    pose proof (in_grid_addr d iv' (addr + size - 1) Hd Hgrid (Hcov (addr + size - 1) ltac:(lia))) as Ha2.
    unfold disk_fits in Hfits.
    unfold mbind at 1, M_bind. rewrite read_blob_ok; [|done|llia|unfold maxAlloc; llia|cbn; lia|cbn; lia].
    assert (Hbytes : bytes_at (f_data (clean f')) addr (Z.to_nat size) = ref_bytes d (f_data f) (plain_ref t size)).
    { unfold ref_bytes. cbn [r_fid storedSize plain_ref r_offset r_size]. rewrite HA, Z.add_0_r.
      apply bytes_at_ext. intros i Hi. apply Hext. exists iv'. split; [done|]. apply Hcov. lia. }
    rewrite Hbytes, Hb. cbn. fold maps. by rewrite <- surjective_pairing.
  - intros t' [Hin| ->%list_elem_of_singleton]%elem_of_app.
    + destruct (Htables t' Hin) as (r & Hr & Hp). exists r. split; [|done]. rewrite Hmaps; [done|].
      intros e Hin'. destruct (He e Hin') as (_ & _ & _ & _ & Hn & _). intros E. apply Hn. rewrite E. by right.
    + exists (plain_ref t size). split; [|done]. rewrite Hmaps; [done|].
      intros e Hin'. destruct (He e Hin') as (_ & _ & _ & _ & Hn & _). intros E. apply Hn. rewrite E. by left.
  - intros k ref Hk. cbn [rs_extents]. apply add_packed_cases in Hk as [[Hu Hk]|(e & Hin & <- & ->)];
      [by apply Hback in Hk|].
    destruct (He e Hin) as (Hu & H1 & H2 & H3 & _). destruct (Hback _ _ Hc) as [_ [Hf Hr Hs Hx]].
    split; [done|]. split; try done; cbn [r_fid storedSize plain_ref r_size r_offset] in *.
Qed.
