(* ===== verification/TrimWrite.v ===== *)
(** * The objects a trim writes

    [ready] is the state a trim starts from and every step of it but one keeps: the invariant of the
    disk, an index in the grammar of [Compact], and every packed or aliased object inside one that is
    stored directly.  The container and the packed table are written like committed objects: into free
    slots, then synced, then registered. *)

From S2P Require Import Prelude Machine Loop Float Device Layout IndexScan PackedTable Interval.
From S2P Require Import Replay DirectIO DeviceState DeviceInv DeviceOps DiskStore Compact CompactRun.
From S2P Require Import Backup Trim TrimIndex.
From Stdlib Require Import Strings.Byte.

(** The fids a group names. *)
Definition group_fids (g : group) : list Z := match g with GTomb f => [f] | _ => claims g end.

Record ready (s : DeviceState) (gs : list group) : Prop := {
  rd_inv : Inv s;
  rd_err : indexErr s = None;
  rd_faults : f_faults (ds_file s) = [];
  rd_mirror : ∃ st, mirrors (diskBytes s) (ds_file s) (confirmed s) (packed s) (intervals s)
                      (indexEnd s) (log_of gs) st;
  rd_log : log_ok gs;
  rd_known g f : g ∈ gs → f ∈ group_fids g → is_Some (confirmed s !! f);
  rd_owned : owned (confirmed s);
  rd_zero : confirmed s !! 0 = None
}.

(** The bytes of the extents puts in flight have reserved. *)
Definition same_pending (s : DeviceState) (f f' : file) : Prop :=
  ∀ iv a, iv ∈ pendingIntervals s → ext_addr iv a → f_data f' a = f_data f a.

(** What stays of a disk: its identity, and what puts in flight have reserved and written. *)
Definition same_disk (s s' : DeviceState) : Prop :=
  diskBytes s' = diskBytes s ∧ diskID s' = diskID s ∧ pendingIntervals s' = pendingIntervals s ∧
  directFile s' = directFile s ∧ same_pending s (ds_file s) (ds_file s').

Lemma same_disk_refl s : same_disk s s.
Proof. done. Qed.
Lemma same_disk_trans s1 s2 s3 : same_disk s1 s2 → same_disk s2 s3 → same_disk s1 s3.
Proof.
  intros (? & ? & E & ? & Hp1) (? & ? & ? & ? & Hp2). split_and!; try congruence.
  intros iv a Hiv Ha. rewrite (Hp2 iv a); [by eapply Hp1|by rewrite E|done].
Qed.

Lemma contents_ext s s' k :
  Inv s → indexErr s = None → confirmed s' !! k = confirmed s !! k → diskBytes s' = diskBytes s →
  (∀ iv a, iv ∈ intervals s → ext_addr iv a → f_data (ds_file s') a = f_data (ds_file s) a) →
  contents s' k = contents s k.
Proof.
  intros Hs He Hc Hd Hg. unfold contents. rewrite Hc, Hd.
  destruct (confirmed s !! k) as [ref|] eqn:Ek; [|done]. cbn. f_equal.
  eapply ref_bytes_ext; [apply disk_fits_ok, Hs|by eapply Inv_backed|done].
Qed.

(** ** Writing index bytes *)

(** The file after bytes were written in place. *)
Record wrote (f : file) (off : Z) (l : list byte) (f' : file) : Prop := {
  w_data a : f_data f' a = upd (f_data f) off (buf_of l) a;
  w_size : f_size f' = f_size f;
  w_grow : f_grow f' = f_grow f;
  w_faults : f_faults f' = []
}.

Lemma must_write_wrote f off l :
  f_faults f = [] → f_size f < 2 ^ 63 → 0 ≤ off → off + Z.of_nat (length l) ≤ f_size f →
  ∃ f', must_write (buf_of l) (int64 off) f = (Ok tt, f') ∧ wrote f off l f'.
Proof.
  intros Hf Hsz Ho Hn. rewrite int64_small by lia.
  destruct (WriteAt_takes (buf_of l) off f (f_size f)) as (f' & Hw & [Hf' _] & Hg & Hd & Hs);
    [split; [done|right; lia]|done|cbn; lia|cbn; lia|].
  exists f'. unfold must_write. rewrite Hw. split; [done|]. split; try done.
  rewrite Hs. cbn [buf_of blen]. destruct (f_grow f); lia.
Qed.

Lemma wrote_sync f off l f1 msg :
  wrote f off l f1 → ∃ f', mwrap msg must_sync f1 = (Ok tt, f') ∧ wrote f off l f'.
Proof.
  intros [Hd Hs Hg Hf]. pose proof (must_sync_spec f1) as H. unfold mwrap.
  destruct (must_sync f1) as [r f']. destruct H as (Hd' & Hs' & Hg' & _ & Hf').
  destruct (Hf' Hf) as [Hr Hff]. destruct r as [[]|]; [|done]. exists f'. split; [done|].
  split; [|congruence..|done]. intros a. by rewrite Hd'.
Qed.

(** Bytes of the index do not touch the grid or the header. *)
Lemma wrote_extents s f off l f' :
  Inv s → wrote f off l f' → IndexStart ≤ off → off + Z.of_nat (length l) ≤ GridStart →
  (∀ iv a, iv ∈ intervals s ++ pendingIntervals s → ext_addr iv a → f_data f' a = f_data f a) ∧
  ∀ a, 0 ≤ a < IndexStart → f_data f' a = f_data f a.
Proof.
  intros Hs [Hd _ _ _] Ho Hl. split.
  - intros iv a Hiv Ha. rewrite Hd. apply upd_out. cbn [buf_of blen]. right.
    pose proof (i_grid _ Hs) as Hg. rewrite Forall_forall in Hg.
    pose proof (in_grid_addr _ _ _ (disk_fits_ok _ (i_disk _ Hs)) (Hg iv Hiv) Ha). lia.
  - intros a Ha. rewrite Hd. apply upd_out. lia.
Qed.

Lemma wrote_pending s off l f' :
  Inv s → wrote (ds_file s) off l f' → IndexStart ≤ off → off + Z.of_nat (length l) ≤ GridStart →
  same_pending s (ds_file s) f'.
Proof.
  intros Hs Hw Ho Hl iv a Hiv Ha. apply (proj1 (wrote_extents s _ off l f' Hs Hw Ho Hl) iv a); [|done].
  apply elem_of_app. by right.
Qed.

Lemma ready_end s gs :
  ready s gs → indexEnd s = IndexStart + 16 * Z.of_nat (length (log_of gs)) ∧
    Z.of_nat (length (log_of gs)) ≤ index_capacity ∧
    0 ≤ indexEnd s ∧ diskBytes s ≤ 2 ^ 48 ∧ GridStart < diskBytes s ∧ f_size (ds_file s) = diskBytes s.
Proof.
  intros [Hi _ _ (st & Hm) _ _ _ _]. pose proof (i_disk _ Hi) as Hd. unfold disk_fits in Hd.
  pose proof (m_end _ _ _ _ _ _ _ _ Hm) as He.
  pose proof (log_capacity _ _ (m_log _ _ _ _ _ _ _ _ Hm)) as Hc. unfold log_end in He.
  pose proof (i_size _ Hi). split_and!; try done; llia.
Qed.

(** A log may be longer by a few entries. *)
Definition room (gs : list group) (n : nat) : Prop :=
  Z.of_nat (length (log_of gs) + n) ≤ index_capacity.

(** The log after one more group. *)
Lemma log_ok_add gs g :
  log_ok gs → group_ok g →
  match g with
  | GTable f _ => f ∉ table_fids gs ∧ f ∉ pair_fids gs ∧ f ∉ tomb_fids gs
  | GTomb f => f ∉ table_fids gs ∧ f ∉ pair_fids gs
  | GPlain _ _ => True
  | GAlias a _ f _ => ∀ k, k ∈ [a; f] → k ∉ table_fids gs ∧ k ∉ tomb_fids gs
  end → log_ok (gs ++ [g]).
Proof.
  intros [Hg Ht Htb Hp] Hok Hside.
  assert (Et : table_fids (gs ++ [g]) = table_fids gs ++ match g with GTable f _ => [f] | _ => [] end)
    by (unfold table_fids; rewrite omap_app; by destruct g).
  assert (Eb : tomb_fids (gs ++ [g]) = tomb_fids gs ++ match g with GTomb f => [f] | _ => [] end)
    by (unfold tomb_fids; rewrite omap_app; by destruct g).
  assert (Ep : pair_fids (gs ++ [g]) = pair_fids gs ++ match g with GAlias a _ f _ => [a; f] | _ => [] end)
    by (unfold pair_fids; rewrite bind_app; by destruct g; cbn; rewrite ?app_nil_r).
  split.
  - by apply Forall_app; split; [|apply Forall_singleton].
  - rewrite Et. apply NoDup_app. split; [done|].
    destruct g as [fid size|a code fid size|fid size|fid]; [| |split|];
      try (split; [set_solver|constructor]); [set_solver|apply NoDup_singleton].
  - rewrite Et, Eb, Ep. intros f [Hf|Hf]%elem_of_app.
    + destruct (Htb f Hf). destruct g as [|a c f' sz| |]; try set_solver.
    + destruct g; set_solver.
  - rewrite Et, Ep. intros f [Hf|Hf]%elem_of_app.
    + rewrite elem_of_app. intros [Hin|Hin]; [by apply (Hp f)|]. destruct g as [|a c f' sz| |]; try set_solver.
    + destruct g; set_solver.
Qed.

(** A fid that is not registered is nowhere in the log. *)
Lemma unknown_fids s gs f :
  ready s gs → confirmed s !! f = None → f ∉ table_fids gs ∧ f ∉ pair_fids gs ∧ f ∉ tomb_fids gs.
Proof.
  intros Hr Hn. pose proof (rd_known _ _ Hr) as Hk.
  assert (Hno : ∀ g, g ∈ gs → f ∈ group_fids g → False) by (intros g Hg Hf; destruct (Hk g f Hg Hf); congruence).
  unfold table_fids, pair_fids, tomb_fids. rewrite !list_elem_of_omap, list_elem_of_bind. split_and!.
  - intros (g & Hg & Hf). eapply Hno; [exact Hg|]. destruct g; try done. injection Hf as ->. by left.
  - intros (g & Hf & Hg). eapply Hno; [exact Hg|]. destruct g; try (by apply not_elem_of_nil in Hf). done.
  - intros (g & Hg & Hf). eapply Hno; [exact Hg|]. destruct g; try done. injection Hf as ->. by left.
Qed.

(** ** Registering a written object *)

(** Registering never fails on a working device with room in the index. *)
Lemma register_ok s gs fid size iv f1 :
  ready s gs → is_u64 fid → 0 < size ≤ diskBytes s → f_size f1 = f_size (ds_file s) → f_faults f1 = [] →
  room gs 1 → ∃ s', register_object fid size iv (set_file s f1) = (Ok tt, s').
Proof.
  intros Hr Hu Hsize Hs1 Hf1 Hroom. pose proof (ready_end _ _ Hr) as (Hend & Hcap & Hend0 & Hd & HdG & Hsz).
  unfold room in Hroom.
  assert (HNE : Z.of_nat (length (entry_bytes (mkEntry fid size 0))) = 16) by (by rewrite length_entry_bytes).
  unfold register_object. rewrite BuildIndexEntry_plain by (unfold IndexJumpSentinel; lia).
  rewrite HNE. cbn [indexEnd set_file ds_file]. rewrite u64_small by llia.
  destruct (Z.ltb_spec GridStart (indexEnd s + 16)) as [|Hle]; [llia|].
  destruct (must_write_wrote f1 (indexEnd s) (entry_bytes (mkEntry fid size 0)) Hf1) as (f2 & Hw & Hwr);
    [lia|lia|rewrite HNE; lia|].
  unfold mbind at 1, M_bind. rewrite Hw.
  destruct (wrote_sync f1 (indexEnd s) _ f2 "sync index" Hwr) as (f3 & -> & _). by eexists.
Qed.

Lemma register_ready s gs fid l iv f1 :
  let size := Z.of_nat (length l) in
  ready s gs → is_u64 fid → fid ≠ 0 → confirmed s !! fid = None → 0 < size < 2 ^ 64 →
  extent_of (diskBytes s) fid size = Ok iv →
  anyOverlap (intervals s) iv = false → anyOverlap (pendingIntervals s) iv = false →
  agrees (intervals s) (ds_file s) f1 → same_pending s (ds_file s) f1 → f_faults f1 = [] →
  ref_bytes (diskBytes s) (f_data f1) (plain_ref fid size) = l → room gs 1 →
  ∃ s', register_object fid size iv (set_file s f1) = (Ok tt, s') ∧ ready s' (gs ++ [GPlain fid size]) ∧
    same_disk s s' ∧ confirmed s' = <[fid := plain_ref fid size]> (confirmed s) ∧ packed s' = packed s ∧
    intervals s' = intervals s ++ [iv] ∧ contents s' fid = Some l ∧
    ∀ k, k ≠ fid → contents s' k = contents s k.
Proof.
  intros size Hr Hu Hnz Hn Hpos Hx Ho1 Ho2 Hag Hpend Hf1 Hbytes Hroom.
  pose proof (ready_end _ _ Hr) as (Hend & Hcap & Hend0 & Hd & HdG & Hsz).
  pose proof Hr as [Hi He Hfa (st & Hm) Hlog Hknown Hown Hzero]. pose proof Hag as (Hs1 & Hg1 & _).
  pose proof (Inv_file_frame s f1 Hi Hag) as Hi1. unfold room in Hroom.
  assert (Hm1 : mirrors (diskBytes s) f1 (confirmed s) (packed s) (intervals s) (indexEnd s) (log_of gs) st)
    by (eapply mirrors_frame; [apply disk_fits_ok, Hi|exact Hm|exact Hag]).
  assert (Hsize : size ≤ diskBytes s).
  { unfold extent_of in Hx. destruct (AddrForFID (diskBytes s) fid size) as [[[addr i] k]|] eqn:HA; [|done].
    apply (AddrForFID_size _ _ _ _ _ _ (i_disk _ Hi)) in HA; [lia|unfold is_u64; lia]. }
  destruct Hu as [Hu0 Hu1].
  pose proof (extent_of_Ok _ fid size iv (disk_fits_ok _ (i_disk _ Hi)) Hu0 ltac:(lia) Hx)
    as (_ & Hok & H0 & Hdend & Hcov & HA).
  assert (Hgrid : in_grid (diskBytes s) iv) by done.
  assert (HNE : Z.of_nat (length (entry_bytes (mkEntry fid size 0))) = 16) by (by rewrite length_entry_bytes).
  unfold register_object. rewrite BuildIndexEntry_plain by (unfold IndexJumpSentinel; lia).
  rewrite HNE. cbn [indexEnd set_file ds_file]. rewrite u64_small by llia.
  destruct (Z.ltb_spec GridStart (indexEnd s + 16)) as [|Hle]; [llia|].
  destruct (must_write_wrote f1 (indexEnd s) (entry_bytes (mkEntry fid size 0)) Hf1) as (f2 & Hw & Hwr);
    [lia|lia|rewrite HNE; lia|].
  unfold mbind at 1, M_bind. rewrite Hw.
  destruct (wrote_sync f1 (indexEnd s) _ f2 "sync index" Hwr) as (f3 & -> & Hwr3).
  destruct (wrote_extents (set_file s f1) f1 _ _ f3 Hi1 Hwr3) as [Hext Hhead]; [llia|rewrite HNE; lia|].
  cbn [intervals pendingIntervals set_file] in Hext.
  destruct (mirrors_append (diskBytes s) f1 f3 (confirmed s) (packed s) (intervals s) (indexEnd s) (log_of gs) st
    fid size 0 iv (disk_fits_ok _ (i_disk _ Hi)) Hm1) as (st' & Hm').
  { split; [done|unfold is_u64; lia|unfold IndexPackedSentinel; lia|done|done|done]. }
  { cbn. llia. }
  { apply Hwr3. }
  { apply Hwr3. }
  { intros a _. destruct Hwr3 as [-> _ _ _]. unfold new_entries, encode_entries. cbn [Z.eqb fmap list_fmap concat].
    by rewrite app_nil_r. }
  { intros a (iv' & Hiv & Ha). apply (Hext iv'); [|done]. apply elem_of_app. by left. }
  change (new_entries fid size 0) with [mkEntry fid size 0] in Hm'.
  change (new_refs fid size 0) with ({[fid := plain_ref fid size]} : gmap Z objectRef) in Hm'.
  rewrite <- insert_union_singleton_l in Hm'.
  replace (indexEnd s + 16 * _) with (u64 (indexEnd s + 16)) in Hm' by (cbn [length]; rewrite u64_small; llia).
  assert (Hlog' : log_of (gs ++ [GPlain fid size]) = log_of gs ++ [mkEntry fid size 0]) by apply log_of_snoc.
  eexists. split; [reflexivity|]. split_and!; try done.
  - split; cbn; try done.
    + constructor; cbn.
      * apply Hi.
      * destruct Hwr3 as [_ -> _ _]. by rewrite Hs1.
      * destruct Hwr3 as [_ _ -> _]. by rewrite Hg1, (i_grow _ Hi).
      * eapply header_valid_ext; [|exact (i_header _ Hi1)]. exact Hhead.
      * rewrite <- app_assoc. cbn. pose proof (i_disjoint _ Hi) as Hdis.
        rewrite !disjoint_all_app in *. destruct Hdis as (? & ? & Hff). cbn [disjoint_all].
        apply anyOverlap_false in Ho1, Ho2. split; [done|]. split.
        { split; [|done]. eapply Forall_impl; [exact Ho2|]. intros. by rewrite overlaps_sym. }
        rewrite Forall_forall in *. intros a Ha. constructor; [by apply Ho1|by apply Hff].
      * pose proof (i_grid _ Hi) as Hgr. rewrite Forall_app in Hgr. destruct Hgr.
        rewrite !Forall_app. split_and!; [done|by constructor|done].
      * intros _. exists (log_of gs ++ [mkEntry fid size 0]), st'. exact Hm'.
    + apply Hwr3.
    + exists st'. rewrite Hlog'. exact Hm'.
    + apply log_ok_add; [done| |done]. cbn. unfold is_u64, IndexPackedSentinel. lia.
    + intros g f [Hg| ->%list_elem_of_singleton]%elem_of_app Hf.
      * rewrite lookup_insert_is_Some'. right. by eapply Hknown.
      * apply list_elem_of_singleton in Hf as ->. by rewrite lookup_insert_eq.
    + intros k ref. destruct (decide (k = fid)) as [->|Hne].
      * rewrite lookup_insert_eq. intros [= <-]. cbn [r_fid storedSize plain_ref]. by rewrite lookup_insert_eq.
      * rewrite lookup_insert_ne by done. intros Hk%Hown. destruct (decide (r_fid ref = fid)) as [E|].
        { rewrite E, Hn in Hk. done. }
        by rewrite lookup_insert_ne.
    + by rewrite lookup_insert_ne by done.
  - do 4 (split; [done|]). intros iv' a Hiv Ha. cbn. rewrite (Hext iv'); [by apply (Hpend iv')|set_solver|done].
  - unfold contents. cbn. rewrite lookup_insert_eq. cbn. f_equal. rewrite <- Hbytes.
    unfold ref_bytes. cbn [r_fid storedSize plain_ref r_offset r_size]. rewrite HA. apply bytes_at_ext.
    intros a Ha. destruct Hwr3 as [-> _ _ _]. apply upd_out. cbn [buf_of blen]. llia.
  - intros k Hk. transitivity (contents (set_file s f1) k).
    + apply contents_ext; try done.
      * cbn. by rewrite lookup_insert_ne.
      * cbn. intros iv' a Hiv Ha. apply (Hext iv'); [|done]. apply elem_of_app. by left.
    + apply contents_ext; try done. intros iv' a Hiv Ha. apply Hag. right. by exists iv'.
Qed.
