(* ===== verification/TrimStore.v ===== *)
(** * Storing an object without a put

    The two writers of a trim put an object into free slots: [place_object] chooses them, the payload
    is written and padded, and [register_object] appends the index entry.  On a working device they
    fail only before they write anything, and what they add keeps the disk [ready]. *)

From S2P Require Import Prelude Machine Loop Float Device Layout IndexScan PackedTable Interval.
From S2P Require Import Replay DirectIO DeviceState DeviceInv DeviceOps DiskStore Compact CompactRun.
From S2P Require Import Backup Trim TrimIndex TrimWrite.
From Stdlib Require Import Strings.Byte.

(** ** Choosing the slots *)

(** Where an object of [size] bytes may go. *)
Record placed (s : DeviceState) (fid size addr k : Z) (iv : interval) : Prop := {
  pl_new : confirmed s !! fid = None;
  pl_size : 0 < size ≤ diskBytes s;
  pl_ext : extent_of (diskBytes s) fid size = Ok iv;
  pl_free : anyOverlap (intervals s) iv = false ∧ anyOverlap (pendingIntervals s) iv = false;
  pl_addr : AddrForFID (diskBytes s) fid size = Ok (addr, start iv, k);
  pl_grid : GridStart ≤ addr ∧ addr + k * SlotSize ≤ diskBytes s;
  pl_slots : 0 < k < 2 ^ 51 ∧ size ≤ k * SlotSize;
  pl_cover a : ext_addr iv a ↔ addr ≤ a < addr + k * SlotSize
}.

Lemma place_object_outcome s fid size :
  Inv s → indexErr s = None → is_u64 fid → is_u64 size →
  match place_object fid size s with
  | (Err _, s') => s' = s
  | (Ok (addr, k, iv), s') => s' = s ∧ placed s fid size addr k iv
  end.
Proof.
  intros Hs He [Hu1 Hu2] Hsz. unfold place_object. rewrite He.
  destruct (bool_decide_reflect (is_Some (confirmed s !! fid))) as [|Hn]; [done|].
  apply eq_None_not_Some in Hn.
  destruct (AddrForFID (diskBytes s) fid size) as [[[addr i] k]|] eqn:HA; [|done].
  destruct (anyOverlap (intervals s) _ || _) eqn:Ho; [done|]. apply orb_false_iff in Ho as [Ho1 Ho2].
  split; [done|]. pose proof (i_disk _ Hs) as Hfit. pose proof (disk_fits_ok _ Hfit) as Hd.
  pose proof (AddrForFID_size _ _ _ _ _ _ Hfit Hsz HA) as Hps. unfold disk_fits in Hfit.
  assert (Hx : extent_of (diskBytes s) fid size = Ok (mkInterval i (u64 (i + k - 1))))
    by (unfold extent_of; by rewrite HA).
  pose proof (extent_of_Ok _ fid size _ Hd Hu1 ltac:(lia) Hx) as (_ & Hok & H0 & Hend & Hcov & HA').
  pose proof (disk_slots_range _ Hd). pose proof (grid_end _ Hd) as Hge. unfold interval_ok in Hok.
  rewrite HA' in HA. injection HA as Ha Hk. cbn [start end_] in *.
  subst addr. constructor; cbn [start end_]; try done.
  - by rewrite HA', Hk.
  - llia.
  - llia.
  - intros a. unfold ext_addr. cbn [start end_]. llia.
Qed.

(** ** Filling them *)
Lemma pad_object_ok f0 f l addr k :
  let size := Z.of_nat (length l) in
  f_faults f0 = [] → 0 ≤ addr → addr + k * SlotSize ≤ f_size f0 → f_size f0 < 2 ^ 63 →
  0 < k < 2 ^ 51 → size ≤ k * SlotSize → filled f0 (bat (buf_of l)) addr size f →
  ∃ f', pad_object addr size k f = (Ok tt, f') ∧ filled f0 (bat (buf_of l)) addr (k * SlotSize) f'.
Proof.
  intros size Hf Ha Hfit Hmax Hk Hsize Hfl. unfold pad_object.
  assert (Hpad : u64 (k * SlotSize - size) = k * SlotSize - size) by (apply u64_small; llia).
  rewrite Hpad. destruct (Z.ltb_spec 0 (k * SlotSize - size)).
  2:{ exists f. split; [done|]. by replace (k * SlotSize) with size by lia. }
  rewrite u64_small by llia.
  pose proof (writeZeros_spec f0 addr (k * SlotSize) Ha ltac:(lia) ltac:(lia) (bat (buf_of l)) size
    (k * SlotSize - size) f ltac:(lia) ltac:(lia) ltac:(lia) Hfl) as Hz.
  replace (size + (k * SlotSize - size)) with (k * SlotSize) in Hz by lia.
  specialize (Hz ltac:(intros i Hi; cbn; rewrite lookup_ge_None_2 by lia; done)).
  destruct (writeZeros _ _ f) as [[[]|e] f']; [by exists f'|]. by destruct Hz.
Qed.

Lemma filled_sync f0 c addr w f msg :
  f_faults f0 = [] → filled f0 c addr w f →
  ∃ f', mwrap msg must_sync f = (Ok tt, f') ∧ filled f0 c addr w f'.
Proof.
  intros Hf0 [Hd Hs Hg Hf _]. pose proof (must_sync_spec f) as H. unfold mwrap.
  destruct (must_sync f) as [r f']. destruct H as (Hd' & Hs' & Hg' & Hdi & Hf').
  destruct (Hf' (Hf Hf0)) as [Hr Hff]. destruct r as [[]|]; [|done]. exists f'. split; [done|].
  split; [|congruence..|done|by apply dirty_in_synced, Hdi]. intros a. by rewrite Hd', Hd.
Qed.

(** ** What a stored object adds *)
Record added (s : DeviceState) (gs : list group) (fid : Z) (l : list byte) (s' : DeviceState) : Prop := {
  ad_new : confirmed s !! fid = None;
  ad_ready : ready s' (gs ++ [GPlain fid (Z.of_nat (length l))]);
  ad_disk : same_disk s s';
  ad_confirmed : confirmed s' = <[fid := plain_ref fid (Z.of_nat (length l))]> (confirmed s);
  ad_packed : packed s' = packed s;
  ad_bytes : contents s' fid = Some l;
  ad_others k : k ≠ fid → contents s' k = contents s k
}.

Lemma register_added_nonzero s gs fid l addr k iv f1 :
  let size := Z.of_nat (length l) in
  ready s gs → is_u64 fid → fid ≠ 0 → placed s fid size addr k iv → room gs 1 →
  filled (ds_file s) (bat (buf_of l)) addr (k * SlotSize) f1 →
  ∃ s', register_object fid size iv (set_file s f1) = (Ok tt, s') ∧ added s gs fid l s'.
Proof.
  intros size Hr Hu Hnz [Hn Hsz Hx [Ho1 Ho2] HA [Hg1 Hg2] [Hk Hcov] Hext] Hroom [Hd Hs Hg Hf].
  pose proof (ready_end _ _ Hr) as (_ & _ & _ & Hdb & _ & Hfs).
  destruct (register_ready s gs fid l iv f1) as (s' & E & Hr' & Hsame & Hc & Hp & _ & Hb & Hk'); try done.
  - lia.
  - split; [done|]. split; [done|]. intros a Ha. rewrite Hd.
    destruct ((addr <=? a) && (a <? addr + k * SlotSize)) eqn:Ein; [|done].
    assert (Hin : addr ≤ a < addr + k * SlotSize) by lia.
    destruct Ha as [Ha|(iv' & Hiv & Ha)]; [lia|]. apply Hext in Hin. exfalso.
    apply anyOverlap_false in Ho1. rewrite Forall_forall in Ho1. by apply (ext_addr_disjoint iv' iv a (Ho1 _ Hiv)).
  - intros iv' a Hiv Ha. rewrite Hd.
    destruct ((addr <=? a) && (a <? addr + k * SlotSize)) eqn:Ein; [|done]. exfalso.
    assert (Hin : addr ≤ a < addr + k * SlotSize) by lia. apply Hext in Hin. apply anyOverlap_false in Ho2.
    rewrite Forall_forall in Ho2. by apply (ext_addr_disjoint iv' iv a (Ho2 _ Hiv)).
  - apply Hf, Hr.
  - unfold ref_bytes. cbn [r_fid storedSize r_offset r_size plain_ref]. fold size. rewrite HA, Z.add_0_r.
    unfold size. rewrite Nat2Z.id. 
    transitivity (bytes_at (upd (f_data (ds_file s)) addr (buf_of l)) addr (length l)).
    + apply bytes_at_ext. intros a Ha. rewrite Hd, upd_in by (cbn; lia).
      by rewrite (proj2 (andb_true_iff _ _)) by lia.
    + apply bytes_at_upd_of.
  - exists s'. split; [done|]. by constructor.
Qed.

Lemma register_added s gs fid l addr k iv f1 :
  let size := Z.of_nat (length l) in
  ready s gs → is_u64 fid → placed s fid size addr k iv → room gs 1 →
  filled (ds_file s) (bat (buf_of l)) addr (k * SlotSize) f1 →
  ∃ s', register_object fid size iv (set_file s f1) = (Ok tt, s') ∧ (fid ≠ 0 → added s gs fid l s').
Proof.
  intros size Hr Hu Hpl Hroom Hfl. destruct (decide (fid = 0)) as [->|Hnz].
  - destruct (register_ok s gs 0 size iv f1 Hr Hu (pl_size _ _ _ _ _ _ Hpl)) as (s' & E); [| |done|by exists s'].
    + apply Hfl.
    + apply Hfl, Hr.
  - destruct (register_added_nonzero s gs fid l addr k iv f1 Hr Hu Hnz Hpl Hroom Hfl) as (s' & E & Had). by exists s'.
Qed.

(** The error that stops a writer before it touches the device.  What is stored under the fid 0 is not
    described: replay takes an anchor with that fid for a broken entry. *)
Lemma writeObject_outcome Hash s gs l :
  (∀ l, is_u64 (Hash l)) → ready s gs → room gs 1 → Z.of_nat (length l) < 2 ^ 64 →
  match writeObjectNoJumpLocked Hash l s with
  | (Err _, s') => s' = s
  | (Ok fid, s') => fid = Hash l ∧ (fid ≠ 0 → added s gs fid l s')
  end.
Proof.
  intros HH Hr Hroom Hlen. unfold writeObjectNoJumpLocked.
  destruct (Z.eqb_spec (Z.of_nat (length l)) 0) as [|Hne]; [done|].
  pose proof (HH l) as Hfid. unfold is_u64 in Hfid. pose proof (rd_inv _ _ Hr) as Hi. pose proof (i_disk _ Hi) as Hdk.
  pose proof (i_size _ Hi) as Hfs. unfold disk_fits in Hdk.
  pose proof (place_object_outcome s (Hash l) (Z.of_nat (length l)) Hi (rd_err _ _ Hr)
    ltac:(unfold is_u64; lia) ltac:(unfold is_u64; lia)) as Hpl.
  unfold mbind at 1, M_bind at 1.
  destruct (place_object _ _ s) as [[[[addr k] iv]|e] s']; [|done]. destruct Hpl as [-> Hpl].
  pose proof Hpl as [_ Hsz _ _ _ [Hg1 Hg2] [Hk Hcov] _]. pose proof (rd_faults _ _ Hr) as Hf0.
  unfold mbind at 1, M_bind at 1, fileM at 1.
  rewrite int64_small by llia.
  destruct (must_write_wrote (ds_file s) addr l Hf0) as (f1 & Hw & [Hd1 Hs1 Hgr1 Hf1]); [lia|llia|llia|].
  rewrite int64_small in Hw by llia. rewrite Hw.
  assert (Hfl : filled (ds_file s) (bat (buf_of l)) addr (Z.of_nat (length l)) f1).
  { constructor; try done. exact (must_write_dirty (buf_of l) addr (ds_file s) _ f1 ltac:(cbn; lia) Hw). }
  destruct (pad_object_ok (ds_file s) f1 l addr k) as (f2 & Hp & Hfl2); [done|llia|lia|lia|done|done|done|].
  destruct (filled_sync (ds_file s) _ addr _ f2 "sync packed table payload" Hf0 Hfl2) as (f3 & Hsy & Hfl3).
  unfold mbind at 1, M_bind at 1, fileM at 1. cbn [set_file ds_file]. rewrite Hp.
  unfold mbind at 1, M_bind at 1, fileM at 1. cbn [set_file ds_file]. rewrite Hsy.
  destruct (register_added s gs (Hash l) l addr k iv f3) as (s' & E & Had); try done.
  unfold mbind at 1, M_bind at 1.
  match goal with |- context [register_object _ _ _ ?x] => change x with (set_file s f3) end. by rewrite E.
Qed.

(** ** Objects from a file *)

(** A temporary file with these bytes. *)
Record holds (tmp : file) (l : list byte) : Prop := {
  ho_faults : f_faults tmp = [];
  ho_grow : f_grow tmp = true;
  ho_size : f_size tmp = Z.of_nat (length l);
  ho_data : bytes_at (f_data tmp) 0 (length l) = l
}.

Lemma holds_bat tmp l i : holds tmp l → 0 ≤ i < Z.of_nat (length l) → f_data tmp i = bat (buf_of l) i.
Proof.
  intros [_ _ _ Hd] Hi. cbn. pose proof (lookup_bytes_at (f_data tmp) 0 (length l) (Z.to_nat i) ltac:(lia)) as H.
  rewrite Hd in H. rewrite H. cbn. f_equal. lia.
Qed.

Lemma holds_append tmp l x off :
  holds tmp l → off = f_size tmp →
  ∃ tmp', must_write (buf_of x) off tmp = (Ok tt, tmp') ∧ holds tmp' (l ++ x).
Proof.
  intros Hh ->. pose proof Hh as [Hf Hg Hs Hd].
  destruct (must_write_grow (buf_of x) (f_size tmp) tmp) as (tmp' & Hw & [Hg' Hf'] & Hd' & Hs');
    [done|lia|cbn; lia|].
  exists tmp'. split; [done|]. rewrite Hs in *. cbn [buf_of blen] in *. split; [done|done|rewrite length_app; lia|].
  rewrite length_app, bytes_at_app, Z.add_0_l. f_equal.
  - rewrite <- Hd at 2. apply bytes_at_ext. intros a Ha. rewrite Hd', upd_out; [done|]. lia.
  - rewrite <- (bytes_at_upd_of (f_data tmp) (Z.of_nat (length l)) x) at 2. apply bytes_at_ext.
    intros a Ha. apply Hd'.
Qed.

Lemma write_piece_ok f0 c addr w f b :
  f_faults f0 = [] → 0 ≤ addr → 0 ≤ w → 0 ≤ blen b → addr + w + blen b ≤ f_size f0 → f_size f0 < 2 ^ 63 →
  filled f0 c addr w f → (∀ i, 0 ≤ i < blen b → bat b i = c (w + i)) →
  ∃ f', must_write b (int64 (u64 (addr + w))) f = (Ok tt, f') ∧ filled f0 c addr (w + blen b) f'.
Proof.
  intros Hf0 Ha Hw Hb Hfit Hmax Hfl Hc. pose proof Hfl as [_ Hs _ Hf].
  rewrite u64_small, int64_small by lia. unfold must_write.
  destruct (WriteAt b (addr + w) f) as [[n err] f'] eqn:E.
  destruct (WriteAt_touched b (addr + w) f _ _ ltac:(lia) Hb ltac:(lia) E) as (_ & Hok & Hno).
  cbn in Hok, Hno. rewrite (Hno (Hf Hf0)) in *. destruct (Hok eq_refl) as [_ Hfl'].
  exists f'. split; [done|]. by eapply filled_extend.
Qed.

Lemma copy_payload_ok s tmp l addr :
  let size := Z.of_nat (length l) in
  f_faults (ds_file s) = [] → holds tmp l → 0 ≤ addr → addr + size ≤ f_size (ds_file s) →
  f_size (ds_file s) < 2 ^ 63 →
  ∃ f', copy_payload addr size (s, tmp) = (Ok tt, (set_file s f', tmp)) ∧
    filled (ds_file s) (bat (buf_of l)) addr size f'.
Proof.
  intros size Hf0 Hh Ha Hfit Hmax. unfold copy_payload.
  match goal with |- context [mloop ?p ?b 0] => set (body := b) end.
  set (Q := λ (r : res unit) (st : DeviceState * file), r = Ok tt ∧ st.2 = tmp ∧
    ∃ f', st.1 = set_file s f' ∧ filled (ds_file s) (bat (buf_of l)) addr size f').
  enough (HQ : let m := mloop (Z.to_pos (size + 1)) body 0 (s, tmp) in Q m.1 m.2).
  { cbv zeta in HQ. destruct (mloop _ body 0 (s, tmp)) as [r [s' t']].
    destruct HQ as (Hr & Ht & f' & Hs & Hfl). cbn in Hr, Ht, Hs. subst. eauto. }
  apply (mloop_total (λ w st, 0 ≤ w ≤ size ∧ st.2 = tmp ∧
    ∃ f', st.1 = set_file s f' ∧ filled (ds_file s) (bat (buf_of l)) addr w f') (λ w, size - w) Q).
  - split; [lia|]. split; [done|]. exists (ds_file s). split; [by destruct s|apply filled_0].
  - lia.
  - intros w [s' t'] (Hw & Ht & f & Hs' & Hfl) _. cbn in Ht, Hs'. subst s' t'. unfold body.
    destruct (Z.leb_spec size w).
    { split; [done|]. split; [done|]. exists f. split; [done|]. by replace size with w by lia. }
    pose proof Hh as [Hfl0 _ Hsz _].
    set (b := region (f_data tmp) w (Z.min trimChunk (size - w))).
    assert (Hrd : ReadAt w trimChunk tmp =
      ((b, if Z.min trimChunk (size - w) <? trimChunk then Some EEOF else None), tmp)).
    { unfold ReadAt. destruct (Z.ltb_spec w 0); [lia|]. unfold next_fault. rewrite Hfl0, Hsz.
      assert (E : clamp 0 trimChunk (Z.of_nat (length l) - w) = Z.min trimChunk (size - w))
        by (unfold clamp, trimChunk; lia).
      by rewrite E. }
    assert (Hb : 0 < blen b ≤ size - w) by (cbn; unfold trimChunk; lia).
    assert (Hpiece : ∃ f', copy_piece addr w b (set_file s f) tmp =
        (Ok (inl (w + blen b)), (set_file s f', tmp)) ∧ filled (ds_file s) (bat (buf_of l)) addr (w + blen b) f').
    { unfold copy_piece. destruct (Z.eqb_spec (blen b) 0); [lia|]. cbn [set_file ds_file].
      destruct (write_piece_ok (ds_file s) (bat (buf_of l)) addr w f b) as (f' & -> & Hf'); try done; try lia.
      - intros i Hi. cbn [b bat region]. apply holds_bat; [done|]. lia.
      - by exists f'. }
    rewrite Hrd. destruct Hpiece as (f' & Hpiece & Hf').
    destruct (Z.min trimChunk (size - w) <? trimChunk); cbn [errors_Is negb]; rewrite ?Hpiece;
      (split; [|lia]; split; [lia|]; split; [done|]; by exists f').
Qed.

Section writers.
Context (Hash : list byte → Z) (HH : ∀ l, is_u64 (Hash l)).

Lemma writeFile_outcome s gs open tmp l :
  ready s gs → room gs 1 → holds tmp l → Z.of_nat (length l) < 2 ^ 63 →
  match writeFileObjectNoJumpLocked Hash open (s, tmp) with
  | (Err _, st) => st = (s, tmp)
  | (Ok (fid, size), (s', tmp')) => size = Z.of_nat (length l) ∧ (fid ≠ 0 → added s gs fid l s')
  end.
Proof using HH.
  intros Hr Hroom Hh Hlen. destruct open as [e|]; [done|]. unfold writeFileObjectNoJumpLocked.
  pose proof Hh as [Htf Htg Hts Htd]. rewrite Hts.
  destruct (Z.eqb_spec (Z.of_nat (length l)) 0) as [|Hne]; [done|].
  unfold mbind at 1, M_bind at 1, on_tmp at 1.
  rewrite (must_read_ok tmp Htf 0 (Z.of_nat (length l))) by lia.
  rewrite buf_list_region, Nat2Z.id, Htd.
  pose proof (HH l) as Hfid. unfold is_u64 in Hfid. pose proof (rd_inv _ _ Hr) as Hi. pose proof (i_disk _ Hi) as Hdk.
  pose proof (i_size _ Hi) as Hfs. unfold disk_fits in Hdk.
  pose proof (place_object_outcome s (Hash l) (Z.of_nat (length l)) Hi (rd_err _ _ Hr)
    ltac:(unfold is_u64; lia) ltac:(unfold is_u64; lia)) as Hpl.
  unfold mbind at 1, M_bind at 1, on_dev at 1.
  destruct (place_object _ _ s) as [[[[addr k] iv]|e] s']; [|by subst]. destruct Hpl as [-> Hpl].
  pose proof Hpl as [_ Hsz _ _ _ [Hg1 Hg2] [Hk Hcov] _]. pose proof (rd_faults _ _ Hr) as Hf0.
  unfold mbind at 1, M_bind at 1.
  destruct (copy_payload_ok s tmp l addr) as (f1 & -> & Hfl); [done|done|llia|llia|lia|].
  destruct (pad_object_ok (ds_file s) f1 l addr k) as (f2 & Hp & Hfl2); [done|llia|lia|lia|done|done|done|].
  destruct (filled_sync (ds_file s) _ addr _ f2 "sync container payload" Hf0 Hfl2) as (f3 & Hsy & Hfl3).
  unfold mbind at 1, M_bind at 1, on_dev at 1, fileM at 1. cbn [set_file ds_file]. rewrite Hp.
  unfold mbind at 1, M_bind at 1, on_dev at 1, fileM at 1. cbn [set_file ds_file]. rewrite Hsy.
  destruct (register_added s gs (Hash l) l addr k iv f3) as (s' & E & Had); try done.
  unfold mbind at 1, M_bind at 1, on_dev at 1.
  match goal with |- context [register_object _ _ _ ?x] => change x with (set_file s f3) end. by rewrite E.
Qed.

(** However many nonces it takes, the container starts with the bytes of the file. *)
Lemma write_container_outcome s gs open reopen nonces tmp l :
  ready s gs → room gs 1 → holds tmp l → Z.of_nat (length l) + 8 * Z.of_nat (length nonces) < 2 ^ 63 →
  match write_container Hash open reopen nonces (s, tmp) with
  | (Err _, st) => st.1 = s
  | (Ok (fid, size), (s', _)) => ∃ x, size = Z.of_nat (length (l ++ x)) ∧ (fid ≠ 0 → added s gs fid (l ++ x) s')
  end.
Proof using HH.
  intros Hr Hroom. revert tmp l. induction nonces as [|nonce nonces IH]; intros tmp l Hh Hlen; [done|].
  cbn [write_container length] in *.
  pose proof (writeFile_outcome s gs (open nonce) tmp l Hr Hroom Hh ltac:(lia)) as H.
  destruct (writeFileObjectNoJumpLocked _ _ _) as [[[fid size]|e] st].
  { destruct st as [s' tmp']. destruct H as [-> H]. exists []. by rewrite app_nil_r. }
  subst st. destruct (negb (errors_Is e EConflict)); [done|]. destruct (reopen nonce); [done|].
  destruct (holds_append tmp l (le_bytes 8 (nonce + 1)) (f_size tmp) Hh eq_refl) as (tmp' & -> & Hh').
  specialize (IH tmp' _ Hh'). rewrite length_app, length_le_bytes in IH.
  specialize (IH ltac:(lia)). destruct (write_container _ _ _ _ _) as [[[fid size]|e'] [s' t']]; [|done].
  destruct IH as (x & -> & Had). rewrite <- app_assoc in Had |- *. by eexists.
Qed.

Lemma write_table_outcome s gs header es nonces :
  ready s gs → room gs 1 → 48 + 24 * Z.of_nat (length es) < 2 ^ 64 →
  let blob n := encodePackedTable (mkTableHeader (h_diskID header) (h_containerFID header)
                  (h_containerSize header) (h_entryCount header) n) es in
  match write_table Hash header es nonces s with
  | (Err _, s') => s' = s
  | (Ok (fid, size), s') => ∃ n, n ∈ nonces ∧ size = Z.of_nat (length (blob n)) ∧ (fid ≠ 0 → added s gs fid (blob n) s')
  end.
Proof using HH.
  intros Hr Hroom Hlen blob. induction nonces as [|nonce nonces IH]; [done|]. cbn [write_table].
  assert (Hl : Z.of_nat (length (blob nonce)) < 2 ^ 64) by (unfold blob; rewrite length_encodePackedTable; lia).
  pose proof (writeObject_outcome Hash s gs (blob nonce) HH Hr Hroom Hl) as H. fold (blob nonce).
  destruct (writeObjectNoJumpLocked _ _ _) as [[fid|e] s'].
  { destruct H as [_ H]. exists nonce. split; [by left|done]. }
  subst s'. destruct (negb (errors_Is e EConflict)); [done|].
  destruct (write_table _ _ _ _ _) as [[[fid size]|e'] s']; [|done].
  destruct IH as (n & Hn & H). exists n. split; [by right|done].
Qed.
(** The fids are hashes. *)
Lemma write_container_hash open reopen nonces : ∀ st fid size st',
  write_container Hash open reopen nonces st = (Ok (fid, size), st') → ∃ l, fid = Hash l.
Proof using.
  induction nonces as [|nonce nonces IH]; intros st fid size st' E; [done|]. cbn [write_container] in E.
  destruct (writeFileObjectNoJumpLocked _ _ st) as [[r|e] [s tmp]] eqn:Ew.
  - injection E as -> _. unfold writeFileObjectNoJumpLocked in Ew. destruct (open nonce); [done|].
    destruct st as [s0 t0]. destruct (_ =? 0); [done|].
    apply M_bind_Ok in Ew as (data & st1 & _ & Ew). apply M_bind_Ok in Ew as ([[addr k] iv] & st2 & _ & Ew).
    do 4 (apply M_bind_Ok in Ew as (? & ? & _ & Ew)). injection Ew as <- _ _. by eexists.
  - destruct (negb _); [done|]. destruct (reopen nonce); [done|]. destruct (must_write _ _ tmp) as [[]]; [|done].
    by eapply IH.
Qed.

Lemma write_table_hash header es nonces : ∀ s fid size s',
  write_table Hash header es nonces s = (Ok (fid, size), s') → ∃ l, fid = Hash l.
Proof using.
  induction nonces as [|nonce nonces IH]; intros s fid size s' E; [done|]. cbn [write_table] in E.
  destruct (writeObjectNoJumpLocked _ _ s) as [[r|e] s1] eqn:Ew.
  - injection E as -> _ _. unfold writeObjectNoJumpLocked in Ew. destruct (_ =? 0); [done|].
    apply M_bind_Ok in Ew as ([[addr k] iv] & s2 & _ & Ew).
    do 4 (apply M_bind_Ok in Ew as (? & ? & _ & Ew)). injection Ew as <- _. by eexists.
  - destruct (negb _); [done|]. by eapply IH.
Qed.
End writers.
