(* ===== verification/TrimPack.v ===== *)
(** * Anchoring a table and removing the originals

    After the anchor of a packed table the packed objects are read from their container, with the same
    bytes; after a tombstone the original of a packed object is no longer in the log.  Each of the two
    keeps the disk [ready] and every object's contents. *)

From S2P Require Import Prelude Machine Loop Float Device Layout IndexScan PackedTable Interval.
From S2P Require Import Replay DirectIO DeviceState DeviceInv DeviceOps DiskStore Compact CompactRun.
From S2P Require Import Backup Trim TrimIndex TrimWrite TrimStore.
From Stdlib Require Import Strings.Byte.

(** Two writes next to each other. *)
Lemma wrote_app f off l1 l2 f1 f2 :
  wrote f off l1 f1 → wrote f1 (off + Z.of_nat (length l1)) l2 f2 → wrote f off (l1 ++ l2) f2.
Proof.
  intros [Hd1 Hs1 Hg1 _] [Hd2 Hs2 Hg2 Hf2]. split; [|congruence..|done].
  intros a. rewrite Hd2, upd_app. by apply upd_ext.
Qed.

(** Entries were written where the index ends, and the maps in memory follow. *)
Definition reindexed (s : DeviceState) (f : file) (c : gmap Z objectRef) (p : gmap Z packedRecord)
    (iend : Z) : DeviceState :=
  mkState f (directFile s) (diskID s) (diskBytes s) (intervals s) (pendingIntervals s) c p iend
    (indexErr s).

Lemma reindexed_Inv s off l f c p iend :
  Inv s → wrote (ds_file s) off l f → IndexStart ≤ off → off + Z.of_nat (length l) ≤ GridStart →
  (∃ es st, mirrors (diskBytes s) f c p (intervals s) iend es st) → Inv (reindexed s f c p iend).
Proof.
  intros Hi Hw Ho Hl Hm. destruct (wrote_extents s (ds_file s) off l f Hi Hw Ho Hl) as [_ Hhead].
  pose proof Hw as [_ Hs Hg _]. constructor; cbn; [apply Hi| | | |apply Hi|apply Hi|done].
  - by rewrite Hs, (i_size _ Hi).
  - by rewrite Hg, (i_grow _ Hi).
  - eapply header_valid_ext; [exact Hhead|apply Hi].
Qed.

Lemma reindexed_data s off l f :
  wrote (ds_file s) off l f →
  Inv s → IndexStart ≤ off → off + Z.of_nat (length l) ≤ GridStart →
  (∀ a, IndexStart ≤ a < GridStart → f_data f a = upd (f_data (ds_file s)) off (buf_of l) a) ∧
  (∀ a, (∃ iv, iv ∈ intervals s ∧ ext_addr iv a) → f_data f a = f_data (ds_file s) a).
Proof.
  intros Hw Hi Ho Hl. split; [intros; apply Hw|]. intros a (iv & Hiv & Ha).
  apply (proj1 (wrote_extents s (ds_file s) off l f Hi Hw Ho Hl) iv); [|done].
  apply elem_of_app. by left.
Qed.

(** ** Reading *)
Lemma read_logical s fid ref l :
  Inv s → indexErr s = None → f_faults (ds_file s) = [] → confirmed s !! fid = Some ref →
  contents s fid = Some l →
  readLogicalObjectLocked fid s = (Ok (l, r_size ref), s) ∧ r_size ref = Z.of_nat (length l).
Proof.
  intros Hi He Hf Hr Hc. unfold readLogicalObjectLocked, lookup_fid, mbind, M_bind. rewrite He, Hr.
  unfold contents in Hc. rewrite Hr in Hc. injection Hc as <-.
  pose proof (length_ref_bytes s fid ref Hi He Hr) as Hlen.
  destruct (readRange_bytes s fid ref 0 (r_size ref) Hi He Hf Hr) as (b & -> & _ & Hb); [lia|lia|].
  split; [|done]. change (Z.to_nat 0) with 0%nat in Hb. rewrite drop_0, take_ge in Hb by lia. by rewrite Hb.
Qed.

(** Only the file and the size of the disk matter to a read. *)
Lemma readRange_reindexed s c p iend ref lo hi :
  readRange None ref lo hi (reindexed s (ds_file s) c p iend) =
    let '(r, s') := readRange None ref lo hi s in (r, reindexed s' (ds_file s') c p iend).
Proof.
  unfold readRange, reindexed. cbn [diskBytes ds_file]. destruct (AddrForFID _ _ _) as [[[addr i] k]|]; [|done].
  destruct (maxAlloc <? _); [done|]. destruct (ReadAt _ _ _) as [[b [e|]] f]; [done|].
  by destruct (blen b =? _).
Qed.

Lemma read_logical_reindexed s c p iend fid ref l :
  Inv s → indexErr s = None → f_faults (ds_file s) = [] → confirmed s !! fid = Some ref →
  contents s fid = Some l → c !! fid = Some ref →
  readLogicalObjectLocked fid (reindexed s (ds_file s) c p iend) =
    (Ok (l, Z.of_nat (length l)), reindexed s (ds_file s) c p iend).
Proof.
  intros Hi He Hf Hr Hc Hc'. destruct (read_logical s fid ref l Hi He Hf Hr Hc) as [Hrd <-].
  unfold readLogicalObjectLocked, lookup_fid, mbind, M_bind in *. cbn [reindexed indexErr confirmed].
  rewrite He, Hr in Hrd. rewrite He, Hc'.
  fold (reindexed s (ds_file s) c p iend). rewrite readRange_reindexed.
  destruct (readRange None ref 0 (r_size ref) s) as [[b|] s']; [|done].
  injection Hrd as <- ->. done.
Qed.

(** ** Tables in memory *)
Lemma add_packed_is_Some hd t sz es maps k :
  is_Some (maps.1 !! k) → is_Some ((add_packed hd t sz maps es).1 !! k).
Proof.
  unfold add_packed. revert maps. induction es as [|e es IH]; intros [refs pk] H; [done|].
  cbn [foldl]. apply IH. cbn [fst]. rewrite lookup_insert_is_Some'. by right.
Qed.

(** What a registered entry maps to. *)
Lemma add_packed_reg hd t sz es maps k :
  (∃ e, e ∈ es ∧ e_fid e = k) →
  ∃ e, e ∈ es ∧ e_fid e = k ∧
    (add_packed hd t sz maps es).1 !! k =
      Some (mkRef (h_containerFID hd) (h_containerSize hd) (e_size e) (e_offset e) true) ∧
    (add_packed hd t sz maps es).2 !! k =
      Some (mkPackedRecord (h_containerFID hd) (h_containerSize hd) (e_offset e) (e_size e) t sz).
Proof.
  unfold add_packed. revert maps. induction es as [|e es IH] using rev_ind; intros maps (e' & Hin & He').
  { by apply not_elem_of_nil in Hin. }
  rewrite foldl_snoc. destruct (foldl _ maps es) as [refs pk] eqn:Ef. cbn [fst snd].
  destruct (decide (e_fid e = k)) as [Hk|Hk].
  - exists e. rewrite Hk, !lookup_insert_eq. split; [apply elem_of_app; right; by left|done].
  - destruct (IH maps) as (e2 & Hin2 & He2 & H1 & H2).
    { exists e'. apply elem_of_app in Hin as [Hin| ->%list_elem_of_singleton]; [done|congruence]. }
    rewrite Ef in H1, H2. cbn [fst snd] in *. exists e2. rewrite !lookup_insert_ne by done.
    split; [apply elem_of_app; by left|done].
Qed.

(** An object inside a container is a slice of it. *)
Lemma ref_bytes_slice d g cf cs sz off :
  0 ≤ off → 0 ≤ sz → off + sz ≤ cs →
  ref_bytes d g (mkRef cf cs sz off true) =
    take (Z.to_nat sz) (drop (Z.to_nat off) (ref_bytes d g (plain_ref cf cs))).
Proof.
  intros Ho Hs Hle. unfold ref_bytes. cbn [r_fid storedSize r_offset r_size plain_ref].
  destruct (AddrForFID d cf cs) as [[[addr i] k]|]; [|by rewrite drop_nil, take_nil].
  rewrite Z.add_0_r, <- bytes_at_drop by lia. rewrite Z2Nat.id by lia. apply bytes_at_take. lia.
Qed.

(** ** The anchor *)

(** A stored table that lists objects of the disk which are slices of a stored container. *)
Record packable (s : DeviceState) (gs : list group) (t size : Z) (hd : packedTableHeader)
    (es : list packedTableEntry) : Prop := {
  pk_anchor : anchorable (diskBytes s) (f_data (ds_file s)) (confirmed s) (table_fids (live gs)) t size hd es;
  pk_fresh : t ∉ table_fids gs ∧ t ∉ pair_fids gs ∧ t ∉ tomb_fids gs;
  pk_disk : h_diskID hd = diskID s;
  pk_nonzero e : e ∈ es → e_fid e ≠ 0;
  pk_bytes : ∃ lc, contents s (h_containerFID hd) = Some lc ∧ ∀ e, e ∈ es →
    contents s (e_fid e) = Some (take (Z.to_nat (e_size e)) (drop (Z.to_nat (e_offset e)) lc))
}.

Lemma ready_live s gs st :
  ready s gs → mirrors (diskBytes s) (ds_file s) (confirmed s) (packed s) (intervals s) (indexEnd s) (log_of gs) st →
  live_ok (diskBytes s) (live gs) ∧ st = state_of (diskBytes s) (live gs).
Proof. intros Hr Hm. apply (replay_live _ gs st (rd_log _ _ Hr) (m_fold _ _ _ _ _ _ _ _ Hm)). Qed.

Lemma append_anchor_ok s gs t size :
  ready s gs → group_ok (GTable t size) → room gs 2 →
  ∃ f, appendPackedAnchorLocked t size s =
      (Ok tt, reindexed s f (confirmed s) (packed s) (indexEnd s + 32)) ∧
    wrote (ds_file s) (indexEnd s) (encode_entries (group_entries (GTable t size))) f.
Proof.
  intros Hr (Hu & Hnz & Hsz) Hroom. pose proof (ready_end _ _ Hr) as (Hend & Hcap & Hend0 & Hd & HdG & Hfs).
  unfold room in Hroom. unfold appendPackedAnchorLocked. unfold mbind at 1, M_bind at 1, mlift at 1.
  assert (E1 : BuildIndexEntry t IndexPackedSentinel PackedAnchorCode =
    Ok (entry_bytes (mkEntry t IndexPackedSentinel PackedAnchorCode))).
  { unfold entry_bytes. cbn [FID Size JumpCode]. by rewrite <- EncodeSize7_le. }
  rewrite E1. unfold mbind at 1, M_bind at 1, mlift at 1.
  rewrite BuildIndexEntry_plain by (unfold IndexJumpSentinel, IndexPackedSentinel in *; lia).
  cbv zeta. rewrite !length_entry_bytes. unfold mbind at 1, M_bind at 1, mget at 1. cbv beta iota.
  rewrite u64_small by llia. destruct (Z.ltb_spec GridStart (indexEnd s + (Z.of_nat 16 + Z.of_nat 16))); [llia|].
  destruct (must_write_wrote (ds_file s) (indexEnd s) (entry_bytes (mkEntry t IndexPackedSentinel PackedAnchorCode))
    (rd_faults _ _ Hr)) as (f1 & Hw1 & Hwr1); [lia|llia|rewrite length_entry_bytes; llia|].
  unfold mbind at 1, M_bind at 1, fileM at 1. rewrite Hw1.
  destruct (must_write_wrote f1 (indexEnd s + 16) (entry_bytes (mkEntry t size 0)) (w_faults _ _ _ _ Hwr1))
    as (f2 & Hw2 & Hwr2); [rewrite (w_size _ _ _ _ Hwr1); lia|llia|rewrite length_entry_bytes, (w_size _ _ _ _ Hwr1); llia|].
  unfold mbind at 1, M_bind at 1, fileM at 1. cbn [set_file ds_file indexEnd].
  rewrite u64_small by llia. change (Z.of_nat 16) with 16. rewrite Hw2.
  destruct (wrote_sync f1 _ _ f2 "sync packed anchor" Hwr2) as (f3 & Hsy & Hwr3).
  unfold mbind at 1, M_bind at 1, fileM at 1. cbn [set_file ds_file]. rewrite Hsy.
  exists f3. split.
  - unfold advance_index. cbn. rewrite u64_small by llia. by replace (indexEnd s + (16 + 16)) with (indexEnd s + 32) by lia.
  - unfold encode_entries. cbn [group_entries fmap list_fmap concat]. rewrite app_nil_r.
    eapply wrote_app; [exact Hwr1|]. by rewrite length_entry_bytes.
Qed.

(** The disk once the entries of the table are registered. *)
Definition packed_state (s : DeviceState) (f : file) (hd : packedTableHeader) (t size : Z)
    (es : list packedTableEntry) : DeviceState :=
  let maps := add_packed hd t size (confirmed s, packed s) es in
  reindexed s f maps.1 maps.2 (indexEnd s + 32).

Lemma packed_ready s gs t size hd es f :
  ready s gs → packable s gs t size hd es → room gs 2 →
  wrote (ds_file s) (indexEnd s) (encode_entries (group_entries (GTable t size))) f →
  ready (packed_state s f hd t size es) (gs ++ [GTable t size]).
Proof.
  intros Hr Hp Hroom Hw. pose proof (ready_end _ _ Hr) as (Hend & Hcap & Hend0 & Hd & HdG & Hfs).
  pose proof Hr as [Hi He Hf (st & Hm) Hlog Hknown Hown Hzero]. pose proof Hp as [Han Hfr Hdk Hnz Hby].
  destruct (ready_live s gs st Hr Hm) as [Hlive Hst]. unfold room in Hroom.
  assert (Hlen : length (encode_entries (group_entries (GTable t size))) = 32%nat)
    by (rewrite length_encode_entries; done).
  destruct (reindexed_data s (indexEnd s) _ f Hw Hi) as [Hidx Hext]; [llia|rewrite Hlen; llia|].
  assert (Htabs : rs_tables st = table_fids (live gs)) by (rewrite Hst; apply tables_state_of).
  pose proof (mirrors_anchor (diskBytes s) (ds_file s) f (confirmed s) (packed s) (intervals s) (indexEnd s)
    (log_of gs) st t size hd es (i_disk _ Hi) Hm Hown ltac:(by rewrite Htabs) ltac:(lia) Hfs
    ltac:(by rewrite (w_size _ _ _ _ Hw)) Hidx Hext) as Hm'.
  assert (Hm2 : ∃ st', mirrors (diskBytes s) f (add_packed hd t size (confirmed s, packed s) es).1
    (add_packed hd t size (confirmed s, packed s) es).2 (intervals s) (indexEnd s + 32)
    (log_of (gs ++ [GTable t size])) st') by (rewrite log_of_snoc; by eexists).
  constructor; cbn [packed_state reindexed ds_file diskBytes confirmed packed intervals indexEnd indexErr]; try done.
  - apply (reindexed_Inv s (indexEnd s) (encode_entries (group_entries (GTable t size))) f); [done|done|llia|rewrite Hlen; llia|].
    destruct Hm2 as [st' Hm2]. by exists (log_of (gs ++ [GTable t size])), st'.
  - apply Hw.
  - apply log_ok_add; [done|apply Han|done].
  - intros g k [Hg| ->%list_elem_of_singleton]%elem_of_app Hk; apply add_packed_is_Some; cbn [fst].
    + by eapply Hknown.
    + apply list_elem_of_singleton in Hk as ->. by rewrite (an_table _ _ _ _ _ _ _ _ Han).
  - by eapply anchor_owned.
  - rewrite add_packed_unreg; [done|]. by apply reg_false.
Qed.

Lemma packed_contents s gs t size hd es f k :
  ready s gs → packable s gs t size hd es → room gs 2 →
  wrote (ds_file s) (indexEnd s) (encode_entries (group_entries (GTable t size))) f →
  contents (packed_state s f hd t size es) k = contents s k.
Proof.
  intros Hr [Han Hfr Hdk Hnz (lc & Hlc & Hby)] Hroom Hw.
  pose proof (ready_end _ _ Hr) as (Hend & Hcap & Hend0 & Hd & HdG & Hfs). unfold room in Hroom.
  pose proof Hr as [Hi He Hf _ _ _ _ _].
  assert (Hlen : length (encode_entries (group_entries (GTable t size))) = 32%nat)
    by (rewrite length_encode_entries; done).
  destruct (reindexed_data s (indexEnd s) _ f Hw Hi) as [_ Hext]; [llia|rewrite Hlen; llia|].
  assert (Hg : ∀ iv a, iv ∈ intervals s → ext_addr iv a → f_data f a = f_data (ds_file s) a) by eauto.
  destruct (reg es k) eqn:Ereg.
  - apply reg_spec in Ereg. pose proof Ereg as (e0 & Hin0 & He0).
    destruct (add_packed_reg hd t size es (confirmed s, packed s) k Ereg) as (e & Hin & <- & Hmap & _).
    rewrite (Hby e Hin). unfold contents. cbn [packed_state reindexed confirmed diskBytes ds_file].
    rewrite Hmap. cbn [fmap option_fmap option_map]. f_equal.
    destruct (an_entries _ _ _ _ _ _ _ _ Han e Hin) as (_ & H1 & H2 & H3 & _).
    rewrite ref_bytes_slice by lia. do 2 f_equal.
    unfold contents in Hlc. rewrite (an_container _ _ _ _ _ _ _ _ Han) in Hlc. injection Hlc as <-.
    destruct (Inv_backed s _ _ Hi He (an_container _ _ _ _ _ _ _ _ Han)) as [_ Hb].
    apply (ref_bytes_ext _ (intervals s)); [apply disk_fits_ok, Hi|done|done].
  - apply contents_ext; [done|done| |done|done]. cbn. by rewrite add_packed_unreg.
Qed.

Lemma anchor_load s gs t size hd es lt :
  ready s gs → packable s gs t size hd es → room gs 2 → contents s t = Some lt → size = Z.of_nat (length lt) →
  ∃ s1 s2, appendPackedAnchorLocked t size s = (Ok tt, s1) ∧
    loadPackedTablesLocked [t] s1 = (Ok tt, s2) ∧
    ready s2 (gs ++ [GTable t size]) ∧ same_disk s s2 ∧ intervals s2 = intervals s ∧
    (confirmed s2, packed s2) = add_packed hd t size (confirmed s, packed s) es ∧
    ∀ k, contents s2 k = contents s k.
Proof.
  intros Hr Hp Hroom Hlt Hsize. pose proof Hp as [Han _ Hdk _ _].
  destruct (append_anchor_ok s gs t size Hr (an_group _ _ _ _ _ _ _ _ Han) Hroom) as (f & Happ & Hw).
  pose proof (packed_ready s gs t size hd es f Hr Hp Hroom Hw) as Hr2.
  pose proof (packed_contents s gs t size hd es f t Hr Hp Hroom Hw) as Ht2. rewrite Hlt in Ht2.
  eexists _, (packed_state s f hd t size es). split; [exact Happ|]. split; [|split; [done|]].
  2:{ split_and!; [done..| |done|symmetry; apply surjective_pairing|intros k; by eapply packed_contents].
      pose proof (ready_end _ _ Hr) as (Hend & _). unfold room in Hroom. split_and!; try done.
      apply (wrote_pending s _ _ _ (rd_inv _ _ Hr) Hw); rewrite ?length_encode_entries; cbn [group_entries length]; llia. }
  assert (Htr : confirmed (packed_state s f hd t size es) !! t = Some (plain_ref t size)).
  { cbn. rewrite add_packed_unreg; [apply (an_table _ _ _ _ _ _ _ _ Han)|]. apply reg_false.
    intros e Hin E. destruct (an_entries _ _ _ _ _ _ _ _ Han e Hin) as (_ & _ & _ & _ & Hn & _).
    apply Hn. rewrite E. by left. }
  set (s1 := reindexed s f (confirmed s) (packed s) (indexEnd s + 32)).
  pose proof (read_logical_reindexed (packed_state s f hd t size es) (confirmed s) (packed s) (indexEnd s + 32)
    t _ lt (rd_inv _ _ Hr2) (rd_err _ _ Hr2) (rd_faults _ _ Hr2) Htr Ht2 (an_table _ _ _ _ _ _ _ _ Han)) as Hrd.
  change (reindexed (packed_state _ _ _ _ _ _) _ _ _ _) with s1 in Hrd.
  cbn [loadPackedTablesLocked]. unfold mbind at 1, M_bind at 1, mwrap at 1. rewrite Hrd. cbn [wrap_err].
  unfold mbind at 1, M_bind at 1, mlift at 1.
  assert (Hblob : lt = ref_bytes (diskBytes s) (f_data (ds_file s)) (plain_ref t size)).
  { unfold contents in Hlt. rewrite (an_table _ _ _ _ _ _ _ _ Han) in Hlt. by injection Hlt as <-. }
  rewrite Hblob at 1. rewrite (an_blob _ _ _ _ _ _ _ _ Han). cbn [wrap_err].
  unfold mbind at 1, M_bind at 1, mget at 1. cbv beta iota.
  change (diskID s1) with (diskID s). rewrite Hdk, Z.eqb_refl. cbn [negb].
  destruct (Inv_backed s _ _ (rd_inv _ _ Hr) (rd_err _ _ Hr) (an_container _ _ _ _ _ _ _ _ Han)) as [_ Hb].
  pose proof (rb_range _ _ _ Hb) as (Hpos & _). cbn [r_size plain_ref] in Hpos.
  destruct (Z.eqb_spec (h_containerSize hd) 0); [lia|]. by rewrite <- Hsize.
Qed.

(** ** The check of the packed objects *)
Definition packed_as (s : DeviceState) (c : trimCandidate) : Prop :=
  ∃ cf cs off t tsz, packed s !! tc_fid c = Some (mkPackedRecord cf cs off (tc_size c) t tsz) ∧
    confirmed s !! tc_fid c = Some (mkRef cf cs (tc_size c) off true).

Lemma verify_ok s cs :
  Inv s → indexErr s = None → f_faults (ds_file s) = [] → Forall (packed_as s) cs →
  verifyPackedCandidatesLocked cs s = (Ok tt, s).
Proof.
  intros Hi He Hf. induction 1 as [|c cs (cf & csz & off & t & tsz & Hpk & Hrf) _ IH]; [done|].
  cbn [verifyPackedCandidatesLocked]. rewrite Hpk, Hrf.
  cbn [containerFID containerSize pr_offset logicSize r_packed negb].
  destruct (Inv_backed s _ _ Hi He Hrf) as [_ Hb]. pose proof (i_disk _ Hi) as Hfit.
  pose proof (disk_fits_ok _ Hfit) as Hd. unfold disk_fits in Hfit. pose proof (i_size _ Hi) as Hsz.
  destruct (rb_range _ _ _ Hb) as (H1 & H2 & H3).
  destruct (ref_backed_addr _ _ _ Hd Hb) as (iv & Hiv & HA & Hgrid & Hcov).
  cbn [r_fid storedSize r_size r_offset] in *. rewrite HA.
  set (addr := GridStart + start iv * SlotSize) in *.
  pose proof (in_grid_addr _ iv addr Hd Hgrid (Hcov addr ltac:(lia))) as Ha1.
  pose proof (in_grid_addr _ iv (addr + csz - 1) Hd Hgrid (Hcov (addr + csz - 1) ltac:(lia))) as Ha2.
  destruct (Z.ltb_spec maxAlloc (tc_size c)); [unfold maxAlloc in *; llia|].
  rewrite u64_small, int64_small by llia. rewrite ReadAt_ok by (done || llia). cbn [blen region].
  rewrite bool_decide_eq_true_2 by done. cbn [negb andb]. rewrite set_file_id, Z.eqb_refl. apply IH.
Qed.

(** ** Tombstones *)
Lemma tombstone_ready s gs k ref :
  ready s gs → confirmed s !! k = Some ref → r_packed ref = true →
  k ∉ table_fids gs → k ∉ pair_fids gs → room gs 1 →
  ∃ s', appendTombstoneLocked k s = (Ok tt, s') ∧ ready s' (gs ++ [GTomb k]) ∧ same_disk s s' ∧
    confirmed s' = confirmed s ∧ packed s' = packed s ∧ intervals s' = intervals s ∧
    ∀ k', contents s' k' = contents s k'.
Proof.
  intros Hr Hk Hp Hkt Hkp Hroom. pose proof (ready_end _ _ Hr) as (Hend & Hcap & Hend0 & Hd & HdG & Hfs).
  pose proof Hr as [Hi He Hf (st & Hm) Hlog Hknown Hown Hzero]. unfold room in Hroom.
  assert (Hnz : k ≠ 0) by (intros ->; congruence).
  destruct (Inv_backed s _ _ Hi He Hk) as [Hu _].
  unfold appendTombstoneLocked. unfold mbind at 1, M_bind at 1, mlift at 1.
  rewrite BuildIndexEntry_plain by (unfold IndexJumpSentinel; lia). cbv zeta. rewrite !length_entry_bytes.
  unfold mbind at 1, M_bind at 1, mget at 1. cbv beta iota. rewrite u64_small by llia.
  destruct (Z.ltb_spec GridStart (indexEnd s + Z.of_nat 16)); [llia|].
  destruct (must_write_wrote (ds_file s) (indexEnd s) (entry_bytes (mkEntry k 0 0)) Hf) as (f & Hw & Hwr);
    [lia|llia|rewrite length_entry_bytes; llia|].
  unfold mbind at 1, M_bind at 1, fileM at 1. rewrite Hw.
  assert (Hlen : length (entry_bytes (mkEntry k 0 0)) = 16%nat) by apply length_entry_bytes.
  destruct (reindexed_data s (indexEnd s) _ f Hwr Hi) as [Hidx Hext]; [llia|rewrite Hlen; llia|].
  pose proof (mirrors_tombstone (diskBytes s) (ds_file s) f (confirmed s) (packed s) (intervals s) (indexEnd s)
    (log_of gs) st k ref (disk_fits_ok _ (i_disk _ Hi)) Hm Hown Hk Hp Hu Hnz ltac:(lia)
    (w_size _ _ _ _ Hwr)) as Hm'.
  unfold encode_entries in Hm'. cbn [fmap list_fmap concat] in Hm'. rewrite app_nil_r in Hm'.
  specialize (Hm' Hidx Hext).
  assert (Hm2 : mirrors (diskBytes s) f (confirmed s) (packed s) (intervals s) (indexEnd s + 16)
    (log_of (gs ++ [GTomb k])) (del_fid k st)) by (by rewrite log_of_snoc).
  exists (reindexed s f (confirmed s) (packed s) (indexEnd s + 16)). split.
  { unfold advance_index. cbn. by rewrite u64_small by llia. }
  split; [|split; [|split; [done|split; [done|split; [done|]]]]].
  2:{ split_and!; try done. apply (wrote_pending s _ _ _ Hi Hwr); [llia|rewrite Hlen; llia]. }
  - constructor; cbn [reindexed ds_file diskBytes confirmed packed intervals indexEnd indexErr]; try done.
    + apply (reindexed_Inv s (indexEnd s) (entry_bytes (mkEntry k 0 0)) f); [done|done|llia|rewrite Hlen; llia|].
      by eexists _, _.
    + apply Hwr.
    + by eexists.
    + by apply log_ok_add.
    + intros g k' [Hg| ->%list_elem_of_singleton]%elem_of_app Hk'; [by eapply Hknown|].
      apply list_elem_of_singleton in Hk' as ->. by rewrite Hk.
  - intros k'. apply contents_ext; [done|done|done|done|]. intros iv a Hiv Ha. apply Hext. by exists iv.
Qed.

Definition tombs (cs : list trimCandidate) : list group := (λ c, GTomb (tc_fid c)) <$> cs.

Lemma tombstones_ready cs : ∀ s gs,
  ready s gs → room gs (length cs) →
  (∀ c, c ∈ cs → (∃ ref, confirmed s !! tc_fid c = Some ref ∧ r_packed ref = true) ∧
     tc_fid c ∉ table_fids gs ∧ tc_fid c ∉ pair_fids gs) →
  ∃ s', append_tombstones cs s = (Ok tt, s') ∧ ready s' (gs ++ tombs cs) ∧ same_disk s s' ∧
    confirmed s' = confirmed s ∧ packed s' = packed s ∧ intervals s' = intervals s ∧
    ∀ k', contents s' k' = contents s k'.
Proof.
  induction cs as [|c cs IH]; intros s gs Hr Hroom Hcs.
  { exists s. cbn [tombs fmap list_fmap]. rewrite app_nil_r. by split_and!. }
  destruct (Hcs c ltac:(by left)) as ((ref & Hk & Hp) & Hkt & Hkp). unfold room in Hroom. cbn [length] in Hroom.
  destruct (tombstone_ready s gs (tc_fid c) ref Hr Hk Hp Hkt Hkp) as
    (s1 & H1 & Hr1 & Hsame & Hc & Hpk & Hiv & Hcont); [unfold room; lia|].
  cbn [append_tombstones]. unfold mbind at 1, M_bind at 1, mwrap at 1. rewrite H1. cbn [wrap_err].
  destruct (IH s1 (gs ++ [GTomb (tc_fid c)])) as (s2 & H2 & Hr2 & Hsame2 & Hc2 & Hpk2 & Hiv2 & Hcont2); [done| | |].
  - unfold room. rewrite log_of_snoc, length_app. cbn [group_entries length]. lia.
  - intros c' Hc'. rewrite Hc. destruct (Hcs c' ltac:(by right)) as (Href & Ht & Hpf). split; [done|].
    unfold table_fids, pair_fids in *. rewrite omap_app, bind_app. cbn. by rewrite !app_nil_r.
  - exists s2. split; [exact H2|]. cbn [tombs fmap list_fmap] in *. rewrite cons_middle, app_assoc.
    split; [done|]. split; [by eapply same_disk_trans|]. split_and!; [congruence..|].
    intros k'. by rewrite Hcont2.
Qed.
