(* ===== verification/TrimCompact.v ===== *)
(** * Compacting the index in place

    The last step of a trim rewrites the index to its live groups in a temporary file, validates that,
    copies it over the index of the device and replays it.  On a working device whose index is short
    enough for [scanIndexStream] the references stay as they are, and the extents of removed objects
    become free. *)

From S2P Require Import Prelude Machine Loop Float Device Layout IndexScan PackedTable Interval.
From S2P Require Import Replay DirectIO DeviceState DeviceInv DeviceOps DiskStore Compact CompactRun.
From S2P Require Import Backup Trim TrimIndex TrimWrite TrimStore TrimPack.
From Stdlib Require Import Strings.Byte.

(** ** Zeros in a growing file *)
Lemma write_chunk_grow b off f :
  growing f → 0 ≤ off → off + blen b < 2 ^ 63 → 0 ≤ blen b →
  ∃ f', write_chunk b off f = (Ok tt, f') ∧ growing f' ∧
    (∀ a, f_data f' a = upd (f_data f) off b a) ∧ f_size f' = Z.max (f_size f) (off + blen b).
Proof.
  intros [Hg Hf] Ho Hlt Hb. unfold write_chunk. rewrite u64_small, int64_small by lia.
  destruct (WriteAt_takes b off f (off + blen b)) as (f' & -> & [Hf' _] & Hg' & Hd & Hs);
    [by split; [|left]|done|done|lia|].
  rewrite Z.eqb_refl, Hg in *. by exists f'.
Qed.

Lemma writeZeros_grow off len f g n :
  holds_data f g n → 0 ≤ off ≤ n → 0 ≤ len → off + len < 2 ^ 63 →
  ∃ f', writeZeros off len f = (Ok tt, f') ∧
    holds_data f' (λ a, if (off <=? a) && (a <? off + len) then x00 else g a) (Z.max n (off + len)).
Proof.
  intros (Hg & Hd & Hn) Hoff Hlen Hmax. unfold writeZeros.
  match goal with |- context [mloop ?p ?b 0] => set (body := b) end.
  set (J := λ w f', holds_data f' (λ a, if (off <=? a) && (a <? off + w) then x00 else g a) (Z.max n (off + w))).
  enough (H : let m := mloop (Z.to_pos (len + 1)) body 0 f in m.1 = Ok tt ∧ J len m.2).
  { cbv zeta in H. destruct (mloop _ body 0 f) as [r f']. destruct H as [Hr H]. cbn in Hr. subst r. by exists f'. }
  apply (mloop_total (λ w f', 0 ≤ w ≤ len ∧ J w f') (λ w, len - w) (λ r f', r = Ok tt ∧ J len f')).
  - split; [lia|]. split; [done|]. split; [|lia]. intros a. rewrite Hd.
    destruct (Z.leb_spec off a), (Z.ltb_spec a (off + 0)); try done; lia.
  - lia.
  - intros w f1 [Hw HJ] _. unfold body. destruct (Z.ltb_spec w len) as [Hlt|Hge].
    2:{ split; [done|]. by replace len with w by lia. }
    set (want := if len - w <? writeChunkSize then len - w else writeChunkSize).
    assert (Hwant : 0 < want ≤ len - w)
      by (unfold want, writeChunkSize; destruct (Z.ltb_spec (len - w) 4194304); lia).
    destruct HJ as (Hg1 & Hd1 & Hn1).
    destruct (write_chunk_grow (zeros want) (off + w) f1 Hg1) as (f2 & -> & Hg2 & Hd2 & Hn2);
      [lia|cbn; lia|cbn; lia|].
    cbn [blen zeros] in Hn2. split; [|lia]. split; [lia|]. split; [done|]. split; [|lia].
    intros a. rewrite Hd2. unfold upd. cbn [blen bat zeros]. rewrite Hd1.
    destruct (Z.leb_spec off a), (Z.ltb_spec a (off + w)), (Z.leb_spec (off + w) a),
      (Z.ltb_spec a (off + w + want)), (Z.ltb_spec a (off + (w + want))); try done; lia.
Qed.

Definition zero_rest (n : Z) : M file unit :=
  let first := u64 (IndexStart + u64 (n * IndexEntrySize)) in writeZeros first (u64 (GridStart - first)).

Lemma zero_rest_fills : fills zero_rest.
Proof.
  intros n f g m Hf Hn Hm. unfold zero_rest. pose proof index_capacity_eq as Hcap.
  assert (Hle : IndexStart + n * IndexEntrySize ≤ GridStart)
    by (unfold IndexEntrySize, index_capacity in *; llia).
  assert (H0 : 0 ≤ n * IndexEntrySize) by (unfold IndexEntrySize; lia).
  assert (E : u64 (IndexStart + u64 (n * IndexEntrySize)) = IndexStart + n * IndexEntrySize)
    by (rewrite (u64_small (n * _)) by llia; apply u64_small; llia).
  rewrite E, u64_small by llia.
  destruct (writeZeros_grow (IndexStart + n * IndexEntrySize) (GridStart - (IndexStart + n * IndexEntrySize))
    f g m Hf) as (f' & Hz & Hh); [llia|lia|llia|].
  replace (IndexStart + n * IndexEntrySize + (GridStart - (IndexStart + n * IndexEntrySize))) with GridStart in Hh
    by lia.
  by exists f'.
Qed.

(** ** The live groups *)
Lemma table_fids_claims l : table_fids l `sublist_of` l ≫= claims.
Proof.
  induction l as [|g l IH]; [done|]. cbn [mbind list_bind].
  destruct g as [f sz|a c f sz|f sz|f]; cbn.
  - by apply sublist_cons.
  - by do 2 apply sublist_cons.
  - by apply sublist_skip.
  - done.
Qed.

Lemma log_ok_sub d gs l : log_ok gs → live_ok d l → (∀ g, g ∈ l → g ∈ gs) → log_ok l.
Proof.
  intros [Hg Ht Htb Hp] [Hlg Hcl] Hsub. rewrite Forall_forall in Hlg.
  assert (Hfids : ∀ f, f ∈ table_fids l → f ∈ table_fids gs).
  { unfold table_fids. intros f. rewrite !list_elem_of_omap. intros (g & Hin%Hsub & Hf). eauto. }
  assert (Hpairs : ∀ f, f ∈ pair_fids l → f ∈ pair_fids gs).
  { unfold pair_fids. intros f. rewrite !list_elem_of_bind. intros (g & Hf & Hin%Hsub). eauto. }
  split.
  - apply Forall_forall. intros g Hin. by destruct (Hlg g Hin).
  - apply (sublist_NoDup _ (l ≫= claims)); [done|apply table_fids_claims].
  - intros f (g & Hin & Hf)%list_elem_of_omap. destruct (Hlg g Hin) as (_ & _ & Hnt).
    destruct g; try done. by destruct (Hnt fid).
  - intros f Hf%Hfids Hp'%Hpairs. by apply (Hp f).
Qed.

Lemma live_log_ok d gs : log_ok gs → live_ok d (live gs) → log_ok (live gs).
Proof. intros Hg Hl. eapply log_ok_sub; [exact Hg|exact Hl|apply elem_of_live]. Qed.

(** The image of the live groups mirrors the same references. *)
Lemma mirrors_compacted d f f' refs pk ivs iend gs st :
  disk_ok d → mirrors d f refs pk ivs iend (log_of gs) st → log_ok gs → f_size f' = f_size f →
  (∀ a, IndexStart ≤ a < GridStart → f_data f' a = image_of (log_of (live gs)) a) →
  (∀ a, (∃ iv, iv ∈ ivs ∧ ext_addr iv a) → f_data f' a = f_data f a) →
  mirrors d f' refs pk (sort_extents (map_to_list (rs_extents st)).*2) (log_end (log_of (live gs)))
    (log_of (live gs)) st.
Proof.
  intros Hd Hm Hlog Hsz Hidx Hext. pose proof Hm as [Hl Ht Hfold Hal Hpp Hload Hend Hexts Htables Hback].
  destruct (replay_live d gs st Hlog Hfold) as [Hlive Est].
  pose proof (log_capacity _ _ Hl) as Hcap. pose proof (length_log_live gs) as Hlen.
  destruct (image_of_log (log_of (live gs))) as [Hil Hit]; [|lia|].
  { apply log_entries_ok. eapply Forall_impl; [apply (li_groups _ _ Hlive)|]. by intros g []. }
  constructor; try done.
  - eapply index_log_ext; [|exact Hil]. intros a Ha. by rewrite Hidx.
  - eapply tail_zero_ext; [|apply log_end_start|exact Hit]. intros a Ha. by rewrite Hidx.
  - rewrite Est. by apply replay_live_groups.
  - pose proof (load_tables_frame d (rs_tables st) (rs_refs st, rs_packed st) (clean f) (clean f')
      (refs, pk) ∅ eq_refl eq_refl Hsz Hload) as Hfr. cbn [fst snd] in Hfr.
    rewrite !(left_id_L ∅ (∪)) in Hfr. apply Hfr; [|by intros ? [? ?]].
    by apply (mirrors_tables_local d f refs pk ivs iend (log_of gs)).
  - by rewrite sort_extents_perm.
Qed.

Lemma replay_mirrors d f refs pk ivs iend es st :
  disk_ok d → f_size f = d → GridStart ≤ d → disjoint_all (map_to_list (rs_extents st)).*2 →
  mirrors d f refs pk ivs iend es st →
  replayIndex d (clean f) = (Ok (refs, pk, sort_extents (map_to_list (rs_extents st)).*2, iend), clean f).
Proof.
  intros Hd Hsz Hge Hdis [Hlog _ Hfold Hal Hpp Hload -> _ _ _].
  pose proof (replay_fold_ok d es st (index_log_entries_ok _ _ Hlog) Hfold) as Hst.
  rewrite (replay_fold d (clean f) es) by (done || (cbn; lia)). rewrite Hfold. by apply finish_Ok.
Qed.

(** ** The temporary image *)

Lemma collect_ready s gs :
  ready s gs → short_log gs →
  CollectLatestIndexRecords (ds_file s) = (Ok (group_record <$> (tagged gs).1), ds_file s).
Proof.
  intros Hr Hs. pose proof Hr as [Hi He Hf (st & Hm) Hlog _ _ _].
  pose proof (ready_end _ _ Hr) as (_ & _ & _ & _ & HdG & Hfs).
  apply (collect_index (diskBytes s) (ds_file s) gs st); try done; [lia|apply Hm..].
Qed.

Lemma compacted_image_ok s gs hb :
  ready s gs → short_log gs → blen hb = HeaderBytes →
  ∃ tmp, compacted_image hb (group_record <$> (tagged gs).1) new_file = Ok tmp ∧
    f_faults tmp = [] ∧ f_size tmp = GridStart ∧ (∀ a, 0 ≤ a < HeaderBytes → f_data tmp a = bat hb a) ∧
    (∀ a, IndexStart ≤ a < GridStart → f_data tmp a = image_of (log_of (live gs)) a).
Proof.
  intros Hr Hshort Hhb. pose proof Hr as [Hi He Hf (st & Hm) Hlog _ _ _].
  destruct (ready_live s gs st Hr Hm) as [Hl _]. pose proof (ready_end _ _ Hr) as (_ & Hcap & _).
  pose proof (length_log_live gs) as Hlen. unfold short_log in Hshort.
  assert (Hgs : Forall group_ok (live gs)).
  { eapply Forall_impl; [apply (li_groups _ _ Hl)|]. by intros g []. }
  destruct (write_image_ok gs (tagged gs).1 hb zero_rest zero_rest_fills)
    as (tmp & Hw & _ & Hof & Hos & Hoh & Hoi); [apply tagged_fst|done| |done|lia|].
  { apply Forall_forall. intros p Hp. assert (p.1 ∈ live gs) as Hin
      by (rewrite <- tagged_fst; by apply list_elem_of_fmap_2).
    pose proof (li_groups _ _ Hl) as Hlg. rewrite Forall_forall in Hlg.
    destruct (Hlg _ Hin) as (? & _ & ?). split; [by apply group_buildable|done]. }
  exists tmp. split; [|done]. unfold compacted_image.
  assert (Htlog : index_log (f_data tmp) (log_of (live gs))).
  { eapply index_log_ext; [|apply image_of_log; [by apply log_entries_ok|lia]]. intros a Ha. by rewrite Hoi. }
  assert (Hval : ValidateCompacted tmp = (Ok tt, tmp)).
  { apply (validate_index (diskBytes s) tmp (live gs)); try done; [lia|unfold short_log; lia]. }
  revert Hw. unfold mbind, M_bind. destruct (must_write hb 0 new_file) as [[[]|] f1]; [|done].
  destruct (WriteLatestIndexRecords _ f1) as [[n|] f2]; [|done]. unfold zero_rest. cbv zeta. intros ->.
  by rewrite Hval.
Qed.

(** ** Installing it *)
Lemma ready_file s gs f :
  ready s gs → agrees (intervals s) (ds_file s) f → f_faults f = [] →
  ready (set_file s f) gs ∧ ∀ k, contents (set_file s f) k = contents s k.
Proof.
  intros [Hi He Hf (st & Hm) Hlog Hknown Hown Hzero] Hag Hff. split.
  - constructor; cbn; try done; [by apply Inv_file_frame|].
    exists st. eapply mirrors_frame; [apply disk_fits_ok, Hi|exact Hm|exact Hag].
  - intros k. apply contents_ext; try done. cbn. intros iv a Hiv Ha. apply Hag. right. by exists iv.
Qed.

Lemma sync_clean f msg : f_faults f = [] → mwrap msg must_sync f = (Ok tt, clean f).
Proof. intros Hf. unfold mwrap, must_sync, Sync, next_fault. rewrite Hf. unfold f_synced. by rewrite Hf. Qed.

(** The disk with a compacted index: the same references, and only the extents they need. *)
Record compacted (s : DeviceState) (gs : list group) (s' : DeviceState) : Prop := {
  cp_ready : ready s' (live gs);
  cp_disk : same_disk s s';
  cp_confirmed : confirmed s' = confirmed s;
  cp_packed : packed s' = packed s;
  cp_intervals : intervals s' = sort_extents (map_to_list (rs_extents (state_of (diskBytes s) (live gs)))).*2;
  cp_contents k : contents s' k = contents s k
}.

Lemma install_compacted s gs tmp :
  ready s gs → f_faults tmp = [] → f_size tmp = GridStart →
  (∀ a, 0 ≤ a < HeaderBytes → f_data tmp a = f_data (ds_file s) a) →
  (∀ a, IndexStart ≤ a < GridStart → f_data tmp a = image_of (log_of (live gs)) a) →
  ∃ s', install_index tmp s = (Ok tt, s') ∧ compacted s gs s'.
Proof.
  intros Hr Htf Hts Hhead Hidx. pose proof Hr as [Hi He Hf (st & Hm) Hlog Hknown Hown Hzero].
  destruct (ready_live s gs st Hr Hm) as [Hlive Est].
  pose proof (ready_end _ _ Hr) as (_ & _ & _ & Hdb & HdG & Hfs). pose proof (i_disk _ Hi) as Hfit.
  pose proof (disk_fits_ok _ Hfit) as Hd. pose proof (m_exts _ _ _ _ _ _ _ _ Hm) as Hsub.
  destruct (copy_section_ok GridStart tmp (ds_file s)) as (f & Hcp & [Hlo Hhi Hgr Hsz Hff]);
    [llia|done|lia|split; [done|right; lia]|llia|].
  rewrite (i_grow _ Hi) in Hgr, Hsz.
  assert (Hext : ∀ a, (∃ iv, iv ∈ intervals s ∧ ext_addr iv a) → f_data f a = f_data (ds_file s) a).
  { intros a (iv & Hiv & Ha). apply Hhi. right.
    pose proof (interval_addr s iv a Hi Hiv Ha). lia. }
  pose proof (mirrors_compacted (diskBytes s) (ds_file s) f _ _ _ _ gs st Hd Hm Hlog Hsz) as Hm'.
  specialize (Hm' ltac:(intros a Ha; rewrite Hlo by llia; by apply Hidx) Hext).
  pose proof (i_disjoint _ Hi) as Hdis. apply disjoint_all_app in Hdis as (Hdis1 & Hdis2 & Hcross).
  unfold install_index. rewrite Hcp, (sync_clean f) by done.
  rewrite (replay_mirrors (diskBytes s) f _ _ _ _ _ st Hd ltac:(lia) ltac:(lia)
    (disjoint_all_submseteq _ _ Hsub Hdis1) Hm').
  eexists. split; [reflexivity|]. rewrite Est in *.
  set (exts := sort_extents (map_to_list (rs_extents (state_of (diskBytes s) (live gs)))).*2) in *.
  assert (Hsub' : exts ⊆+ intervals s) by (unfold exts; by rewrite sort_extents_perm).
  assert (Hm2 : mirrors (diskBytes s) (clean f) (confirmed s) (packed s) exts (log_end (log_of (live gs)))
    (log_of (live gs)) (state_of (diskBytes s) (live gs))) by (destruct Hm'; by constructor).
  constructor; cbn; try done.
  - constructor; cbn; try done.
    + constructor; cbn; try done.
      * lia.
      * eapply header_valid_ext; [|apply Hi]. intros a Ha. rewrite Hlo by llia. apply Hhead.
        by unfold IndexStart in Ha.
      * eapply disjoint_all_submseteq; [|apply Hi]. by apply submseteq_app.
      * pose proof (i_grid _ Hi) as Hgrid. rewrite Forall_forall in *. intros iv Hiv. apply Hgrid.
        eapply elem_of_submseteq; [exact Hiv|]. by apply submseteq_app.
      * intros _. by eexists _, _.
    + by eexists.
    + by eapply live_log_ok.
    + intros g k Hg. apply Hknown. by apply elem_of_live.
  - split_and!; try done. intros iv a Hiv Ha. apply Hhi. right.
    pose proof (in_grid_addr _ _ _ Hd (pending_in_grid _ _ Hi Hiv) Ha). lia.
  - intros k. apply contents_ext; try done. intros iv a Hiv Ha. apply Hext. by exists iv.
Qed.

(** The temporary file, and the device synced before it was made. *)
Lemma compact_prepare_outcome s gs create :
  ready s gs → short_log gs → create = Ok new_file ∨ (∃ e, create = Err e) →
  match compact_prepare create s with
  | (Err _, s') => create ≠ Ok new_file ∧ s' = set_file s (clean (ds_file s))
  | (Ok tmp, s') => create = Ok new_file ∧ s' = set_file s (clean (ds_file s)) ∧
      f_faults tmp = [] ∧ f_size tmp = GridStart ∧
      (∀ a, 0 ≤ a < HeaderBytes → f_data tmp a = f_data (ds_file s) a) ∧
      (∀ a, IndexStart ≤ a < GridStart → f_data tmp a = image_of (log_of (live gs)) a)
  end.
Proof.
  intros Hr Hshort Hcreate. unfold compact_prepare.
  unfold mbind at 1, M_bind at 1, fileM at 1. rewrite sync_clean by apply Hr.
  set (s1 := set_file s (clean (ds_file s))).
  destruct (ready_file s gs (clean (ds_file s)) Hr) as [Hr1 Hc1]; [by split_and!|done|]. fold s1 in Hr1, Hc1.
  unfold mbind at 1, M_bind at 1, fileM at 1, mwrap at 1.
  rewrite (collect_ready s1 gs Hr1 Hshort), set_file_id. cbn [wrap_err].
  unfold mbind at 1, M_bind at 1, mlift at 1. destruct Hcreate as [->|(e & ->)]; [|by split_and!].
  pose proof (ready_end _ _ Hr1) as (_ & _ & _ & _ & HdG & Hfs). cbn [wrap_err].
  unfold mbind at 1, M_bind at 1, fileM at 1, mwrap at 1.
  rewrite (read_header_ok (ds_file s1)) by (apply Hr1 || (rewrite Hfs; unfold HeaderBytes; llia)).
  cbn [wrap_err]. rewrite set_file_id.
  destruct (compacted_image_ok s1 gs (region (f_data (ds_file s1)) 0 HeaderBytes) Hr1 Hshort eq_refl)
    as (tmp & Him & Htf & Hts & Hth & Hti).
  unfold mlift. rewrite Him. by split_and!.
Qed.

Lemma compact_index_outcome s gs create :
  ready s gs → short_log gs → create = Ok new_file ∨ (∃ e, create = Err e) →
  match compactIndexLocked create s with
  | (Err _, s') => ready s' gs ∧ same_disk s s' ∧ confirmed s' = confirmed s ∧ packed s' = packed s ∧
      ∀ k, contents s' k = contents s k
  | (Ok _, s') => compacted s gs s'
  end.
Proof.
  intros Hr Hshort Hcreate. pose proof (compact_prepare_outcome s gs create Hr Hshort Hcreate) as Hp.
  destruct (ready_file s gs (clean (ds_file s)) Hr) as [Hr1 Hc1]; [by split_and!|done|].
  unfold compactIndexLocked, mbind, M_bind. destruct (compact_prepare create s) as [[tmp|e] s1].
  - destruct Hp as (_ & -> & Htf & Hts & Hth & Hti).
    destruct (install_compacted (set_file s (clean (ds_file s))) gs tmp Hr1 Htf Hts Hth Hti)
      as (s' & -> & [H1 H2 H3 H4 H5 H6]). by constructor.
  - destruct Hp as [_ ->]. by split_and!.
Qed.
