(* ===== verification/TrimCollect.v ===== *)
(** * The candidates of a trim

    What [collectTrimCandidatesLocked] picks: objects that are stored directly under their own fid and
    that neither an alias, a packed table nor another packed object depends on, small enough together
    for one container. *)

From S2P Require Import Prelude Machine Loop Float Device Layout IndexScan PackedTable Interval.
From S2P Require Import Replay DirectIO DeviceState DeviceInv DeviceOps DiskStore Fragmentation Chd Config.
From S2P Require Import Compact CompactRun Backup Trim TrimIndex TrimWrite TrimStore TrimPack TrimCompact.
From Stdlib Require Import Strings.Byte.

(** ** Where the references come from *)
Lemma state_of_ref d l k ref :
  rs_refs (state_of d l) !! k = Some ref → ∃ g, g ∈ l ∧ group_refs g !! k = Some ref.
Proof.
  induction l as [|g l IH] using rev_ind; [done|]. rewrite state_of_snoc. cbn.
  intros [H|[_ H]]%lookup_union_Some_raw.
  - exists g. split; [apply elem_of_app; right; by left|done].
  - destruct (IH H) as (g' & Hg' & H'). exists g'. split; [apply elem_of_app; by left|done].
Qed.

Lemma state_of_lookup d l g k ref :
  NoDup (l ≫= claims) → g ∈ l → group_refs g !! k = Some ref → rs_refs (state_of d l) !! k = Some ref.
Proof.
  induction l as [|g' l IH] using rev_ind; [by intros _ ?%not_elem_of_nil|].
  rewrite state_of_snoc, bind_app. cbn [mbind list_bind add_group rs_refs]. rewrite app_nil_r.
  intros (Hn & Hdis & _)%NoDup_app [Hg| ->%list_elem_of_singleton]%elem_of_app Hk; [|by apply lookup_union_Some_l].
  assert (Hcl : k ∈ claims g).
  { apply elem_of_dom_2 in Hk. rewrite dom_group_refs in Hk. by apply elem_of_list_to_set in Hk. }
  rewrite lookup_union_r; [by apply IH|]. apply not_elem_of_dom. rewrite dom_group_refs.
  rewrite elem_of_list_to_set. apply Hdis. apply elem_of_claims. by exists g.
Qed.

(** The blob of a stored table. *)
Lemma read_table_blob d ivs f t sz addr i k :
  disk_fits d → f_size f = d → f_faults f = [] → ref_backed d ivs (plain_ref t sz) →
  AddrForFID d t sz = Ok (addr, i, k) →
  read_blob addr sz f = (Ok (ref_bytes d (f_data f) (plain_ref t sz)), f).
Proof.
  intros Hfit Hsz Hf Hb HA. pose proof (disk_fits_ok _ Hfit) as Hd. unfold disk_fits in Hfit.
  pose proof (rb_range _ _ _ Hb) as (Hpos & _).
  destruct (ref_backed_addr d ivs _ Hd Hb) as (iv & Hiv & HA' & Hgrid & Hcov).
  cbn [r_fid storedSize r_size plain_ref] in *. rewrite HA in HA'. injection HA' as -> _ _.
  set (a0 := GridStart + start iv * SlotSize) in *.
  pose proof (in_grid_addr d iv a0 Hd Hgrid (Hcov a0 ltac:(lia))) as Ha1.
  pose proof (in_grid_addr d iv (a0 + sz - 1) Hd Hgrid (Hcov (a0 + sz - 1) ltac:(lia))) as Ha2.
  rewrite read_blob_ok; [|done|llia|unfold maxAlloc; llia|lia|lia].
  unfold ref_bytes. cbn [r_fid storedSize r_size r_offset plain_ref]. by rewrite HA, Z.add_0_r.
Qed.

(** A reference after the tables are loaded was there before, or points into a table's container. *)
Lemma load_tables_cases d ivs ts maps f out k ref :
  disk_fits d → f_size f = d → f_faults f = [] →
  load_tables d ts maps f = (Ok out, f) → out.1 !! k = Some ref →
  (∀ t, t ∈ ts → ∃ sz, out.1 !! t = Some (plain_ref t sz) ∧ ref_backed d ivs (plain_ref t sz)) →
  maps.1 !! k = Some ref ∨
  ∃ t sz hd es, t ∈ ts ∧ out.1 !! t = Some (plain_ref t sz) ∧
    decodePackedTable (ref_bytes d (f_data f) (plain_ref t sz)) = Ok (hd, es) ∧
    r_fid ref = h_containerFID hd.
Proof.
  intros Hfit Hsz Hf. revert maps. induction ts as [|t ts IH]; intros maps H Hk Hts.
  { injection H as <-. by left. }
  destruct (Hts t ltac:(by left)) as (sz & Ht & Hb).
  pose proof (load_tables_direct _ _ _ _ _ _ _ _ H Ht eq_refl) as Ht'.
  rewrite load_tables_cons, Ht' in H. cbn [r_fid storedSize r_size plain_ref] in H.
  unfold mbind at 1, M_bind, mlift in H. destruct (AddrForFID d t sz) as [[[addr i] n]|] eqn:HA; [|done].
  unfold mbind at 1, M_bind in H. rewrite (read_table_blob d ivs f t sz addr i n) in H by done.
  destruct (decodePackedTable _) as [[hd es]|] eqn:Ed; [|done]. cbn [wrap_err] in H.
  apply (IH (add_packed hd t sz maps es)) in H as [H|(t' & sz' & hd' & es' & Hin & H)]; [| |done|].
  - apply add_packed_cases in H as [[_ H]|(e & He & <- & ->)]; [by left|].
    right. exists t, sz, hd, es. split; [by left|done].
  - right. exists t', sz', hd', es'. split; [by right|done].
  - intros t' Hin. apply Hts. by right.
Qed.

Lemma read_logical_any s fid :
  Inv s → indexErr s = None → f_faults (ds_file s) = [] →
  match readLogicalObjectLocked fid s with
  | (Ok (l, n), s') => s' = s ∧ contents s fid = Some l ∧ n = Z.of_nat (length l)
  | (Err _, s') => s' = s
  end.
Proof.
  intros Hi He Hf. destruct (confirmed s !! fid) as [ref|] eqn:Er.
  - destruct (contents s fid) as [l|] eqn:Ec; [|unfold contents in Ec; by rewrite Er in Ec].
    destruct (read_logical s fid ref l Hi He Hf Er Ec) as [-> Hl]. by rewrite Hl.
  - unfold readLogicalObjectLocked, lookup_fid, mbind, M_bind. by rewrite He, Er.
Qed.

(** ** What is excluded *)
Definition excludes (s : DeviceState) (x : exclusions) (g : group) : Prop :=
  match g with
  | GAlias _ _ fid _ => fid ∈ jumpTargets x
  | GTable t _ => t ∈ packedTableFIDs x ∧ ∃ lt hd es, contents s t = Some lt ∧
      decodePackedTable lt = Ok (hd, es) ∧ h_containerFID hd ∈ packedContainerFIDs x
  | _ => True
  end.

Record grows (x x' : exclusions) : Prop := {
  gr_tables : packedTableFIDs x ⊆ packedTableFIDs x';
  gr_containers : packedContainerFIDs x ⊆ packedContainerFIDs x';
  gr_targets : jumpTargets x ⊆ jumpTargets x'
}.

Lemma grows_trans x1 x2 x3 : grows x1 x2 → grows x2 x3 → grows x1 x3.
Proof. intros [] []. split; set_solver. Qed.

Lemma excludes_grows s x x' g : grows x x' → excludes s x g → excludes s x' g.
Proof.
  intros [H1 H2 H3]. destruct g as [f sz|a c f sz|t sz|f]; cbn; [done|set_solver| |done].
  intros [Ht (lt & hd & es & Hl & Hd & Hc)]. split; [set_solver|]. exists lt, hd, es. split_and!; set_solver.
Qed.

Lemma gather_outcome s ps : ∀ x,
  Inv s → indexErr s = None → f_faults (ds_file s) = [] → Forall (λ p : group * Z, ∀ f, p.1 ≠ GTomb f) ps →
  match gather (group_record <$> ps) x s with
  | (Err _, s') => s' = s
  | (Ok x', s') => s' = s ∧ grows x x' ∧ Forall (λ p, excludes s x' p.1) ps
  end.
Proof.
  induction ps as [|[g n] ps IH]; intros x Hi He Hf Hnt; [by split_and!|].
  apply Forall_cons in Hnt as [Hn Hnt]. cbn [fmap list_fmap gather fst] in *.
  assert (Hstep : ∀ x1, grows x x1 → excludes s x1 g →
    match gather (group_record <$> ps) x1 s with
    | (Err _, s') => s' = s
    | (Ok x', s') => s' = s ∧ grows x x' ∧ Forall (λ p, excludes s x' p.1) ((g, n) :: ps)
    end).
  { intros x1 Hx1 Hex. specialize (IH x1 Hi He Hf Hnt).
    destruct (gather (group_record <$> ps) x1 s) as [[x'|e] s']; [|done]. destruct IH as (-> & Hx' & Hall).
    split; [done|]. split; [by eapply grows_trans|]. constructor; [|done]. by eapply excludes_grows. }
  destruct g as [f sz|a c f sz|t sz|f]; [| | |by destruct (Hn f)].
  - apply (Hstep x); done.
  - cbn. apply (Hstep (mkExclusions (packedTableFIDs x) (packedContainerFIDs x) ({[f]} ∪ jumpTargets x)));
      [split; cbn; set_solver|cbn; set_solver].
  - change (lr_Jump (group_record (GTable t sz, n))) with false. cbv iota.
    change (negb (lr_Packed (group_record (GTable t sz, n)))) with false. cbv iota.
    change (lr_FID (group_record (GTable t sz, n))) with t.
    unfold mbind at 1, M_bind at 1, mwrap at 1. pose proof (read_logical_any s t Hi He Hf) as Hrd.
    destruct (readLogicalObjectLocked t s) as [[[lt len]|e] s']; [|done]. destruct Hrd as (-> & Hlt & _).
    cbn [wrap_err]. unfold mbind at 1, M_bind at 1, mlift at 1.
    destruct (decodePackedTable lt) as [[hd es]|] eqn:Ed; [|done]. cbn [wrap_err].
    apply Hstep; [split; cbn; set_solver|]. cbn. split; [set_solver|].
    exists lt, hd, es. split_and!; [done|done|set_solver].
Qed.

(** ** The objects that may be packed *)

(** An object under its own fid that nothing else in the disk refers to. *)
Record candidate_ok (s : DeviceState) (gs : list group) (c : trimCandidate) : Prop := {
  cd_group : GPlain (tc_fid c) (tc_size c) ∈ live gs;
  cd_alias a code sz : GAlias a code (tc_fid c) sz ∉ live gs;
  cd_table : tc_fid c ∉ table_fids (live gs);
  cd_container t lt hd es : t ∈ table_fids (live gs) → contents s t = Some lt →
    decodePackedTable lt = Ok (hd, es) → h_containerFID hd ≠ tc_fid c
}.

Lemma eligible_ok s gs ps x c :
  ps.*1 = live gs → Forall (λ p, ∀ f, p.1 ≠ GTomb f) ps → Forall (λ p, excludes s x p.1) ps →
  c ∈ eligible x (group_record <$> ps) → candidate_ok s gs c.
Proof.
  intros Hps Hnt Hex Hc. unfold eligible in Hc. apply list_elem_of_fmap in Hc as (r & -> & Hr).
  apply list_elem_of_filter in Hr as [(Hpk & Hj & Hnj & Hntb & Hnc) Hr].
  apply list_elem_of_fmap in Hr as ([g n] & -> & Hin). rewrite Forall_forall in Hex, Hnt.
  assert (Hall : ∀ g', g' ∈ live gs → excludes s x g').
  { intros g' Hg'. rewrite <- Hps in Hg'. apply list_elem_of_fmap in Hg' as (p & -> & Hp). by apply Hex. }
  assert (Hlive : g ∈ live gs) by (rewrite <- Hps; apply list_elem_of_fmap; by exists (g, n)).
  specialize (Hnt _ Hin). cbn [fst] in Hnt.
  destruct g as [f sz|a c f sz|t sz|f]; [|done|done|by destruct (Hnt f)].
  assert (Hrec : group_record (GPlain f sz, n) = mkLatestRecord f sz f sz 0 n false false) by done.
  rewrite Hrec in *. cbn [lr_FID lr_Size] in *.
  assert (Htab : ∀ t, t ∈ table_fids (live gs) → t ∈ packedTableFIDs x ∧ ∃ lt hd es, contents s t = Some lt ∧
      decodePackedTable lt = Ok (hd, es) ∧ h_containerFID hd ∈ packedContainerFIDs x).
  { intros t (g' & Hg' & E)%list_elem_of_omap. destruct g'; try done. injection E as ->. by apply (Hall _ Hg'). }
  split; cbn [tc_fid tc_size].
  - done.
  - intros a code sz' H. apply Hnj. exact (Hall _ H).
  - intros H. by apply Htab in H as [? _].
  - intros t lt hd es H Hlt Hd. apply Htab in H as (_ & lt' & hd' & es' & Hlt' & Hd' & Hc). congruence.
Qed.

Lemma pick_spec P threshold limit es : ∀ picked size,
  Forall P es → Forall P picked → Forall P (pick threshold limit es picked size).
Proof.
  induction es as [|c es IH]; intros picked size He Hp; [done|]. apply Forall_cons in He as [Hc He].
  cbn [pick]. destruct (tc_size c <? threshold); [|by apply IH].
  destruct (_ && _); [done|]. apply IH; [done|]. by apply Forall_app; split; [|apply Forall_singleton].
Qed.

Lemma pick_NoDup threshold limit es : ∀ picked size,
  NoDup ((tc_fid <$> picked) ++ (tc_fid <$> es)) → NoDup (tc_fid <$> pick threshold limit es picked size).
Proof.
  induction es as [|c es IH]; intros picked size H; [by rewrite app_nil_r in H|].
  cbn [pick fmap list_fmap] in *. destruct (tc_size c <? threshold).
  - destruct (_ && _); [by apply NoDup_app in H as [? _]|]. apply IH.
    by rewrite fmap_app, <- app_assoc.
  - apply IH. eapply sublist_NoDup; [exact H|]. apply sublist_app; [done|]. by apply sublist_cons.
Qed.

(** The sizes of a batch, added up. *)
Definition total (cs : list trimCandidate) : Z := foldr (λ c n, tc_size c + n) 0 cs.

Lemma total_app cs1 cs2 : total (cs1 ++ cs2) = total cs1 + total cs2.
Proof. induction cs1 as [|c cs1 IH]; cbn; [done|]. fold (total (cs1 ++ cs2)) (total cs1). lia. Qed.

Lemma pick_total B threshold limit es : ∀ picked,
  limit ≤ B → B < 2 ^ 63 → Forall (λ c, 0 ≤ tc_size c ≤ B) es → Forall (λ c, 0 ≤ tc_size c) picked →
  total picked ≤ B → total (pick threshold limit es picked (total picked)) ≤ B.
Proof.
  induction es as [|c es IH]; intros picked Hl HB He Hpos Hp; [done|]. apply Forall_cons in He as [Hc He].
  assert (H0 : 0 ≤ total picked).
  { clear Hp. induction Hpos as [|c' l H' _ IHl]; [done|]. cbn. fold (total l). lia. }
  cbn [pick]. destruct (tc_size c <? threshold); [|by apply IH].
  rewrite u64_small by lia.
  assert (E : total (picked ++ [c]) = total picked + tc_size c) by (rewrite total_app; cbn; lia).
  destruct ((limit <? total picked + tc_size c) && (0 <? Z.of_nat (length picked))) eqn:Eb; [done|].
  rewrite <- E. apply IH; try done.
  - apply Forall_app. split; [done|]. apply Forall_singleton. lia.
  - rewrite E. apply andb_false_iff in Eb as [Eb|Eb]; [lia|].
    destruct picked; [cbn; lia|]. rewrite Z.ltb_ge in Eb. cbn [length] in Eb. lia.
Qed.

Lemma group_record_fid p : (∀ f, p.1 ≠ GTomb f) → lr_FID (group_record p) = key p.1.
Proof. by destruct p as [[f sz|a c f sz|t sz|f] n]. Qed.

Lemma eligible_NoDup x ps :
  Forall (λ p, ∀ f, p.1 ≠ GTomb f) ps → NoDup (key <$> ps.*1) →
  NoDup (tc_fid <$> eligible x (group_record <$> ps)).
Proof.
  intros Hnt Hnd. unfold eligible. rewrite <- list_fmap_compose.
  assert (E : lr_FID <$> (group_record <$> ps) = key <$> ps.*1).
  { clear Hnd. induction Hnt as [|p ps Hp _ IH]; [done|]. cbn [fmap list_fmap] in *.
    by rewrite (group_record_fid p Hp), IH. }
  rewrite <- E in Hnd. eapply sublist_NoDup; [exact Hnd|]. unfold compose. cbn.
  apply fmap_sublist. apply sublist_filter.
Qed.

Lemma batch_limit_le HashString cfg s : batch_limit HashString cfg s ≤ 2 ^ 28.
Proof.
  unfold batch_limit. set (c := computeCHD _ _ _ _ _). change (Z.shiftl 256 20) with (2 ^ 28).
  destruct (Z.ltb_spec (2 ^ 28) (if c <? Z.shiftl 8 20 then Z.shiftl 8 20 else c)) as [H|H];
    destruct (_ && _) eqn:E; lia.
Qed.

(** ** The batch *)
Record batch_ok (s : DeviceState) (gs : list group) (cs : list trimCandidate) : Prop := {
  bt_cands : Forall (candidate_ok s gs) cs;
  bt_sizes : Forall (λ c, 0 < tc_size c ≤ 2 ^ 48) cs;
  bt_nodup : NoDup (tc_fid <$> cs);
  bt_total : total cs ≤ 2 ^ 48
}.

Lemma collect_outcome HashString cfg s gs :
  ready s gs → short_log gs →
  match collectTrimCandidatesLocked HashString cfg s with
  | (Err _, s') => s' = s
  | (Ok (cs, _, _, _), s') => s' = s ∧ batch_ok s gs cs
  end.
Proof.
  intros Hr Hshort. pose proof Hr as [Hi He Hf (st & Hm) Hlog _ _ _].
  destruct (ready_live s gs st Hr Hm) as [Hl _]. pose proof (li_groups _ _ Hl) as Hlg.
  unfold collectTrimCandidatesLocked. unfold mbind at 1, M_bind at 1, fileM at 1.
  rewrite (collect_ready s gs Hr Hshort), set_file_id.
  set (ps := (tagged gs).1). assert (Hps : ps.*1 = live gs) by apply tagged_fst.
  assert (Hnt : Forall (λ p : group * Z, ∀ f, p.1 ≠ GTomb f) ps).
  { apply Forall_forall. intros p Hp. rewrite Forall_forall in Hlg.
    destruct (Hlg p.1) as (_ & _ & H); [|done]. rewrite <- Hps. by apply list_elem_of_fmap_2. }
  pose proof (gather_outcome s ps (mkExclusions ∅ ∅ ∅) Hi He Hf Hnt) as Hg.
  unfold mbind at 1, M_bind at 1. destruct (gather _ _ s) as [[x|e] s']; [|done].
  destruct Hg as (-> & _ & Hex). unfold mbind at 1, M_bind at 1, mget at 1. cbv beta iota.
  set (es := eligible x (group_record <$> ps)). unfold mret, M_ret. split; [done|].
  assert (Hok : Forall (candidate_ok s gs) es) by (apply Forall_forall; intros c Hc; by eapply eligible_ok).
  assert (Hsz : Forall (λ c, 0 < tc_size c ≤ 2 ^ 48) es).
  { eapply Forall_impl; [exact Hok|]. intros c [Hc _ _ _]. rewrite Forall_forall in Hlg.
    destruct (Hlg _ Hc) as ((Hu & Hs) & Hx & _). cbn [target fst snd] in Hx. unfold extent_of in Hx.
    destruct (AddrForFID _ _ _) as [[[a i] k]|] eqn:HA; [|done]. pose proof (i_disk _ Hi) as Hfit.
    apply AddrForFID_size in HA; [|done|unfold is_u64, IndexPackedSentinel in *; lia].
    unfold disk_fits in Hfit. lia. }
  split.
  - by apply pick_spec.
  - by apply pick_spec.
  - apply pick_NoDup. cbn [fmap list_fmap app]. apply eligible_NoDup; [done|]. rewrite Hps. by eapply live_keys.
  - pose proof (batch_limit_le HashString cfg s). apply (pick_total (2 ^ 48)); [lia|lia| |done|done].
    eapply Forall_impl; [exact Hsz|]. cbn. lia.
Qed.

(** ** Tables and aliases stay in the log *)
Definition lasting (g : group) : Prop := match g with GAlias _ _ _ _ | GTable _ _ => True | _ => False end.

Lemma lasting_fids gs g :
  g ∈ gs → lasting g → key g ∈ table_fids gs ∨ key g ∈ pair_fids gs.
Proof.
  intros Hin Hg. unfold table_fids, pair_fids. rewrite list_elem_of_omap, list_elem_of_bind.
  destruct g as [f sz|a c f sz|t sz|f]; try done; [right|left]; eexists; (split; [|done]) || (split; [done|]).
  - by left.
  - done.
Qed.

Lemma lasting_live d gs st g :
  log_ok gs → foldM (replay_entry d) rstate0 (log_of gs) = Ok st → g ∈ gs → lasting g → g ∈ live gs.
Proof.
  revert st. induction gs as [|g' gs IH] using rev_ind; intros st Hok H Hin Hg; [by apply not_elem_of_nil in Hin|].
  apply log_ok_snoc in Hok as (Hok & Hg' & Hside). rewrite log_of_snoc, foldM_app in H.
  apply res_bind_Ok in H as (st1 & H1 & H2). destruct (replay_live d gs st1 Hok H1) as [Hl ->].
  assert (Hnt : ∀ f, g ≠ GTomb f) by (intros f ->; done).
  unfold live. rewrite foldl_snoc. fold (live gs).
  apply elem_of_app in Hin as [Hin| ->%list_elem_of_singleton].
  2:{ destruct g' as [f sz|a c f sz|t sz|f]; try done; cbn [live_step]; apply elem_of_app; right; by left. }
  specialize (IH _ Hok H1 Hin Hg).
  assert (Hne : key g ≠ key g').
  { intros E. pose proof (lasting_fids gs g Hin Hg) as Hf.
    assert (Hs : is_Some (rs_refs (state_of d (live gs)) !! key g)) by (apply dom_state_of; exists g; split; [done|by apply key_claims]).
    apply replay_group_inv in H2; [|apply rest_state_of|done].
    destruct g' as [f sz|a c f sz|t sz|f]; cbn [key] in E; [| |rewrite E in Hf; tauto..].
    - destruct H2 as [[_ Hac] _]. rewrite E, (Hac f) in Hs by (by left). by destruct Hs.
    - destruct H2 as [[_ Hac] _]. rewrite E, (Hac a) in Hs by (by left). by destruct Hs. }
  destruct g' as [f sz|a c f sz|t sz|f]; cbn [live_step key] in *; unfold drop_key;
    rewrite ?elem_of_app, list_elem_of_filter; tauto.
Qed.

(** Nothing but the object itself is in a candidate's extent. *)
Lemma candidate_log s gs c :
  ready s gs → candidate_ok s gs c →
  tc_fid c ∉ table_fids gs ∧ tc_fid c ∉ pair_fids gs.
Proof.
  intros Hr [Hgr Hal Htab Hcont]. pose proof Hr as [Hi He Hf (st & Hm) Hlog _ _ _].
  destruct (ready_live s gs st Hr Hm) as [[_ Hnd] _]. pose proof (m_fold _ _ _ _ _ _ _ _ Hm) as Hfold.
  assert (Huniq : ∀ g, g ∈ gs → lasting g → tc_fid c ∈ claims g → False).
  { intros g Hin Hg Hcl. pose proof (lasting_live _ gs st g Hlog Hfold Hin Hg) as Hlv.
    pose proof (state_of_lookup (diskBytes s) (live gs) _ (tc_fid c) (plain_ref (tc_fid c) (tc_size c)) Hnd Hgr
      (lookup_singleton_eq _ _)) as H1.
    assert (is_Some (group_refs g !! tc_fid c)) as [ref Href]
      by (apply elem_of_dom; rewrite dom_group_refs; by apply elem_of_list_to_set).
    pose proof (state_of_lookup (diskBytes s) (live gs) g _ _ Hnd Hlv Href) as H2.
    destruct g as [f sz|a code f sz|t sz|f]; try done; cbn in Hcl.
    - apply elem_of_cons in Hcl as [E|E%list_elem_of_singleton].
      + cbn in Href. rewrite E, lookup_insert_eq in Href. injection Href as <-. rewrite H1 in H2.
        injection H2 as H2 _ _. by apply (Hal a code sz); rewrite H2.
      + by apply (Hal a code sz); rewrite E.
    - apply list_elem_of_singleton in Hcl as E. apply Htab. rewrite E. apply list_elem_of_omap. by exists (GTable t sz). }
  split.
  - intros (g & Hin & E)%list_elem_of_omap. destruct g; try done. injection E as ->. eapply Huniq; [exact Hin|done|by left].
  - intros (g & E & Hin)%list_elem_of_bind. destruct g; try (by apply not_elem_of_nil in E). by eapply Huniq.
Qed.

Lemma candidate_alone s gs c k ref :
  ready s gs → candidate_ok s gs c → confirmed s !! k = Some ref → r_fid ref = tc_fid c → k = tc_fid c.
Proof.
  intros Hr [Hgr Hal Htab Hcont] Hk Ef. pose proof Hr as [Hi He Hf (st & Hm) Hlog _ _ _].
  destruct (ready_live s gs st Hr Hm) as [[_ Hnd] Est]. pose proof Hm as [_ _ _ _ _ Hload _ _ Htables _].
  assert (Hts : ∀ t, t ∈ rs_tables st → ∃ sz, confirmed s !! t = Some (plain_ref t sz) ∧
    ref_backed (diskBytes s) (intervals s) (plain_ref t sz)).
  { intros t Ht. pose proof Ht as Ht'. rewrite Est, tables_state_of in Ht'.
    apply list_elem_of_omap in Ht' as (g & Hin & E). destruct g as [| |t' sz|]; try done. injection E as ->.
    destruct (Htables t Ht) as (r & Hr1 & Hr2). pose proof (load_tables_direct _ _ _ _ _ _ _ _ Hload Hr1 Hr2) as Hd.
    cbn [fst] in Hd. rewrite Est, (state_of_lookup _ _ _ _ (plain_ref t sz) Hnd Hin) in Hd
      by apply lookup_singleton_eq.
    injection Hd as <-. exists sz. split; [done|]. by eapply mirrors_backed. }
  destruct (load_tables_cases (diskBytes s) (intervals s) (rs_tables st) (rs_refs st, rs_packed st) (clean (ds_file s))
    (confirmed s, packed s) k ref (i_disk _ Hi) (i_size _ Hi) eq_refl Hload Hk Hts)
    as [H|(t & sz & hd & es & Ht & Htr & Hd & E)].
  - cbn [fst] in H. rewrite Est in H. apply state_of_ref in H as (g & Hin & H).
    destruct g as [f sz|a code f sz|t sz|f]; cbn in H; [| | |done].
    + apply lookup_singleton_Some in H as [<- <-]. done.
    + apply lookup_insert_Some in H as [[<- <-]|[_ [<- <-]%lookup_singleton_Some]]; [|done].
      cbn in Ef. rewrite Ef in Hin. by destruct (Hal a code sz).
    + apply lookup_singleton_Some in H as [<- <-]. done.
  - rewrite Est, tables_state_of in Ht. exfalso.
    apply (Hcont t (ref_bytes (diskBytes s) (f_data (ds_file s)) (plain_ref t sz)) hd es Ht); [|done|congruence].
    unfold contents. cbn [fst] in Htr. by rewrite Htr.
Qed.
