(* ===== verification/TrimRun.v ===== *)
(** * A whole trim

    Putting the steps together: whatever the environment answers and wherever a trim stops, except at
    the fail point between the anchor and the registration of its table, every object keeps its
    contents; and when the trim succeeds, the packed objects' old slots are free. *)

From S2P Require Import Prelude Machine Loop Float Device Layout IndexScan PackedTable Interval.
From S2P Require Import Replay DirectIO DeviceState DeviceInv DeviceOps DiskStore Fragmentation Chd Config.
From S2P Require Import Compact CompactRun Backup Trim TrimIndex TrimWrite TrimStore TrimPack TrimCompact.
From S2P Require Import TrimCollect.
From Stdlib Require Import Strings.Byte.

(** A live plain object is stored directly. *)
Definition direct (s : DeviceState) (gs : list group) : Prop :=
  ∀ f sz, GPlain f sz ∈ live gs → confirmed s !! f = Some (plain_ref f sz).

Lemma live_snoc gs g : live (gs ++ [g]) = live_step (live gs) g.
Proof. unfold live. by rewrite foldl_snoc. Qed.

(** ** The container *)

(** Where the objects of a batch are in the container. *)
Record entry_ok_for (s : DeviceState) (cs : list trimCandidate) (lc : list byte) (e : containerEntry) : Prop := {
  eo_range : 0 ≤ ce_offset e ∧ 0 < ce_size e ∧ ce_offset e + ce_size e ≤ Z.of_nat (length lc);
  eo_bytes : contents s (ce_fid e) = Some (take (Z.to_nat (ce_size e)) (drop (Z.to_nat (ce_offset e)) lc));
  eo_cand : ∃ c, c ∈ cs ∧ ce_fid e = tc_fid c ∧ ce_size e = tc_size c
}.

Definition packs (s : DeviceState) (cs : list trimCandidate) (lc : list byte) (es : list containerEntry) : Prop :=
  ce_fid <$> es = tc_fid <$> cs ∧ Forall (entry_ok_for s cs lc) es.

Lemma entry_ok_app s cs lc x e : entry_ok_for s cs lc e → entry_ok_for s cs (lc ++ x) e.
Proof.
  intros [(H1 & H2 & H3) Hb Hc]. split; [rewrite length_app; lia| |done].
  rewrite Hb. f_equal. rewrite drop_app_le by lia. rewrite take_app_le; [done|]. rewrite length_drop. lia.
Qed.

(** What a candidate holds. *)
Definition stored (s : DeviceState) (c : trimCandidate) : Prop :=
  ∃ l, contents s (tc_fid c) = Some l ∧ Z.of_nat (length l) = tc_size c ∧ 0 < tc_size c.

Lemma build_container_ok s gs cs : ∀ tmp pre,
  ready s gs → Forall (stored s) cs → holds tmp pre → Z.of_nat (length pre) + total cs < 2 ^ 64 →
  ∃ es tmp' body, build_container cs (Z.of_nat (length pre)) (s, tmp) = (Ok es, (s, tmp')) ∧
    holds tmp' (pre ++ body) ∧ Z.of_nat (length body) = total cs ∧ packs s cs (pre ++ body) es.
Proof.
  induction cs as [|c cs IH]; intros tmp pre Hr Hcs Hh Hlen.
  { exists [], tmp, []. rewrite app_nil_r. split_and!; done. }
  apply Forall_cons in Hcs as [(l & Hl & Hsz & Hpos) Hcs]. cbn [build_container].
  destruct (confirmed s !! tc_fid c) as [ref|] eqn:Er; [|unfold contents in Hl; by rewrite Er in Hl].
  destruct (read_logical s (tc_fid c) ref l (rd_inv _ _ Hr) (rd_err _ _ Hr) (rd_faults _ _ Hr) Er Hl) as [Hrd Hrs].
  unfold mbind at 1, M_bind at 1, mwrap at 1, on_dev at 1. rewrite Hrd. cbn [wrap_err].
  destruct (holds_append tmp pre l (Z.of_nat (length pre)) Hh ltac:(symmetry; apply Hh)) as (tmp1 & Hw & Hh1).
  unfold mbind at 1, M_bind at 1, on_tmp at 1. rewrite Hw.
  assert (H0 : 0 ≤ total cs).
  { clear -Hcs. induction Hcs as [|c' l' (? & _ & _ & H') _ IHl]; [done|]. cbn. fold (total l'). lia. }
  change (total (c :: cs)) with (tc_size c + total cs) in *.
  assert (Ho : u64 (Z.of_nat (length pre) + r_size ref) = Z.of_nat (length (pre ++ l)))
    by (rewrite length_app, Hrs; rewrite u64_small; lia).
  rewrite Ho. destruct (IH tmp1 (pre ++ l) Hr Hcs Hh1) as (es & tmp2 & body & Hb & Hh2 & Hlb & Hf & Hes);
    [rewrite length_app; lia|].
  unfold mbind at 1, M_bind at 1. rewrite Hb. rewrite <- app_assoc in *.
  eexists _, tmp2, (l ++ body). split; [reflexivity|]. split; [done|]. split; [rewrite length_app; lia|]. split.
  { cbn [fmap list_fmap ce_fid]. by rewrite Hf. }
  constructor.
  - split; cbn [ce_fid ce_offset ce_size]; [rewrite !length_app; lia| |exists c; split_and!; [by left|done|lia]].
    rewrite Hl, Nat2Z.id, drop_app_length. f_equal. symmetry. apply take_app_length'. lia.
  - eapply Forall_impl; [exact Hes|]. intros e [H1 H2 (c' & Hc' & H3)]. split; [done|done|].
    exists c'. split; [by right|done].
Qed.

(** ** The table *)
Lemma added_lookup s gs fid l s' k ref :
  added s gs fid l s' → confirmed s' !! k = Some ref →
  (k = fid ∧ ref = plain_ref fid (Z.of_nat (length l))) ∨ (k ≠ fid ∧ confirmed s !! k = Some ref).
Proof. intros Ha. rewrite (ad_confirmed _ _ _ _ _ Ha). intros [[<- <-]|[? ?]]%lookup_insert_Some; auto. Qed.

Lemma added_ne s gs fid l s' k : added s gs fid l s' → is_Some (confirmed s !! k) → k ≠ fid.
Proof. intros Ha [r Hr] ->. pose proof (ad_new _ _ _ _ _ Ha). congruence. Qed.

Lemma added_keeps s gs fid l s' k : added s gs fid l s' → is_Some (confirmed s !! k) →
  confirmed s' !! k = confirmed s !! k ∧ contents s' k = contents s k.
Proof.
  intros Ha Hk. pose proof (added_ne _ _ _ _ _ k Ha Hk) as Hne. split.
  - rewrite (ad_confirmed _ _ _ _ _ Ha). by apply lookup_insert_ne.
  - by apply (ad_others _ _ _ _ _ Ha).
Qed.

Lemma contents_is_confirmed s k l : contents s k = Some l → is_Some (confirmed s !! k).
Proof. unfold contents. intros (r & Hr & _)%fmap_Some. by exists r. Qed.

Lemma table_fids_plain gs f sz : table_fids (gs ++ [GPlain f sz]) = table_fids gs.
Proof. unfold table_fids. rewrite omap_app. cbn. by rewrite app_nil_r. Qed.
Lemma tomb_fids_plain gs f sz : tomb_fids (gs ++ [GPlain f sz]) = tomb_fids gs.
Proof. unfold tomb_fids. rewrite omap_app. cbn. by rewrite app_nil_r. Qed.
Lemma pair_fids_plain gs f sz : pair_fids (gs ++ [GPlain f sz]) = pair_fids gs.
Proof. unfold pair_fids. rewrite bind_app. cbn. by rewrite app_nil_r. Qed.

Lemma disk_id_range s : Inv s → is_u64 (diskID s).
Proof. intros Hi. destruct (i_header _ Hi) as (_ & _ & <-). apply (le_val_range (bytes_at _ 8 8)). Qed.

Section table.
Context (s s1 s2 : DeviceState) (gs : list group) (cs : list trimCandidate) (es : list containerEntry).
Context (cf t n : Z) (lc : list byte).
Let hd := mkTableHeader (diskID s) cf (Z.of_nat (length lc)) (Z.of_nat (length es)) n.
Let blob := encodePackedTable hd (table_entries es).
Let gs1 := gs ++ [GPlain cf (Z.of_nat (length lc))].
Let gs2 := gs1 ++ [GPlain t (Z.of_nat (length blob))].
Context (Hr : ready s gs) (Hcs : Forall (candidate_ok s gs) cs) (Hpk : packs s cs lc es).
Context (H1 : added s gs cf lc s1) (H2 : added s1 gs1 t blob s2).

Lemma container_twice : confirmed s2 !! cf = Some (plain_ref cf (Z.of_nat (length lc))) ∧ contents s2 cf = Some lc.
Proof using H1 H2.
  assert (Hc : confirmed s1 !! cf = Some (plain_ref cf (Z.of_nat (length lc))))
    by (rewrite (ad_confirmed _ _ _ _ _ H1); apply lookup_insert_eq).
  destruct (added_keeps _ _ _ _ _ cf H2 ltac:(by eexists)) as [-> ->]. split; [done|]. by apply H1.
Qed.

Lemma kept_twice k : is_Some (confirmed s !! k) →
  k ≠ cf ∧ k ≠ t ∧ confirmed s2 !! k = confirmed s !! k ∧ contents s2 k = contents s k.
Proof using H1 H2.
  intros Hk. destruct (added_keeps _ _ _ _ _ k H1 Hk) as [Hc1 Hb1].
  destruct (added_keeps _ _ _ _ _ k H2 ltac:(by rewrite Hc1)) as [Hc2 Hb2].
  split; [by eapply added_ne|]. split; [|by rewrite Hc2, Hb2].
  eapply added_ne; [exact H2|]. by rewrite Hc1.
Qed.

Lemma table_decodes : 0 ≤ n < 2 ^ 64 → Z.of_nat (length es) * 24 ≤ maxAlloc → Z.of_nat (length lc) < 2 ^ 63 →
  decodePackedTable blob = Ok (hd, table_entries es).
Proof using Hr Hpk H1.
  intros Hn Hlen Hlc. unfold blob. rewrite decode_encoded.
  - unfold hd, table_entries. cbn. by rewrite length_fmap.
  - pose proof (disk_id_range s (rd_inv _ _ Hr)). unfold hd, header_ok, is_u64 in *. cbn.
    assert (confirmed s1 !! cf = Some (plain_ref cf (Z.of_nat (length lc)))) as Hc
      by (rewrite (ad_confirmed _ _ _ _ _ H1); apply lookup_insert_eq).
    pose proof (ad_ready _ _ _ _ _ H1) as Hr1.
    destruct (Inv_backed s1 _ _ (rd_inv _ _ Hr1) (rd_err _ _ Hr1) Hc) as [[? ?] _]. lia.
  - unfold table_entries. rewrite Forall_fmap. destruct Hpk as [_ Hes].
    eapply Forall_impl; [exact Hes|]. intros e [(Ha & Hb & Hc) Hby _]. unfold compose, table_entry_ok, is_u64. cbn.
    apply contents_is_confirmed in Hby as [r Hrr].
    destruct (Inv_backed s _ _ (rd_inv _ _ Hr) (rd_err _ _ Hr) Hrr) as [[? ?] _].
    rewrite u64_small by lia. lia.
  - unfold table_entries. by rewrite length_fmap.
Qed.

Lemma table_packable : 0 ≤ n < 2 ^ 64 → Z.of_nat (length es) * 24 ≤ maxAlloc → Z.of_nat (length lc) < 2 ^ 63 →
  packable s2 gs2 t (Z.of_nat (length blob)) hd (table_entries es).
Proof using Hr Hcs Hpk H1 H2.
  intros Hn Hlen Hlc. destruct container_twice as [Hcc Hcb]. pose proof (ad_ready _ _ _ _ _ H2) as Hr2.
  pose proof (ad_ready _ _ _ _ _ H1) as Hr1.
  assert (Htt : confirmed s2 !! t = Some (plain_ref t (Z.of_nat (length blob))))
    by (rewrite (ad_confirmed _ _ _ _ _ H2); apply lookup_insert_eq).
  assert (He : ∀ e, e ∈ table_entries es → ∃ e', e' ∈ es ∧ entry_ok_for s cs lc e' ∧
    e = mkTableEntry (ce_fid e') (ce_offset e') (ce_size e') ∧ is_Some (confirmed s !! ce_fid e')).
  { intros e (e' & -> & Hin)%list_elem_of_fmap. destruct Hpk as [_ Hes]. rewrite Forall_forall in Hes.
    exists e'. split_and!; [done|by apply Hes|done|]. eapply contents_is_confirmed, (Hes e' Hin). }
  destruct (same_disk_trans _ _ _ (ad_disk _ _ _ _ _ H1) (ad_disk _ _ _ _ _ H2)) as (Hdb & Hid & _).
  assert (Hdec := table_decodes Hn Hlen Hlc). split; [split| | | |].
  - done.
  - pose proof (lo_groups _ (rd_log _ _ Hr2)) as Hg. apply Forall_app in Hg as [_ Hg].
    apply Forall_singleton in Hg as [Hu Hs]. split; [done|]. split; [|done].
    intros ->. pose proof (rd_zero _ _ Hr2). congruence.
  - pose proof (ad_bytes _ _ _ _ _ H2) as Hb. unfold contents in Hb. rewrite Htt in Hb.
    apply (inj Some) in Hb. by rewrite Hb.
  - done.
  - intros e Hin. destruct (He e Hin) as (e' & _ & [(Ha & Hb & Hc) _ (c & Hc1 & Hf & Hs)] & -> & Hk).
    cbn [e_fid e_size e_offset hd h_containerSize h_containerFID].
    destruct (kept_twice (ce_fid e') Hk) as (Hn1 & Hn2 & Hc2 & _). rewrite Forall_forall in Hcs.
    destruct (candidate_log s gs c Hr (Hcs c Hc1)) as [Hlt _]. rewrite <- Hf in Hlt.
    destruct Hk as [r Hrr]. destruct (Inv_backed s _ _ (rd_inv _ _ Hr) (rd_err _ _ Hr) Hrr) as [Hu _].
    split_and!; try done; try lia.
    + intros [E|Hin2]%elem_of_cons; [congruence|]. apply live_table_fids in Hin2. unfold gs2, gs1 in Hin2.
      by rewrite !table_fids_plain in Hin2.
    + intros k ref Hkr Hrf. apply (added_lookup _ _ _ _ _ _ _ H2) in Hkr as [[-> ->]|[Hne Hkr]]; [done|].
      apply (added_lookup _ _ _ _ _ _ _ H1) in Hkr as [[-> ->]|[Hne' Hkr]]; [done|].
      rewrite Hf. apply (candidate_alone s gs c k ref Hr (Hcs c Hc1) Hkr). congruence.
  - unfold gs2. rewrite table_fids_plain, pair_fids_plain, tomb_fids_plain.
    apply (unknown_fids s1); [done|]. apply H2.
  - by rewrite Hid.
  - intros e Hin E. destruct (He e Hin) as (e' & _ & _ & -> & [r Hk]). cbn in E. rewrite E in Hk.
    pose proof (rd_zero _ _ Hr). congruence.
  - exists lc. split; [done|]. intros e Hin. destruct (He e Hin) as (e' & _ & [_ Hby _] & -> & Hk).
    destruct (kept_twice (ce_fid e') Hk) as (_ & _ & _ & E). cbn [e_fid e_size e_offset]. by rewrite E.
Qed.
End table.

(** ** Objects that are stored directly *)
Lemma added_direct s gs fid l s' :
  direct s gs → added s gs fid l s' → direct s' (gs ++ [GPlain fid (Z.of_nat (length l))]).
Proof.
  intros Hd Ha f sz. rewrite live_snoc. cbn [live_step]. unfold drop_key. cbn [key].
  rewrite elem_of_app, list_elem_of_filter, list_elem_of_singleton, (ad_confirmed _ _ _ _ _ Ha).
  intros [[Hne Hin]|[= -> ->]]; [|apply lookup_insert_eq]. rewrite lookup_insert_ne by done. by apply Hd.
Qed.

Lemma live_tombs cs : ∀ gs g,
  g ∈ live (gs ++ tombs cs) ↔ g ∈ live gs ∧ ∀ c, c ∈ cs → key g ≠ tc_fid c.
Proof.
  induction cs as [|c cs IH]; intros gs g; cbn [tombs fmap list_fmap].
  - rewrite app_nil_r. split; [|by intros [? _]]. intros H. split; [done|]. by intros c ?%not_elem_of_nil.
  - rewrite cons_middle, app_assoc. fold (tombs cs). rewrite IH, live_snoc. cbn [live_step]. unfold drop_key.
    rewrite list_elem_of_filter. setoid_rewrite elem_of_cons. split.
    + intros [[? ?] ?]. split; [done|]. intros c' [->|?]; auto.
    + intros [? H]. split; [split; [by apply H; left|done]|]. intros c' ?. apply H. by right.
Qed.

Lemma live_table gs t sz g : g ∈ live (gs ++ [GTable t sz]) ↔ (key g ≠ t ∧ g ∈ live gs) ∨ g = GTable t sz.
Proof.
  rewrite live_snoc. cbn [live_step key]. unfold drop_key.
  by rewrite elem_of_app, list_elem_of_filter, list_elem_of_singleton.
Qed.

(** ** The extents a trim frees *)
Lemma replay_tombs d cs : ∀ st st',
  rest st → Forall group_ok (tombs cs) → foldM (replay_entry d) st (log_of (tombs cs)) = Ok st' →
  ∀ k iv, rs_extents st' !! k = Some iv → (∀ c, c ∈ cs → tc_fid c ≠ k) ∧ rs_extents st !! k = Some iv.
Proof.
  induction cs as [|c cs IH]; intros st st' Hst Hok H k iv Hk.
  { injection H as <-. split; [|done]. by intros c ?%not_elem_of_nil. }
  cbn [tombs fmap list_fmap] in *. apply Forall_cons in Hok as [Hg Hok].
  change (log_of (GTomb (tc_fid c) :: ((λ c, GTomb (tc_fid c)) <$> cs)))
    with (group_entries (GTomb (tc_fid c)) ++ log_of (tombs cs)) in H.
  rewrite foldM_app in H. apply res_bind_Ok in H as (st1 & H1 & H2).
  apply replay_group_inv in H1 as ->; [|done|done].
  destruct (IH (del_fid (tc_fid c) st) st' ltac:(done) Hok H2 k iv Hk) as [Hn Hl].
  cbn [rs_extents del_fid] in Hl. apply lookup_delete_Some in Hl as [Hne Hl]. split; [|done]. intros c' [->|Hc']%elem_of_cons; [done|by apply Hn].
Qed.

Lemma log_of_app gs1 gs2 : log_of (gs1 ++ gs2) = log_of gs1 ++ log_of gs2.
Proof. unfold log_of. by rewrite fmap_app, concat_app. Qed.

Lemma length_log_tombs cs : length (log_of (tombs cs)) = length cs.
Proof.
  induction cs as [|c cs IH]; [done|].
  change (length (log_of (tombs (c :: cs)))) with (S (length (log_of (tombs cs)))). by rewrite IH.
Qed.

(** Different objects have disjoint extents. *)
Lemma extents_apart (m : gmap Z interval) k1 k2 iv1 iv2 :
  disjoint_all (map_to_list m).*2 → m !! k1 = Some iv1 → m !! k2 = Some iv2 → k1 ≠ k2 → overlaps iv1 iv2 = false.
Proof.
  intros Hd H1 H2 Hne. rewrite <- (map_to_list_delete m k1 iv1 H1) in Hd. cbn in Hd. destruct Hd as [Hall _].
  rewrite Forall_forall in Hall. apply Hall. apply list_elem_of_fmap. exists (k2, iv2). split; [done|].
  apply elem_of_map_to_list. by rewrite lookup_delete_ne.
Qed.

(** The slots the object had are no longer taken. *)
Definition freed (s : DeviceState) (c : trimCandidate) : Prop :=
  ∃ iv, extent_of (diskBytes s) (tc_fid c) (tc_size c) = Ok iv ∧ anyOverlap (intervals s) iv = false.

Lemma compacted_frees s gs cs s3 s4 c :
  ready s gs → ready s3 (gs ++ tombs cs) → diskBytes s3 = diskBytes s → compacted s3 (gs ++ tombs cs) s4 →
  c ∈ cs → GPlain (tc_fid c) (tc_size c) ∈ live gs → freed s4 c.
Proof.
  intros Hr Hr3 Hdb [_ (Hdb4 & _) _ _ Hiv _] Hc Hg. rewrite Hdb in *.
  pose proof Hr as [Hi He Hf (st & Hm) Hlog _ _ _]. destruct (ready_live s gs st Hr Hm) as [Hl ->].
  pose proof Hr3 as [_ _ _ (st3 & Hm3) Hlog3 _ _ _]. rewrite Hdb in Hm3.
  pose proof (m_fold _ _ _ _ _ _ _ _ Hm) as Hfold. pose proof (m_fold _ _ _ _ _ _ _ _ Hm3) as Hfold3.
  destruct (replay_live (diskBytes s) _ st3 Hlog3 Hfold3) as [_ ->].
  rewrite log_of_app, foldM_app, Hfold in Hfold3. cbn [mbind res_bind] in Hfold3.
  pose proof (lo_groups _ Hlog3) as Hok. apply Forall_app in Hok as [_ Hok].
  pose proof (replay_tombs _ cs _ _ (rest_state_of _ _) Hok Hfold3) as Htb.
  pose proof (i_disjoint _ Hi) as Hdis. apply disjoint_all_app in Hdis as (Hdis & _ & _).
  pose proof (disjoint_all_submseteq _ _ (m_exts _ _ _ _ _ _ _ _ Hm) Hdis) as Hd2.
  pose proof (state_of_lookup (diskBytes s) (live gs) _ (tc_fid c) (plain_ref (tc_fid c) (tc_size c))
    (li_claims _ _ Hl) Hg (lookup_singleton_eq _ _)) as Href.
  pose proof (replay_fold_ok _ _ _ (index_log_entries_ok _ _ (m_log _ _ _ _ _ _ _ _ Hm)) Hfold) as Hst.
  apply (rs_ref_ok _ _ Hst) in Href as (_ & _ & _ & _ & _ & _ & Hx). destruct (Hx eq_refl) as (_ & iv & Hk & Hext).
  exists iv. rewrite Hdb4. split; [done|]. rewrite Hiv, sort_extents_perm. apply anyOverlap_false, Forall_forall.
  intros iv' ([k x] & -> & Hin)%list_elem_of_fmap. apply elem_of_map_to_list in Hin.
  destruct (Htb _ _ Hin) as [Hne Hk']. cbn. apply (extents_apart _ k (tc_fid c) _ _ Hd2 Hk' Hk).
  intros ->. by apply (Hne c Hc).
Qed.

(** ** After the table is written *)

(** A disk with the same objects. *)
Record kept (s : DeviceState) (s' : DeviceState) (gs' : list group) : Prop := {
  kp_ready : ready s' gs';
  kp_direct : direct s' gs';
  kp_disk : same_disk s s';
  kp_bytes k l : contents s k = Some l → contents s' k = Some l
}.

Lemma kept_then s s1 s2 gs1 gs2 : kept s s1 gs1 → kept s1 s2 gs2 → kept s s2 gs2.
Proof. intros [_ _ Hd Hb] [Hr2 Hdir Hd2 Hb2]. split; eauto using same_disk_trans. Qed.

Lemma kept_refl s gs : ready s gs → direct s gs → kept s s gs.
Proof. by split. Qed.

Lemma added_kept s gs fid l s' :
  direct s gs → added s gs fid l s' → kept s s' (gs ++ [GPlain fid (Z.of_nat (length l))]).
Proof.
  intros Hd Ha. split; [apply Ha|by eapply added_direct|apply Ha|].
  intros k l' Hk. by rewrite (proj2 (added_keeps _ _ _ _ _ k Ha (contents_is_confirmed _ _ _ Hk))).
Qed.

(** The batch and the entries of its table name the same objects. *)
Record listed (gs : list group) (t : Z) (cs : list trimCandidate) (es : list packedTableEntry) : Prop := {
  ls_entry c : c ∈ cs → ∃ e, e ∈ es ∧ e_fid e = tc_fid c;
  ls_cand e : e ∈ es → ∃ c, c ∈ cs ∧ e_fid e = tc_fid c ∧ e_size e = tc_size c;
  ls_nodup : NoDup (tc_fid <$> cs);
  ls_log c : c ∈ cs → tc_fid c ∉ table_fids gs ∧ tc_fid c ∉ pair_fids gs;
  ls_plain c : c ∈ cs → tc_fid c ≠ t ∧ GPlain (tc_fid c) (tc_size c) ∈ live gs
}.

Lemma tc_fid_inj cs c1 c2 : NoDup (tc_fid <$> cs) → c1 ∈ cs → c2 ∈ cs → tc_fid c1 = tc_fid c2 → c1 = c2.
Proof.
  intros Hn (i & Hi)%list_elem_of_lookup (j & Hj)%list_elem_of_lookup E.
  assert (i = j) as ->; [|congruence]. eapply NoDup_lookup; [exact Hn|by rewrite list_lookup_fmap, Hi|].
  by rewrite list_lookup_fmap, Hj, E.
Qed.

(** The registered objects are packed in the way the check wants them. *)
Lemma listed_packed gs t cs es s hd size c p :
  listed gs t cs es → c ∈ cs → (confirmed s, packed s) = add_packed hd t size p es → packed_as s c.
Proof.
  intros Hls Hc E. destruct (ls_entry _ _ _ _ Hls c Hc) as (e0 & He0 & Hf0).
  destruct (add_packed_reg hd t size es p (tc_fid c)) as (e & He & Hf & H1 & H2); [by exists e0|].
  destruct (ls_cand _ _ _ _ Hls e He) as (c' & Hc' & Hf' & Hs').
  assert (c' = c) as -> by (eapply tc_fid_inj; [apply Hls|done|done|congruence]).
  rewrite <- E in H1, H2. cbn [fst snd] in *. rewrite Hs' in *. by repeat eexists.
Qed.

(** A disk whose batch was packed and whose originals have tombstones, but not yet compacted. *)
Record packed_up (s : DeviceState) (gs : list group) (t : Z) (cs : list trimCandidate)
    (s2 s3 : DeviceState) (gs2 : list group) : Prop := {
  pu_log : length (log_of gs2) = (length (log_of gs) + 2)%nat;
  pu_packed : ready s2 gs2 ∧ ∀ c, c ∈ cs → packed_as s2 c ∧ GPlain (tc_fid c) (tc_size c) ∈ live gs2;
  pu_refs : diskBytes s3 = diskBytes s2 ∧ confirmed s3 = confirmed s2 ∧ packed s3 = packed s2;
  pu_kept : kept s s3 (gs2 ++ tombs cs)
}.

Lemma packed_direct s gs t size hd es cs s2 :
  direct s gs → listed gs t cs es →
  confirmed s2 = (add_packed hd t size (confirmed s, packed s) es).1 →
  direct s2 ((gs ++ [GTable t size]) ++ tombs cs).
Proof.
  intros Hdir Hls E f sz [Hg Hnc]%live_tombs. apply live_table in Hg as [[Hne Hg]|]; [|done]. apply Hdir in Hg.
  rewrite E, add_packed_unreg; [done|]. apply reg_false. intros e He Ef.
  destruct (ls_cand _ _ _ _ Hls e He) as (c & Hc & Ef' & _). apply (Hnc c Hc). cbn. congruence.
Qed.

(** From the table to the tombstones, without the fail points. *)
Lemma pack_steps s gs cs t hd es lt :
  ready s gs → direct s gs → packable s gs t (Z.of_nat (length lt)) hd es → contents s t = Some lt →
  listed gs t cs es → Z.of_nat (length (log_of gs) + 2 + length cs) < chunk_entries →
  ∃ s1 s2 s2' s3 gs2, appendPackedAnchorLocked t (Z.of_nat (length lt)) s = (Ok tt, s1) ∧
    loadPackedTablesLocked [t] s1 = (Ok tt, s2) ∧ verifyPackedCandidatesLocked cs s2 = (Ok tt, s2) ∧
    append_tombstones cs s2 = (Ok tt, s2') ∧
    fileM (mwrap "sync tombstones" must_sync) s2' = (Ok tt, s3) ∧ packed_up s gs t cs s2 s3 gs2.
Proof.
  intros Hr Hdir Hpk Hlt Hls Hlen. assert (Hcap : chunk_entries ≤ index_capacity) by done.
  destruct (anchor_load s gs t _ hd es lt Hr Hpk) as (s1 & s2 & H1 & H2 & Hr2 & Hsd2 & Hiv2 & Hmaps & Hc2);
    [unfold room; lia|done|done|].
  assert (Hpa : ∀ c, c ∈ cs → packed_as s2 c) by (intros c Hc; by eapply listed_packed).
  set (gs2 := gs ++ [GTable t (Z.of_nat (length lt))]) in *.
  assert (Hlen2 : length (log_of gs2) = (length (log_of gs) + 2)%nat)
    by (unfold gs2; rewrite log_of_snoc, length_app; done).
  destruct (tombstones_ready cs s2 gs2 Hr2) as (s3 & H3 & Hr3 & Hsd3 & Hcf3 & Hpk3 & Hiv3 & Hc3).
  { unfold room. lia. }
  { intros c Hc. destruct (Hpa c Hc) as (cf & csz & off & t' & tsz & _ & Hrf). split; [by eexists|].
    destruct (ls_log _ _ _ _ Hls c Hc). destruct (ls_plain _ _ _ _ Hls c Hc) as [Hne _].
    unfold gs2, table_fids, pair_fids in *. rewrite omap_app, bind_app. cbn. rewrite app_nil_r. set_solver. }
  destruct (ready_file s3 (gs2 ++ tombs cs) (clean (ds_file s3)) Hr3) as [Hr3' Hc3']; [by split_and!|done|].
  exists s1, s2, s3, (set_file s3 (clean (ds_file s3))), gs2. do 2 (split; [done|]).
  split; [apply verify_ok; [apply Hr2..|by apply Forall_forall]|]. split; [done|].
  split; [unfold fileM; by rewrite sync_clean by apply Hr3|]. split; [done| | |split].
  - split; [done|]. intros c Hc. split; [by apply Hpa|]. destruct (ls_plain _ _ _ _ Hls c Hc).
    apply live_table. by left.
  - split; [by destruct Hsd3 as (? & _)|done].
  - done.
  - intros f sz. change (confirmed (set_file s3 _)) with (confirmed s3). rewrite Hcf3.
    eapply packed_direct; [done|done|by rewrite <- Hmaps].
  - by eapply same_disk_trans.
  - intros k l Hk. by rewrite Hc3', Hc3, Hc2.
Qed.

(** What the compaction makes of it. *)
Lemma packed_up_compact s gs t cs s2 s3 gs2 create :
  packed_up s gs t cs s2 s3 gs2 → Z.of_nat (length (log_of gs) + 2 + length cs) < chunk_entries →
  create = Ok new_file ∨ (∃ e, create = Err e) →
  match compactIndexLocked create s3 with
  | (Err _, s4) => ∃ gs4, kept s s4 gs4
  | (Ok _, s4) => (∃ gs4, kept s s4 gs4) ∧ ∀ c, c ∈ cs → packed_as s4 c ∧ freed s4 c
  end.
Proof.
  intros [Hlen2 [Hr2 Hpa] (Hdb & Hcf & Hpk) Hk3] Hlen Hcreate. pose proof Hk3 as [Hr3 Hdir3 _ _].
  pose proof (compact_index_outcome s3 (gs2 ++ tombs cs) create Hr3) as Hcp.
  specialize (Hcp ltac:(unfold short_log; rewrite log_of_app, length_app, length_log_tombs; lia) Hcreate).
  destruct (compactIndexLocked create s3) as [[[]|e] s4].
  - pose proof Hcp as [Hr4 Hsd4 Hcf4 Hpk4 Hiv4 Hc4]. split.
    + exists (live (gs2 ++ tombs cs)). eapply kept_then; [exact Hk3|]. split; [done| |done|].
      * intros f sz Hg%elem_of_live. rewrite Hcf4. by apply Hdir3.
      * intros k l Hk. by rewrite Hc4.
    + intros c Hc. destruct (Hpa c Hc) as [Hp Hg]. split.
      * unfold packed_as. by rewrite Hcf4, Hpk4, Hcf, Hpk.
      * by eapply (compacted_frees s2 gs2 cs s3 s4 c Hr2 Hr3).
  - destruct Hcp as (Hr4 & Hsd4 & Hcf4 & Hpk4 & Hc4). exists (gs2 ++ tombs cs).
    eapply kept_then; [exact Hk3|]. split; [done| |done|].
    + intros f sz Hg. rewrite Hcf4. by apply Hdir3.
    + intros k l Hk. by rewrite Hc4.
Qed.

(** ** A batch *)
Lemma batch_stored s gs cs :
  ready s gs → direct s gs → batch_ok s gs cs → Forall (stored s) cs.
Proof.
  intros Hr Hdir [Hc Hs _ _]. rewrite Forall_forall in *. intros c Hin.
  pose proof (Hdir _ _ (cd_group _ _ _ (Hc c Hin))) as Href.
  pose proof (length_ref_bytes s _ _ (rd_inv _ _ Hr) (rd_err _ _ Hr) Href) as Hlen. cbn [r_size plain_ref] in Hlen.
  eexists. split; [unfold contents; by rewrite Href|]. split; [done|]. by apply Hs.
Qed.

Lemma length_live_log gs : (length gs ≤ length (log_of gs))%nat.
Proof.
  induction gs as [|g gs IH]; [done|]. change (log_of (g :: gs)) with (group_entries g ++ log_of gs).
  rewrite length_app. destruct g; cbn [group_entries length]; lia.
Qed.

Lemma batch_length s gs cs : batch_ok s gs cs → (length cs ≤ length (log_of gs))%nat.
Proof.
  intros [Hc _ Hn _]. rewrite Forall_forall in Hc.
  assert (Hsub : tc_fid <$> cs ⊆+ key <$> live gs).
  { apply NoDup_submseteq; [done|]. intros f (c & -> & Hin)%list_elem_of_fmap. apply list_elem_of_fmap.
    exists (GPlain (tc_fid c) (tc_size c)). split; [done|]. by apply (cd_group _ _ _ (Hc c Hin)). }
  apply submseteq_length in Hsub. rewrite !length_fmap in Hsub.
  pose proof (length_live_log (live gs)). pose proof (length_log_live gs). lia.
Qed.

Lemma live_plain gs f sz g : key g ≠ f → g ∈ live gs → g ∈ live (gs ++ [GPlain f sz]).
Proof.
  intros Hne Hg. rewrite live_snoc. cbn [live_step key]. unfold drop_key. apply elem_of_app. left.
  by apply list_elem_of_filter.
Qed.

Lemma batch_listed s s1 s2 gs cs es cf t lc lt :
  ready s gs → batch_ok s gs cs → packs s cs lc es → added s gs cf lc s1 →
  added s1 (gs ++ [GPlain cf (Z.of_nat (length lc))]) t lt s2 →
  listed ((gs ++ [GPlain cf (Z.of_nat (length lc))]) ++ [GPlain t (Z.of_nat (length lt))]) t cs (table_entries es).
Proof.
  intros Hr [Hc _ Hn _] [Hf Hes] H1 H2. rewrite Forall_forall in Hc. rewrite Forall_forall in Hes.
  assert (Hreg : ∀ c, c ∈ cs → tc_fid c ≠ cf ∧ tc_fid c ≠ t).
  { intros c Hin. assert (Hk : is_Some (confirmed s !! tc_fid c)).
    { apply (rd_known _ _ Hr (GPlain (tc_fid c) (tc_size c))); [|by left]. apply elem_of_live, (Hc c Hin). }
    split; [by eapply added_ne|]. eapply added_ne; [exact H2|]. by rewrite (proj1 (added_keeps _ _ _ _ _ _ H1 Hk)). }
  split; [| |done| |].
  - intros c Hin. assert (Hin' : tc_fid c ∈ ce_fid <$> es) by (rewrite Hf; by apply list_elem_of_fmap_2).
    apply list_elem_of_fmap in Hin' as (e & -> & He). eexists. split; [apply list_elem_of_fmap; by exists e|done].
  - intros e (e' & -> & He')%list_elem_of_fmap. destruct (Hes e' He') as [_ _ (c & H)]. by exists c.
  - intros c Hin. rewrite !table_fids_plain, !pair_fids_plain. by eapply candidate_log; [|apply Hc].
  - intros c Hin. destruct (Hreg c Hin). split; [done|]. do 2 (apply live_plain; [done|]).
    apply (cd_group _ _ _ (Hc c Hin)).
Qed.

Section run.
Context (Hash : list byte → Z) (HashString : string → Z) (cfg : Config).
Context (HH : ∀ l, is_u64 (Hash l)).

(** The container of a batch, without the fail point. *)
Definition write_batch (env : trim_env) (cs : list trimCandidate) :
    M (DeviceState * file) (list containerEntry * (Z * Z)) :=
  entries ← buildContainerFileLocked cs;
  r ← writeContainerObjectNoJumpLocked Hash (te_open env) (te_reopen env);
  mret (entries, r).

(** Neither the container nor the table that a trim of the batch writes gets the fid 0. *)
Definition nonzero_batch (env : trim_env) (s : DeviceState) (cs : list trimCandidate) : Prop :=
  ∀ es cf csz s1 tmp, write_batch env cs (s, new_file) = (Ok (es, (cf, csz)), (s1, tmp)) →
    cf ≠ 0 ∧ ∀ t tsz s2,
      writePackedTableObjectNoJumpLocked Hash
        (mkTableHeader (diskID s1) cf csz (Z.of_nat (length es)) 0) (table_entries es) s1 = (Ok (t, tsz), s2) → t ≠ 0.

Definition nonzero_fids (env : trim_env) (s : DeviceState) : Prop :=
  ∀ cs threshold small tot s1,
    collectTrimCandidatesLocked HashString cfg s = (Ok (cs, threshold, small, tot), s1) → nonzero_batch env s1 cs.

(** A hash that is never 0 gives no fid 0. *)
Lemma nonzero_fids_hash env s : (∀ l, Hash l ≠ 0) → nonzero_fids env s.
Proof using.
  intros Hnz cs threshold small tot s1 _ es cf csz s2 tmp E. unfold write_batch in E.
  apply M_bind_Ok in E as (es' & st1 & _ & E). apply M_bind_Ok in E as ([cf' csz'] & st2 & Ew & E).
  injection E as <- <- <- ->. split.
  - destruct (write_container_hash Hash (te_open env) (te_reopen env) (seqZ 0 256) st1 _ _ _ Ew) as (l & ->).
    apply Hnz.
  - intros t tsz s3 Et. destruct (write_table_hash Hash _ _ (seqZ 0 256) s2 t tsz s3 Et) as (l & ->). apply Hnz.
Qed.

Lemma container_phase s gs cs env failPoint :
  ready s gs → room gs 1 → Forall (stored s) cs → total cs ≤ 2 ^ 48 → nonzero_batch env s cs →
  match (entries ← buildContainerFileLocked cs;
         mlift (failpoint failPoint "after-container-build");;
         r ← mwrap "write container object"
               (writeContainerObjectNoJumpLocked Hash (te_open env) (te_reopen env));
         mret (entries, r)) (s, new_file) with
  | (Err _, (s', _)) => s' = s
  | (Ok (es, (fid, size)), (s', _)) => ∃ lc, size = Z.of_nat (length lc) ∧ added s gs fid lc s' ∧ packs s cs lc es ∧
      ∀ t tsz s2, writePackedTableObjectNoJumpLocked Hash
        (mkTableHeader (diskID s') fid size (Z.of_nat (length es)) 0) (table_entries es) s' = (Ok (t, tsz), s2) → t ≠ 0
  end.
Proof using HH.
  intros Hr Hroom Hcs Htot Hnz. assert (Hh : holds new_file []) by by constructor.
  destruct (build_container_ok s gs cs new_file [] Hr Hcs Hh) as (es & tmp & body & Hb & Hh' & Hlb & Hf & Hes);
    [cbn; lia|].
  unfold nonzero_batch, write_batch in Hnz.
  unfold buildContainerFileLocked in *. unfold mbind at 1, M_bind at 1 in Hnz. unfold mbind at 1, M_bind at 1.
  change (Z.of_nat (length [])) with 0 in Hb. rewrite Hb in *.
  unfold mbind at 1, M_bind at 1, mlift at 1, failpoint. destruct (bool_decide _); [done|].
  unfold mbind at 1, M_bind at 1, mwrap at 1. unfold writeContainerObjectNoJumpLocked in *.
  unfold mbind at 1, M_bind at 1 in Hnz. pose proof (write_container_outcome Hash HH s gs (te_open env) (te_reopen env) (seqZ 0 256) tmp body
    Hr Hroom Hh') as H. rewrite length_seqZ in H. specialize (H ltac:(lia)).
  destruct (write_container _ _ _ _ _) as [[[fid size]|e] [s' t']]; [|done]. cbn [wrap_err].
  destruct H as (x & -> & Had). destruct (Hnz _ _ _ _ _ eq_refl) as [Hcf Ht].
  exists (body ++ x). split; [done|]. split; [by apply Had|]. split; [|exact Ht]. split; [done|].
  eapply Forall_impl; [exact Hes|]. intros e He. by apply entry_ok_app.
Qed.

(** The temporary files of the environment start empty, or cannot be created. *)
Definition temp_ok (env : trim_env) : Prop :=
  (te_create env = Ok new_file ∨ ∃ e, te_create env = Err e) ∧
  (te_compact env = Ok new_file ∨ ∃ e, te_compact env = Err e).

(** Few enough index entries that one chunk of [scanIndexStream] holds them all, to the end. *)
Definition trim_room (gs : list group) : Prop := 2 * Z.of_nat (length (log_of gs)) + 4 < chunk_entries.

(** What a trim leaves: the same objects, and on success the batch packed and its old slots free. *)
Definition trimmed (s : DeviceState) (cs : list trimCandidate) (r : res unit) (s' : DeviceState) (t' : trimStatus) : Prop :=
  (∃ gs', kept s s' gs') ∧
  (is_ok r = true → t_LastPackedFiles t' = Z.of_nat (length cs) ∧ ∀ c, c ∈ cs → packed_as s' c ∧ freed s' c).

Lemma trimmed_stop s cs e s' t' gs' : kept s s' gs' → trimmed s cs (Err e) s' t'.
Proof. by split; [eexists|]. Qed.

(** The steps after the container and the table are on the device. *)
Lemma anchor_phase s gs cs t hd es lt env failPoint :
  ready s gs → direct s gs → packable s gs t (Z.of_nat (length lt)) hd es → contents s t = Some lt →
  listed gs t cs es → Z.of_nat (length (log_of gs) + 2 + length cs) < chunk_entries → temp_ok env →
  failPoint ≠ "after-anchor-append"%string →
  match (mlift (failpoint failPoint "after-table-write");;
         mwrap "append packed anchor" (appendPackedAnchorLocked t (Z.of_nat (length lt)));;
         mlift (failpoint failPoint "after-anchor-append");;
         mwrap "expand packed table" (loadPackedTablesLocked [t]);;
         mwrap "verify packed candidates" (verifyPackedCandidatesLocked cs);;
         append_tombstones cs;;
         fileM (mwrap "sync tombstones" must_sync);;
         mlift (failpoint failPoint "after-delete");;
         mwrap "compact index" (compactIndexLocked (te_compact env))) s with
  | (Err _, s') => ∃ gs', kept s s' gs'
  | (Ok _, s') => (∃ gs', kept s s' gs') ∧ ∀ c, c ∈ cs → packed_as s' c ∧ freed s' c
  end.
Proof using.
  intros Hr Hdir Hpk Hlt Hls Hlen [_ Hcreate] Hfp.
  destruct (pack_steps s gs cs t hd es lt Hr Hdir Hpk Hlt Hls Hlen)
    as (s1 & s2 & s2' & s3 & gs2 & H1 & H2 & H3 & H4 & H5 & Hup).
  pose proof (packed_up_compact s gs t cs s2 s3 gs2 (te_compact env) Hup Hlen Hcreate) as Hcp.
  unfold mbind at 1, M_bind at 1, mlift at 1, failpoint at 1. destruct (bool_decide _).
  { exists gs. by apply kept_refl. }
  unfold mbind at 1, M_bind at 1, mwrap at 1. rewrite H1. cbn [wrap_err].
  unfold mbind at 1, M_bind at 1, mlift at 1, failpoint at 1. rewrite bool_decide_eq_false_2 by done.
  unfold mbind at 1, M_bind at 1, mwrap at 1. rewrite H2. cbn [wrap_err].
  unfold mbind at 1, M_bind at 1, mwrap at 1. rewrite H3. cbn [wrap_err].
  unfold mbind at 1, M_bind at 1. rewrite H4. unfold mbind at 1, M_bind at 1. rewrite H5.
  unfold mbind at 1, M_bind at 1, mlift at 1, failpoint at 1. destruct (bool_decide _).
  { eexists. apply (pu_kept _ _ _ _ _ _ _ Hup). }
  unfold mwrap. destruct (compactIndexLocked _ s3) as [[[]|e] s4]; done.
Qed.

(** The table, once the container is written. *)
Lemma table_phase s gs cs s1 cf lc es failPoint :
  ready s gs → batch_ok s gs cs → packs s cs lc es → added s gs cf lc s1 → trim_room gs →
  Z.of_nat (length lc) < 2 ^ 63 →
  let hd n := mkTableHeader (diskID s) cf (Z.of_nat (length lc)) (Z.of_nat (length es)) n in
  (∀ t tsz s2, writePackedTableObjectNoJumpLocked Hash (hd 0) (table_entries es) s1 = (Ok (t, tsz), s2) → t ≠ 0) →
  match (mlift (failpoint failPoint "after-container-write");;
         mwrap "write packed table object"
           (writePackedTableObjectNoJumpLocked Hash (hd 0) (table_entries es))) s1 with
  | (Err _, s2) => s2 = s1
  | (Ok (t, size), s2) => ∃ n lt, lt = encodePackedTable (hd n) (table_entries es) ∧ size = Z.of_nat (length lt) ∧
      added s1 (gs ++ [GPlain cf (Z.of_nat (length lc))]) t lt s2 ∧
      packable s2 ((gs ++ [GPlain cf (Z.of_nat (length lc))]) ++ [GPlain t (Z.of_nat (length lt))]) t size (hd n)
        (table_entries es)
  end.
Proof using HH.
  intros Hr Hb Hpk H1 Hroom Hlc hd Hnz. unfold trim_room in Hroom.
  unfold mbind at 1, M_bind at 1, mlift at 1, failpoint at 1. destruct (bool_decide _); [done|].
  pose proof (batch_length s gs cs Hb) as Hlen. assert (Hlen' : length es = length cs).
  { destruct Hpk as [Hf _]. apply (f_equal length) in Hf. by rewrite !length_fmap in Hf. }
  assert (Hcap : chunk_entries ≤ index_capacity) by done. unfold chunk_entries in *.
  pose proof (write_table_outcome Hash HH s1 _ (hd 0) (table_entries es) (seqZ 0 256) (ad_ready _ _ _ _ _ H1)) as H.
  specialize (H ltac:(unfold room; rewrite log_of_snoc, length_app; cbn [group_entries length]; lia)).
  specialize (H ltac:(unfold table_entries; rewrite length_fmap; lia)).
  unfold mwrap, writePackedTableObjectNoJumpLocked in *.
  destruct (write_table _ _ _ _ s1) as [[[t size]|e] s2]; [|done]. cbn [wrap_err].
  destruct H as (n & Hn%elem_of_seqZ & Hsize & H2). specialize (H2 (Hnz _ _ _ eq_refl)).
  exists n, (encodePackedTable (hd n) (table_entries es)). split; [done|]. split; [done|]. split; [done|].
  rewrite Hsize. eapply table_packable; [done|apply Hb|done|done|done|lia|unfold maxAlloc; lia|done].
Qed.

Lemma trim_steps_outcome s gs cs env failPoint t :
  ready s gs → direct s gs → batch_ok s gs cs → trim_room gs → temp_ok env → nonzero_batch env s cs →
  failPoint ≠ "after-anchor-append"%string →
  let '(r, (s', t')) := trim_steps Hash cfg env failPoint cs (s, t) in trimmed s cs r s' t'.
Proof using HH.
  intros Hr Hdir Hb Hroom Htemp Hnz Hfp. pose proof (kept_refl s gs Hr Hdir) as Hk0.
  pose proof (batch_length s gs cs Hb) as Hbl. assert (Hcap : chunk_entries ≤ index_capacity) by done.
  unfold trim_steps. destruct (te_mkdir env); [by eapply trimmed_stop|].
  destruct (BackupDeviceIndexToPath _ _ _ _ _) as [[e|] out]; [by eapply trimmed_stop|]. cbn [fst].
  unfold mbind at 1, M_bind at 1, mlift at 1 2, failpoint at 1. destruct (bool_decide _); [by eapply trimmed_stop|].
  pose proof Htemp as [[->|(e & ->)] _]; [|by eapply trimmed_stop].
  pose proof (container_phase s gs cs env failPoint Hr ltac:(unfold room, trim_room in *; lia)
    (batch_stored s gs cs Hr Hdir Hb) (bt_total _ _ _ Hb) Hnz) as Hc.
  match type of Hc with match ?x with _ => _ end => destruct x as [[[es [cf csz]]|e] [s1 tmp]] end;
    [|subst s1; by eapply trimmed_stop].
  destruct Hc as (lc & -> & H1 & Hpk & Htnz). pose proof (added_kept s gs cf lc s1 Hdir H1) as Hk1.
  assert (Hlc : Z.of_nat (length lc) < 2 ^ 63).
  { assert (Hx : confirmed s1 !! cf = Some (plain_ref cf (Z.of_nat (length lc))))
      by (rewrite (ad_confirmed _ _ _ _ _ H1); apply lookup_insert_eq).
    pose proof (ad_ready _ _ _ _ _ H1) as Hr1.
    destruct (Inv_backed s1 _ _ (rd_inv _ _ Hr1) (rd_err _ _ Hr1) Hx) as [_ Hbk].
    pose proof (rb_stored _ _ _ Hbk) as Hst. cbn in Hst. lia. }
  assert (Hid : diskID s1 = diskID s) by apply (ad_disk _ _ _ _ _ H1). rewrite Hid in *.
  pose proof (table_phase s gs cs s1 cf lc es failPoint Hr Hb Hpk H1 Hroom Hlc Htnz) as Ht.
  cbv zeta in Ht. match type of Ht with match ?x with _ => _ end => destruct x as [[[tf tsz]|e] s2] end;
    [|subst s2; by eapply trimmed_stop].
  destruct Ht as (n & lt & _ & -> & H2 & Hpa).
  pose proof (added_kept s1 _ tf lt s2 (kp_direct _ _ _ Hk1) H2) as Hk2.
  pose proof (kept_then _ _ _ _ _ Hk1 Hk2) as Hk.
  pose proof (anchor_phase s2 _ cs tf _ _ lt env failPoint (kp_ready _ _ _ Hk2) (kp_direct _ _ _ Hk2) Hpa
    (ad_bytes _ _ _ _ _ H2) (batch_listed s s1 s2 gs cs es cf tf lc lt Hr Hb Hpk H1 H2)) as Ha.
  specialize (Ha ltac:(rewrite !log_of_snoc, !length_app; cbn [group_entries length]; unfold trim_room in *; lia) Htemp Hfp).
  match type of Ha with match ?x with _ => _ end => destruct x as [[[]|e] s4] end.
  - destruct Ha as [[gs4 Hk4] Hcs]. split; [exists gs4; by eapply kept_then|]. intros _. split; [done|exact Hcs].
  - destruct Ha as [gs4 Hk4]. eapply trimmed_stop, kept_then; [exact Hk|exact Hk4].
Qed.
End run.

(** ** The job *)

(** A trim that ran packed a batch of objects that were stored directly. *)
Definition packed_batch (s s' : DeviceState) (t' : trimStatus) : Prop :=
  ∃ cs, cs ≠ [] ∧ t_LastPackedFiles t' = Z.of_nat (length cs) ∧ NoDup (tc_fid <$> cs) ∧
    ∀ c, c ∈ cs → stored s c ∧ packed_as s' c ∧ freed s' c.

Lemma trim_outcome Hash HashString cfg env failPoint path s gs t :
  (∀ l, is_u64 (Hash l)) → ready s gs → direct s gs → trim_room gs → temp_ok env →
  nonzero_fids Hash HashString cfg env s → failPoint ≠ "after-anchor-append"%string →
  let '(r, (s', t')) := maybeTrim Hash HashString cfg env failPoint path (s, t) in
  (∃ gs', kept s s' gs') ∧ (is_ok r = true → t_LastTrigger t' = true → packed_batch s s' t').
Proof.
  intros HH Hr Hdir Hroom Htemp Hnz Hfp. pose proof (kept_refl s gs Hr Hdir) as Hk0. unfold maybeTrim.
  unfold nonzero_fids in Hnz.
  pose proof (collect_outcome HashString cfg s gs Hr ltac:(unfold short_log, trim_room in *; lia)) as Hc.
  destruct (collectTrimCandidatesLocked HashString cfg s) as [[[[[cs threshold] small] tot]|e] s1].
  2:{ subst s1. split; [by eexists|done]. }
  destruct Hc as [-> Hb]. destruct (bool_decide (cs = []) || _) eqn:Ecs; [by split; [eexists|]|].
  destruct (negb _); [by split; [eexists|]|]. set (t1 := set_counts _ _ _ _).
  pose proof (trim_steps_outcome Hash cfg HH s gs cs env failPoint t1 Hr Hdir Hb Hroom Htemp (Hnz _ _ _ _ _ eq_refl) Hfp) as H.
  destruct (trim_steps _ _ _ _ _ _) as [r [s' t']]. destruct H as [Hk Hok]. split; [done|].
  intros Hr' _. destruct (Hok Hr') as [Hn Hcs]. destruct r as [[]|]; [|done].
  apply orb_false_iff in Ecs as [Ecs _]. apply bool_decide_eq_false in Ecs.
  exists cs. split; [done|]. split; [done|]. split; [apply Hb|]. intros c Hc. split; [|by apply Hcs].
  pose proof (batch_stored s gs cs Hr Hdir Hb) as Hst. rewrite Forall_forall in Hst. by apply Hst.
Qed.
