(* ===== verification/TrimDisk.v ===== *)
(** * Puts and trims of one disk

    Trims run under the lock of the disk, between the steps of puts that may be in flight.  Every step
    of a put keeps a working disk [ready], and so does a trim; hence in every history of the two no
    object is lost or changed. *)

From S2P Require Import Prelude Machine Loop Float Device Layout IndexScan PackedTable Interval.
From S2P Require Import Replay DirectIO DeviceState DeviceInv DeviceOps DiskStore Fragmentation Chd Config.
From S2P Require Import Compact CompactRun Backup Trim TrimIndex TrimWrite TrimStore TrimPack TrimCompact.
From S2P Require Import TrimCollect TrimRun.
From Stdlib Require Import Strings.Byte.

(** ** The steps of a put *)

(** The group a commit appends. *)
Definition put_group (fid size aliasFor : Z) : group :=
  if aliasFor =? 0 then GPlain fid size else GAlias aliasFor aliasJumpCode fid size.

Lemma put_group_entries fid size aliasFor :
  group_entries (put_group fid size aliasFor) = new_entries fid size aliasFor.
Proof. unfold put_group, new_entries. by destruct (aliasFor =? 0). Qed.

(** A commit on a working device either changes nothing or appends its group. *)
Lemma commit_appends s gs pw aliasFor :
  ready s gs → prepared s pw → is_u64 aliasFor →
  match Commit pw aliasFor s with
  | (Err _, s') => s' = s
  | (Ok _, s') => f_faults (ds_file s') = [] ∧ ∃ st',
      mirrors (diskBytes s) (ds_file s') (confirmed s') (packed s') (intervals s') (indexEnd s')
        (log_of (gs ++ [put_group (pw_fid pw) (pw_size pw) aliasFor])) st'
  end.
Proof.
  intros Hr Hpw Hal. pose proof Hr as [Hi He Hf (st & Hm) _ _ _ _].
  pose proof (ready_end _ _ Hr) as (Hend & Hcap & Hend0 & Hd & HdG & Hsz).
  pose proof (pp_size _ _ Hpw) as Hps. unfold Commit. rewrite He.
  destruct (_ || _) eqn:E1; [done|]. destruct (bool_decide _ || _) eqn:E2; [done|].
  destruct (commit_entry _ _ _) as [entry|e] eqn:Ee; [|done]. apply commit_entry_Ok in Ee as ->.
  set (new := new_entries (pw_fid pw) (pw_size pw) aliasFor) in *.
  assert (Hlen : Z.of_nat (length (encode_entries new)) = 16 * Z.of_nat (length new))
    by (rewrite length_encode_entries; lia).
  assert (Hnlen : 1 ≤ Z.of_nat (length new) ≤ 2)
    by (subst new; unfold new_entries; destruct (aliasFor =? 0); cbn; lia).
  rewrite Hlen, u64_small by llia.
  destruct (Z.ltb_spec GridStart (indexEnd s + 16 * Z.of_nat (length new))) as [|Hfit]; [done|].
  pose proof (must_sync_spec (ds_file s)) as Hsy. destruct (must_sync (ds_file s)) as [r1 f1].
  destruct Hsy as (Hd1 & Hsz1 & Hg1 & _ & Hsf). destruct (Hsf Hf) as [Hr1 Hf1]. destruct r1 as [[]|]; [|done].
  pose proof (write_index_spec (buf_of (encode_entries new)) (indexEnd s) f1 ltac:(llia)
    ltac:(cbn; lia) ltac:(cbn; llia) ltac:(llia)) as Hw. cbn [blen buf_of] in Hw. rewrite Hlen in Hw.
  destruct (write_index (buf_of _) _ f1) as [r2 f2]. destruct Hw as (Ht2 & Hok & Hno).
  specialize (Hno Hf1). destruct r2 as [[]|]; [|done]. destruct (Hok eq_refl) as [Hfl _].
  cbn [ds_file confirmed packed intervals indexEnd set_extents set_indexEnd set_confirmed set_file].
  split; [by apply (filled_faults _ _ _ _ _ Hfl)|].
  apply orb_false_iff in E2 as [E2 E3]. apply bool_decide_eq_false, eq_None_not_Some in E2.
  assert (Hco : commit_ok (diskBytes s) (pw_fid pw) (pw_size pw) aliasFor (pw_iv pw) (confirmed s)).
  { destruct Hpw. constructor; try done; [unfold IndexPackedSentinel; lia|].
    intros Hne. rewrite (proj2 (Z.eqb_neq aliasFor 0)) in E1, E3 by done.
    cbn [negb andb] in E1, E3. apply bool_decide_eq_false, eq_None_not_Some in E3.
    split; [lia|]. split; [lia|done]. }
  destruct (mirrors_append (diskBytes s) (ds_file s) f2 (confirmed s) (packed s) (intervals s)
    (indexEnd s) (log_of gs) st (pw_fid pw) (pw_size pw) aliasFor (pw_iv pw) (disk_fits_ok _ (i_disk _ Hi)) Hm Hco)
    as (st' & Hm').
  { fold new. llia. }
  { rewrite (touched_size _ _ _ _ Ht2). congruence. }
  { rewrite (touched_grow _ _ _ _ Ht2). congruence. }
  { intros a Ha. fold new. rewrite (filled_data _ _ _ _ _ Hfl), Hd1. unfold upd.
    cbn [blen buf_of]. by rewrite Hlen. }
  { intros a (iv & Hiv & Ha). rewrite (touched_data _ _ _ _ Ht2); [apply Hd1|]. right.
    pose proof (interval_addr s iv a Hi Hiv Ha). lia. }
  rewrite log_of_snoc, put_group_entries. fold new in Hm' |- *. exists st'.
  assert (Econf : (if negb (aliasFor =? 0)
      then <[aliasFor := alias_ref (pw_fid pw) (pw_size pw)]>
             (<[pw_fid pw := plain_ref (pw_fid pw) (pw_size pw)]> (confirmed s))
      else <[pw_fid pw := plain_ref (pw_fid pw) (pw_size pw)]> (confirmed s)) =
    new_refs (pw_fid pw) (pw_size pw) aliasFor ∪ confirmed s).
  { unfold new_refs. destruct (aliasFor =? 0); cbn [negb].
    - by rewrite insert_union_singleton_l.
    - by rewrite <- insert_union_l, <- insert_union_singleton_l. }
  by rewrite Econf.
Qed.

Lemma put_group_ok s fid size aliasFor gs :
  ready s gs → is_u64 fid → is_u64 aliasFor → 0 < size < IndexPackedSentinel → confirmed s !! fid = None →
  (aliasFor ≠ 0 → aliasFor ≠ fid ∧ 2 ≤ size ∧ confirmed s !! aliasFor = None) →
  log_ok (gs ++ [put_group fid size aliasFor]).
Proof.
  intros Hr Hf Ha Hs Hn Hp. apply log_ok_add; [apply Hr| |]; unfold put_group;
    destruct (Z.eqb_spec aliasFor 0) as [|Hne]; try done.
  - destruct (Hp Hne) as (? & ? & _). unfold group_ok, aliasJumpCode. split_and!; try done; lia.
  - destruct (Hp Hne) as (_ & _ & Hna). intros k Hk.
    destruct (unknown_fids s gs fid Hr Hn) as (? & ? & ?), (unknown_fids s gs aliasFor Hr Hna) as (? & ? & ?).
    apply elem_of_cons in Hk as [->|Hk]; [done|]. apply list_elem_of_singleton in Hk as ->. done.
Qed.

Lemma new_refs_old fid size aliasFor refs k :
  refs !! fid = None → (aliasFor ≠ 0 → refs !! aliasFor = None) → is_Some (refs !! k) →
  (new_refs fid size aliasFor ∪ refs) !! k = refs !! k.
Proof.
  intros Hn Hp [r Hr]. apply lookup_union_r. rewrite new_refs_lookup.
  rewrite decide_False by (intros [-> Hne]; specialize (Hp Hne); congruence).
  by rewrite decide_False by (intros ->; congruence).
Qed.

(** The disk is still ready, and nothing it stored is lost. *)
Definition safe (s s' : DeviceState) : Prop :=
  (∃ gs', ready s' gs' ∧ direct s' gs') ∧ ∀ k l, contents s k = Some l → contents s' k = Some l.

Lemma safe_refl s gs : ready s gs → direct s gs → safe s s.
Proof. intros. split; [by exists gs|done]. Qed.

Lemma commit_safe s gs pw aliasFor :
  ready s gs → direct s gs → prepared s pw → is_u64 aliasFor → pw_fid pw ≠ 0 →
  safe s (Commit pw aliasFor s).2.
Proof.
  intros Hr Hdir Hpw Hal Hnz. pose proof (commit_appends s gs pw aliasFor Hr Hpw Hal) as Happ.
  pose proof (Commit_outcome s pw aliasFor (rd_inv _ _ Hr) Hpw Hal) as Hcm.
  destruct (Commit pw aliasFor s) as [[[]|e] s']; cbn [snd]; [|subst; by eapply safe_refl].
  destruct Happ as [Hf Hm]. pose proof Hcm as [Hi [_ He] [Hn Hpair] Hc Hpk Hiv Hpe Hb Hg _].
  set (g := put_group (pw_fid pw) (pw_size pw) aliasFor) in *. pose proof (pp_size _ _ Hpw) as Hps.
  pose proof (i_disk _ (rd_inv _ _ Hr)) as Hdk. unfold disk_fits in Hdk.
  assert (Hp' : aliasFor ≠ 0 → confirmed s !! aliasFor = None) by (intros Hne; apply (Hpair Hne)).
  assert (Hold : ∀ k, is_Some (confirmed s !! k) → confirmed s' !! k = confirmed s !! k)
    by (intros k Hk; rewrite Hc; by apply new_refs_old).
  assert (Hfid : confirmed s' !! pw_fid pw = Some (plain_ref (pw_fid pw) (pw_size pw))).
  { rewrite Hc. apply lookup_union_Some_l. rewrite new_refs_lookup, decide_False, decide_True; [done|done|].
    intros [E Hne]. by destruct (Hpair Hne). }
  assert (Hkeys : ∀ k, k ∈ group_fids g → is_Some (confirmed s' !! k)).
  { intros k. unfold g, put_group. rewrite Hc. destruct (Z.eqb_spec aliasFor 0) as [|Hne]; cbn [group_fids claims].
    - intros ->%list_elem_of_singleton. rewrite <- Hc, Hfid. by eexists.
    - intros [->| ->%list_elem_of_singleton]%elem_of_cons; [|rewrite <- Hc, Hfid; by eexists].
      rewrite lookup_union, new_refs_lookup, decide_True by done. by destruct (confirmed s !! aliasFor); eexists. }
  split.
  - exists (gs ++ [g]). split.
    + constructor; try done.
      * by rewrite Hb.
      * apply (put_group_ok s); try done; [apply Hpw|]. unfold IndexPackedSentinel. lia.
      * intros g' k [Hin| ->%list_elem_of_singleton]%elem_of_app Hk; [|by apply Hkeys].
        pose proof (rd_known _ _ Hr g' k Hin Hk) as Hs. by rewrite Hold.
      * intros k ref. rewrite Hc. intros [Hk|[_ Hk]]%lookup_union_Some_raw; rewrite <- Hc.
        -- rewrite new_refs_lookup in Hk. repeat case_decide; simplify_eq; exact Hfid.
        -- pose proof (rd_owned _ _ Hr k ref Hk) as Ho. rewrite <- Ho. apply Hold. by eexists.
      * rewrite Hc. apply lookup_union_None. split; [|apply Hr]. rewrite new_refs_lookup.
        rewrite decide_False by (intros [? ?]; congruence). by rewrite decide_False by congruence.
    + intros f sz. rewrite live_snoc. assert (Hg' : ∀ l, live_step l g = drop_key (key g) l ++ [g])
        by (intros l; unfold g, put_group; by destruct (aliasFor =? 0)).
      rewrite Hg'. unfold drop_key. rewrite elem_of_app, list_elem_of_filter, list_elem_of_singleton.
      intros [[_ Hin]|E].
      * apply Hdir in Hin. rewrite <- Hin. apply Hold. by eexists.
      * unfold g, put_group in E. destruct (aliasFor =? 0); [|done]. by injection E as -> ->.
  - intros k l Hk. rewrite (committed_contents s pw aliasFor s' (rd_inv _ _ Hr) Hpw Hcm).
    destruct (contents_is_confirmed _ _ _ Hk) as [r Hkr]. unfold store_put.
    rewrite decide_False by (intros [-> Hne]; specialize (Hp' Hne); congruence).
    by rewrite decide_False by (intros ->; congruence).
Qed.

(** ** Changes that keep the log *)
Lemma ready_pending s gs pend :
  ready s gs → Inv (set_extents s (intervals s) pend) → ready (set_extents s (intervals s) pend) gs.
Proof. by intros [] Hi; constructor. Qed.

Lemma WriteFrom_faults s pw acquire r :
  Inv s → prepared s pw → 0 ≤ st_remaining r → f_faults (ds_file s) = [] →
  f_faults (ds_file (WriteFrom pw acquire r s).2) = [].
Proof.
  intros Hs Hpw Hr Hf. unfold WriteFrom. destruct acquire as [e|]; [done|].
  pose proof (prepared_geometry s pw Hs Hpw) as (Hgrid & Hk & Hga & Hcov & Hend & -> & Haddr).
  set (k := end_ (pw_iv pw) - start (pw_iv pw) + 1) in *.
  pose proof (i_disk _ Hs) as Hfit. unfold disk_fits in Hfit. pose proof (i_size _ Hs) as Hsz.
  pose proof (pp_size _ _ Hpw) as Hps.
  pose proof (write_payload_outcome (directFile s) (pw_addr pw) (pw_size pw) (k * SlotSize)
    (ds_file s) r ltac:(llia) ltac:(lia) ltac:(lia) ltac:(lia)
    ltac:(apply Z.mod_mul; layout_unfold; lia) Hr) as Hw.
  destruct (write_payload _ _ _ _ _) as [[[]|e] [f' r']]; cbn [snd ds_file set_file];
    destruct Hw as [Hw _]; [by apply (filled_faults _ _ _ _ _ Hw)|by apply (touched_faults _ _ _ _ Hw)].
Qed.

Lemma write_safe s gs pw acquire r :
  ready s gs → direct s gs → prepared s pw → 0 ≤ st_remaining r →
  let s' := (WriteFrom pw acquire r s).2 in
  ready s' gs ∧ direct s' gs ∧ diskBytes s' = diskBytes s ∧ pendingIntervals s' = pendingIntervals s ∧
  ∀ k, contents s' k = contents s k.
Proof.
  intros Hr Hdir Hpw Hst. pose proof (rd_inv _ _ Hr) as Hi.
  pose proof (WriteFrom_faults s pw acquire r Hi Hpw Hst (rd_faults _ _ Hr)) as Hf.
  pose proof (WriteFrom_outcome s pw acquire r Hi Hpw Hst) as H.
  destruct (WriteFrom pw acquire r s) as [res s']. cbn [snd] in *. destruct H as (_ & E & Hex & _).
  destruct (ready_file s gs (ds_file s') Hr) as [Hr' Hc]; [|done|].
  { eapply only_extent_agrees; [done|apply Hpw|done]. }
  rewrite <- E in Hr', Hc. rewrite E. split; [by rewrite <- E|]. split; [done|]. split; [done|]. split; [done|].
  intros k. rewrite <- E. apply Hc.
Qed.

Lemma safe_trans s1 s2 s3 : safe s1 s2 → safe s2 s3 → safe s1 s3.
Proof. intros [_ H1] [H2 H3]. split; [done|]. eauto. Qed.

(** ** Histories

    A disk with the reservations of the puts that are in flight.  A put prepares, writes and commits
    or aborts, with other puts and trims between its steps. *)
Section history.
Context (Hash : list byte → Z) (HashString : string → Z) (cfg : Config).

(** How full the index is: every trim needs room to the end. *)
Definition index_room (s : DeviceState) : Prop := 2 * ((indexEnd s - IndexStart) `div` 16) + 4 < chunk_entries.

Inductive disk_step : DeviceState * list PreparedWrite → DeviceState * list PreparedWrite → Prop :=
  | step_prepare s pws fid size pw s' :
      is_u64 fid → fid ≠ 0 → is_u64 size → PrepareWrite fid size s = (Ok pw, s') →
      disk_step (s, pws) (s', pw :: pws)
  | step_write s pws pw acquire r :
      pw ∈ pws → 0 ≤ st_remaining r → disk_step (s, pws) ((WriteFrom pw acquire r s).2, pws)
  | step_commit s pws pw aliasFor s' :
      is_u64 aliasFor → Commit pw aliasFor s = (Ok tt, s') → disk_step (s, pw :: pws) (s', pws)
  | step_commit_fail s pws pw aliasFor e s' :
      is_u64 aliasFor → pw ∈ pws → Commit pw aliasFor s = (Err e, s') → disk_step (s, pws) (s', pws)
  | step_abort s pws pw : disk_step (s, pw :: pws) ((Abort pw s).2, pws)
  | step_order s pws pws' : pws ≡ₚ pws' → disk_step (s, pws) (s, pws')
  | step_trim s pws env failPoint path t r s' t' :
      temp_ok env → failPoint ≠ "after-anchor-append"%string → index_room s →
      nonzero_fids Hash HashString cfg env s →
      maybeTrim Hash HashString cfg env failPoint path (s, t) = (r, (s', t')) →
      disk_step (s, pws) (s', pws).

(** What every history keeps. *)
Record history_ok (s : DeviceState) (pws : list PreparedWrite) : Prop := {
  hi_log : ∃ gs, ready s gs ∧ direct s gs;
  hi_prepared : Forall (λ pw, prepared s pw ∧ pw_fid pw ≠ 0) pws;
  hi_pending : pendingIntervals s ≡ₚ pw_iv <$> pws
}.

Lemma history_remove s s' pw pws :
  history_ok s (pw :: pws) → diskBytes s' = diskBytes s → (∃ gs, ready s' gs ∧ direct s' gs) →
  pendingIntervals s' = removeInterval (pendingIntervals s) (pw_iv pw) → history_ok s' pws.
Proof.
  intros [(gs & Hr & _) Hp Hpe] Hd Hlog Hpe'. apply Forall_cons in Hp as [[Hpw _] Hp].
  pose proof (rd_inv _ _ Hr) as Hi. pose proof (i_disjoint _ Hi) as Hdis.
  apply disjoint_all_app in Hdis as (_ & Hdis & _).
  pose proof (pending_in_grid s _ Hi (pp_pending _ _ Hpw)) as (Hok & _).
  pose proof (removeInterval_perm _ _ Hok Hdis (pp_pending _ _ Hpw)) as Hperm.
  rewrite Hpe in Hperm at 1. cbn [fmap list_fmap] in Hperm. apply Permutation_cons_inv in Hperm.
  split; [done| |by rewrite Hpe', Hperm].
  rewrite Forall_forall in *. intros pw' Hin. destruct (Hp pw' Hin) as [[H1 H2 H3 H4 _] Hnz]. split; [|done].
  split; rewrite ?Hd; try done. rewrite Hpe', <- Hperm. by apply list_elem_of_fmap_2.
Qed.

Lemma history_same s s' pws :
  history_ok s pws → diskBytes s' = diskBytes s → (∃ gs, ready s' gs ∧ direct s' gs) →
  pendingIntervals s' = pendingIntervals s → history_ok s' pws.
Proof.
  intros [_ Hp Hpe] Hd Hlog Hpe'. split; [done| |by rewrite Hpe'].
  eapply Forall_impl; [exact Hp|]. intros pw [[] ?]. split; [|done]. split; rewrite ?Hd, ?Hpe'; done.
Qed.

Context (HH : ∀ l, is_u64 (Hash l)).

Lemma trim_room_of s gs : ready s gs → index_room s → trim_room gs.
Proof using.
  intros Hr H. destruct (ready_end _ _ Hr) as (E & _). unfold index_room, trim_room in *. rewrite E in H.
  replace (IndexStart + 16 * Z.of_nat (length (log_of gs)) - IndexStart) with
    (Z.of_nat (length (log_of gs)) * 16) in H by lia. rewrite Z.div_mul in H by lia. done.
Qed.

(** One step keeps the history and the objects. *)
Definition keeps (c c' : DeviceState * list PreparedWrite) : Prop :=
  history_ok c.1 c.2 → history_ok c'.1 c'.2 ∧ ∀ k l, contents c.1 k = Some l → contents c'.1 k = Some l.

Lemma keeps_prepare s pws fid size pw s' :
  is_u64 fid → fid ≠ 0 → is_u64 size → PrepareWrite fid size s = (Ok pw, s') → keeps (s, pws) (s', pw :: pws).
Proof using.
  intros Hf Hnz Hsz E [(gs & Hr & Hdir) Hp Hpe]. cbn [fst snd] in *. pose proof (rd_inv _ _ Hr) as Hi.
  pose proof (PrepareWrite_outcome s fid size Hi Hf Hsz) as H. rewrite E in H.
  destruct H as (Hpf & Hps & He & -> & Hi' & Hpw). split; [|done]. split.
  - exists gs. split; [by apply ready_pending|done].
  - constructor; [by split; [|rewrite Hpf]|]. eapply Forall_impl; [exact Hp|]. intros pw' [[] ?].
    split; [|done]. split; try done. cbn. apply elem_of_app. by left.
  - cbn. rewrite Hpe. by rewrite Permutation_app_comm.
Qed.

Lemma keeps_write s pws pw acquire r :
  pw ∈ pws → 0 ≤ st_remaining r → keeps (s, pws) ((WriteFrom pw acquire r s).2, pws).
Proof using.
  intros Hin Hst Hok. cbn [fst snd] in *. pose proof Hok as [(gs & Hr & Hdir) Hp Hpe].
  rewrite Forall_forall in Hp. destruct (Hp pw Hin) as [Hpw _].
  destruct (write_safe s gs pw acquire r Hr Hdir Hpw Hst) as (Hr' & Hdir' & Hd & Hpe' & Hc). split.
  - apply (history_same s); [done|done|by exists gs|done].
  - intros k l. by rewrite Hc.
Qed.

Lemma keeps_commit s pws pw aliasFor s' :
  is_u64 aliasFor → Commit pw aliasFor s = (Ok tt, s') → keeps (s, pw :: pws) (s', pws).
Proof using.
  intros Ha E Hok. cbn [fst snd] in *. pose proof Hok as [(gs & Hr & Hdir) Hp Hpe].
  apply Forall_cons in Hp as [[Hpw Hnz] _].
  pose proof (commit_safe s gs pw aliasFor Hr Hdir Hpw Ha Hnz) as [Hlog Hc].
  pose proof (Commit_outcome s pw aliasFor (rd_inv _ _ Hr) Hpw Ha) as Hcm. rewrite E in Hlog, Hc, Hcm.
  split; [|done]. eapply history_remove; [exact Hok|apply Hcm|done|apply Hcm].
Qed.

Lemma keeps_commit_fail s pws pw aliasFor e s' :
  is_u64 aliasFor → pw ∈ pws → Commit pw aliasFor s = (Err e, s') → keeps (s, pws) (s', pws).
Proof using.
  intros Ha Hin E Hok. cbn [fst snd] in *. pose proof Hok as [(gs & Hr & Hdir) Hp Hpe].
  rewrite Forall_forall in Hp. destruct (Hp pw Hin) as [Hpw _].
  pose proof (commit_appends s gs pw aliasFor Hr Hpw Ha) as H. rewrite E in H. by subst.
Qed.

Lemma keeps_abort s pws pw : keeps (s, pw :: pws) ((Abort pw s).2, pws).
Proof using.
  intros Hok. cbn [fst snd] in *. pose proof Hok as [(gs & Hr & Hdir) Hp Hpe].
  unfold Abort, releaseExtent. cbn [snd]. split; [|done].
  eapply history_remove; [exact Hok|done| |done]. exists gs. split; [|done].
  apply ready_pending; [done|]. by apply release_Inv, (rd_inv _ _ Hr).
Qed.

Lemma keeps_trim s pws env failPoint path t r s' t' :
  temp_ok env → failPoint ≠ "after-anchor-append"%string → index_room s →
  nonzero_fids Hash HashString cfg env s →
  maybeTrim Hash HashString cfg env failPoint path (s, t) = (r, (s', t')) → keeps (s, pws) (s', pws).
Proof using HH.
  intros Htmp Hfp Hroom Hnz E Hok. cbn [fst snd] in *. pose proof Hok as [(gs & Hr & Hdir) Hp Hpe].
  pose proof (trim_outcome Hash HashString cfg env failPoint path s gs t HH Hr Hdir (trim_room_of s gs Hr Hroom)
    Htmp Hnz Hfp) as H.
  rewrite E in H. destruct H as [[gs' [Hr' Hdir' Hsd Hc]] _].
  split; [|done]. destruct Hsd as (Hd & _ & Hpd & _). apply (history_same s); [done|done|by exists gs'|done].
Qed.

Lemma step_keeps c c' : disk_step c c' → keeps c c'.
Proof using HH.
  destruct 1 as [s pws fid size pw s' Hf Hnz Hsz E| | | | |s pws pws' Hperm|].
  - by apply (keeps_prepare s pws fid size).
  - by apply keeps_write.
  - by eapply keeps_commit.
  - by eapply keeps_commit_fail.
  - apply keeps_abort.
  - intros [Hlog Hp Hpe]. cbn [fst snd] in *. split; [|done]. split; [done|by rewrite <- Hperm|by rewrite <- Hperm].
  - by eapply keeps_trim.
Qed.

Lemma steps_keep c c' : rtc disk_step c c' → keeps c c'.
Proof using HH.
  induction 1 as [c|c1 c2 c3 Hstep _ IH]; [by split|]. intros Hok1.
  destruct (step_keeps c1 c2 Hstep Hok1) as [Hok2 Hc2]. destruct (IH Hok2) as [Hok3 Hc3].
  split; [done|]. intros k l Hk. by apply Hc3, Hc2.
Qed.
End history.

Lemma fresh_history g d isDirect id :
  disk_fits d → header_valid id g → (∀ a, IndexStart ≤ a < GridStart → g a = x00) →
  history_ok (fresh_state g d isDirect id) [].
Proof.
  intros Hd Hh Hz. split; [|done|done]. exists []. split.
  - split; try done; [by apply fresh_Inv|by eexists; apply fresh_mirrors| |].
    + split; [done|constructor|..]; intros f Hf; by apply not_elem_of_nil in Hf.
    + intros gr f Hg. by apply not_elem_of_nil in Hg.
  - intros f sz Hf. by apply not_elem_of_nil in Hf.
Qed.

(** C12: no history of puts and trims loses or changes an object.  On a working device, whatever the
    interleaving of the steps of any number of puts (prepare, write, commit, abort) with trims of the
    disk, and wherever the trims stop (their fail point between the anchor and the registration of its
    table excepted), every object that was readable keeps its bytes, and the disk keeps satisfying the
    invariant, its index log being what its maps mirror. *)
Theorem history_keeps_objects Hash HashString cfg s pws s' pws' :
  (∀ l, is_u64 (Hash l)) → history_ok s pws → rtc (disk_step Hash HashString cfg) (s, pws) (s', pws') →
  history_ok s' pws' ∧ Inv s' ∧ ∀ k l, contents s k = Some l → contents s' k = Some l.
Proof.
  intros HH Hok Hrtc.
  destruct (steps_keep Hash HashString cfg HH _ _ Hrtc Hok) as [Hok' Hc]. destruct (hi_log _ _ Hok') as (gs & Hr & _). split; [done|].
  split; [apply Hr|exact Hc].
Qed.


(** ** A disk with three objects *)
Lemma put_object_steps Hash HashString cfg s pws fid size aliasFor r s' :
  is_u64 fid → fid ≠ 0 → is_u64 size → is_u64 aliasFor → 0 ≤ st_remaining r →
  put_object fid size aliasFor r s = (Ok tt, s') → rtc (disk_step Hash HashString cfg) (s, pws) (s', pws).
Proof.
  intros Hf Hnz Hsz Ha Hst Hput. unfold put_object in Hput.
  apply M_bind_Ok in Hput as (pw & s1 & Hp & Hput).
  eapply rtc_l; [by apply (step_prepare _ _ _ s pws fid size pw s1)|].
  apply M_bind_Ok in Hput as (w & s2 & Hw & Hput). unfold mcatch in Hw.
  destruct (WriteFrom pw None r s1) as [w' s2'] eqn:Ew. injection Hw as -> ->.
  destruct w as [u|e]; [|by apply M_bind_Ok in Hput as (? & ? & _ & ?)].
  eapply rtc_l; [apply (step_write _ _ _ s1 (pw :: pws) pw None r); [by left|done]|]. rewrite Ew. cbn [snd].
  apply M_bind_Ok in Hput as (c & s3 & Hc & Hput). unfold mcatch in Hc.
  destruct (Commit pw aliasFor s2) as [c' s3'] eqn:Ec. injection Hc as -> ->.
  destruct c as [[]|e]; [|by apply M_bind_Ok in Hput as (? & ? & _ & ?)]. injection Hput as <-.
  apply rtc_once. by eapply step_commit.
Qed.

Definition demo_hash (l : list byte) : Z := 1 + (Z.of_nat (length l) * 31 + 2) `mod` (2 ^ 64 - 1).
Definition demo_bytes (n : nat) (x : byte) : stream := Stream (buf_of (replicate n x)) 0 EEOF.
Definition demo_objects : M DeviceState unit :=
  put_object 5 10 0 (demo_bytes 10 x41);; put_object 7 20 0 (demo_bytes 20 x42);;
  put_object 9 30 8 (demo_bytes 30 x43).
Definition demo_cfg : Config :=
  mkConfig "p" "g" 268435456 1 1 1 6 fifth "z" 1 1048576 0 0 fifth "".
Definition demo_env : trim_env :=
  mkTrimEnv 1 2 3 true demo_os None None (Ok new_file) (Ok new_file) (λ _, None) (λ _, None) (Ok new_file).
Definition demo_status : trimStatus := mkTrim "" "" 0 0 0 false 0 0 0 0 "" "" "" None.

Lemma demo_hash_range l : 0 < demo_hash l < 2 ^ 64.
Proof. unfold demo_hash. pose proof (Z.mod_pos_bound (Z.of_nat (length l) * 31 + 2) (2 ^ 64 - 1) ltac:(lia)). lia. Qed.
Lemma demo_hash_u64 l : is_u64 (demo_hash l).
Proof. pose proof (demo_hash_range l). unfold is_u64. lia. Qed.
Lemma demo_nonzero HashString cfg env s : nonzero_fids demo_hash HashString cfg env s.
Proof. apply nonzero_fids_hash. intros l. pose proof (demo_hash_range l). lia. Qed.

Lemma demo_fresh : history_ok demo_state [].
Proof.
  apply fresh_history; [apply demo_Inv|apply (i_header _ demo_Inv)|].
  intros a Ha. unfold demo_image. rewrite upd_out; [done|]. right. cbn. llia.
Qed.

Lemma demo_steps s' :
  demo_objects demo_state = (Ok tt, s') → rtc (disk_step demo_hash (λ _, 7) demo_cfg) (demo_state, []) (s', []).
Proof.
  intros H. unfold demo_objects in H. apply M_bind_Ok in H as ([] & s1 & H1 & H).
  apply M_bind_Ok in H as ([] & s2 & H2 & H3).
  etrans; [|etrans]; (eapply put_object_steps; [..|eassumption]); unfold is_u64; try lia; done.
Qed.

Lemma history_keeps_objects_witness :
  ∃ s', demo_objects demo_state = (Ok tt, s') ∧ history_ok s' [] ∧ Inv s'.
Proof.
  destruct (demo_objects demo_state) as [r s'] eqn:E.
  assert (Hr : r = Ok tt) by (change r with ((r, s').1); rewrite <- E; vm_compute; reflexivity).
  subst r. exists s'. split; [done|].
  destruct (history_keeps_objects demo_hash (λ _, 7) demo_cfg demo_state [] s' [] demo_hash_u64 demo_fresh
    (demo_steps s' E)) as (H1 & H2 & _). split; [exact H1|exact H2].
Defined.

Lemma demo_objects_ok :
  ∃ s', demo_objects demo_state = (Ok tt, s') ∧ history_ok s' [] ∧ index_room s'.
Proof.
  destruct (demo_objects demo_state) as [r s'] eqn:E.
  assert (Hr : r = Ok tt) by (change r with ((r, s').1); rewrite <- E; vm_compute; reflexivity).
  subst r. exists s'. split; [done|]. split.
  - apply (steps_keep demo_hash (λ _, 7) demo_cfg demo_hash_u64 _ _ (demo_steps s' E) demo_fresh).
  - unfold index_room. change s' with ((Ok tt : res unit, s').2). rewrite <- E. vm_compute. reflexivity.
Qed.

