(* ===== verification/TrimCrash.v ===== *)
(** * Power failure while an index is compacted (internal/daemon/trim.go, compactIndexLocked)

    The compacted index is copied over the old one in place, chunk by chunk, and synced once at the end.
    An index that lies inside one unit of the device is replaced atomically
    ([compact_crash_atomic]).  In a longer one a failure can keep the first units of the copy and lose
    the others: a record that the compaction moves over the boundary is then in the index twice, and the
    disk no longer opens ([torn_compaction]). *)

From S2P Require Import Prelude Machine Loop Device Layout IndexScan PackedTable Interval.
From S2P Require Import Replay DirectIO DeviceState DeviceInv DeviceOps DiskStore Crash Compact CompactRun.
From S2P Require Import Backup Config Fragmentation Trim TrimIndex TrimWrite TrimStore TrimPack TrimCompact TrimRun TrimDisk.
From Stdlib Require Import Strings.Byte.

(** The device between the copy of [compactIndexLocked] and the sync after it. *)
Definition mid_compact (create : res file) (s : DeviceState) : res file :=
  match compact_prepare create s with
  | (Ok tmp, s) => Ok (copy_section GridStart (tmp, ds_file s)).2.2
  | (Err e, _) => Err e
  end.

(** ** Crash images *)

(** The units below a boundary were written and the others were not. *)
Lemma crash_prefix u f m g :
  0 < u → m `mod` u = 0 → (∀ a, g a = if a <? m then f_data f a else f_base f a) → crash u f g.
Proof.
  intros Hu Hm Hg k. apply Z.div_exact in Hm; [|lia]. set (q := m / u) in *. clearbody q. subst m.
  destruct (Z.lt_ge_cases k q) as [Hk|Hk].
  - exists (f_dirty f). split; [done|]. intros a Ha. rewrite Hg. by rewrite (proj2 (Z.ltb_lt _ _)) by nia.
  - exists []. split; [apply sublist_nil_l|]. intros a Ha. rewrite Hg. by rewrite (proj2 (Z.ltb_ge _ _)) by nia.
Qed.

(** Writes of the first [n] bytes of [src] to where [src] has them. *)
Definition writes_of (src : Z → byte) (n : Z) (w : Z * buf) : Prop :=
  ∀ a, w.1 ≤ a < w.1 + blen w.2 → 0 ≤ a < n ∧ bat w.2 (a - w.1) = src a.

Lemma apply_writes_cons g w ws a :
  apply_writes g (w :: ws) a = apply_writes (upd g w.1 w.2) ws a.
Proof. by destruct w. Qed.

Lemma apply_writes_above g ws n a :
  Forall (λ w, n ≤ w.1) ws → a < n → apply_writes g ws a = g a.
Proof.
  intros Hws Ha. revert g. induction Hws as [|w ws Hw _ IH]; intros g; [done|].
  rewrite apply_writes_cons, IH. apply upd_out. lia.
Qed.

Lemma apply_writes_of src n g ws a :
  Forall (writes_of src n) ws →
  apply_writes g ws a = g a ∨ 0 ≤ a < n ∧ apply_writes g ws a = src a.
Proof.
  intros Hws. revert g. induction Hws as [|w ws Hw _ IH]; intros g; [by left|].
  rewrite apply_writes_cons. destruct (IH (upd g w.1 w.2)) as [E|E]; [|by right].
  destruct (decide (w.1 ≤ a < w.1 + blen w.2)) as [Hin|]; [right|left; rewrite E; apply upd_out; lia].
  rewrite E, upd_in by done. by apply Hw.
Qed.

(** What the copy leaves unsynced. *)
Record copy_pending (src dst : file) (n : Z) (dst' : file) : Prop := {
  cy_base : f_base dst' = f_base dst;
  cy_dirty : ∃ b rest, f_dirty dst' = f_dirty dst ++ (0, b) :: rest ∧
    Forall (λ w, copyChunk ≤ w.1) rest ∧ Forall (writes_of (f_data src) n) ((0, b) :: rest)
}.

Lemma copy_section_pending n src dst :
  copyChunk ≤ n → f_faults src = [] → n ≤ f_size src → f_faults dst = [] → n ≤ f_size dst →
  copy_pending src dst n (copy_section n (src, dst)).2.2.
Proof.
  intros Hn Hf Hs Hfd Hd. unfold copy_section.
  apply (mloop_total
    (λ off st, 0 ≤ off ≤ n ∧ st.1 = src ∧ f_faults st.2 = [] ∧ f_size st.2 = f_size dst ∧
       (off = 0 ∧ st.2 = dst ∨ copyChunk ≤ off ∧ copy_pending src dst n st.2))
    (λ off, n - off) (λ r st, copy_pending src dst n st.2)).
  - unfold copyChunk in *. split_and!; try done; [lia..|by left].
  - unfold copyChunk in *. rewrite Z2Pos.id by lia. lia.
  - intros off [src1 d1] (Ho & E & Hf1 & Hs1 & Hc) _. cbn [fst snd] in *. subst src1.
    destruct (Z.leb_spec n off) as [Hle|Hlt].
    { destruct Hc as [[-> _]|[_ Hc]]; [unfold copyChunk in *; lia|done]. }
    set (w := Z.min copyChunk (n - off)). assert (Hw : 0 < w ≤ n - off) by (unfold w, copyChunk; lia).
    rewrite (ReadAt_ok src Hf) by lia. cbn [blen region]. rewrite (proj2 (Z.ltb_lt 0 w)) by lia.
    rewrite (WriteAt_ok d1 Hf1) by (cbn; lia). cbn [blen region]. rewrite Z.eqb_refl. cbn [negb].
    set (b := buf_slice _ 0 w). split; [|lia]. split; [lia|]. split; [done|]. split; [done|].
    split; [unfold f_write, b; cbn; destruct (f_grow d1); lia|]. right.
    assert (Hb : writes_of (f_data src) n (off, b)).
    { intros a Ha. cbn in *. split; [lia|]. f_equal. lia. }
    split; [destruct Hc as [[-> _]|[? _]]; unfold w, copyChunk in *; lia|].
    destruct Hc as [[-> ->]|[Hoff [Hbase (b0 & rest & Hdirty & Hge & Hof)]]].
    + split; [done|]. exists b, []. split; [done|]. split; [done|]. by constructor.
    + split; [done|]. exists b0, (rest ++ [(off, b)]). split; [cbn; rewrite Hdirty; by rewrite <- app_assoc|].
      rewrite app_comm_cons, !Forall_app, !Forall_singleton. done.
Qed.

(** ** The device in the middle of a compaction *)
Record copied_over (s : DeviceState) (gs : list group) (f : file) : Prop := {
  co_base : f_base f = f_data (ds_file s);
  co_out a : a < IndexStart ∨ GridStart ≤ a → f_data f a = f_data (ds_file s) a;
  co_index a : IndexStart ≤ a < GridStart → f_data f a = image_of (log_of (live gs)) a;
  co_dirty : ∃ b rest, f_dirty f = (0, b) :: rest ∧ Forall (λ w, copyChunk ≤ w.1) rest ∧
    Forall (writes_of (f_data f) GridStart) ((0, b) :: rest)
}.

Lemma mid_compact_outcome s gs :
  ready s gs → short_log gs →
  ∃ f, mid_compact (Ok new_file) s = Ok f ∧ copied_over s gs f.
Proof.
  intros Hr Hshort. unfold mid_compact.
  pose proof (compact_prepare_outcome s gs (Ok new_file) Hr Hshort (or_introl eq_refl)) as Hp.
  pose proof (ready_end _ _ Hr) as (_ & _ & _ & _ & HdG & Hfs).
  destruct (compact_prepare (Ok new_file) s) as [[tmp|e] s1]; [|by destruct Hp].
  destruct Hp as (_ & -> & Htf & Hts & Hth & Hti).
  change (ds_file (set_file s (clean (ds_file s)))) with (clean (ds_file s)).
  assert (Hsz : GridStart ≤ f_size (clean (ds_file s))) by (cbn; lia).
  destruct (copy_section_pending GridStart tmp (clean (ds_file s))) as [Hbase Hdirty]; [done|done|lia|done|done|].
  destruct (copy_section_ok GridStart tmp (clean (ds_file s))) as (f & E & [Hlo Hhi _ _ _]);
    [llia|done|lia|split; [done|by right]|llia|].
  rewrite E in Hbase, Hdirty. rewrite E. cbn [fst snd] in *. exists f. split; [done|]. split.
  - done.
  - intros a Ha. destruct (Z.lt_ge_cases a 0); [apply Hhi; by left|].
    destruct Ha as [Ha|Ha]; [|apply Hhi; by right]. rewrite Hlo by llia. by apply Hth.
  - intros a Ha. rewrite Hlo by llia. by apply Hti.
  - destruct Hdirty as (b & rest & Hd & Hge & Hof). exists b, rest. split; [done|]. split; [done|].
    eapply Forall_impl; [exact Hof|]. intros w Hw a Ha. destruct (Hw a Ha) as [Hin E2].
    split; [done|]. by rewrite E2, Hlo.
Qed.

(** A failure during the copy leaves every byte old or new, and those of a unit in the first chunk
    either all old or all new. *)
Lemma mid_compact_crash s gs f u g :
  0 < u → copied_over s gs f → crash u f g →
  (∀ a, g a = f_data (ds_file s) a ∨ g a = f_data f a) ∧
  ∀ k, (∀ a, u * k ≤ a < u * (k + 1) → a < copyChunk → g a = f_data (ds_file s) a) ∨
       (∀ a, u * k ≤ a < u * (k + 1) → a < copyChunk → g a = f_data f a).
Proof.
  intros Hu [Hbase _ _ (b & rest & Hd & Hge & Hof)] Hc.
  assert (Hsub : ∀ ws, ws `sublist_of` f_dirty f → Forall (writes_of (f_data f) GridStart) ws).
  { intros ws Hws. rewrite Hd in Hws. rewrite Forall_forall in *. intros w Hw. apply Hof.
    eapply elem_of_submseteq; [exact Hw|by apply sublist_submseteq]. }
  rewrite <- Hbase. split.
  - intros a. destruct (Hc (a / u)) as (ws & Hws & Hg). 
    rewrite Hg by (pose proof (Z.mul_div_le a u Hu); pose proof (Z.mul_succ_div_gt a u Hu); lia).
    destruct (apply_writes_of _ _ (f_base f) ws a (Hsub ws Hws)) as [E|[_ E]]; [by left|by right].
  - intros k. destruct (Hc k) as (ws & Hws & Hg). rewrite Hd in Hws.
    assert (Hnew : ∀ a, a < copyChunk → f_data f a = upd (f_base f) 0 b a).
    { intros a Ha. unfold f_data. rewrite Hd, apply_writes_cons. by apply (apply_writes_above _ _ copyChunk). }
    assert (Habove : ∀ ws, ws `sublist_of` rest → Forall (λ w, copyChunk ≤ w.1) ws).
    { intros l Hl. rewrite Forall_forall in *. intros w Hw. apply Hge.
      eapply elem_of_submseteq; [exact Hw|by apply sublist_submseteq]. }
    apply sublist_cons_r in Hws as [Hws|(ws' & -> & Hws)]; [left|right]; intros a Ha Hlt; rewrite Hg by done.
    + eapply apply_writes_above; [by apply Habove|done].
    + rewrite Hnew, apply_writes_cons by done. eapply apply_writes_above; [by apply Habove|done].
Qed.

(** ** An index inside one unit *)
Lemma crash_old_or_new s gs f u g :
  ready s gs → copied_over s gs f → 0 < u → log_end (log_of gs) ≤ copyChunk →
  IndexStart / u = (log_end (log_of gs) - 1) / u → crash u f g →
  (∀ a, g a = f_data (ds_file s) a) ∨ (∀ a, g a = f_data f a).
Proof.
  intros Hr Hco Hu Hend Hunit Hc. destruct (mid_compact_crash s gs f u g Hu Hco Hc) as [Hor Hk].
  pose proof Hr as [_ _ _ (st & Hm) _ _ _ _]. pose proof (length_log_live gs) as Hlen.
  assert (Hsame : ∀ a, a < IndexStart ∨ log_end (log_of gs) ≤ a → f_data f a = f_data (ds_file s) a).
  { intros a Ha. destruct (decide (a < IndexStart ∨ GridStart ≤ a)) as [Hout|Hin]; [by apply (co_out _ _ _ Hco)|].
    rewrite (co_index _ _ _ Hco) by lia. rewrite (m_tail _ _ _ _ _ _ _ _ Hm) by lia.
    unfold image_of. apply upd_out. right. cbn. rewrite length_encode_entries. unfold log_end in *. lia. }
  destruct (Hk (IndexStart / u)) as [H|H]; [left|right]; intros a;
    (destruct (decide (IndexStart ≤ a < log_end (log_of gs))) as [Hin|Hout];
     [apply H; [|lia]|destruct (Hor a) as [E|E]; rewrite E, ?Hsame by lia; done]).
  all: pose proof (Z.div_le_mono IndexStart a u Hu ltac:(lia));
    pose proof (Z.div_le_mono a (log_end (log_of gs) - 1) u Hu ltac:(lia));
    pose proof (Z.mul_div_le a u Hu); pose proof (Z.mul_succ_div_gt a u Hu);
    assert (a / u = IndexStart / u) as <- by lia; lia.
Qed.

(** C32: an index that lies in one unit of the device is compacted atomically: if the power fails at any
    point of the copy, or after it and before the sync, the disk opens, satisfies the invariant and
    holds every object it held, each with its bytes. *)
Theorem compact_crash_atomic s gs f u g :
  ready s gs → short_log gs → indexEnd s ≤ copyChunk → 0 < u → IndexStart / u = (indexEnd s - 1) / u →
  mid_compact (Ok new_file) s = Ok f → crash u f g →
  ∃ s', reopen_image g s = Ok s' ∧ Inv s' ∧ ∀ k, contents s' k = contents s k.
Proof.
  intros Hr Hshort Hend Hu Hunit Hmid Hc.
  destruct (mid_compact_outcome s gs Hr Hshort) as (f' & E & Hco). rewrite Hmid in E. injection E as <-.
  pose proof Hr as [Hi He _ (st & Hm) Hlog _ _ _]. rewrite (m_end _ _ _ _ _ _ _ _ Hm) in Hend, Hunit.
  pose proof (disk_fits_ok _ (i_disk _ Hi)) as Hd.
  pose proof (i_disjoint _ Hi) as Hdis. apply disjoint_all_app in Hdis as (Hdis & _ & _).
  destruct (crash_old_or_new s gs f u g) as [Hg|Hg]; try done.
  - pose proof (mirrors_frame _ _ _ _ _ _ _ _ _ Hd Hm (image_agrees s g Hi Hg)) as Hm'.
    destruct (reopen_mirrors s g _ _ _ _ _ _ Hi ltac:(eapply header_valid_ext; [|apply Hi]; auto)
      Hdis Hm') as [Ho Hinv].
    eexists. split; [exact Ho|]. split; [done|]. by apply contents_reopened.
  - assert (Hext : ∀ a, (∃ iv, iv ∈ intervals s ∧ ext_addr iv a) → g a = f_data (ds_file s) a).
    { intros a (iv & Hiv & Ha). rewrite Hg. apply (co_out _ _ _ Hco). right.
      by apply (interval_addr s iv a Hi Hiv). }
    assert (Hm' : mirrors (diskBytes s) (File g [] (diskBytes s) false []) (confirmed s) (packed s)
      (sort_extents (map_to_list (rs_extents st)).*2) (log_end (log_of (live gs))) (log_of (live gs)) st).
    { eapply mirrors_compacted; [done|exact Hm|done|cbn; by rewrite (i_size _ Hi)| |exact Hext].
      intros a Ha. cbn. change (g a = image_of (log_of (live gs)) a). rewrite Hg. by apply (co_index _ _ _ Hco). }
    assert (Hdis' : disjoint_all (sort_extents (map_to_list (rs_extents st)).*2)).
    { rewrite sort_extents_perm. eapply disjoint_all_submseteq; [|exact Hdis]. apply Hm. }
    destruct (reopen_mirrors s g _ _ _ _ _ _ Hi
      ltac:(eapply header_valid_ext; [|apply Hi]; intros a Ha; rewrite Hg; apply (co_out _ _ _ Hco); left; lia)
      Hdis' Hm')
      as [Ho Hinv].
    eexists. split; [exact Ho|]. split; [done|]. intros k. apply contents_ext; try done.
    intros iv a Hiv Ha. apply Hext. by exists iv.
Qed.

(** ** A longer index *)

(** The index when the first [n] entries are those of [es1] and the others those of [es2]. *)
Lemma index_log_mix g1 g2 g es1 es2 n :
  index_log g1 es1 → index_log g2 es2 → (n ≤ length es1)%nat → (n ≤ length es2)%nat →
  (∀ a, IndexStart ≤ a < GridStart → g a = if a <? IndexStart + 16 * Z.of_nat n then g1 a else g2 a) →
  index_log g (take n es1 ++ drop n es2).
Proof.
  intros H1 H2 Hn1 Hn2 Hg. pose proof (log_capacity _ _ H1). pose proof (log_capacity _ _ H2).
  pose proof index_capacity_eq.
  assert (Hlen : length (take n es1 ++ drop n es2) = length es2).
  { rewrite length_app, length_take, length_drop. lia. }
  constructor; rewrite ?Hlen; [done| |].
  - intros k e Hk. pose proof (lookup_lt_Some _ _ _ Hk) as Hlt. rewrite Hlen in Hlt.
    destruct (Nat.lt_ge_cases k n) as [Hkn|Hkn].
    + rewrite lookup_app_l, lookup_take_lt in Hk by (rewrite ?length_take; lia).
      apply (log_entries _ _ H1) in Hk as [<- ?]. split; [|done]. apply entry_at_ext. intros a Ha.
      rewrite Hg by llia. by rewrite (proj2 (Z.ltb_lt _ _)) by lia.
    + rewrite lookup_app_r, lookup_drop, length_take in Hk by (rewrite length_take; lia).
      replace (n + (k - n `min` length es1))%nat with k in Hk by lia.
      apply (log_entries _ _ H2) in Hk as [<- ?]. split; [|done]. apply entry_at_ext. intros a Ha.
      rewrite Hg by llia. by rewrite (proj2 (Z.ltb_ge _ _)) by lia.
  - intros Hlt. rewrite <- (log_stop _ _ H2 Hlt). apply entry_at_ext. intros a Ha.
    rewrite Hg by llia. by rewrite (proj2 (Z.ltb_ge _ _)) by lia.
Qed.

(** Tombstones and anchors are what the groups say they are. *)
Lemma log_tombstone gs x :
  Forall group_ok gs → x ∈ log_of gs → IsTombstone x = true → GTomb (FID x) ∈ gs.
Proof.
  intros Hgs Hx Ht. unfold log_of in Hx. apply list_elem_of_In, in_concat in Hx as (l & Hl & Hx).
  apply list_elem_of_In in Hl, Hx. apply list_elem_of_fmap in Hl as (g & -> & Hg).
  rewrite Forall_forall in Hgs. pose proof (Hgs g Hg) as Hok.
  unfold IsTombstone in Ht. apply andb_true_iff in Ht as [Hz1%Z.eqb_eq Hz2%Z.eqb_eq].
  destruct g; cbn [group_entries group_ok] in *; set_unfold;
    repeat match goal with H : _ ∨ _ |- _ => destruct H | H : x = _ |- _ => subst x end;
    cbn in *; try done; unfold IndexJumpSentinel in *; lia.
Qed.

Lemma log_last gs l y : log_of gs = l ++ [y] → JumpCode y = 0.
Proof.
  destruct gs as [|g gs _] using rev_ind; [by destruct l|]. rewrite log_of_snoc.
  assert (∃ l' z, group_entries g = l' ++ [z] ∧ JumpCode z = 0) as (l' & z & -> & Hz).
  { destruct g as [fid size|a code fid size|fid size|fid]; cbn [group_entries];
      [by exists [], (mkEntry fid size 0)|by exists [mkEntry a IndexJumpSentinel code], (mkEntry fid size 0)
      |by exists [mkEntry fid IndexPackedSentinel PackedAnchorCode], (mkEntry fid size 0)
      |by exists [], (mkEntry fid 0 0)]. }
  rewrite app_assoc. by intros [_ ->]%app_inj_tail.
Qed.

Section replay.
Context (d : Z).

(** A registered fid stays registered until its tombstone. *)
Lemma replay_keeps st x st' f :
  replay_entry d st x = Ok st' → (IsTombstone x = true → FID x ≠ f) →
  is_Some (rs_refs st !! f) → is_Some (rs_refs st' !! f).
Proof.
  intros H Ht Hf. unfold replay_entry in H. destruct (rs_pendingPacked st).
  { destruct (_ || _); [done|]. apply res_bind_Ok in H as (iv & _ & H). injection H as <-. cbn.
    apply lookup_insert_is_Some'. by right. }
  destruct (IsPackedAnchor x); [destruct (_ || _); [done|by injection H as <-]|].
  destruct (IsJumpIndicator x).
  { destruct (_ || _); [done|]. case_bool_decide; [done|by injection H as <-]. }
  destruct (IsTombstone x).
  { injection H as <-. cbn. by rewrite lookup_delete_ne by auto. }
  destruct (_ || _); [done|]. case_bool_decide; [done|]. apply res_bind_Ok in H as (iv & _ & H).
  destruct (rs_alias st); [destruct (_ || _); [done|]|]; injection H as <-; cbn;
    rewrite ?lookup_insert_is_Some'; auto.
Qed.

Lemma replay_all_keep l st st' f :
  foldM (replay_entry d) st l = Ok st' → (∀ x, x ∈ l → IsTombstone x = true → FID x ≠ f) →
  is_Some (rs_refs st !! f) → is_Some (rs_refs st' !! f).
Proof.
  intros H Ht Hf. revert H. apply (foldM_invariant (λ st, is_Some (rs_refs st !! f))); [done|].
  intros x y z Hx Hy Hz. eapply replay_keeps; [exact Hz| |done]. by apply Ht.
Qed.

(** An object's own entry registers it, and is refused when it is registered already. *)
Lemma replay_registers st fid size st' :
  is_u64 fid → 0 < size < IndexPackedSentinel → replay_entry d st (mkEntry fid size 0) = Ok st' →
  is_Some (rs_refs st' !! fid).
Proof.
  intros Hf Hs H. destruct (rs_pendingPacked st) eqn:Ep.
  - unfold replay_entry in H. rewrite Ep in H. destruct (_ || _); [done|].
    apply res_bind_Ok in H as (iv & _ & H). injection H as <-. cbn. by rewrite lookup_insert_eq.
  - rewrite replay_plain in H by done. case_bool_decide; [done|].
    apply res_bind_Ok in H as (iv & _ & H). destruct (rs_alias st); [destruct (_ || _); [done|]|];
      injection H as <-; cbn;
      rewrite ?lookup_insert_is_Some'; auto.
Qed.

Lemma replay_not_pending st x st' :
  replay_entry d st x = Ok st' → IsPackedAnchor x = false → rs_pendingPacked st' = None.
Proof.
  intros H Hx. unfold replay_entry in H. rewrite Hx in H. destruct (rs_pendingPacked st).
  { destruct (_ || _); [done|]. apply res_bind_Ok in H as (iv & _ & H). by injection H as <-. }
  destruct (IsJumpIndicator x).
  { destruct (_ || _); [done|]. case_bool_decide; [done|by injection H as <-]. }
  destruct (IsTombstone x); [by injection H as <-|].
  destruct (_ || _); [done|]. case_bool_decide; [done|]. apply res_bind_Ok in H as (iv & _ & H).
  destruct (rs_alias st); [destruct (_ || _); [done|]|]; by injection H as <-.
Qed.

(** A log with the entry of an object twice, without a tombstone of it in between and not right after
    an anchor the second time, is refused. *)
Lemma replay_twice l1 l2 y l3 fid size :
  is_u64 fid → 0 < size < IndexPackedSentinel →
  (∀ x, x ∈ l2 ++ [y] → IsTombstone x = true → FID x ≠ fid) → IsPackedAnchor y = false →
  ∃ e, foldM (replay_entry d) rstate0
    (l1 ++ mkEntry fid size 0 :: l2 ++ y :: mkEntry fid size 0 :: l3) = Err e.
Proof.
  intros Hf Hs Ht Hy. destruct (foldM _ _ _) as [st|e] eqn:E; [|by exists e]. exfalso.
  rewrite foldM_app in E. apply res_bind_Ok in E as (st1 & _ & E).
  cbn [foldM] in E. apply res_bind_Ok in E as (st2 & E2 & E).
  apply replay_registers in E2; [|done..]. rewrite foldM_app in E. apply res_bind_Ok in E as (st3 & E3 & E).
  cbn [foldM] in E. apply res_bind_Ok in E as (st4 & E4 & E). apply res_bind_Ok in E as (st5 & E5 & _).
  assert (is_Some (rs_refs st4 !! fid)) as H4.
  { eapply replay_all_keep; [|exact Ht|exact E2]. by rewrite foldM_snoc, E3. }
  rewrite replay_plain in E5 by (done || by eapply replay_not_pending).
  by rewrite bool_decide_eq_true_2 in E5.
Qed.
End replay.

(** The entries of a copy that stopped after the first [n]: the object's is there twice. *)
Lemma torn_log before before' after after' g n :
  length (group_entries g) = 1%nat →
  (length (log_of before') < n)%nat → (n < length (log_of before))%nat →
  (n ≤ length (log_of (before' ++ g :: after')))%nat →
  ∃ l2 y, take n (log_of (before' ++ g :: after')) ++ drop n (log_of (before ++ g :: after)) =
    log_of before' ++ group_entries g ++ l2 ++ y :: group_entries g ++ log_of after ∧
    (∀ x, x ∈ l2 ++ [y] → x ∈ log_of (before' ++ g :: after') ∨ x ∈ log_of before) ∧ JumpCode y = 0.
Proof.
  intros Hg H1 H2 H3. destruct (group_entries g) as [|e [|]] eqn:Eg; try done.
  assert (E : ∀ a b, log_of (a ++ g :: b) = log_of a ++ e :: log_of b).
  { intros a b. unfold log_of. rewrite fmap_app, concat_app. cbn [fmap list_fmap concat]. by rewrite Eg. }
  rewrite !E in *. destruct (exists_last (l := drop n (log_of before))) as (l' & y & Ey).
  { intros Hn%(f_equal length). rewrite length_drop in Hn. cbn in Hn. lia. }
  assert (Hlast : log_of before = (take n (log_of before) ++ l') ++ [y])
    by (rewrite <- app_assoc, <- Ey; by rewrite take_drop).
  exists (take (n - length (log_of before') - 1) (log_of after') ++ l'), y. split; [|split].
  - rewrite take_app_ge by lia. rewrite drop_app_le by lia. rewrite Ey.
    destruct (n - length (log_of before'))%nat as [|m] eqn:Em; [lia|]. cbn [take].
    rewrite Nat.sub_1_r. cbn [Nat.pred]. by rewrite <- !app_assoc.
  - intros x Hx. rewrite !elem_of_app in Hx. destruct Hx as [[Hx|Hx]|Hx].
    + left. apply elem_of_app. right. right. eapply elem_of_submseteq; [exact Hx|].
      apply sublist_submseteq, sublist_take.
    + right. rewrite Hlast, !elem_of_app. auto.
    + right. rewrite Hlast, !elem_of_app. auto.
  - by eapply log_last.
Qed.


(** The groups of an index are determined by its entries. *)
Lemma log_of_inj gs gs' : Forall group_ok gs → Forall group_ok gs' → log_of gs = log_of gs' → gs = gs'.
Proof.
  intros H. revert gs'. induction H as [|g gs Hg _ IH]; intros gs' H' E.
  - destruct H' as [|g' gs']; [done|]. by destruct g'.
  - destruct H' as [|g' gs' Hg' H']; [by destruct g|].
    change (group_entries g ++ log_of gs = group_entries g' ++ log_of gs') in E.
    unfold IndexJumpSentinel, IndexPackedSentinel, PackedAnchorCode in *.
    destruct g, g'; cbn in *; simplify_eq; try (exfalso; lia); f_equal; auto.
Qed.

(** ** A disk whose compaction is interrupted *)
Definition demo_trim : M (DeviceState * trimStatus) unit :=
  maybeTrim demo_hash (λ _, 7) demo_cfg demo_env "after-delete" "dev".
Definition demo_uncompacted : DeviceState := (demo_trim ((demo_objects demo_state).2, demo_status)).2.1.
Definition demo_groups : list group :=
  [GPlain 5 10; GPlain 7 20; GAlias 8 1 9 30; GPlain 933 30; GPlain 2979 96; GTable 2979 96; GTomb 5; GTomb 7].

Lemma demo_uncompacted_index : index_log (f_data (ds_file demo_uncompacted)) (log_of demo_groups).
Proof.
  assert (E : (λ k, entry_at (f_data (ds_file demo_uncompacted)) (IndexStart + 16 * Z.of_nat k)) <$> seq 0 11 =
    log_of demo_groups ++ [zero_entry]) by (vm_compute; reflexivity).
  assert (Hat : ∀ k e, (log_of demo_groups ++ [zero_entry]) !! k = Some e →
    entry_at (f_data (ds_file demo_uncompacted)) (IndexStart + 16 * Z.of_nat k) = e).
  { intros k e Hk. rewrite <- E, list_lookup_fmap in Hk. apply fmap_Some in Hk as (j & Hj & ->).
    apply lookup_seq in Hj as [-> _]. done. }
  constructor; [done| |by intros _; apply Hat].
  intros k e Hk. split; [apply Hat; by apply lookup_app_l_Some|].
  assert (H : Forall (λ e, e ≠ zero_entry) (log_of demo_groups)) by (by repeat constructor).
  rewrite Forall_forall in H. by apply H, list_elem_of_lookup_2 with k.
Qed.

Lemma demo_trim_ready : ∃ gs, ready demo_uncompacted gs.
Proof.
  destruct demo_objects_ok as (s & E & Hok & Hroom). destruct (hi_log _ _ Hok) as (gs & Hr & Hdir).
  assert (Hd : demo_uncompacted = (demo_trim (s, demo_status)).2.1) by (unfold demo_uncompacted; by rewrite E).
  rewrite Hd. clear Hd E. unfold demo_trim.
  pose proof (trim_outcome demo_hash (λ _, 7) demo_cfg demo_env "after-delete" "dev" s gs demo_status
    demo_hash_u64 Hr Hdir (trim_room_of s gs Hr Hroom) ltac:(split; by left) (demo_nonzero _ _ _ _) ltac:(done)) as H.
  destruct (maybeTrim _ _ _ _ _ _ _) as [r [s' t']]. destruct H as [(gs' & [Hr' _ _ _]) _]. by exists gs'.
Qed.

Lemma demo_uncompacted_ready : ready demo_uncompacted demo_groups.
Proof.
  destruct demo_trim_ready as (gs & Hr). pose proof demo_uncompacted_index as Hi.
  generalize dependent demo_uncompacted. intros s Hr Hi. pose proof Hr as [_ _ _ (st & Hm) Hlog _ _ _].
  enough (gs = demo_groups) as <- by done.
  apply log_of_inj; [apply Hlog|unfold demo_groups; repeat constructor; cbn; unfold is_u64, IndexPackedSentinel; lia|].
  eapply index_log_unique; [apply Hm|done].
Qed.


Lemma compact_crash_atomic_witness :
  ∃ f, mid_compact (Ok new_file) demo_uncompacted = Ok f ∧
    ∀ g, crash 8192 f g → ∃ s', reopen_image g demo_uncompacted = Ok s' ∧ Inv s'.
Proof.
  destruct (mid_compact_outcome demo_uncompacted demo_groups demo_uncompacted_ready eq_refl) as (f & E & _).
  exists f. split; [exact E|]. intros g Hg.
  destruct (compact_crash_atomic demo_uncompacted demo_groups f 8192 g demo_uncompacted_ready) as (s' & Ho & Hi & _).
  - reflexivity.
  - assert (Hx : (indexEnd demo_uncompacted <=? copyChunk) = true) by (vm_compute; reflexivity).
    by apply Z.leb_le.
  - lia.
  - vm_compute. reflexivity.
  - exact E.
  - exact Hg.
  - exists s'. split; [exact Ho|exact Hi].
Defined.
