(* ===== verification/TrimRead.v ===== *)
(** * Reads that meet a trim (internal/daemon/state.go, Get; server.go, Get)

    [Get] looks an object up under the lock of the index and reads it without a lock, when the limiter of
    reads lets it: puts and trims of the disk may come in between.  What was looked up stays right as long
    as no trim packs the object ([late_read]); when one does and its slot is given to another object, the
    read returns the bytes of that one, without an error ([stale_read]). *)

From S2P Require Import Prelude Machine Loop Float Device Layout IndexScan PackedTable Interval.
From S2P Require Import Replay DirectIO DeviceState DeviceInv DeviceOps DiskStore Fragmentation Chd Config.
From S2P Require Import Compact CompactRun Backup Trim TrimIndex TrimWrite TrimStore TrimPack TrimCompact.
From S2P Require Import TrimCollect TrimRun TrimDisk.
From Stdlib Require Import Strings.Byte.

(** The two halves of [Get]: the lookup on the disk [s], and the read when the disk is [s']. *)
Definition late_get (fid : Z) (s s' : DeviceState) : res buf :=
  match lookup_fid fid s with
  | (Ok ref, _) => (readRange None ref 0 (r_size ref) s').1
  | (Err e, _) => Err e
  end.


(** ** A read that a trim overtakes *)

(** Where the bytes of a reference begin. *)
Definition address (d : Z) (ref : objectRef) : res Z :=
  '(addr, _, _) ← AddrForFID d (r_fid ref) (storedSize ref); Ok (addr + r_offset ref).

(** References with the same address are into the same stored object. *)
Lemma address_owner s gs k1 k2 ref1 ref2 a :
  ready s gs → confirmed s !! k1 = Some ref1 → confirmed s !! k2 = Some ref2 →
  address (diskBytes s) ref1 = Ok a → address (diskBytes s) ref2 = Ok a → r_fid ref1 = r_fid ref2.
Proof.
  intros Hr H1 H2 A1 A2. destruct (decide (r_fid ref1 = r_fid ref2)) as [|Hne]; [done|exfalso].
  pose proof Hr as [Hi He _ (st & Hm) _ _ Hown _].
  assert (Hx : ∀ k ref, confirmed s !! k = Some ref → address (diskBytes s) ref = Ok a →
    ∃ iv, rs_extents st !! r_fid ref = Some iv ∧ ext_addr iv a).
  { intros k ref Hk Ha. destruct (direct_extent _ _ _ _ _ _ _ _ _ _ Hm Hown Hk) as (iv & Hiv & Hext).
    exists iv. split; [done|]. destruct (Inv_backed s k ref Hi He Hk) as [_ Hb].
    pose proof (disk_fits_ok _ (i_disk _ Hi)) as Hd. pose proof (rb_range _ _ _ Hb) as Hrg.
    destruct (ref_backed_addr _ _ _ Hd Hb) as (iv' & _ & HA & _ & Hcov).
    assert (iv' = iv) as ->.
    { unfold extent_of in Hext. rewrite HA in Hext. injection Hext as <-. destruct (rb_ext _ _ _ Hb) as (iv2 & _ & Hext2).
      pose proof Hext2 as Hext3. unfold extent_of in Hext3. rewrite HA in Hext3. injection Hext3 as <-.
      apply extent_of_Ok in Hext2 as (_ & Hok & H0 & Hend & _ & HA2);
        [|done|apply Hb|pose proof (rb_stored _ _ _ Hb); lia].
      destruct iv' as [i1 i2]. cbn in HA, H0, Hend, HA2 |- *. rewrite HA in HA2. injection HA2 as ?. f_equal. lia. }
    unfold address in Ha. rewrite HA in Ha. injection Ha as <-. apply Hcov. lia. }
  destruct (Hx k1 ref1 H1 A1) as (iv1 & Hl1 & E1), (Hx k2 ref2 H2 A2) as (iv2 & Hl2 & E2).
  pose proof (i_disjoint _ Hi) as Hdis. apply disjoint_all_app in Hdis as (Hdis & _ & _).
  pose proof (disjoint_all_submseteq _ _ (m_exts _ _ _ _ _ _ _ _ Hm) Hdis) as Hd2.
  pose proof (extents_apart _ _ _ _ _ Hd2 Hl1 Hl2 Hne) as Ho. by apply (ext_addr_disjoint iv1 iv2 a Ho).
Qed.

(** C35: a read can return the bytes of another object.  An object [fid] is looked up; while the read
    waits, puts and trims of the disk go on as in C31, and when it is made another object [g], at least as
    long, lies where the reference that was looked up points.  Then the reference of [fid] has been replaced in between,
    though the disk still holds [fid] with its bytes; and the read returns, without an error, the first
    bytes of [g].  In the witness a trim packs [fid] and a put is then given the slot it had. *)
Theorem stale_read Hash HashString cfg s pws s' pws' fid ref l g refg l' a :
  (∀ l, is_u64 (Hash l)) → history_ok s pws → rtc (disk_step Hash HashString cfg) (s, pws) (s', pws') →
  confirmed s !! fid = Some ref → contents s fid = Some l →
  confirmed s' !! g = Some refg → contents s' g = Some l' → r_fid refg ≠ r_fid ref →
  address (diskBytes s') ref = Ok a → address (diskBytes s') refg = Ok a → (length l ≤ length l')%nat →
  confirmed s' !! fid ≠ Some ref ∧ contents s' fid = Some l ∧
  ∃ b, late_get fid s s' = Ok b ∧ buf_list b = take (length l) l'.
Proof.
  intros HH Hok Hrtc Hf Hl Hg Hl' Hne A1 A2 Hlen.
  destruct (steps_keep Hash HashString cfg HH _ _ Hrtc Hok) as [Hok' Hc]. cbn [fst snd] in *.
  destruct (hi_log _ _ Hok) as (gs & Hr & _), (hi_log _ _ Hok') as (gs' & Hr' & _).
  pose proof Hr' as [Hi' He' Hf' _ _ _ _ _]. split; [|split; [by apply Hc|]].
  { intros Hf2. apply Hne. by eapply address_owner. }
  assert (Hn : Z.of_nat (length l) = r_size ref).
  { unfold contents in Hl. rewrite Hf in Hl. injection Hl as <-. by eapply length_ref_bytes; [apply Hr|apply Hr|]. }
  assert (Hn' : Z.of_nat (length l') = r_size refg).
  { unfold contents in Hl'. rewrite Hg in Hl'. injection Hl' as <-. by eapply length_ref_bytes. }
  destruct (readRange_bytes s' g refg 0 (r_size ref) Hi' He' Hf' Hg ltac:(lia) ltac:(lia)) as (b & Hb & _ & Hbl).
  exists b. split.
  - unfold late_get, lookup_fid. rewrite (rd_err _ _ Hr), Hf.
    enough (E : readRange None ref 0 (r_size ref) s' = readRange None refg 0 (r_size ref) s') by (by rewrite E, Hb).
    unfold readRange, address in *.
    destruct (AddrForFID _ (r_fid ref) _) as [[[a1 ?] ?]|]; [|done]. destruct (AddrForFID _ (r_fid refg) _) as [[[a2 ?] ?]|]; [|done].
    injection A1 as A1. injection A2 as A2. by rewrite A1, A2.
  - rewrite Hbl, <- Hn, Z.sub_0_r, Nat2Z.id. cbn [Z.to_nat drop]. f_equal.
    unfold contents in Hl'. rewrite Hg in Hl'. by injection Hl'.
Qed.

Definition demo_reader : DeviceState := (demo_objects demo_state).2.
Definition demo_trimmed : DeviceState :=
  (maybeTrim demo_hash (λ _, 7) demo_cfg demo_env "" "dev" (demo_reader, demo_status)).2.1.
(** The fid of an object in the slot that object 5 had. *)
Definition demo_fid : Z := 5 + (diskBytes demo_state - GridStart) / SlotSize.
Definition demo_reused : res unit * DeviceState :=
  put_object demo_fid 10 0 (demo_bytes 10 x44) demo_trimmed.

#[local] Strategy expand [demo_reused demo_trimmed demo_reader].

Lemma trim_put_steps s m p :
  history_ok s [] → index_room s → m = maybeTrim demo_hash (λ _, 7) demo_cfg demo_env "" "dev" (s, demo_status) →
  p = put_object demo_fid 10 0 (demo_bytes 10 x44) m.2.1 → p.1 = Ok tt →
  rtc (disk_step demo_hash (λ _, 7) demo_cfg) (s, []) (p.2, []).
Proof.
  intros Hok Hroom Hm Hp H1. destruct m as [r [s' t']], p as [r2 s2]. cbn [fst snd] in *. subst r2.
  eapply rtc_l; [eapply step_trim; [| |exact Hroom|apply demo_nonzero|symmetry; exact Hm]; [split; by left|done]|].
  symmetry in Hp. eapply put_object_steps; [..|exact Hp]; unfold is_u64, demo_fid; cbn; try lia; done.
Qed.

Lemma demo_history :
  history_ok demo_reader [] ∧
  rtc (disk_step demo_hash (λ _, 7) demo_cfg) (demo_reader, []) (demo_reused.2, []).
Proof.
  destruct demo_objects_ok as (s & E & Hok & Hroom).
  assert (Hs : s = demo_reader) by (unfold demo_reader; by rewrite E). rewrite Hs in Hok, Hroom. clear E Hs.
  split; [exact Hok|].
  refine (trim_put_steps demo_reader _ demo_reused Hok Hroom eq_refl eq_refl _). vm_compute. reflexivity.
Qed.

(** Object 5 is looked up, a trim packs it, and the slot it had is given to a put of ten other bytes: the
    read returns these. *)
Lemma stale_read_witness :
  contents demo_reader 5 = Some (replicate 10 x41) ∧ contents demo_reused.2 5 = Some (replicate 10 x41) ∧
  ∃ b, late_get 5 demo_reader demo_reused.2 = Ok b ∧ buf_list b = replicate 10 x44.
Proof.
  destruct demo_history as [Hok Hrtc].
  destruct (stale_read demo_hash (λ _, 7) demo_cfg demo_reader [] demo_reused.2 [] 5 (plain_ref 5 10)
    (replicate 10 x41) demo_fid (plain_ref demo_fid 10) (replicate 10 x44) (GridStart + 5 * SlotSize) demo_hash_u64 Hok Hrtc)
    as (_ & H1 & H2); [vm_compute; reflexivity..|discriminate|vm_compute; reflexivity|vm_compute; reflexivity|reflexivity|].
  split; [vm_compute; reflexivity|]. split; [exact H1|exact H2].
Defined.

