(* ===== verification/PoolTrim.v ===== *)
(** * The trim scheduler over the pool (internal/daemon/server.go, startTrimScheduler)

    Each tick of the scheduler goes over the disks and trims those that still take writes, one after
    the other, while puts are in flight on all of them; a trim that fails is logged and the next disk
    is tried.  A trim registers the container and the table it writes without asking the pool's gate,
    so that the invariant of the pool holds only as long as their fids are not those of other objects;
    [trim_bypasses_gate] is what happens otherwise. *)

From S2P Require Import Prelude Machine Loop Float Device Layout IndexScan PackedTable Interval Replay.
From S2P Require Import DirectIO DeviceState DeviceInv DeviceOps DiskStore Gate Fragmentation Chd Text Config.
From S2P Require Import MultiDisk Reader Server Pool Serve Compact CompactRun Backup Trim TrimIndex TrimWrite.
From S2P Require Import TrimStore TrimPack TrimCompact TrimCollect TrimRun TrimDisk.
From Stdlib Require Import Strings.Byte.

Definition set_disk (i : nat) (st : DeviceState) (d : Disk) (s : Server) : Server :=
  set_disks s (<[i := mkDisk st (devicePath d)]> (disks s)).

(** ** The loop over the disks *)

(** What the daemon keeps next to its disks: the status of the last trim of each, and the log. *)
Record trims := mkTrims { tr_status : list trimStatus; tr_log : list (Z * error) }.

Section tick.
Context (Hash : list byte → Z) (HashString : string → Z) (cfg : Config).

(** The environment of the trim of each disk and the fail point set. *)
Context (envs : nat → trim_env) (failPoint : string).

(** The body of the loop. *)
Definition trim_disk (i : nat) (c : Server * trims) : Server * trims :=
  let '(s, t) := c in
  match disks s !! i, tr_status t !! i with
  | Some d, Some t0 =>
      if negb (canWrite (d_state d) 1) then (s, t) else
      let '(r, (st, t1)) := maybeTrim Hash HashString cfg (envs i) failPoint (devicePath d) (d_state d, t0) in
      (set_disk i st d s,
       mkTrims (<[i := t1]> (tr_status t))
         (match r with Err e => tr_log t ++ [(diskID st, e)] | Ok _ => tr_log t end))
  | _, _ => (s, t)
  end.

Definition trim_tick (c : Server * trims) : Server * trims :=
  foldl (λ c i, trim_disk i c) c (seq 0 (length (disks c.1))).
End tick.

(** ** Puts and trims of a pool *)

(** A disk whose index is the log its maps mirror, on a device without faults. *)
Definition logged (d : DeviceState) : Prop := ∃ gs, ready d gs ∧ direct d gs.

(** What a trim of disk [i] registers is not the fid of another object, nor of a put in flight. *)
Definition unclaimed (s : Server) (d st : DeviceState) : Prop :=
  ∀ k, is_Some (confirmed st !! k) → confirmed d !! k = None →
    k ∉ pending (gate s) ∧ ∀ j dj, disks s !! j = Some dj → confirmed (d_state dj) !! k = None.

Record TrimInv (s : Server) (ops : gmap nat op) : Prop := {
  ti_pool : PoolInv s ops;
  ti_logged i d : disks s !! i = Some d → logged (d_state d);
  ti_fids k o : ops !! k = Some o → op_fid o ≠ 0
}.

Section jobs.
Context (Hash : list byte → Z) (HashString : string → Z) (cfg : Config).

(** A step of a put on working devices, for a fid that is not zero, or a whole trim of a disk. *)
Inductive job_step : pool → label → pool → Prop :=
  | job_put p lbl p' :
      step p lbl p' → quiet p'.1 → (∀ k o, p'.2 !! k = Some o → op_fid o ≠ 0) → job_step p lbl p'
  | job_trim s ops i d env failPoint t r st t' :
      disks s !! i = Some d → temp_ok env → failPoint ≠ "after-anchor-append"%string →
      index_room (d_state d) → nonzero_fids Hash HashString cfg env (d_state d) →
      maybeTrim Hash HashString cfg env failPoint (devicePath d) (d_state d, t) = (r, (st, t')) →
      unclaimed s (d_state d) st → job_step (s, ops) None (set_disk i st d s, ops).

Inductive jobs : pool → list (Z * list byte * Z) → pool → Prop :=
  | jobs_nil p : jobs p [] p
  | jobs_silent p p1 p2 tr : jobs p tr p1 → job_step p1 None p2 → jobs p tr p2
  | jobs_visible p p1 p2 tr x : jobs p tr p1 → job_step p1 (Some x) p2 → jobs p (tr ++ [x]) p2.

Lemma jobs_trans p tr1 p1 tr2 p2 : jobs p tr1 p1 → jobs p1 tr2 p2 → jobs p (tr1 ++ tr2) p2.
Proof using.
  intros H1. induction 1 as [|p1 p2 p3 tr2 H2 IH Hs|p1 p2 p3 tr2 x H2 IH Hs].
  - by rewrite app_nil_r.
  - eapply jobs_silent; eauto.
  - rewrite app_assoc. eapply jobs_visible; eauto.
Qed.
End jobs.

Lemma pool_contents_Some s k l :
  pool_contents s k = Some l → ∃ j x, disks s !! j = Some x ∧ contents (d_state x) k = Some l.
Proof.
  unfold pool_contents. induction (disks s) as [|x ds IH]; [done|]. cbn.
  destruct (contents (d_state x) k) eqn:E; cbn.
  - intros [= ->]. by exists 0%nat, x.
  - intros H. destruct (IH H) as (j & y & Hy & Hc). by exists (S j), y.
Qed.

(** ** A disk that is replaced by one with more objects *)
Record grown (s : Server) (d st : DeviceState) : Prop := {
  gr_inv : Inv st;
  gr_err : indexErr st = None;
  gr_same : same_disk d st;
  gr_bytes k l : contents d k = Some l → contents st k = Some l;
  gr_new : unclaimed s d st
}.

Section replace.
Context (s : Server) (ops : gmap nat op) (i : nat) (d : Disk) (st : DeviceState).
Context (HP : PoolInv s ops) (Hd : disks s !! i = Some d) (Hg : grown s (d_state d) st).

Let s' := set_disk i st d s.

Lemma replaced j x : disks s' !! j = Some x →
  j = i ∧ x = mkDisk st (devicePath d) ∨ j ≠ i ∧ disks s !! j = Some x.
Proof using Hd.
  unfold s', set_disk, set_disks. cbn [disks].
  destruct (decide (j = i)) as [->|Hne].
  - rewrite list_lookup_insert_eq by (by eapply lookup_lt_Some). intros [= <-]. by left.
  - rewrite list_lookup_insert_ne by done. by right.
Qed.

Lemma replaced_here : disks s' !! i = Some (mkDisk st (devicePath d)).
Proof using Hd. apply list_lookup_insert_eq. by eapply lookup_lt_Some. Qed.

(** A fid of the pool after it is one of before, on the same disk, or is new on disk [i]. *)
Lemma replaced_fid j x k : disks s' !! j = Some x → is_Some (confirmed (d_state x) !! k) →
  (∃ x0, disks s !! j = Some x0 ∧ is_Some (confirmed (d_state x0) !! k)) ∨
  j = i ∧ k ∉ pending (gate s) ∧ ∀ j0 x0, disks s !! j0 = Some x0 → confirmed (d_state x0) !! k = None.
Proof using Hd Hg.
  intros [[-> ->]|[_ Hx]]%replaced Hk; [|by left; exists x].
  cbn [d_state] in Hk. destruct (confirmed (d_state d) !! k) eqn:E; [left; exists d; eauto|right].
  split; [done|]. apply (gr_new _ _ _ Hg k Hk E).
Qed.

Lemma replaced_prepared pw : prepared (d_state d) pw → prepared st pw.
Proof using Hg.
  destruct (gr_same _ _ _ Hg) as (Hb & _ & Hp & _). intros Hpw.
  apply (prepared_transfer (d_state d)); [done| |done]. rewrite Hp. apply Hpw.
Qed.

Lemma replaced_payload pw : prepared (d_state d) pw → payload_bytes st pw = payload_bytes (d_state d) pw.
Proof using HP Hd Hg.
  intros Hpw. destruct (gr_same _ _ _ Hg) as (_ & _ & _ & _ & Hp). unfold payload_bytes.
  destruct (prepared_geometry _ pw (pi_disks _ _ HP i d Hd) Hpw) as (_ & _ & _ & Hcov & _ & _ & Hext).
  pose proof (pp_size _ _ Hpw). apply bytes_at_ext. intros a Ha.
  apply (Hp (pw_iv pw)); [apply Hpw|]. apply Hext. lia.
Qed.

Lemma PoolInv_grown : PoolInv s' ops.
Proof using HP Hd Hg.
  destruct (gr_same _ _ _ Hg) as (Hb & _ & Hp & _). constructor.
  - intros j x [[_ ->]|[_ Hx]]%replaced; [apply Hg|by eapply pi_disks].
  - intros j1 j2 x1 x2 f H1 H2 Hf1 Hf2.
    destruct (replaced_fid j1 x1 f H1 Hf1) as [(y1 & Hy1 & Hk1)|(E1 & _ & Hn1)],
      (replaced_fid j2 x2 f H2 Hf2) as [(y2 & Hy2 & Hk2)|(E2 & _ & Hn2)].
    + by apply (pi_unique _ _ HP j1 j2 y1 y2 f).
    + rewrite (Hn2 j1 y1 Hy1) in Hk1. by destruct Hk1.
    + rewrite (Hn1 j2 y2 Hy2) in Hk2. by destruct Hk2.
    + congruence.
  - apply HP.
  - apply HP.
  - intros k o j x f Hk Hnd Hf Hx. apply eq_None_not_Some. intros Hs.
    destruct (replaced_fid j x f Hx Hs) as [(y & Hy & Hs')|(_ & Hn & _)].
    + rewrite (pi_free _ _ HP k o j y f Hk Hnd Hf Hy) in Hs'. by destruct Hs'.
    + apply Hn, (pi_gate _ _ HP). eauto.
  - intros k o j pw Hk Hh. destruct (pi_holds _ _ HP k o j pw Hk Hh) as (Hf & x & Hx & Hpw).
    split; [done|]. destruct (decide (j = i)) as [->|Hne].
    + rewrite Hd in Hx. injection Hx as <-. eexists. split; [apply replaced_here|]. by apply replaced_prepared.
    + exists x. split; [|done]. unfold s', set_disk, set_disks. cbn [disks]. by rewrite list_lookup_insert_ne.
  - intros k o j pw l x Hk Hph Hx. assert (Hh : op_holds o = Some (j, pw)) by (unfold op_holds; by rewrite Hph).
    destruct (pi_holds _ _ HP k o j pw Hk Hh) as (_ & y & Hy & Hpw).
    rewrite <- (pi_written _ _ HP k o j pw l y Hk Hph Hy).
    apply replaced in Hx as [[-> ->]|[_ Hx]]; [|congruence].
    rewrite Hd in Hy. injection Hy as <-. by apply replaced_payload.
  - apply HP.
  - intros j x iv [[-> ->]|[_ Hx]]%replaced Hin; [|by apply (pi_leak _ _ HP j x)].
    cbn [d_state] in Hin. rewrite Hp in Hin. by apply (pi_leak _ _ HP i d).
  - apply HP.
  - intros j x e [[-> ->]|[_ Hx]]%replaced He; [|by eapply pi_fault].
    cbn [d_state] in He. by rewrite (gr_err _ _ _ Hg) in He.
Qed.

Lemma grown_contents k l : pool_contents s k = Some l → pool_contents s' k = Some l.
Proof using HP Hd Hg.
  intros (j & x & Hx & Hc)%pool_contents_Some.
  destruct (decide (j = i)) as [->|Hne].
  - rewrite Hd in Hx. injection Hx as <-. apply (pool_contents_at s' ops i _ k l PoolInv_grown replaced_here).
    by apply Hg.
  - apply (pool_contents_at s' ops j x k l PoolInv_grown); [|done].
    unfold s', set_disk, set_disks. cbn [disks]. by rewrite list_lookup_insert_ne.
Qed.
End replace.

(** ** Steps keep the logs *)
Lemma logged_file d f :
  logged d → agrees (intervals d) (ds_file d) f → f_faults f = [] → logged (set_file d f).
Proof. intros (gs & Hr & Hdir) Ha Hf. exists gs. split; [by apply ready_file|done]. Qed.

Lemma logged_pending d pend :
  logged d → Inv (set_extents d (intervals d) pend) → logged (set_extents d (intervals d) pend).
Proof. intros (gs & Hr & Hdir) Hi. exists gs. split; [by apply ready_pending|done]. Qed.

Lemma logged_insert s i d st :
  (∀ j x, disks s !! j = Some x → logged (d_state x)) → disks s !! i = Some d → logged st →
  ∀ j x, disks (set_disk i st d s) !! j = Some x → logged (d_state x).
Proof. intros Hl Hd Hst j x [[_ ->]|[_ Hx]]%replaced; [done|by eapply Hl|done]. Qed.

Lemma step_logged p lbl p' :
  TrimInv p.1 p.2 → step p lbl p' → quiet p'.1 →
  ∀ i d, disks p'.1 !! i = Some d → logged (d_state d).
Proof.
  intros [HP Hl Hnz] Hstep Hq. destruct Hstep as
    [fo k fid size al s ops g|k o s ops Hk Hph|k o i pw s s' ops Hk Hph E|k o i pw d f s ops Hk Hph Hd Hf
    |k o i pw acq r s s' ops Hk Hph Hr E|k o i pw acq r e s s' ops Hk Hph Hr E|k o i pw l s ops Hk Hph
    |k o i pw l s s' ops Hk Hph E|k o i pw l e s s' ops Hk Hph E|k o i pw res s s' ops Hk Hph E
    |k o s ops Hk Hph]; cbn [fst snd] in *; try exact Hl;
    try (assert (Hh : op_holds o = Some (i, pw)) by (unfold op_holds; by rewrite Hph);
         destruct (holding s ops k o i pw HP Hk Hh) as (d0 & Hd0 & Hi & Hpw & Hpf));
    try (apply on_disk_inv in E as (d & st & Hd & E & ->); [|by (left + (right; eauto))]);
    try (rewrite Hd in Hd0; injection Hd0 as <-);
    pose proof (Hl i d Hd) as (gs & Hrd & Hdir); pose proof (pi_args _ _ HP k o Hk) as (Hu1 & Hu2 & Hu3).
  - apply (logged_insert s i d st Hl Hd).
    pose proof (PrepareWrite_outcome _ _ _ (rd_inv _ _ Hrd) Hu1 Hu2) as H. rewrite E in H.
    destruct H as (_ & _ & _ & -> & Hi & _). apply logged_pending; [by exists gs|done].
  - unfold disk_file in *. rewrite (on_disk_Some _ _ _ d) in * by done. cbn [fst snd] in *.
    apply (logged_insert s i d _ Hl Hd). apply logged_file; [by exists gs| |].
    + apply (only_extent_agrees _ (pw_iv pw)); [done|apply Hpw|done].
    + apply (Hq i (mkDisk (set_file (d_state d) f) (devicePath d))). apply list_lookup_insert_eq.
      by eapply lookup_lt_Some.
  - apply (logged_insert s i d st Hl Hd).
    pose proof (write_safe _ gs pw acq r Hrd Hdir Hpw Hr) as (H1 & H2 & _). rewrite E in H1, H2. by exists gs.
  - apply (logged_insert s i d st Hl Hd).
    pose proof (write_safe _ gs pw acq r Hrd Hdir Hpw Hr) as (H1 & H2 & _). rewrite E in H1, H2. by exists gs.
  - apply (logged_insert s i d st Hl Hd).
    pose proof (commit_safe _ gs pw (op_alias o) Hrd Hdir Hpw Hu3 ltac:(rewrite Hpf; by eapply Hnz)) as [H _].
    by rewrite E in H.
  - apply (logged_insert s i d st Hl Hd).
    pose proof (commit_safe _ gs pw (op_alias o) Hrd Hdir Hpw Hu3 ltac:(rewrite Hpf; by eapply Hnz)) as [H _].
    by rewrite E in H.
  - apply (logged_insert s i d st Hl Hd). injection E as _ <-.
    apply logged_pending; [by exists gs|]. by apply release_Inv.
Qed.

Lemma logged_healthy s : (∀ i d, disks s !! i = Some d → logged (d_state d)) → healthy s ∧ quiet s.
Proof. intros Hl. split; intros i d Hd; destruct (Hl i d Hd) as (gs & Hr & _); apply Hr. Qed.

Section keep.
Context (Hash : list byte → Z) (HashString : string → Z) (cfg : Config).
Context (HH : ∀ l, is_u64 (Hash l)).

Lemma trim_grown s d path env failPoint t r st t' :
  logged d → temp_ok env → failPoint ≠ "after-anchor-append"%string → index_room d →
  nonzero_fids Hash HashString cfg env d →
  maybeTrim Hash HashString cfg env failPoint path (d, t) = (r, (st, t')) → unclaimed s d st →
  grown s d st ∧ logged st.
Proof using HH.
  intros (gs & Hr & Hdir) Htmp Hfp Hroom Hnz E Hnew.
  pose proof (trim_outcome Hash HashString cfg env failPoint path d gs t HH Hr Hdir (trim_room_of d gs Hr Hroom)
    Htmp Hnz Hfp) as H. rewrite E in H. destruct H as [[gs' [Hr' Hdir' Hsd Hb]] _].
  split; [|by exists gs']. constructor; try done; apply Hr'.
Qed.

(** What a step adds to a pool that holds at least [m]. *)
Definition at_least (m m' : store) : Prop := ∀ k l, m k = Some l → m' k = Some l.

Lemma apply_label_mono m m' x : at_least m m' → at_least (apply_label m x) (apply_label m' x).
Proof using. intros H k l. unfold apply_label, store_put. repeat case_decide; auto. Qed.

Lemma job_step_keeps p lbl p' :
  TrimInv p.1 p.2 → job_step Hash HashString cfg p lbl p' →
  TrimInv p'.1 p'.2 ∧ at_least (foldl apply_label (pool_contents p.1) (option_list lbl)) (pool_contents p'.1).
Proof using HH.
  intros HT Hs. destruct Hs as [p lbl p' Hstep Hq Hnz|s ops i d env failPoint t r st t' Hd Htmp Hfp Hroom Hnf E Hun].
  - pose proof (step_logged p lbl p' HT Hstep Hq) as Hl. pose proof (step_PoolInv _ _ _ (ti_pool _ _ HT) Hstep) as HP.
    split; [by constructor|]. destruct (logged_healthy _ Hl) as [Hh _].
    pose proof (step_contents p lbl p' (ti_pool _ _ HT) Hstep Hh) as Hc. intros k l.
    destruct lbl as [[[fid bs] al]|]; cbn [option_list foldl].
    + destruct Hc as (_ & _ & _ & ->). done.
    + by rewrite Hc.
  - cbn [fst snd option_list foldl] in *. destruct HT as [HP Hl Hnz].
    destruct (trim_grown s _ _ _ _ _ _ _ _ (Hl i d Hd) Htmp Hfp Hroom Hnf E Hun) as [Hg Hst].
    split; [constructor; [by apply PoolInv_grown|exact (logged_insert s i d st Hl Hd Hst)|done]|].
    intros k l. by apply (grown_contents s ops i d st).
Qed.

Lemma jobs_keep p tr p' :
  TrimInv p.1 p.2 → jobs Hash HashString cfg p tr p' →
  TrimInv p'.1 p'.2 ∧ at_least (foldl apply_label (pool_contents p.1) tr) (pool_contents p'.1).
Proof using HH.
  intros HT. induction 1 as [p|p p1 p2 tr Hr IH Hs|p p1 p2 tr x Hr IH Hs]; [split; [done|by intros k l]| |];
    destruct (IH HT) as [H1 Hc1]; destruct (job_step_keeps _ _ _ H1 Hs) as [H2 Hc2]; (split; [done|]);
    cbn [option_list foldl] in Hc2; intros k l Hk.
  - by apply Hc2, Hc1.
  - rewrite foldl_snoc in Hk. apply Hc2. by eapply apply_label_mono.
Qed.
End keep.

(** ** The tick *)
Section tick_keeps.
Context (Hash : list byte → Z) (HashString : string → Z) (cfg : Config).
Context (envs : nat → trim_env) (failPoint : string).

Notation trim_disk := (trim_disk Hash HashString cfg envs failPoint).
Notation trim_tick := (trim_tick Hash HashString cfg envs failPoint).

Lemma maybeTrim_check env path s t :
  t_LastCheckAt (maybeTrim Hash HashString cfg env failPoint path (s, t)).2.2 = te_checkAt env.
Proof using.
  unfold maybeTrim. destruct (collectTrimCandidatesLocked _ _ _) as [[[[[cs threshold] small] tot]|e] s1]; [|done].
  destruct (_ || _); [done|]. destruct (negb _); [done|].
  unfold trim_steps. repeat case_match; simplify_eq; done.
Qed.

(** One turn: the disk is trimmed, or left alone. *)
Lemma trim_disk_turn i s t d t0 :
  disks s !! i = Some d → tr_status t !! i = Some t0 → canWrite (d_state d) 1 = true →
  ∃ r st t1, maybeTrim Hash HashString cfg (envs i) failPoint (devicePath d) (d_state d, t0) = (r, (st, t1)) ∧
    (trim_disk i (s, t)).1 = set_disk i st d s ∧ tr_status (trim_disk i (s, t)).2 = <[i := t1]> (tr_status t) ∧
    t_LastCheckAt t1 = te_checkAt (envs i).
Proof using.
  intros Hd Ht Hw. unfold PoolTrim.trim_disk. rewrite Hd, Ht, Hw. cbn [negb].
  pose proof (maybeTrim_check (envs i) (devicePath d) (d_state d) t0) as Hc.
  destruct (maybeTrim _ _ _ _ _ _ _) as [r [st t1]]. by exists r, st, t1.
Qed.

Lemma trim_disk_skip i s t :
  (∀ d, disks s !! i = Some d → canWrite (d_state d) 1 = false) → trim_disk i (s, t) = (s, t).
Proof using.
  intros H. unfold PoolTrim.trim_disk. destruct (disks s !! i) as [d|]; [|done]. rewrite (H d) by done. by destruct (tr_status t !! i).
Qed.

Lemma trim_disk_other i j c :
  j ≠ i → disks (trim_disk i c).1 !! j = disks c.1 !! j ∧ tr_status (trim_disk i c).2 !! j = tr_status c.2 !! j.
Proof using.
  intros Hne. destruct c as [s t]. unfold PoolTrim.trim_disk. destruct (disks s !! i) as [d|]; [|done].
  destruct (tr_status t !! i) as [t0|]; [|done]. destruct (negb _); [done|].
  destruct (maybeTrim _ _ _ _ _ _ _) as [r [st t1]]. cbn. by rewrite !list_lookup_insert_ne.
Qed.

(** When the turn of a disk that takes writes comes, it has room in its index, its trim gives no object
    the fid 0, and what the trim registers is new to the pool. *)
Fixpoint tick_ok (idx : list nat) (c : Server * trims) : Prop :=
  match idx with
  | [] => True
  | i :: idx =>
      (∀ d, disks c.1 !! i = Some d → canWrite (d_state d) 1 = true → index_room (d_state d) ∧
        nonzero_fids Hash HashString cfg (envs i) (d_state d) ∧
        ∀ t r st t', maybeTrim Hash HashString cfg (envs i) failPoint (devicePath d) (d_state d, t) = (r, (st, t')) →
          unclaimed c.1 (d_state d) st) ∧
      tick_ok idx (trim_disk i c)
  end.

(** The disks the loop still has to visit and what it leaves of them. *)
Lemma turns_outcome ops idx : ∀ s t,
  NoDup idx → (∀ i, temp_ok (envs i)) → failPoint ≠ "after-anchor-append"%string → tick_ok idx (s, t) →
  let c' := foldl (λ c i, trim_disk i c) (s, t) idx in
  jobs Hash HashString cfg (s, ops) [] (c'.1, ops) ∧
  (∀ i, i ∉ idx → disks c'.1 !! i = disks s !! i ∧ tr_status c'.2 !! i = tr_status t !! i) ∧
  (∀ i d t0, i ∈ idx → disks s !! i = Some d → tr_status t !! i = Some t0 →
    if canWrite (d_state d) 1 then ∃ t1, tr_status c'.2 !! i = Some t1 ∧ t_LastCheckAt t1 = te_checkAt (envs i)
    else disks c'.1 !! i = Some d ∧ tr_status c'.2 !! i = Some t0).
Proof using.
  induction idx as [|i idx IH]; intros s t Hnd Htmp Hfp Hok; cbn [foldl].
  { split; [constructor|]. split; [done|]. intros i d t0 Hin. by apply not_elem_of_nil in Hin. }
  apply NoDup_cons in Hnd as [Hni Hnd]. destruct Hok as [Hi Hok].
  destruct (trim_disk i (s, t)) as [s1 t1] eqn:E1. destruct (IH s1 t1 Hnd Htmp Hfp Hok) as (HJ & Hout & Hin).
  assert (Hother : ∀ j, j ≠ i → disks s1 !! j = disks s !! j ∧ tr_status t1 !! j = tr_status t !! j).
  { intros j Hj. pose proof (trim_disk_other i j (s, t) Hj) as H. by rewrite E1 in H. }
  assert (Hstep : jobs Hash HashString cfg (s, ops) [] (s1, ops)).
  { destruct (disks s !! i) as [d|] eqn:Hd, (tr_status t !! i) as [t0|] eqn:Ht;
      try (unfold PoolTrim.trim_disk in E1; rewrite Hd, ?Ht in E1; injection E1 as <- <-; constructor).
    destruct (canWrite (d_state d) 1) eqn:Hw.
    - destruct (trim_disk_turn i s t d t0 Hd Ht Hw) as (r & st & t2 & Hm & Es & _). rewrite E1 in Es. cbn in Es. subst s1.
      destruct (Hi d Hd Hw) as (Hroom & Hnz & Hun). eapply jobs_silent; [constructor|].
      eapply job_trim; [exact Hd|apply Htmp|done|exact Hroom|exact Hnz|exact Hm|by eapply Hun].
    - rewrite trim_disk_skip in E1 by (intros d' Hd'; congruence). injection E1 as <- <-. constructor. }
  split; [by apply (jobs_trans _ _ _ _ [] (s1, ops) [])|]. split.
  - intros j [Hj1 Hj2]%not_elem_of_cons. destruct (Hother j Hj1) as [<- <-]. by apply Hout.
  - intros j d t0 [->|Hj]%elem_of_cons Hd Ht.
    + destruct (Hout i Hni) as [-> ->]. destruct (canWrite (d_state d) 1) eqn:Hw.
      * destruct (trim_disk_turn i s t d t0 Hd Ht Hw) as (r & st & t2 & _ & _ & Et & Hc). rewrite E1 in Et.
        cbn in Et. exists t2. rewrite Et. split; [|done]. apply list_lookup_insert_eq. by eapply lookup_lt_Some.
      * rewrite trim_disk_skip in E1 by (intros d' Hd'; congruence). injection E1 as <- <-. done.
    + assert (Hne : j ≠ i) by (intros ->; done). destruct (Hother j Hne) as [Ed Et].
      apply Hin; [done|by rewrite Ed|by rewrite Et].
Qed.
End tick_keeps.

(** ** Properties *)

(** C11: what was put stays in the pool while it is trimmed.  Whatever the interleaving of the steps of
    any number of puts, on working devices and for fids other than zero, with trims of the disks that
    stop anywhere (their fail point between the anchor and the registration of its table excepted),
    the pool keeps its invariant, no disk fails, and it holds at least what the puts alone would have
    left: the objects of the start and every object put since, each with its bytes.  Of each trim this
    asks that its disk has fewer than 131070 index entries, that its temporary files start empty or
    cannot be created, that neither its container nor its table hashes to 0, and that no fid it registers
    is one of another disk or of a put in flight; the code checks none of the last two. *)
Theorem pool_trims_keep_objects Hash HashString cfg p tr p' :
  (∀ l, is_u64 (Hash l)) → TrimInv p.1 p.2 → jobs Hash HashString cfg p tr p' →
  TrimInv p'.1 p'.2 ∧ healthy p'.1 ∧
  at_least (foldl apply_label (pool_contents p.1) tr) (pool_contents p'.1).
Proof.
  intros HH HT Hj. destruct (jobs_keep Hash HashString cfg HH p tr p' HT Hj) as [HT' Hc].
  split; [exact HT'|]. split; [|exact Hc]. apply logged_healthy. apply HT'.
Qed.


(** ** A pool of one disk with three objects *)
Definition one_disk (d : DeviceState) : Server :=
  mkServer [mkDisk d "dev"] newPoolGate 0 0 fifth false.

Lemma one_disk_TrimInv d : history_ok d [] → TrimInv (one_disk d) ∅.
Proof.
  intros [(gs & Hr & Hdir) _ Hp]. apply Permutation_nil_r in Hp. split; [|intros [|i] x [= <-]; by exists gs|done].
  apply PoolInv_initial; [|intros [|i] [|j] di dj fid Hi Hj; done|done].
  intros [|i] x [= <-]. split; [apply Hr|]. split; [apply Hr|exact Hp].
Qed.

Lemma one_disk_unclaimed d st : unclaimed (one_disk d) d st.
Proof. intros k _ Hn. split; [apply not_elem_of_empty|]. by intros [|j] dj [= <-]. Qed.

Lemma pool_trims_keep_objects_witness :
  ∃ d r st t', demo_objects demo_state = (Ok tt, d) ∧
    maybeTrim demo_hash (λ _, 7) demo_cfg demo_env "" "dev" (d, demo_status) = (r, (st, t')) ∧
    TrimInv (one_disk st) ∅ ∧ at_least (pool_contents (one_disk d)) (pool_contents (one_disk st)).
Proof.
  destruct demo_objects_ok as (d & E & Hok & Hroom).
  destruct (maybeTrim demo_hash (λ _, 7) demo_cfg demo_env "" "dev" (d, demo_status)) as [r [st t']] eqn:Et.
  exists d, r, st, t'. split; [exact E|]. split; [exact Et|].
  destruct (pool_trims_keep_objects demo_hash (λ _, 7) demo_cfg (one_disk d, ∅) [] (one_disk st, ∅)
    demo_hash_u64 (one_disk_TrimInv d Hok)) as (H1 & _ & H2).
  - eapply jobs_silent; [constructor|].
    apply (job_trim demo_hash (λ _, 7) demo_cfg (one_disk d) ∅ 0 (mkDisk d "dev") demo_env "" demo_status r st t');
      [reflexivity|split; by left|discriminate|exact Hroom|apply demo_nonzero|exact Et|apply one_disk_unclaimed].
  - split; [exact H1|exact H2].
Defined.


(** ** A container whose fid another disk holds *)
Definition second_image : Z → byte :=
  upd (λ _, x00) 0 (buf_of (magic_NBSS ++ le_bytes 2 FormatVersion ++ le_bytes 2 0 ++ le_bytes 8 8)).
Definition second_state : DeviceState := fresh_state second_image demo_size false 8.

Lemma second_fresh : history_ok second_state [].
Proof.
  apply fresh_history; [apply demo_Inv|repeat split; vm_compute; reflexivity|].
  intros a Ha. unfold second_image. rewrite upd_out; [done|]. right. cbn. llia.
Qed.

(** The two small objects of the first disk, one after the other. *)
Definition joined : list byte := replicate 10 x41 ++ replicate 20 x42.
Definition two_disks (a b : DeviceState) : Server :=
  mkServer [mkDisk a "/dev/sda"; mkDisk b "/dev/sdb"] newPoolGate 0 0 fifth false.

Lemma second_object :
  ∃ b, put_object (demo_hash joined) 30 0 (Stream (buf_of joined) 0 EEOF) second_state = (Ok tt, b) ∧ history_ok b [].
Proof.
  destruct (put_object (demo_hash joined) 30 0 (Stream (buf_of joined) 0 EEOF) second_state) as [r b] eqn:E.
  assert (Hr : r = Ok tt) by (change r with ((r, b).1); rewrite <- E; vm_compute; reflexivity).
  subst r. exists b. split; [done|].
  apply (steps_keep demo_hash (λ _, 7) demo_cfg demo_hash_u64 (second_state, []) (b, [])); [|apply second_fresh].
  pose proof (demo_hash_range joined) as Hfid.
  apply (put_object_steps demo_hash (λ _, 7) demo_cfg second_state [] (demo_hash joined) 30 0
    (Stream (buf_of joined) 0 EEOF) b); [unfold is_u64; lia|lia|unfold is_u64; lia|unfold is_u64; lia| |exact E].
  unfold st_remaining, buf_of. cbn [st_data st_pos blen]. lia.
Qed.

Lemma two_disks_PoolInv a b :
  history_ok a [] → history_ok b [] → dom (confirmed a) ∩ dom (confirmed b) = ∅ →
  PoolInv (two_disks a b) ∅ ∧ healthy (two_disks a b).
Proof.
  intros [(ga & Ha & _) _ Hpa] [(gb & Hb & _) _ Hpb] Hdis.
  apply Permutation_nil_r in Hpa. apply Permutation_nil_r in Hpb.
  assert (Hno : ∀ f, is_Some (confirmed a !! f) → is_Some (confirmed b !! f) → False).
  { intros f H1%elem_of_dom H2%elem_of_dom. apply (not_elem_of_empty (C := gset Z) f). rewrite <- Hdis. by apply elem_of_intersection. }
  split; [apply PoolInv_initial; [| |done]|].
  - intros [|[|i]] d [= <-]; (split; [by apply Ha || apply Hb|]); (split; [by apply Ha || apply Hb|done]).
  - intros [|[|i]] [|[|j]] di dj fid [= <-] [= <-] H1 H2; try done; by destruct (Hno fid).
  - intros [|[|i]] d [= <-]; [apply Ha|apply Hb].
Qed.

(** The devices behind the pool after the trim. *)
Section bypass.
Context (Hash : list byte → Z) (HashString : string → Z) (cfg : Config) (HH : ∀ l, is_u64 (Hash l)).
Context (s : Server) (ops : gmap nat op) (i : nat) (d : Disk) (env : trim_env) (failPoint : string).
Context (t : trimStatus) (r : res unit) (st : DeviceState) (t' : trimStatus).
Context (HT : TrimInv s ops) (Hd : disks s !! i = Some d) (Htmp : temp_ok env).
Context (Hfp : failPoint ≠ "after-anchor-append"%string) (Hroom : index_room (d_state d)).
Context (Hnz : nonzero_fids Hash HashString cfg env (d_state d)).
Context (E : maybeTrim Hash HashString cfg env failPoint (devicePath d) (d_state d, t) = (r, (st, t'))).

Lemma trimmed_disk : logged st ∧ TrimWrite.same_disk (d_state d) st.
Proof using All.
  destruct (ti_logged _ _ HT i d Hd) as (gs & Hr & Hdir).
  pose proof (trim_outcome Hash HashString cfg env failPoint (devicePath d) (d_state d) gs t HH Hr Hdir
    (trim_room_of (d_state d) gs Hr Hroom) Htmp Hnz Hfp) as H. rewrite E in H.
  destruct H as [[gs' [Hr' Hdir' Hsd _]] _]. split; [by exists gs'|done].
Qed.

Lemma trimmed_ids : (λ d, diskID (d_state d)) <$> disks (set_disk i st d s) = DiskIDs s.
Proof using All.
  destruct trimmed_disk as [_ (_ & Hid & _)]. unfold set_disk, set_disks, DiskIDs. cbn [disks].
  rewrite list_fmap_insert. cbn [d_state]. apply list_insert_id. rewrite list_lookup_fmap, Hd. cbn. by rewrite Hid.
Qed.

Lemma trimmed_working : Forall (λ d, Inv (d_state d) ∧ indexErr (d_state d) = None) (disks (set_disk i st d s)).
Proof using All.
  destruct trimmed_disk as [Hst _]. apply Forall_forall. intros x Hx. apply list_elem_of_lookup in Hx as [n Hn].
  destruct (logged_insert s i d st (ti_logged _ _ HT) Hd Hst n x Hn) as (gs & Hr & _). split; apply Hr.
Qed.
End bypass.

(** C39: a trim does not ask the gate of the pool.  Take a pool in its invariant, with puts in flight, whose
    disks have different ids, and a trim of one of them under the conditions of a tick, with or without an
    error.  If the trim registers a fid that another disk holds, be it that of its container (an object with
    the bytes of the small objects one after the other has it) or that of its table, then the fid was new to
    the trimmed disk and is now on two disks: the pool is out of its invariant whatever is in flight, and
    [NewServer] refuses to start again on these devices. *)
Theorem trim_bypasses_gate Hash HashString cfg env failPoint s ops i d t r st t' j dj k pool_cfg devices warnings open
    persist :
  (∀ l, is_u64 (Hash l)) → TrimInv s ops → NoDup (DiskIDs s) → disks s !! i = Some d → temp_ok env →
  failPoint ≠ "after-anchor-append"%string → index_room (d_state d) →
  nonzero_fids Hash HashString cfg env (d_state d) →
  maybeTrim Hash HashString cfg env failPoint (devicePath d) (d_state d, t) = (r, (st, t')) →
  j ≠ i → disks s !! j = Some dj → is_Some (confirmed (d_state dj) !! k) → is_Some (confirmed st !! k) →
  0 < ReservationStallTimeout pool_cfg → 0 < PoolGateFanoutTimeout pool_cfg →
  Forall2 (λ dev d, ∃ direct, backs open dev d direct) devices (disks (set_disk i st d s)) →
  confirmed (d_state d) !! k = None ∧ (∀ ops', ¬ PoolInv (set_disk i st d s) ops') ∧
  NewServer pool_cfg (Ok devices) warnings open persist = Err (EMsg "fid registered on multiple disks").
Proof.
  intros HH HT Hnd Hd Htmp Hfp Hroom Hnz E Hji Hj Hk Hkst Ht1 Ht2 Hb.
  assert (Hi' : disks (set_disk i st d s) !! i = Some (mkDisk st (devicePath d))).
  { apply list_lookup_insert_eq. by eapply lookup_lt_Some. }
  assert (Hj' : disks (set_disk i st d s) !! j = Some dj).
  { unfold set_disk, set_disks. cbn [disks]. by rewrite list_lookup_insert_ne. }
  split; [|split].
  - apply eq_None_not_Some. intros Hkd. by apply Hji, (pi_unique _ _ (ti_pool _ _ HT) j i dj d k).
  - intros ops' HP. by apply Hji, (pi_unique _ _ HP j i dj (mkDisk st (devicePath d)) k Hj' Hi').
  - apply (NewServer_clash pool_cfg devices warnings open persist _ j i dj (mkDisk st (devicePath d)) k Ht1 Ht2 Hb); try done.
    + by eapply trimmed_working.
    + by erewrite trimmed_ids.
Qed.

Lemma trim_bypasses_gate_witness :
  ∃ a b a' t' devices open,
    maybeTrim demo_hash (λ _, 7) demo_cfg demo_env "" "/dev/sda" (a, demo_status) = (Ok tt, (a', t')) ∧
    contents b (demo_hash joined) = Some joined ∧ contents a' (demo_hash joined) = Some joined ∧
    PoolInv (two_disks a b) ∅ ∧ (∀ ops', ¬ PoolInv (two_disks a' b) ops') ∧
    NewServer DefaultConfig (Ok devices) 0 open (Ok tt) = Err (EMsg "fid registered on multiple disks").
Proof.
  destruct demo_objects_ok as (a & Ea & Ha & Hroom), second_object as (b & Eb & Hb).
  assert (Da : a = (demo_objects demo_state).2) by (by rewrite Ea).
  assert (Db : b = (put_object (demo_hash joined) 30 0 (Stream (buf_of joined) 0 EEOF) second_state).2) by (by rewrite Eb).
  destruct (maybeTrim demo_hash (λ _, 7) demo_cfg demo_env "" "/dev/sda" (a, demo_status)) as [r [a' t']] eqn:Et.
  assert (Da' : a' = (maybeTrim demo_hash (λ _, 7) demo_cfg demo_env "" "/dev/sda" (a, demo_status)).2.1) by (by rewrite Et).
  assert (Hr : r = Ok tt) by (change r with ((r, (a', t')).1); rewrite <- Et, Da; vm_compute; reflexivity). subst r.
  exists a, b, a', t', [mkPanDevice "match" "/dev/sda" "0x7" 1 0; mkPanDevice "match" "/dev/sdb" "0x8" 1 0],
    (λ path, Ok (clean (if bool_decide (path = "/dev/sda"%string) then ds_file a' else ds_file b), demo_size, false)).
  destruct (two_disks_PoolInv a b Ha Hb) as [HP _].
  { rewrite Da, Db. vm_compute. reflexivity. }
  assert (Cb : contents b (demo_hash joined) = Some joined) by (rewrite Db; vm_compute; reflexivity).
  assert (Ca : contents a' (demo_hash joined) = Some joined) by (rewrite Da', Da; vm_compute; reflexivity).
  assert (Ia : diskID a = 7) by (rewrite Da; vm_compute; reflexivity).
  assert (Ia' : diskID a' = 7) by (rewrite Da', Da; vm_compute; reflexivity).
  assert (Sa : diskBytes a' = demo_size) by (rewrite Da', Da; vm_compute; reflexivity).
  assert (Ib : diskID b = 8) by (rewrite Db; vm_compute; reflexivity).
  assert (Sb : diskBytes b = demo_size) by (rewrite Db; vm_compute; reflexivity).
  split; [exact Et|]. split; [exact Cb|]. split; [exact Ca|]. split; [exact HP|].
  refine (proj2 (trim_bypasses_gate demo_hash (λ _, 7) demo_cfg demo_env "" (two_disks a b) ∅ 0
    (mkDisk a "/dev/sda") demo_status (Ok tt) a' t' 1 (mkDisk b "/dev/sdb") (demo_hash joined) DefaultConfig
    _ 0 _ (Ok tt) demo_hash_u64 _ _ eq_refl _ _ Hroom _ Et _ eq_refl _ _ eq_refl eq_refl _)).
  - split; [exact HP| |done]. intros [|[|n]] x [= <-]; [apply Ha|apply Hb].
  - unfold DiskIDs. cbn. rewrite Ia, Ib. apply NoDup_cons. split; [|apply NoDup_singleton].
    by intros H%list_elem_of_singleton.
  - split; by left.
  - discriminate.
  - apply demo_nonzero.
  - discriminate.
  - cbn [d_state]. unfold contents in Cb. by apply fmap_Some in Cb as (x & -> & _).
  - unfold contents in Ca. by apply fmap_Some in Ca as (x & -> & _).
  - constructor; [|constructor; [|constructor]]; exists false; constructor; cbn [d_state DiskID DevicePath].
    + rewrite Ia'. vm_compute. reflexivity.
    + by rewrite Sa.
    + rewrite Ib. vm_compute. reflexivity.
    + by rewrite Sb.
Defined.
