(* ===== verification/IndexFind.v ===== *)
(** * Looking an object up in the index (internal/blk/index.go, FindLatestIndexEntry)

    [FindLatestIndexEntry] reads the index on its own, without the rules by which the daemon replays it.
    On the device of a working disk the two agree: what the daemon would read directly under a fid is
    what the search finds, and a fid that is not in the live index is not found
    ([find_agrees_with_daemon]).  It does not look into packed tables. *)

From S2P Require Import Prelude Machine Loop Device Layout IndexScan PackedTable Interval.
From S2P Require Import Replay DirectIO DeviceState DeviceInv DeviceOps DiskStore Compact CompactRun.
From S2P Require Import TrimIndex TrimWrite TrimStore TrimPack TrimCrash.
From Stdlib Require Import Strings.Byte.

(** What the search knows about [fid] after a part of the index, in terms of what a replay of the same
    part has registered. *)
Definition finds (fid : Z) (refs : gmap Z objectRef) (lt : latest) : Prop :=
  l_pending lt = None ∧
  match refs !! fid with
  | Some ref => 0 < r_size ref ∧
      lt = mkLatest (r_size ref) (r_fid ref) (storedSize ref) true (bool_decide (r_fid ref ≠ fid)) None
  | None => lt = latest0 ∨ l_found lt = true ∧ l_logicSize lt = 0
  end.

Lemma finds_other fid refs refs' lt :
  finds fid refs lt → refs' !! fid = refs !! fid → finds fid refs' lt.
Proof. unfold finds. by intros H ->. Qed.

Lemma latest_skip fid lt e :
  l_pending lt = None → IsJumpIndicator e = false → FID e ≠ fid → latest_step fid lt e = Ok lt.
Proof. intros Hp Hj Hf. unfold latest_step. rewrite Hp. cbn. by rewrite Hj, (proj2 (Z.eqb_neq _ _)). Qed.

Lemma latest_plain fid lt size :
  l_pending lt = None → size ≠ 0 →
  latest_step fid lt (mkEntry fid size 0) = Ok (mkLatest size fid size true false None).
Proof.
  intros Hp Hs. unfold latest_step, IsJumpIndicator, IsTombstone. rewrite Hp. cbn.
  rewrite Z.eqb_refl, (proj2 (Z.eqb_neq size 0)) by done. cbn. by rewrite Hp.
Qed.

Lemma latest_jump fid lt a code :
  l_pending lt = None → 1 ≤ code < 256 →
  latest_step fid lt (mkEntry a IndexJumpSentinel code) =
    Ok (mkLatest (l_logicSize lt) (l_actualFID lt) (l_actualSize lt) (l_found lt) (l_jump lt)
          (Some (mkEntry a IndexJumpSentinel code))).
Proof.
  intros Hp Hc. unfold latest_step, IsJumpIndicator. rewrite Hp. cbn.
  by rewrite (proj2 (Z.eqb_neq code 0)) by lia.
Qed.

(** The second entry of a pair. *)
Lemma latest_target fid lt a f size :
  size ≠ 0 → a ≠ f → FID <$> l_pending lt = Some a →
  latest_step fid lt (mkEntry f size 0) = Ok (
    if bool_decide (f = fid) then mkLatest size fid size true false None
    else if bool_decide (a = fid) then mkLatest (size - 1) f size true true None
    else mkLatest (l_logicSize lt) (l_actualFID lt) (l_actualSize lt) (l_found lt) (l_jump lt) None).
Proof.
  intros Hs Hne Ha. unfold latest_step, IsJumpIndicator, IsTombstone.
  destruct (l_pending lt) as [p|]; [|done]. injection Ha as <-. cbn [JumpCode Size FID].
  rewrite (proj2 (Z.eqb_neq size 0)) by done. cbn.
  destruct (Z.eqb_spec (FID p) fid) as [E|E]; cbn; rewrite ?(bool_decide_eq_true_2 _ E), ?(bool_decide_eq_false_2 _ E).
  - destruct (Z.eqb_spec f fid); [naive_solver|]. by rewrite bool_decide_eq_false_2.
  - destruct (Z.eqb_spec f fid) as [->|]; [by rewrite bool_decide_eq_true_2|]. by rewrite bool_decide_eq_false_2.
Qed.

Section find.
Context (d fid : Z).

Lemma finds_group st g st' lt :
  rest st → group_ok g → foldM (replay_entry d) st (group_entries g) = Ok st' → finds fid (rs_refs st) lt →
  ∃ lt', foldM (latest_step fid) lt (group_entries g) = Ok lt' ∧ finds fid (rs_refs st') lt'.
Proof.
  intros Hr Hg Hre Hf. apply replay_group_inv in Hre; [|done|done]. pose proof (proj1 Hf) as Hpe.
  destruct g as [f size|a code f size|f size|f]; cbn [group_entries foldM group_ok] in *.
  - destruct Hre as [_ ->]. destruct Hg as [_ Hs]. cbn [add_group rs_refs group_refs].
    destruct (decide (f = fid)) as [->|Hne].
    + rewrite latest_plain by (done || lia). eexists. split; [done|]. split; [done|].
      rewrite (lookup_union_Some_l _ _ _ (plain_ref fid size)) by apply lookup_singleton_eq.
      cbn. split; [lia|]. by rewrite bool_decide_eq_false_2 by naive_solver.
    + rewrite latest_skip by done. exists lt. split; [done|]. eapply finds_other; [done|].
      by rewrite lookup_union_r by (by apply lookup_singleton_ne).
  - destruct Hre as [_ ->]. destruct Hg as (_ & _ & _ & Hna & Hc & Hs). cbn [add_group rs_refs group_refs].
    rewrite latest_jump by done. cbn [mbind res_bind].
    rewrite (latest_target fid _ a) by (done || lia). eexists. split; [done|]. cbn [l_logicSize l_actualFID l_actualSize l_found l_jump].
    destruct (decide (f = fid)) as [->|Hf1]; [|destruct (decide (a = fid)) as [->|Hf2]].
    + rewrite bool_decide_eq_true_2 by done. split; [done|]. rewrite (lookup_union_Some_l _ _ _ (plain_ref fid size)).
      * cbn. split; [lia|]. by rewrite bool_decide_eq_false_2 by naive_solver.
      * rewrite lookup_insert_ne by done. apply lookup_singleton_eq.
    + rewrite bool_decide_eq_false_2, bool_decide_eq_true_2 by done. split; [done|].
      rewrite (lookup_union_Some_l _ _ _ (alias_ref f size)) by apply lookup_insert_eq.
      cbn. split; [lia|]. by rewrite bool_decide_eq_true_2.
    + rewrite !bool_decide_eq_false_2 by done. destruct lt as [x1 x2 x3 x4 x5 x6]. cbn in *. subst x6.
      eapply finds_other; [done|]. rewrite lookup_union_r; [done|].
      rewrite lookup_insert_ne by done. by apply lookup_singleton_ne.
  - destruct Hre as [_ ->]. destruct Hg as (_ & _ & Hs). cbn [add_group rs_refs group_refs].
    destruct (decide (f = fid)) as [->|Hne].
    + assert (E : latest_step fid lt (mkEntry fid IndexPackedSentinel PackedAnchorCode) =
        Ok (mkLatest IndexPackedSentinel fid IndexPackedSentinel true false None)).
      { unfold latest_step. rewrite Hpe. cbn. rewrite Z.eqb_refl. by rewrite Hpe. }
      rewrite E. cbn [mbind res_bind]. rewrite latest_plain by (done || lia). eexists. split; [done|]. split; [done|].
      rewrite (lookup_union_Some_l _ _ _ (plain_ref fid size)) by apply lookup_singleton_eq.
      cbn. split; [lia|]. by rewrite bool_decide_eq_false_2 by naive_solver.
    + rewrite latest_skip by done. cbn [mbind res_bind]. rewrite latest_skip by done. exists lt. split; [done|].
      eapply finds_other; [done|]. by rewrite lookup_union_r by (by apply lookup_singleton_ne).
  - subst st'. cbn [del_fid rs_refs]. destruct (decide (f = fid)) as [->|Hne].
    + unfold latest_step. rewrite Hpe. cbn. rewrite Z.eqb_refl. cbn. eexists. split; [done|]. split; [done|].
      rewrite lookup_delete_eq. by right.
    + rewrite latest_skip by done. exists lt. split; [done|]. eapply finds_other; [done|]. by rewrite lookup_delete_ne.
Qed.

Lemma finds_log gs st :
  log_ok gs → foldM (replay_entry d) rstate0 (log_of gs) = Ok st →
  ∃ lt, foldM (latest_step fid) latest0 (log_of gs) = Ok lt ∧ finds fid (rs_refs st) lt.
Proof.
  revert st. induction gs as [|g gs IH] using rev_ind; intros st Hok H.
  { injection H as <-. exists latest0. split; [done|]. split; [done|]. by left. }
  apply log_ok_snoc in Hok as (Hok & Hg & _). rewrite log_of_snoc, foldM_app in H.
  apply res_bind_Ok in H as (st1 & H1 & H2). destruct (IH st1 Hok H1) as (lt & Hlt & Hf).
  destruct (replay_live d gs st1 Hok H1) as [_ Est].
  destruct (finds_group st1 g st lt) as (lt' & Hlt' & Hf'); [rewrite Est; apply rest_state_of|done..|].
  exists lt'. by rewrite log_of_snoc, foldM_app, Hlt.
Qed.
End find.

(** A fid no entry names leaves the search as it was. *)
Lemma unnamed_group fid g lt :
  l_pending lt = None → group_ok g → fid ∉ group_fids g → foldM (latest_step fid) lt (group_entries g) = Ok lt.
Proof.
  intros Hp Hg Hn. destruct g as [f size|a code f size|f size|f]; cbn [group_entries foldM group_fids claims group_ok] in *;
    rewrite ?not_elem_of_cons in Hn.
  - by rewrite latest_skip by (done || naive_solver).
  - destruct Hg as (_ & _ & _ & Hna & Hc & Hs). rewrite latest_jump by done. cbn [mbind res_bind].
    rewrite (latest_target fid _ a) by (done || lia). rewrite !bool_decide_eq_false_2 by naive_solver.
    destruct lt as [x1 x2 x3 x4 x5 x6]. cbn in *. by subst x6.
  - rewrite latest_skip by (done || naive_solver). cbn [mbind res_bind]. by rewrite latest_skip by (done || naive_solver).
  - by rewrite latest_skip by (done || naive_solver).
Qed.

Lemma unnamed_log fid gs :
  log_ok gs → (∀ g, g ∈ gs → fid ∉ group_fids g) → foldM (latest_step fid) latest0 (log_of gs) = Ok latest0.
Proof.
  induction gs as [|g gs IH] using rev_ind; intros Hok Hn; [done|].
  apply log_ok_snoc in Hok as (Hok & Hg & _). rewrite log_of_snoc, foldM_app, IH; [|done|].
  - apply unnamed_group; [done|done|]. apply Hn, elem_of_app. right. by left.
  - intros h Hh. apply Hn, elem_of_app. by left.
Qed.

(** Nothing is found under a fid. *)
Definition not_listed (r : res (Z * Z * Z * bool * bool)) : Prop :=
  r = Err EIndexNotFound ∨ r = Ok (0, 0, 0, false, false).

(** The search over the device of a working disk is the fold over its log. *)
Lemma find_scan s gs fid :
  ready s gs →
  ∃ st lt, mirrors (diskBytes s) (ds_file s) (confirmed s) (packed s) (intervals s) (indexEnd s) (log_of gs) st ∧
    (∀ k, is_Some (rs_refs st !! k) ↔ k ∈ live gs ≫= claims) ∧
    foldM (latest_step fid) latest0 (log_of gs) = Ok lt ∧ finds fid (rs_refs st) lt ∧
    FindLatestIndexEntry fid (ds_file s) =
      (if l_found lt && (l_logicSize lt =? 0) then Err EIndexNotFound
       else if (Z.of_nat (length (log_of gs)) <? index_capacity) || l_found lt
       then Ok (l_logicSize lt, l_actualFID lt, l_actualSize lt, l_found lt, l_jump lt)
       else Err EIndexNotFound, ds_file s).
Proof.
  intros Hr. pose proof Hr as [Hi He Hf (st & Hm) Hlog Hknown _ _].
  destruct (ready_live s gs st Hr Hm) as [Hl Est]. pose proof (ready_end _ _ Hr) as (_ & _ & _ & _ & HdG & Hfs).
  destruct (finds_log (diskBytes s) fid gs st Hlog (m_fold _ _ _ _ _ _ _ _ Hm)) as (lt & Hlt & Hfinds).
  exists st, lt. split; [done|]. split; [|split; [done|split; [done|]]].
  - intros k. by rewrite Est, dom_state_of, elem_of_claims.
  - unfold FindLatestIndexEntry, mbind, M_bind.
    rewrite (scan_stream_log _ _ _ _ _ (log_of gs)) by (done || lia || apply Hm). rewrite Hlt. cbn [mbind res_bind].
    destruct (_ <? _); cbn; destruct (l_found lt && _) eqn:E; try done; by destruct (l_found lt).
Qed.

(** A live record is found. *)
Lemma find_claimed s gs fid :
  ready s gs → fid ∈ live gs ≫= claims →
  ∃ n a m j, FindLatestIndexEntry fid (ds_file s) = (Ok (n, a, m, true, j), ds_file s).
Proof.
  intros Hr Hc. destruct (find_scan s gs fid Hr) as (st & lt & _ & Hdom & _ & [_ Hf] & ->).
  destruct (proj2 (Hdom fid) Hc) as [ref Href]. rewrite Href in Hf. destruct Hf as [Hpos ->]. cbn.
  rewrite (proj2 (Z.eqb_neq (r_size ref) 0)), orb_true_r by lia. by eauto 10.
Qed.

Lemma find_unclaimed s gs fid :
  ready s gs → fid ∉ live gs ≫= claims →
  (FindLatestIndexEntry fid (ds_file s)).2 = ds_file s ∧ not_listed (FindLatestIndexEntry fid (ds_file s)).1.
Proof.
  intros Hr Hn. destruct (find_scan s gs fid Hr) as (st & lt & _ & Hdom & _ & [_ Hf] & ->). split; [done|]. cbn.
  assert (Hnone : rs_refs st !! fid = None) by (by rewrite eq_None_not_Some, Hdom).
  rewrite Hnone in Hf. destruct Hf as [->|[-> ->]]; [|by left]. cbn. destruct (_ <? _); [by right|by left].
Qed.

(** Where nothing names the fid and the index has room, the search ends without an error. *)
Lemma find_unnamed s gs fid :
  ready s gs → room gs 1 → confirmed s !! fid = None →
  FindLatestIndexEntry fid (ds_file s) = (Ok (0, 0, 0, false, false), ds_file s).
Proof.
  intros Hr Hroom Hn. destruct (find_scan s gs fid Hr) as (st & lt & _ & _ & Hlt & _ & ->).
  rewrite unnamed_log in Hlt; [|apply Hr|].
  - injection Hlt as <-. cbn. unfold room in Hroom. by rewrite (proj2 (Z.ltb_lt _ _)) by lia.
  - intros g Hg Hf. destruct (rd_known _ _ Hr g fid Hg Hf). congruence.
Qed.

(** What the daemon reads directly has a live record; a live record is of an object the daemon holds. *)
Lemma direct_claimed s gs fid ref :
  ready s gs → confirmed s !! fid = Some ref → r_packed ref = false → fid ∈ live gs ≫= claims.
Proof.
  intros Hr Href Hp. destruct (find_scan s gs fid Hr) as (st & _ & Hm & Hdom & _).
  apply Hdom. exists ref. by apply (load_tables_direct _ _ _ _ _ _ fid ref (m_load _ _ _ _ _ _ _ _ Hm) Href Hp).
Qed.

Lemma claimed_confirmed s gs fid : ready s gs → fid ∈ live gs ≫= claims → is_Some (confirmed s !! fid).
Proof.
  intros Hr (g & Hg & Hc)%elem_of_claims. apply (rd_known _ _ Hr g); [by apply elem_of_live|].
  destruct g; try done. by apply not_elem_of_nil in Hc.
Qed.

(** C38: the index search of the tools agrees with the index the daemon holds in memory.  On the device
    of a working disk, without changing it, [FindLatestIndexEntry] answers for a fid that the daemon
    reads directly what the daemon knows of it: its size, the object that stores it and that object's
    size, and whether the fid is an alias; for a fid with no live record in the index (unknown,
    deleted, or only a member of a packed table) it finds nothing.  It never fails otherwise. *)
Theorem find_agrees_with_daemon s gs fid :
  ready s gs →
  (FindLatestIndexEntry fid (ds_file s)).2 = ds_file s ∧
  (∀ ref, confirmed s !! fid = Some ref → r_packed ref = false →
     (FindLatestIndexEntry fid (ds_file s)).1 =
       Ok (r_size ref, r_fid ref, storedSize ref, true, bool_decide (r_fid ref ≠ fid))) ∧
  (fid ∉ live gs ≫= claims → not_listed (FindLatestIndexEntry fid (ds_file s)).1) ∧
  (confirmed s !! fid = None → fid ∉ live gs ≫= claims).
Proof.
  intros Hr. split; [|split; [|split]].
  - by destruct (find_scan s gs fid Hr) as (st & lt & _ & _ & _ & _ & ->).
  - intros ref Href Hp. destruct (find_scan s gs fid Hr) as (st & lt & Hm & _ & _ & [_ Hf] & ->).
    pose proof (load_tables_direct _ _ _ _ _ _ fid ref (m_load _ _ _ _ _ _ _ _ Hm) Href Hp) as Hd.
    cbn [fst] in Hd. rewrite Hd in Hf. destruct Hf as [Hpos ->]. cbn.
    by rewrite (proj2 (Z.eqb_neq (r_size ref) 0)), orb_true_r by lia.
  - by apply find_unclaimed.
  - intros Hn Hc. destruct (claimed_confirmed s gs fid Hr Hc). congruence.
Qed.

(** The disk of [TrimCrash] left with an uncompacted index: fid 8 is an alias of object 9, fids 5 and 7
    were packed, with their own records deleted. *)
Lemma find_agrees_with_daemon_witness :
  (FindLatestIndexEntry 8 (ds_file demo_uncompacted)).1 = Ok (29, 9, 30, true, true) ∧
  not_listed (FindLatestIndexEntry 5 (ds_file demo_uncompacted)).1 ∧
  is_Some (confirmed demo_uncompacted !! 5).
Proof.
  destruct (find_agrees_with_daemon demo_uncompacted demo_groups 8 demo_uncompacted_ready) as (_ & H8 & _).
  destruct (find_agrees_with_daemon demo_uncompacted demo_groups 5 demo_uncompacted_ready) as (_ & _ & H5 & _).
  split; [|split].
  - apply (H8 (mkRef 9 30 29 0 false)); vm_compute; reflexivity.
  - apply H5. intros H.
    by repeat (apply elem_of_cons in H as [H|H]; [discriminate H|]); apply elem_of_nil in H.
  - apply (is_Some_alt (confirmed demo_uncompacted !! 5)). vm_compute. exact I.
Defined.
