(* ===== verification/PackedScrub.v ===== *)
(** * Scrubbing bad packed anchors (internal/blk/index_packed_scrub.go)

    A second, independent reader of packed tables: it finds the anchors of an index whose table cannot
    be loaded and rewrites the index without them.  Its test of a table is the decoder of the daemon
    ([scrub_agrees_with_decoder]), and a disk that no longer opens because of broken tables opens after
    a scrub with every other object ([scrub_recovers]).  What the operating system answers is an
    argument, one value per opening of the device. *)

From S2P Require Import Prelude Machine Loop Device Layout IndexScan PackedTable Interval Replay.
From S2P Require Import DirectIO DeviceState DeviceInv DeviceOps DiskStore Text Path Compact CompactRun.
From S2P Require Import Backup TrimCompact.
From Stdlib Require Import Strings.Byte.

Definition packedScrubExitOK : Z := 0.
Definition packedScrubExitBadArgs : Z := 2.
Definition packedScrubExitIO : Z := 3.
Definition packedScrubExitPerm : Z := 4.
Definition packedScrubExitNotNBSS : Z := 5.

Record packedScrubOptions := mkScrubOptions { so_diskID : string; so_fix : bool; so_yes : bool }.

Record PackedAnchorIssue := mkIssue {
  pi_TableFID : Z; pi_TableSize : Z; pi_Reason : error; pi_Addr : Z; pi_Header : list byte;
  pi_ZeroFilled : bool
}.

(** ** Reading a table *)

(** [make([]byte, n)] and [ReadAt], every error of which is returned. *)
Definition read_slice (addr n : Z) : M file (list byte) :=
  if (n <? 0) || (maxAlloc <? n) then mfail (EPanic "makeslice: len out of range") else
  λ f, let '((b, err), f') := ReadAt (int64 addr) n f in
       match err with Some e => (Err e, f') | None => (Ok (buf_list b), f') end.

(** The loop over the entries.  [blob] is sliced without a test of its length. *)
Definition check_entry (containerSize entryCount : Z) (blob : list byte) (st : Z * Z) :
    Z * Z + res unit :=
  let '(i, offset) := st in
  if i <? entryCount then
    if Z.of_nat (length blob) <? offset + 24 then inr (Err (EPanic "slice bounds out of range")) else
    let entryOffset := uint_at blob (Z.to_nat (offset + 8)) 8 in
    let entrySize := uint_at blob (Z.to_nat (offset + 16)) 8 in
    if entrySize =? 0 then inr (Err (EMsg "zero-size entry")) else
    if containerSize <? u64 (entryOffset + entrySize) then inr (Err (EMsg "entry out of range")) else
    inl (i + 1, offset + packedTableEntrySize)
  else inr (Ok tt).

Definition check_entries (containerSize entryCount : Z) (blob : list byte) : res unit :=
  match loop (Z.to_pos (entryCount + 1)) (check_entry containerSize entryCount blob)
             (0, packedTableHeaderSize) with
  | inl _ => Err EFuel
  | inr r => r
  end.

Definition validatePackedTableObject (diskBytes fid size : Z) : M file unit :=
  if size <? packedTableHeaderSize then mfail (EMsg "packed table too small") else
  '(addr, _, _) ← mlift (AddrForFID diskBytes fid size);
  header ← read_slice addr packedTableHeaderSize;
  if negb (bool_decide (take 4 header = packedTableMagic)) then mfail (EMsg "bad magic") else
  if negb (uint_at header 4 2 =? packedTableVersion) then mfail (EMsg "bad version") else
  if negb (uint_at header 6 2 =? packedTableHeaderSize) then mfail (EMsg "bad header size") else
  let containerSize := uint_at header 24 8 in
  let entryCount := uint_at header 32 8 in
  if containerSize =? 0 then mfail (EMsg "zero container size") else
  let wantSize := u64 (packedTableHeaderSize + u64 (entryCount * packedTableEntrySize)) in
  if negb (size =? wantSize) then mfail (EMsg "size mismatch") else
  if entryCount =? 0 then mret tt else
  blob ← read_slice addr (int64 size);
  mlift (check_entries containerSize entryCount blob).

Definition minInt (a b : Z) : Z := if a <? b then a else b.

(** ** The anchors of an index *)
Definition is_panic (e : error) : bool := match e with EPanic _ => true | _ => false end.

(** A table that does not validate, with the first bytes of what is there.  A panic is no issue: it
    ends the program. *)
Definition check_object (diskBytes : Z) (record : LatestIndexRecord) (addr : Z) (header : list byte) :
    M file (option PackedAnchorIssue) := λ f,
  match validatePackedTableObject diskBytes (lr_ActualFID record) (lr_ActualSize record) f with
  | (Err e, f) =>
      if is_panic e then (Err e, f) else
      (Ok (Some (mkIssue (lr_FID record) (lr_ActualSize record) e addr (take 16 header)
                   (forallb (λ b, byte_val b =? 0) header))), f)
  | (Ok _, f) => (Ok None, f)
  end.

(** The body of the loop of [findPackedAnchorIssues]: the issue of a record, if it has one. *)
Definition anchor_issue (diskBytes : Z) (record : LatestIndexRecord) : M file (option PackedAnchorIssue) :=
  if negb (lr_Packed record) then mret None else
  let issue e addr := mkIssue (lr_FID record) (lr_ActualSize record) e addr [] false in
  match AddrForFID diskBytes (lr_ActualFID record) (lr_ActualSize record) with
  | Err e => mret (Some (issue e 0))
  | Ok (addr, _, _) =>
      let n := minInt (int64 (lr_ActualSize record)) 64 in
      if n <? 0 then mfail (EPanic "makeslice: len out of range") else
      if n =? 0 then mret (Some (issue (EMsg "zero-size packed table") addr)) else
      λ f, let '((b, err), f) := ReadAt (int64 addr) n f in
           match err with
           | Some e => if negb (errors_Is e EEOF) then (Ok (Some (issue e addr)), f)
                       else check_object diskBytes record addr (buf_list b) f
           | None => check_object diskBytes record addr (buf_list b) f
           end
  end.

Fixpoint anchor_issues (diskBytes : Z) (records : list LatestIndexRecord) :
    M file (list PackedAnchorIssue) :=
  match records with
  | [] => mret []
  | record :: records =>
      issue ← anchor_issue diskBytes record;
      issues ← anchor_issues diskBytes records;
      mret (match issue with Some i => i :: issues | None => issues end)
  end.

(** [sort.Slice] by [TableFID]; the records of an index have distinct fids. *)
Definition issue_le (a b : PackedAnchorIssue) : Prop := pi_TableFID a ≤ pi_TableFID b.
#[export] Instance issue_le_dec a b : Decision (issue_le a b) := Z.le_dec _ _.

Definition findPackedAnchorIssues (diskBytes : Z) (records : list LatestIndexRecord) :
    M file (list PackedAnchorIssue) :=
  issues ← anchor_issues diskBytes records; mret (merge_sort issue_le issues).

(** ** Opening the device *)
Definition openNBSSDevice (root : bool) (od : os_device) (dev : PanDevice) : res (file * Z * buf) :=
  match open_device root od, od_bytes od with
  | inr o, _ => Err (open_error o)
  | _, Err e => Err e
  | inl f, Ok diskBytes =>
      match read_header f with
      | (Err e, _) => Err e
      | (Ok headerBuf, f) =>
          match ParseHeader headerBuf with
          | Err e => Err (EWrap "not nbss" ENotNBSS)
          | Ok header =>
              if negb (h_Version header =? FormatVersion) then Err (EMsg "unsupported version") else
              wantID ← ParseDiskID (DiskID dev);
              if negb (h_DiskID header =? wantID) then Err (EMsg "disk id mismatch") else
              Ok (f, diskBytes, headerBuf)
          end
      end
  end.

Definition inspectPackedAnchorsOnDevice (root : bool) (od : os_device) (dev : PanDevice) :
    res (list PackedAnchorIssue) :=
  '(f, diskBytes, _) ← openNBSSDevice root od dev;
  ((records ← CollectLatestIndexRecords; findPackedAnchorIssues diskBytes records) f).1.

(** ** Rewriting the index *)

(** What the operating system answers during one device's scrub. *)
Record scrub_os := mkScrubOs {
  se_read : os_device;          (* opened to inspect it *)
  se_write : os_device;         (* opened to fix it *)
  se_backup : os_device;        (* opened by the backup *)
  se_mkdir : option error;
  se_backup_mkdir : option error;
  se_backup_create : res file;
  se_temp : res file;           (* [os.CreateTemp] *)
  se_line : string              (* what the user types *)
}.

Definition keep_record (bad : gset Z) (record : LatestIndexRecord) : bool :=
  negb (lr_Packed record && bool_decide (lr_FID record ∈ bad)).

(** The temporary file: the header, the records that stay and zeros, validated. *)
Definition write_scrubbed (header : buf) (records : list LatestIndexRecord) : M file unit :=
  write_compacted header records;; ValidateCompacted.

(** The error, the device and the backup. *)
Definition fixPackedAnchorsOnDevice (root : bool) (os : scrub_os) (dev : PanDevice)
    (issues : list PackedAnchorIssue) : option error * option file * option file :=
  match issues with
  | [] => (None, None, None)
  | _ =>
      match openNBSSDevice root (se_write os) dev with
      | Err e => (Some e, None, None)
      | Ok (f, _, headerBuf) =>
          match CollectLatestIndexRecords f with
          | (Err e, f) => (Some e, Some f, None)
          | (Ok records, f) =>
              let bad : gset Z := list_to_set (pi_TableFID <$> issues) in
              let filtered := filter (λ r, keep_record bad r = true) records in
              match se_mkdir os with
              | Some e => (Some e, Some f, None)
              | None =>
                  let '(err, backup) := BackupDeviceIndexToPathVerbose root (se_backup os) dev
                    (se_backup_mkdir os) (se_backup_create os) in
                  match err, se_temp os with
                  | Some e, _ | None, Err e => (Some e, Some f, backup)
                  | None, Ok tmp =>
                      match write_scrubbed headerBuf filtered tmp with
                      | (Err e, _) => (Some e, Some f, backup)
                      | (Ok _, tmp) =>
                          match copy_section GridStart (tmp, f) with
                          | (Err e, (_, f)) => (Some e, Some f, backup)
                          | (Ok _, (_, f)) => (None, Some f, backup)
                          end
                      end
                  end
              end
          end
      end
  end.

Definition confirmPackedScrub (line : string) : bool := bool_decide (TrimSpace line = "yes"%string).

(** The exit code an error gives. *)
Definition scrub_exit (e : error) : Z :=
  if errors_Is e ErrPermission then packedScrubExitPerm
  else if errors_Is e ENotNBSS then packedScrubExitNotNBSS else packedScrubExitIO.

(** The loop over the devices: the exit code and the devices written, the last argument being the
    code so far.  A panic leaves the loop with an error. *)
Fixpoint scrub_devices (opts : packedScrubOptions) (root : bool) (os : PanDevice → scrub_os)
    (devices : list PanDevice) (exitCode : Z) (out : list (PanDevice * option file)) :
    res Z * list (PanDevice * option file) :=
  match devices with
  | [] => (Ok exitCode, out)
  | dev :: devices =>
      let next := scrub_devices opts root os devices in
      if negb (bool_decide (Status dev = EmptyString)) && negb (bool_decide (Status dev = "match"%string))
      then next exitCode out else
      match inspectPackedAnchorsOnDevice root (se_read (os dev)) dev with
      | Err e => if is_panic e then (Err e, out) else next (scrub_exit e) out
      | Ok issues =>
          if negb (so_fix opts) || bool_decide (length issues = 0%nat) then next exitCode out else
          if negb (so_yes opts) && negb (confirmPackedScrub (se_line (os dev)))
          then (Ok packedScrubExitBadArgs, out) else
          let '(err, f, _) := fixPackedAnchorsOnDevice root (os dev) dev issues in
          let out := out ++ [(dev, f)] in
          match err with
          | Some e => next (scrub_exit e) out
          | None => next exitCode out
          end
      end
  end.

(** [RunPackedScrub] after the flags are parsed; [panFile] is the decoded pan.json. *)
Definition RunPackedScrub (opts : packedScrubOptions) (panFile : res (list PanDevice)) (root : bool)
    (os : PanDevice → scrub_os) : res Z * list (PanDevice * option file) :=
  match panFile with
  | Err _ | Ok [] => (Ok packedScrubExitIO, [])
  | Ok all =>
      let devices := if bool_decide (TrimSpace (so_diskID opts) = EmptyString) then Ok all
                     else dev ← SelectDevice all (so_diskID opts); Ok [dev] in
      match devices with
      | Err _ => (Ok packedScrubExitBadArgs, [])
      | Ok devices => scrub_devices opts root os devices packedScrubExitOK []
      end
  end.

(** ** The scrubber's test of a table and the decoder *)

(** The loop accepts what the decoder's loop accepts, and a count larger than the blob has entries for
    is never accepted. *)
Lemma check_loop cs n blob k i off :
  Z.of_nat k = n - i → 0 ≤ off →
  ∃ r, loop_nat (S k) (check_entry cs n blob) (i, off) = inr r ∧ r ≠ Err EFuel ∧
    is_ok r = bool_decide (k = 0%nat ∨ off + 24 * Z.of_nat k ≤ Z.of_nat (length blob)) &&
              is_ok (decode_entries cs k blob (Z.to_nat off)).
Proof.
  revert i off. induction k as [|k IH]; intros i off Hk Hoff.
  { exists (Ok tt). cbn [loop_nat check_entry]. rewrite (proj2 (Z.ltb_ge i n)) by lia. done. }
  cbn [loop_nat check_entry]. rewrite (proj2 (Z.ltb_lt i n)) by lia.
  destruct (Z.ltb_spec (Z.of_nat (length blob)) (off + 24)) as [Hs|Hs].
  { eexists. split; [done|]. split; [done|]. rewrite bool_decide_eq_false_2 by lia. done. }
  cbn [decode_entries e_size e_offset]. rewrite !Z2Nat.inj_add by lia.
  change (Z.to_nat 8) with 8%nat. change (Z.to_nat 16) with 16%nat.
  set (o := uint_at blob (Z.to_nat off + 8) 8). set (z := uint_at blob (Z.to_nat off + 16) 8).
  destruct (z =? 0); [eexists; split; [done|]; split; [done|]; by rewrite andb_false_r|].
  destruct (cs <? u64 (o + z)); [eexists; split; [done|]; split; [done|]; by rewrite andb_false_r|].
  destruct (IH (i + 1) (off + packedTableEntrySize)) as (r & Hr & Hne & Hok);
    [lia|unfold packedTableEntrySize; lia|].
  exists r. split; [exact Hr|]. split; [done|]. rewrite Hok. unfold packedTableEntrySize in *.
  replace (Z.to_nat (off + 24)) with (Z.to_nat off + 24)%nat by lia. f_equal.
  - apply bool_decide_ext. lia.
  - by destruct (decode_entries cs k blob (Z.to_nat off + 24)).
Qed.

Lemma check_entries_spec cs n blob :
  0 ≤ n →
  check_entries cs n blob ≠ Err EFuel ∧
  is_ok (check_entries cs n blob) =
    bool_decide (n = 0 ∨ 48 + 24 * n ≤ Z.of_nat (length blob)) && is_ok (decode_entries cs (Z.to_nat n) blob 48).
Proof.
  intros Hn. unfold check_entries. rewrite loop_nat_eq.
  replace (Pos.to_nat (Z.to_pos (n + 1))) with (S (Z.to_nat n)) by lia.
  destruct (check_loop cs n blob (Z.to_nat n) 0 packedTableHeaderSize) as (r & -> & Hne & ->);
    [lia|by unfold packedTableHeaderSize|].
  split; [done|]. unfold packedTableHeaderSize. f_equal. apply bool_decide_ext. lia.
Qed.

(** A table the daemon can load: the decoder accepts it and its container is not empty. *)
Definition table_loads (d : Z) (g : Z → byte) (fid size : Z) : bool :=
  match AddrForFID d fid size with
  | Err _ => false
  | Ok (addr, _, _) =>
      match decodePackedTable (bytes_at g addr (Z.to_nat size)) with
      | Ok (hd, _) => negb (h_containerSize hd =? 0)
      | Err _ => false
      end
  end.

Lemma uint_at_prefix g addr n m off k :
  (n ≤ m)%nat → (off + k ≤ n)%nat → uint_at (bytes_at g addr n) off k = uint_at (bytes_at g addr m) off k.
Proof.
  intros Hnm Hk. unfold uint_at. f_equal. apply list_eq. intros i.
  destruct (Nat.lt_ge_cases i k); [|by rewrite !lookup_take_ge].
  rewrite !lookup_take_lt, !lookup_drop by done. unfold bytes_at. rewrite !list_lookup_fmap.
  by rewrite !lookup_seq_lt by lia.
Qed.

Lemma take_bytes_at g addr n k : (k ≤ n)%nat → take k (bytes_at g addr n) = bytes_at g addr k.
Proof.
  intros H. unfold bytes_at. rewrite <- fmap_take. f_equal. by rewrite take_seq, Nat.min_l.
Qed.

Lemma read_slice_ok addr n f :
  f_faults f = [] → 0 ≤ addr → 0 ≤ n ≤ maxAlloc → addr + n ≤ f_size f → f_size f < 2 ^ 63 →
  read_slice addr n f = (Ok (bytes_at (f_data f) addr (Z.to_nat n)), f).
Proof.
  intros Hf Ha Hn Hle Hs. unfold read_slice. rewrite (proj2 (Z.ltb_ge n 0)), (proj2 (Z.ltb_ge _ n)) by lia.
  cbn [orb]. rewrite int64_small by lia. rewrite ReadAt_ok by (done || lia). by rewrite buf_list_region.
Qed.

(** The part of the decoder after the three fields it compares, on a blob of [size] bytes. *)
Lemma decode_count blob :
  packedTableHeaderSize ≤ Z.of_nat (length blob) ≤ maxAlloc →
  let n := uint_at blob 32 8 in
  is_ok (decodePackedTable blob) =
    bool_decide (take 4 blob = packedTableMagic) && (uint_at blob 4 2 =? packedTableVersion) &&
    (uint_at blob 6 2 =? packedTableHeaderSize) &&
    bool_decide (Z.of_nat (length blob) = 48 + 24 * n) &&
    is_ok (decode_entries (uint_at blob 24 8) (Z.to_nat n) blob 48).
Proof.
  intros [Hl Hm]. cbv zeta. unfold decodePackedTable. rewrite (proj2 (Z.ltb_ge _ _)) by lia.
  destruct (bool_decide (take 4 blob = _)); [|done]. destruct (_ =? packedTableVersion); [|done].
  destruct (_ =? packedTableHeaderSize); [|done]. cbn [negb andb h_entryCount h_containerSize].
  pose proof (uint_at_u64 blob 32) as Hn. set (n := uint_at blob 32 8) in *. unfold is_u64 in Hn.
  unfold packedTableHeaderSize, packedTableEntrySize, maxAlloc in *.
  destruct (Z.ltb_spec (2 ^ 48) (n * 24)) as [Hb|Hb].
  - rewrite bool_decide_eq_false_2 by lia. cbn [andb]. by destruct (negb _).
  - rewrite (u64_small (n * 24)), u64_small, int64_small by lia.
    destruct (Z.eqb_spec (Z.of_nat (length blob)) (48 + n * 24)); cbn [negb].
    + rewrite bool_decide_eq_true_2 by lia. by destruct (decode_entries _ _ _ _).
    + rewrite bool_decide_eq_false_2 by lia. done.
Qed.

Lemma decode_containerSize blob hd es :
  decodePackedTable blob = Ok (hd, es) → h_containerSize hd = uint_at blob 24 8.
Proof.
  unfold decodePackedTable. intros H. repeat (destruct (_ : bool); [done|]).
  by apply res_bind_Ok in H as (? & _ & [= <- _]).
Qed.

Lemma table_loads_blob d g fid size addr i k :
  AddrForFID d fid size = Ok (addr, i, k) →
  let blob := bytes_at g addr (Z.to_nat size) in
  table_loads d g fid size = is_ok (decodePackedTable blob) && negb (uint_at blob 24 8 =? 0).
Proof.
  intros Ha. cbv zeta. unfold table_loads. rewrite Ha.
  destruct (decodePackedTable _) as [[hd es]|] eqn:E; [|done].
  by rewrite (decode_containerSize _ _ _ E).
Qed.

Lemma validate_outcome d fid size f :
  disk_fits d → f_faults f = [] → f_size f = d → is_u64 fid → is_u64 size →
  ∃ r, validatePackedTableObject d fid size f = (r, f) ∧
    is_ok r = table_loads d (f_data f) fid size.
Proof.
  intros Hd Hf Hs Hfid Hsz. unfold validatePackedTableObject.
  destruct (Z.ltb_spec size packedTableHeaderSize) as [Hsm|Hsm].
  { eexists. split; [done|]. unfold table_loads. destruct (AddrForFID _ _ _) as [[[addr i] k]|]; [|done].
    unfold decodePackedTable. by rewrite (proj2 (Z.ltb_lt _ _)) by (unfold is_u64 in *; rewrite length_bytes_at; lia). }
  unfold mbind at 1, M_bind, mlift at 1.
  destruct (AddrForFID d fid size) as [[[addr i] k]|e] eqn:Ha; [|eexists; split; [done|];
    unfold table_loads; by rewrite Ha].
  pose proof (AddrForFID_size _ _ _ _ _ _ Hd Hsz Ha) as Hsd. unfold disk_fits in Hd. unfold is_u64 in *.
  assert (Haddr : 0 ≤ addr ∧ addr + size ≤ d).
  { apply AddrForFID_Ok in Ha; [|unfold disk_ok; llia|llia..]. llia. }
  assert (Hm : packedTableHeaderSize ≤ size ≤ maxAlloc) by (unfold maxAlloc; lia).
  assert (H48 : 48 ≤ size ≤ maxAlloc) by (unfold packedTableHeaderSize in Hm; lia).
  set (g := f_data f). rewrite (table_loads_blob _ g _ _ _ _ _ Ha). set (blob := bytes_at g addr (Z.to_nat size)).
  assert (Hlen : Z.of_nat (length blob) = size) by (unfold blob; rewrite length_bytes_at; lia).
  unfold mbind at 1, M_bind. rewrite read_slice_ok by (done || (unfold packedTableHeaderSize, maxAlloc in *; lia)).
  change (Z.to_nat packedTableHeaderSize) with 48%nat. fold g.
  rewrite decode_count by (rewrite Hlen; done).
  assert (Hu : ∀ off k, (off + k ≤ 48)%nat → uint_at (bytes_at g addr 48) off k = uint_at blob off k).
  { intros off k0 Hk. apply uint_at_prefix; lia. }
  rewrite !Hu by lia.
  assert (Ht : take 4 (bytes_at g addr 48) = take 4 blob) by (unfold blob; rewrite !take_bytes_at by lia; done).
  rewrite Ht. clear Ht Hu.
  destruct (bool_decide (take 4 blob = _)); [|eexists; split; done].
  destruct (_ =? packedTableVersion); [|eexists; split; done].
  destruct (_ =? packedTableHeaderSize); [|eexists; split; done]. cbn [negb andb].
  set (cs := uint_at blob 24 8). pose proof (uint_at_u64 blob 32) as Hn.
  set (n := uint_at blob 32 8) in *. unfold is_u64 in Hn.
  destruct (cs =? 0); [eexists; split; [done|]; by rewrite andb_false_r|]. cbn [negb].
  rewrite andb_true_r, Hlen. unfold packedTableHeaderSize, packedTableEntrySize.
  destruct (Z.eqb_spec size (u64 (48 + u64 (n * 24)))) as [Hw|Hw]; cbn [negb].
  - destruct (Z.eqb_spec n 0) as [->|Hn0].
    { change (u64 _) with 48 in Hw. rewrite bool_decide_eq_true_2 by lia. by eexists. }
    unfold mbind at 1, M_bind. rewrite int64_small by (unfold maxAlloc in *; lia).
    rewrite read_slice_ok by (done || lia). fold g blob.
    destruct (check_entries_spec cs n blob) as [_ Hok]; [lia|].
    eexists. split; [reflexivity|]. cbn [mlift]. rewrite Hok, Hlen.
    destruct (Z.eq_dec size (48 + 24 * n)) as [He|He].
    + by rewrite !bool_decide_eq_true_2 by lia.
    + rewrite (bool_decide_eq_false_2 (size = _)) by done.
      rewrite bool_decide_eq_false_2; [done|]. intros [?|Hle]; [done|].
      unfold maxAlloc in Hm. rewrite (u64_small (n * 24)), u64_small in Hw by lia. lia.
  - eexists. split; [done|]. rewrite bool_decide_eq_false_2; [done|]. intros He. apply Hw.
    unfold maxAlloc in Hm. rewrite (u64_small (n * 24)), u64_small by lia. lia.
Qed.

(** ** Lists of live groups *)
Lemma filter_none {A} (P : A → Prop) `{∀ x, Decision (P x)} l : (∀ x, x ∈ l → ¬ P x) → filter P l = [].
Proof.
  induction l as [|x l IH]; [done|]. intros Hl. rewrite filter_cons_False by (apply Hl; by left).
  apply IH. intros y Hy. apply Hl. by right.
Qed.

(** Live groups stay as they are. *)
Lemma live_fix d l : live_ok d l → live l = l.
Proof.
  unfold live. induction l as [|g l IH] using rev_ind; [done|]. intros [Hg Hc].
  apply Forall_app in Hg as [Hg Hgg]. inversion Hgg as [|? ? (Hok & _ & Hnt) _]; subst.
  rewrite bind_app in Hc. apply NoDup_app in Hc as (Hc & Hdis & _).
  rewrite foldl_snoc, IH by done.
  assert (Hdrop : drop_key (key g) l = l).
  { apply (drop_key_free d); [done|]. intros Hin. apply (Hdis _ Hin). cbn. rewrite app_nil_r.
    by apply key_claims. }
  destruct g as [f z|a c f z|f z|f]; cbn [live_step key] in *; try by rewrite Hdrop.
  by destruct (Hnt f).
Qed.

Lemma filter_live_ok d (P : group → Prop) `{∀ g, Decision (P g)} l : live_ok d l → live_ok d (filter P l).
Proof.
  intros [Hg Hc]. split.
  - rewrite Forall_forall in *. intros g [_ Hin]%list_elem_of_filter. by apply Hg.
  - eapply sublist_NoDup; [exact Hc|]. apply sublist_bind_claims, sublist_filter.
Qed.

(** With distinct claims a reference or an extent of the state belongs to one group. *)
Lemma refs_state_of d l k r :
  live_ok d l → rs_refs (state_of d l) !! k = Some r ↔ ∃ g, g ∈ l ∧ group_refs g !! k = Some r.
Proof.
  induction l as [|g l IH] using rev_ind.
  { intros _. cbn. rewrite lookup_empty. split; [done|]. intros (g & Hg & _). by apply not_elem_of_nil in Hg. }
  intros [Hg Hc]. apply Forall_app in Hg as [Hg _]. rewrite bind_app in Hc.
  apply NoDup_app in Hc as (Hc & Hdis & _). rewrite state_of_snoc. cbn [add_group rs_refs].
  assert (Hl : live_ok d l) by (by split).
  assert (Hone : ∀ r0, group_refs g !! k = Some r0 → rs_refs (state_of d l) !! k = None).
  { intros r0 Hr0. apply eq_None_not_Some. intros (g' & Hin & Hk)%dom_state_of.
    apply (Hdis k); [apply elem_of_claims; eauto|]. cbn. rewrite app_nil_r.
    assert (k ∈ dom (group_refs g)) as Hd by (apply elem_of_dom; eauto).
    by rewrite dom_group_refs, elem_of_list_to_set in Hd. }
  setoid_rewrite elem_of_app. setoid_rewrite list_elem_of_singleton.
  rewrite lookup_union_Some_raw, (IH Hl). split.
  - intros [Hr|[_ (g' & ? & ?)]]; [exists g; auto|exists g'; auto].
  - intros (g' & [Hin| ->] & Hr); [right|by left]. split; [|eauto].
    destruct (group_refs g !! k) as [r0|] eqn:E; [|done]. specialize (Hone _ eq_refl).
    rewrite (proj2 (IH Hl)) in Hone; [done|eauto].
Qed.

Lemma exts_state_of d l k iv :
  live_ok d l →
  rs_extents (state_of d l) !! k = Some iv ↔ ∃ g, g ∈ l ∧ (target g).1 = k ∧ group_ext d g = iv.
Proof.
  induction l as [|g l IH] using rev_ind.
  { intros _. cbn. rewrite lookup_empty. split; [done|]. intros (g & Hg & _). by apply not_elem_of_nil in Hg. }
  intros [Hg Hc]. apply Forall_app in Hg as [Hg Hgg]. inversion Hgg as [|? ? (_ & _ & Hnt) _]; subst.
  rewrite bind_app in Hc. apply NoDup_app in Hc as (Hc & Hdis & _).
  rewrite state_of_snoc. cbn [add_group rs_extents].
  assert (Hl : live_ok d l) by (by split).
  setoid_rewrite elem_of_app. setoid_rewrite list_elem_of_singleton.
  rewrite lookup_insert_Some, (IH Hl). split.
  - intros [[Hk He]|[_ (g' & ? & ? & ?)]]; [exists g; auto|exists g'; auto].
  - intros (g' & [Hin| ->] & Hk & He); [right|by left]. split; [|eauto]. intros Hk'. subst k.
    assert (Htc : ∀ g0, (∀ f, g0 ≠ GTomb f) → (target g0).1 ∈ claims g0).
    { intros [f z|a c f z|f z|f] Hn; cbn; try (by left); [by right; left|by destruct (Hn f)]. }
    apply (Hdis (target g').1).
    + apply elem_of_claims. exists g'. split; [done|]. apply Htc.
      rewrite Forall_forall in Hg. by destruct (Hg _ Hin) as (_ & _ & ?).
    + cbn. rewrite app_nil_r, <- Hk'. by apply Htc.
Qed.

(** Removing groups removes their references and their extents. *)
Lemma exts_filter d (P : group → Prop) `{∀ g, Decision (P g)} l :
  live_ok d l →
  (map_to_list (rs_extents (state_of d (filter P l)))).*2 ⊆+ (map_to_list (rs_extents (state_of d l))).*2.
Proof.
  intros Hl. apply fmap_submseteq, map_to_list_submseteq, map_subseteq_spec. intros k iv.
  rewrite (exts_state_of d (filter P l)), (exts_state_of d l) by (done || by apply filter_live_ok).
  intros (g & [_ Hin]%list_elem_of_filter & Hg). eauto.
Qed.

(** ** Inspecting an index *)
Section inspect.
Context (d : Z) (f : file).
Hypothesis Hd : disk_fits d.
Hypothesis Hf : f_faults f = [].
Hypothesis Hs : f_size f = d.

(** Every group but a table that does not load. *)
Definition good (g : group) : bool :=
  match g with GTable fid size => table_loads d (f_data f) fid size | _ => true end.

(** The count of a table does not make the loop run off the end of the table. *)
Definition no_panic (g : group) : Prop :=
  match g with
  | GTable fid size => ∀ e, (validatePackedTableObject d fid size f).1 = Err e → is_panic e = false
  | _ => True
  end.

Lemma check_object_outcome g s addr header :
  live_group d g → no_panic g → (∃ fid size, g = GTable fid size) →
  ∃ o, check_object d (group_record (g, s)) addr header f = (Ok o, f) ∧
    (good g = false → ∃ i, o = Some i ∧ pi_TableFID i = key g) ∧ (good g = true → o = None).
Proof.
  intros (Hok & _ & _) Hnp (fid & size & ->). destruct Hok as (Hfid & _ & Hsz). cbn in Hnp.
  destruct (validate_outcome d fid size f) as (r & Hr & Hgood); [done..|unfold is_u64, IndexPackedSentinel in *; lia|].
  unfold check_object, group_record, latest_record, record_of. cbn.
  rewrite Hr in Hnp |- *. cbn [fst good key] in *. rewrite <- Hgood. destruct r as [[]|e].
  - eexists. split; [done|]. by split.
  - rewrite (Hnp e eq_refl). eexists. split; [done|]. split; [|done]. intros _. by eexists.
Qed.

Lemma anchor_issue_outcome g s :
  live_group d g → no_panic g →
  ∃ o, anchor_issue d (group_record (g, s)) f = (Ok o, f) ∧
    (good g = false → ∃ i, o = Some i ∧ pi_TableFID i = key g) ∧ (good g = true → o = None).
Proof.
  intros Hg Hnp. pose proof Hg as (Hok & Hext & Hnt). destruct g as [fid size|a c fid size|fid size|fid].
  1, 2, 4: by exists None.
  destruct Hok as (Hfid & _ & Hsz). unfold anchor_issue. cbn.
  unfold extent_of in Hext. cbn in Hext.
  destruct (AddrForFID d fid size) as [[[addr i] k]|] eqn:Ha; [|done].
  assert (Hu : is_u64 size) by (unfold is_u64, IndexPackedSentinel in *; lia).
  pose proof (AddrForFID_size _ _ _ _ _ _ Hd Hu Ha) as Hsd.
  assert (Haddr : 0 ≤ addr ∧ addr + size ≤ d).
  { unfold disk_fits, is_u64 in *. apply AddrForFID_Ok in Ha; [|unfold disk_ok; llia|llia..]. llia. }
  unfold disk_fits in Hd. rewrite int64_small by lia.
  assert (Hn : 0 < minInt size 64 ≤ size) by (unfold minInt; destruct (Z.ltb_spec size 64); lia).
  rewrite (proj2 (Z.ltb_ge _ 0)), (proj2 (Z.eqb_neq _ 0)) by lia.
  rewrite int64_small by lia. rewrite (ReadAt_ok f Hf) by lia.
  apply (check_object_outcome (GTable fid size)); [done|done|eauto].
Qed.

Lemma anchor_issues_outcome l :
  Forall (λ p, live_group d p.1 ∧ no_panic p.1) l →
  ∃ issues, anchor_issues d (group_record <$> l) f = (Ok issues, f) ∧
    pi_TableFID <$> issues = key ∘ fst <$> filter (λ p, good p.1 = false) l.
Proof.
  induction 1 as [|[g s] l [Hg Hnp] _ (issues & IH & Hi)]; [by exists []|].
  destruct (anchor_issue_outcome g s Hg Hnp) as (o & Ho & Hbad & Hgood).
  cbn [fmap list_fmap anchor_issues]. unfold mbind at 1, M_bind. rewrite Ho.
  unfold mbind at 1, M_bind. rewrite IH. eexists. split; [done|]. rewrite filter_cons. cbn [fst].
  destruct (good g) eqn:E.
  - rewrite (Hgood eq_refl), decide_False by done. done.
  - destruct (Hbad eq_refl) as (i & -> & Hk). rewrite decide_True by done. cbn. rewrite Hk. by f_equal.
Qed.

(** The fids of the issues are those of the tables that do not load. *)
Definition bad_fids (l : list group) : gset Z := list_to_set (key <$> filter (λ g, good g = false) l).

Lemma filter_fst (P : group → Prop) `{∀ g, Decision (P g)} (l : list (group * Z)) :
  (filter (λ p, P p.1) l).*1 = filter P l.*1.
Proof.
  induction l as [|[g s] l IH]; [done|]. cbn [fmap list_fmap fst]. rewrite !filter_cons. cbn [fst].
  case_decide; cbn [fmap list_fmap fst]; by rewrite IH.
Qed.

Lemma find_outcome l :
  Forall (λ p, live_group d p.1 ∧ no_panic p.1) l →
  ∃ issues, findPackedAnchorIssues d (group_record <$> l) f = (Ok issues, f) ∧
    list_to_set (pi_TableFID <$> issues) = bad_fids l.*1 ∧
    (issues = [] ↔ filter (λ g, good g = false) l.*1 = []).
Proof.
  intros Hl. destruct (anchor_issues_outcome l Hl) as (issues & Hi & Hk).
  exists (merge_sort issue_le issues). unfold findPackedAnchorIssues, mbind at 1, M_bind. rewrite Hi.
  split; [done|]. pose proof (merge_sort_Permutation issue_le issues) as Hp.
  split.
  - rewrite (list_to_set_perm_L _ _ (fmap_Permutation pi_TableFID _ _ Hp)), Hk. unfold bad_fids.
    by rewrite <- filter_fst, list_fmap_compose.
  - rewrite <- filter_fst. split; intros H.
    + rewrite H in Hp. symmetry in Hp. apply Permutation_nil_r in Hp. rewrite Hp in Hk.
      symmetry in Hk. apply fmap_nil_inv in Hk. by rewrite Hk.
    + apply fmap_nil_inv in H. rewrite H in Hk. apply fmap_nil_inv in Hk. by rewrite Hk.
Qed.

(** Only their records are dropped. *)
Lemma keep_records l :
  NoDup (key <$> l.*1) →
  filter (λ r, keep_record (bad_fids l.*1) r = true) (group_record <$> l) =
  group_record <$> filter (λ p, good p.1 = true) l.
Proof.
  intros Hnd.
  assert (Hb : ∀ p, p ∈ l → keep_record (bad_fids l.*1) (group_record p) = good p.1).
  { intros [g s] Hp. assert (Hin : g ∈ l.*1) by (by apply (list_elem_of_fmap_2 fst _ _ Hp)).
    destruct g as [fid size|a c fid size|fid size|fid]; try done.
    unfold keep_record, group_record, latest_record, record_of. cbn [fst c_jump c_packed orb lr_Packed lr_FID andb].
    destruct (good (GTable fid size)) eqn:E.
    - rewrite bool_decide_eq_false_2; [done|]. unfold bad_fids. rewrite elem_of_list_to_set.
      intros (g' & Hk & [Hbad Hin']%list_elem_of_filter)%list_elem_of_fmap.
      assert (g' = GTable fid size) as ->; [|congruence].
      apply list_elem_of_lookup in Hin as [i Hi]. apply list_elem_of_lookup in Hin' as [j Hj].
      assert (i = j); [|congruence]. eapply NoDup_lookup; [exact Hnd|..]; rewrite list_lookup_fmap.
      + by rewrite Hi.
      + rewrite Hj. cbn. by rewrite <- Hk.
    - rewrite bool_decide_eq_true_2; [done|]. unfold bad_fids. rewrite elem_of_list_to_set.
      apply list_elem_of_fmap. exists (GTable fid size). split; [done|].
      by apply list_elem_of_filter. }
  generalize (bad_fids l.*1) Hb. clear. intros bad Hb.
  induction l as [|p l IH]; [done|]. cbn [fmap list_fmap]. rewrite !filter_cons.
  rewrite Hb by by left. specialize (IH ltac:(intros; apply Hb; by right)).
  case_decide; cbn [fmap list_fmap]; by rewrite IH.
Qed.
End inspect.

(** Reading agrees on devices that agree above the index. *)
Lemma read_slice_frame addr n f f' :
  GridStart ≤ addr < 2 ^ 63 → f_faults f = [] → f_faults f' = [] → f_size f' = f_size f →
  (∀ a, GridStart ≤ a → f_data f' a = f_data f a) →
  ∃ r, read_slice addr n f = (r, f) ∧ read_slice addr n f' = (r, f').
Proof.
  intros Ha Hf Hf' Hs Hab. unfold read_slice. destruct (_ || _) eqn:E; [by eexists|].
  rewrite int64_small by (unfold GridStart in *; lia). unfold ReadAt, next_fault. rewrite Hf, Hf', Hs.
  rewrite (proj2 (Z.ltb_ge addr 0)) by (unfold GridStart in *; lia).
  assert (Hr : ∀ m, buf_list (region (f_data f') addr m) = buf_list (region (f_data f) addr m)).
  { intros m. rewrite !buf_list_region. apply bytes_at_ext. intros a Ha'. apply Hab. lia. }
  destruct (clamp 0 n (f_size f - addr) <? n); eexists; [done|]. rewrite Hr. done.
Qed.

Lemma validate_frame d fid size f f' :
  disk_fits d → is_u64 fid → is_u64 size → f_faults f = [] → f_faults f' = [] → f_size f = d → f_size f' = d →
  (∀ a, GridStart ≤ a → f_data f' a = f_data f a) →
  (validatePackedTableObject d fid size f').1 = (validatePackedTableObject d fid size f).1.
Proof.
  intros Hd Hfid Hsz Hf Hf' Hs Hs' Hab. unfold validatePackedTableObject. destruct (size <? _); [done|].
  unfold mbind, M_bind, mlift.
  destruct (AddrForFID d fid size) as [[[addr i] k]|] eqn:Ha; [|done].
  assert (Haddr : GridStart ≤ addr < 2 ^ 63).
  { pose proof (AddrForFID_size _ _ _ _ _ _ Hd Hsz Ha) as Hsd. unfold disk_fits, is_u64 in *.
    apply AddrForFID_Ok in Ha; [|unfold disk_ok; llia|llia..]. llia. }
  assert (Hr : ∀ n, ∃ r, read_slice addr n f = (r, f) ∧ read_slice addr n f' = (r, f'))
    by (intros; by apply read_slice_frame; try congruence).
  destruct (Hr packedTableHeaderSize) as ([header|] & -> & ->); [|done].
  repeat (destruct (_ : bool); [done|]).
  by destruct (Hr (int64 size)) as ([blob|] & -> & ->).
Qed.

(** ** The scrub *)

(** A device that reads and writes without faults, with a header and an index of fewer than 262144 entries,
    in the grammar of [log_ok], that replays entry by entry; its tables may be broken, but none in a way that
    makes the inspection panic. *)
Record scrubbable (d id : Z) (f : file) (gs : list group) (st : rstate) : Prop := {
  sb_disk : disk_fits d;
  sb_faults : f_faults f = [];
  sb_size : f_size f = d;
  sb_grow : f_grow f = false;
  sb_header : header_valid id (f_data f);
  sb_log : index_log (f_data f) (log_of gs);
  sb_ok : log_ok gs;
  sb_short : short_log gs;
  sb_replay : foldM (replay_entry d) rstate0 (log_of gs) = Ok st;
  sb_panics : Forall (no_panic d f) (live gs)
}.

Lemma openNBSS_ok od dev f d id :
  opens od f d → disk_fits d → f_faults f = [] → f_size f = d → header_valid id (f_data f) →
  ParseDiskID (DiskID dev) = Ok id →
  openNBSSDevice true od dev = Ok (f, d, region (f_data f) 0 HeaderBytes).
Proof.
  intros Ho Hd Hf Hs Hv Hid. unfold openNBSSDevice, disk_fits in *.
  rewrite (open_device_opens od f d) by (done || lia). destruct Ho as (_ & _ & _ & ->).
  rewrite read_header_ok by (done || (rewrite Hs; llia)).
  destruct (ParseHeader_valid id _ Hv) as (h & -> & -> & ->). rewrite Z.eqb_refl, Hid.
  cbn [mbind res_bind negb]. by rewrite Z.eqb_refl.
Qed.

(** The groups a scrub keeps. *)
Definition scrubbed (d : Z) (f : file) (gs : list group) : list group :=
  filter (λ g, good d f g = true) (live gs).

Section scrub.
Context (d id : Z) (f : file) (gs : list group) (st : rstate) (dev : PanDevice).
Hypothesis Hsb : scrubbable d id f gs st.
Hypothesis Hid : ParseDiskID (DiskID dev) = Ok id.

Lemma scrub_live : live_ok d (live gs) ∧ st = state_of d (live gs).
Proof. apply replay_live; apply Hsb. Qed.

Lemma scrubbed_live : live_ok d (scrubbed d f gs).
Proof. apply filter_live_ok, scrub_live. Qed.

Lemma scrub_groups : Forall (λ p, live_group d p.1 ∧ no_panic d f p.1) (tagged gs).1.
Proof.
  destruct scrub_live as [[Hg _] _]. pose proof (sb_panics _ _ _ _ _ Hsb) as Hp.
  rewrite Forall_forall in Hg. rewrite Forall_forall in Hp. apply Forall_forall. intros p Hin.
  assert (p.1 ∈ live gs) as Hl by (rewrite <- tagged_fst; by apply list_elem_of_fmap_2). split; auto.
Qed.

Lemma inspect_outcome od :
  opens od f d →
  ∃ issues, inspectPackedAnchorsOnDevice true od dev = Ok issues ∧
    list_to_set (pi_TableFID <$> issues) = bad_fids d f (live gs) ∧
    (issues = [] ↔ filter (λ g, good d f g = false) (live gs) = []).
Proof.
  intros Ho. destruct Hsb as [Hd Hf Hs _ Hv Hlog Hok Hsh Hre _]. unfold inspectPackedAnchorsOnDevice.
  rewrite (openNBSS_ok od dev f d id) by done. cbn [mbind res_bind]. unfold mbind at 1, M_bind at 1.
  rewrite (collect_index d f gs st) by (done || (unfold disk_fits in Hd; lia)).
  destruct (find_outcome d f Hd Hf Hs _ scrub_groups) as (issues & -> & H). rewrite tagged_fst in H. eauto.
Qed.

Lemma length_log_filter (P : group → Prop) `{∀ g, Decision (P g)} l :
  (length (log_of (filter P l)) ≤ length (log_of l))%nat.
Proof.
  unfold log_of. induction l as [|g l IH]; [done|]. rewrite filter_cons.
  case_decide; cbn [fmap list_fmap concat]; rewrite ?length_app; lia.
Qed.

Lemma scrubbed_length : (length (log_of (scrubbed d f gs)) ≤ length (log_of gs))%nat.
Proof. pose proof (length_log_live gs). pose proof (length_log_filter (λ g, good d f g = true) (live gs)).
  unfold scrubbed. lia. Qed.

Lemma scrubbed_log_ok : log_ok (scrubbed d f gs).
Proof.
  eapply log_ok_sub; [apply Hsb|apply scrubbed_live|].
  intros g [_ Hin]%list_elem_of_filter. by apply elem_of_live.
Qed.

(** The temporary file. *)
Lemma write_scrubbed_ok hb :
  blen hb = HeaderBytes →
  ∃ tmp, write_scrubbed hb (group_record <$> filter (λ p, good d f p.1 = true) (tagged gs).1) new_file = (Ok tt, tmp) ∧
    f_faults tmp = [] ∧ f_size tmp = GridStart ∧ (∀ a, 0 ≤ a < HeaderBytes → f_data tmp a = bat hb a) ∧
    (∀ a, IndexStart ≤ a < GridStart → f_data tmp a = image_of (log_of (scrubbed d f gs)) a).
Proof.
  intros Hhb. pose proof scrubbed_live as Hl. pose proof (live_fix d _ Hl) as Hfix.
  pose proof (log_capacity _ _ (sb_log _ _ _ _ _ Hsb)) as Hcap. pose proof scrubbed_length as Hlen.
  pose proof (sb_short _ _ _ _ _ Hsb) as Hsh. pose proof scrubbed_log_ok as Hok.
  assert (Hfst : (filter (λ p, good d f p.1 = true) (tagged gs).1).*1 = scrubbed d f gs).
  { unfold scrubbed. rewrite <- tagged_fst. exact (filter_fst (λ g, good d f g = true) (tagged gs).1). }
  destruct (write_image_ok (scrubbed d f gs) (filter (λ p, good d f p.1 = true) (tagged gs).1) hb
    _ zeroFill_fills) as (tmp & Hw & Hgr & Hof & Hos & Hoh & Hoi); rewrite ?Hfix; try done.
  { apply Forall_forall. intros p Hp. assert (p.1 ∈ scrubbed d f gs) as Hin
      by (rewrite <- Hfst; by apply list_elem_of_fmap_2).
    destruct Hl as [Hlg _]. rewrite Forall_forall in Hlg.
    destruct (Hlg _ Hin) as (? & _ & ?). split; [by apply group_buildable|done]. }
  { apply Hok. }
  { lia. }
  rewrite Hfix in Hoi. exists tmp. split; [|done]. unfold write_scrubbed, mbind at 1, M_bind at 1.
  unfold write_compacted. rewrite Hw. apply (validate_index d tmp (scrubbed d f gs)); try done.
  - lia.
  - eapply index_log_ext; [|apply image_of_log; [apply log_entries_ok, Hok|lia]]. intros a Ha. by rewrite Hoi.
  - unfold short_log in *. lia.
Qed.

(** What a fix leaves: the kept groups in the index, everything outside the index as it was. *)
Record fixed (f' : file) : Prop := {
  fx_scrubbable : scrubbable d id f' (scrubbed d f gs) (state_of d (scrubbed d f gs));
  fx_above a : GridStart ≤ a → f_data f' a = f_data f a;
  fx_good : filter (λ g, good d f' g = false) (live (scrubbed d f gs)) = []
}.

(** A table reads the same on a device that differs only in its index. *)
Lemma good_above f' g :
  live_group d g → (∀ a, GridStart ≤ a → f_data f' a = f_data f a) → f_faults f' = [] → f_size f' = d →
  good d f' g = good d f g ∧ (no_panic d f g → no_panic d f' g).
Proof.
  intros (Hok & Hext & _) Hab Hf' Hs'. destruct Hsb as [Hd Hf Hs _ _ _ _ _ _ _]. destruct g as [| |fid size|]; try done.
  destruct Hok as (Hfid & _ & Hsz). assert (Hu : is_u64 size) by (unfold is_u64, IndexPackedSentinel in *; lia).
  pose proof (validate_frame d fid size f f' Hd Hfid Hu Hf Hf' Hs Hs' Hab) as Hv. cbn [good no_panic]. split.
  - destruct (validate_outcome d fid size f) as (r & Hr & <-); [done..|].
    destruct (validate_outcome d fid size f') as (r' & Hr' & <-); [done..|]. rewrite Hr, Hr' in Hv. cbn in Hv. congruence.
  - by rewrite Hv.
Qed.

Lemma copied_fixed tmp f' :
  copied tmp f GridStart f' → f_size tmp = GridStart →
  (∀ a, 0 ≤ a < HeaderBytes → f_data tmp a = f_data f a) →
  (∀ a, IndexStart ≤ a < GridStart → f_data tmp a = image_of (log_of (scrubbed d f gs)) a) → fixed f'.
Proof.
  intros [Hlo Hhi Hgr Hsz Hff] Hts Hth Hti. pose proof Hsb as [Hd Hf Hs Hg Hv Hlog Hok Hsh Hre Hpan].
  pose proof scrubbed_live as Hl. pose proof (live_fix d _ Hl) as Hfix. rewrite Hg in Hgr, Hsz.
  assert (Hab : ∀ a, GridStart ≤ a → f_data f' a = f_data f a) by (intros; apply Hhi; lia).
  assert (Hfr : ∀ g, g ∈ scrubbed d f gs → good d f' g = true ∧ no_panic d f' g).
  { intros g [Hgood Hin]%list_elem_of_filter. destruct scrub_live as [[Hlg _] _].
    rewrite Forall_forall in Hlg. rewrite Forall_forall in Hpan.
    destruct (good_above f' g (Hlg g Hin) Hab) as [-> Hnp]; [done|lia|]. auto. }
  pose proof (log_capacity _ _ Hlog). pose proof scrubbed_length.
  split; [constructor|done|]; try done; try lia.
  - eapply header_valid_ext; [|exact Hv]. intros a Ha. rewrite Hlo by llia. apply Hth. by unfold IndexStart in Ha.
  - eapply index_log_ext; [|apply image_of_log; [apply log_entries_ok, scrubbed_log_ok|lia]].
    intros a Ha. by rewrite Hlo, Hti by llia.
  - apply scrubbed_log_ok.
  - unfold short_log in *. lia.
  - by apply replay_live_groups.
  - rewrite Hfix. apply Forall_forall. intros g Hin. by destruct (Hfr g Hin).
  - rewrite Hfix. apply filter_none. intros g Hin. destruct (Hfr g Hin) as [-> _]. done.
Qed.

Lemma fix_outcome os issues :
  issues ≠ [] → list_to_set (pi_TableFID <$> issues) = bad_fids d f (live gs) →
  opens (se_write os) f d → opens (se_backup os) f d → se_mkdir os = None → se_backup_mkdir os = None →
  se_backup_create os = Ok new_file → se_temp os = Ok new_file →
  ∃ f' bak, fixPackedAnchorsOnDevice true os dev issues = (None, Some f', Some bak) ∧ fixed f' ∧
    f_size bak = GridStart ∧ ∀ a, 0 ≤ a < GridStart → f_data bak a = f_data f a.
Proof.
  intros Hne Hbad Hw Hb Hmk Hbm Hbc Htmp. pose proof Hsb as [Hd Hf Hs Hg Hv Hlog Hok Hsh Hre Hpan].
  assert (HdG : GridStart ≤ d) by (unfold disk_fits in Hd; lia).
  unfold fixPackedAnchorsOnDevice. destruct issues as [|i issues]; [done|]. clear Hne.
  rewrite (openNBSS_ok _ dev f d id) by done.
  rewrite (collect_index d f gs st) by (done || lia). rewrite Hbad, Hmk, Hbm, Hbc, Htmp.
  destruct (backup_outcome (se_backup os) dev f d id) as (bak & Hbk & _ & Hbs & Hbd); [done..|].
  unfold BackupDeviceIndexToPath in Hbk. rewrite Hbk.
  pose proof (keep_records d f (tagged gs).1) as Hkeep. rewrite tagged_fst in Hkeep.
  rewrite Hkeep by (eapply live_keys, scrub_live).
  destruct (write_scrubbed_ok (region (f_data f) 0 HeaderBytes)) as (tmp & -> & Htf & Hts & Hth & Hti); [done|].
  destruct (copy_section_ok GridStart tmp f) as (f' & -> & Hc);
    [llia|done|lia|split; [done|right; lia]|llia|].
  exists f', bak. split; [done|]. split; [|done]. by apply (copied_fixed tmp).
Qed.
End scrub.

(** ** Opening the device again *)

(** No table maps the fid of a table. *)
Definition unshadowed (d : Z) (f : file) (l : list group) : Prop :=
  ∀ fid size addr i k hd es e, GTable fid size ∈ l → AddrForFID d fid size = Ok (addr, i, k) →
    decodePackedTable (bytes_at (f_data f) addr (Z.to_nat size)) = Ok (hd, es) → e ∈ es →
    e_fid e ∉ table_fids l.

Lemma add_packed_ne hd t sz es maps k :
  (∀ e, e ∈ es → e_fid e ≠ k) → (add_packed hd t sz maps es).1 !! k = maps.1 !! k.
Proof.
  revert maps. induction es as [|e es IH]; intros [refs packed] Hne; [done|]. cbn [add_packed foldl].
  etransitivity; [apply IH; intros e' He'; apply Hne; by right|]. cbn [fst].
  apply lookup_insert_ne, Hne. by left.
Qed.

(** Tables that load are loaded. *)
Lemma load_good d f l ts maps :
  disk_fits d → f_faults f = [] → f_size f = d → live_ok d l → unshadowed d f l →
  (∀ t, t ∈ ts → ∃ size, GTable t size ∈ l ∧ good d f (GTable t size) = true ∧
    maps.1 !! t = Some (plain_ref t size)) →
  ∃ out, load_tables d ts maps f = (Ok out, f).
Proof.
  intros Hd Hf Hs Hl Hun. revert maps. induction ts as [|t ts IH]; intros maps Hts; [by eexists|].
  destruct (Hts t) as (size & Hin & Hgood & Ht); [by left|]. rewrite load_tables_cons, Ht.
  destruct Hl as [Hlg _]. rewrite Forall_forall in Hlg. destruct (Hlg _ Hin) as ((Hfid & _ & Hsz) & _ & _).
  cbn [good] in Hgood. unfold table_loads in Hgood. unfold mbind at 1, M_bind at 1, mlift at 1.
  cbn [plain_ref r_fid storedSize r_size] in *.
  destruct (AddrForFID d t size) as [[[addr i] k]|] eqn:Ha; [|done].
  assert (Hu : is_u64 size) by (unfold is_u64, IndexPackedSentinel in *; lia).
  pose proof (AddrForFID_size _ _ _ _ _ _ Hd Hu Ha) as Hsd.
  assert (Haddr : 0 ≤ addr ∧ addr + size ≤ d).
  { unfold disk_fits, is_u64 in *. apply AddrForFID_Ok in Ha; [|unfold disk_ok; llia|llia..]. llia. }
  unfold disk_fits in Hd. unfold mbind at 1, M_bind at 1.
  rewrite read_blob_ok by (done || (unfold maxAlloc; lia)).
  destruct (decodePackedTable _) as [[hd es]|] eqn:E; [|done]. cbn [wrap_err].
  unfold mbind at 1, M_bind at 1, mlift at 1. apply IH. intros t' Ht'.
  destruct (Hts t') as (size' & Hin' & Hg' & Hl'); [by right|]. exists size'. split; [done|]. split; [done|].
  rewrite add_packed_ne; [done|]. intros e He Heq. eapply (Hun t size); [done..|]. rewrite Heq.
  apply list_elem_of_omap. by exists (GTable t' size').
Qed.

Lemma scrubbable_opens d id f gs st direct :
  scrubbable d id f gs st → disjoint_all (map_to_list (rs_extents st)).*2 →
  filter (λ g, good d f g = false) (live gs) = [] → unshadowed d f (live gs) →
  ∃ s, OpenDevice (clean f) d direct id = (Ok s, clean f) ∧ indexErr s = None ∧
    ∀ fid r, rs_refs st !! fid = Some r → ∃ r', confirmed s !! fid = Some r' ∧ (r_packed r' = false → r' = r).
Proof.
  intros Hsb Hdis Hgood Hun. pose proof Hsb as [Hd Hf Hs Hg Hv Hlog Hok Hsh Hre Hpan].
  pose proof (disk_fits_ok _ Hd) as Hdok. destruct (replay_live d gs st Hok Hre) as [Hl ->].
  pose proof (replay_fold_ok d _ _ (index_log_entries_ok _ _ Hlog) Hre) as Hst.
  destruct (load_good d (clean f) (live gs) (table_fids (live gs)) (rs_refs (state_of d (live gs)), ∅))
    as ([refs pk] & Hload); [done|done|done|done|exact Hun| |].
  { intros t (g & Hin & Hg')%list_elem_of_omap. destruct g as [| |fid size|]; try done. injection Hg' as ->.
    exists size. split; [done|]. split.
    - change (good d (clean f) (GTable t size)) with (good d f (GTable t size)).
      destruct (good d f (GTable t size)) eqn:E; [done|].
      by destruct (filter_nil_not_elem_of _ _ _ Hgood E).
    - apply (refs_state_of d); [done|]. exists (GTable t size). split; [done|]. apply lookup_singleton_eq. }
  assert (Hrep : replayIndex d (clean f) = (Ok (refs, pk,
    sort_extents (map_to_list (rs_extents (state_of d (live gs)))).*2, log_end (log_of gs)), clean f)).
  { unfold disk_fits in Hd. rewrite (replay_fold d (clean f) (log_of gs)) by (done || (cbn; lia)). rewrite Hre.
    apply finish_Ok; try done. rewrite tables_state_of, packed_state_of.
    destruct (rest_state_of d (live gs)). by split_and!. }
  destruct (ParseHeader_valid id (f_data f) Hv) as (h & HP & Hver & Hid).
  exists (mkState (clean f) direct id d (sort_extents (map_to_list (rs_extents (state_of d (live gs)))).*2) []
    refs pk (log_end (log_of gs)) None). split; [|split; [done|]].
  - unfold OpenDevice, disk_fits in *. rewrite must_read_ok by (done || (cbn; llia)).
    change (f_data (clean f)) with (f_data f). rewrite HP, Hver, Hid, !Z.eqb_refl. cbn [negb orb].
    rewrite (proj2 (Z.leb_gt _ _)) by lia. by rewrite Hrep.
  - cbn [confirmed]. intros fid r Hr.
    destruct (load_tables_dom _ _ _ _ _ _ fid Hload) as [r' Hr']; [by exists r|].
    exists r'. split; [exact Hr'|]. intros Hp. pose proof (load_tables_direct _ _ _ _ _ _ fid r' Hload Hr' Hp) as H.
    cbn [fst] in H. congruence.
Qed.

(** C21: the scrub repairs a disk.  The device has a size the format allows, the header of its disk id, and
    reads and writes without faults; its index has fewer than 262144 entries, is a sequence of plain
    objects, alias pairs, anchored tables and tombstones (a tombstone only for a fid no alias pair and no
    anchor has, each table anchored once and in no alias pair) and replays entry by entry.  The inspection
    of no live table panics, which a table with a count near 2^61 makes it do.  The backup, its directory and
    the temporary file can be made.  Then the inspection reports exactly the live anchors whose table the
    daemon cannot load (or whose container is empty).  If there are any, the fix succeeds: the backup holds
    the old index, nothing outside the index region changes, a second inspection finds nothing, and - when
    extents are disjoint and no table that stays maps the fid of another one - the device opens with every
    other object the index registers, under its old reference unless a table that stays maps it. *)
Theorem scrub_recovers d id f gs st dev os direct :
  scrubbable d id f gs st → ParseDiskID (DiskID dev) = Ok id →
  opens (se_read os) f d → opens (se_write os) f d → opens (se_backup os) f d →
  se_mkdir os = None → se_backup_mkdir os = None →
  se_backup_create os = Ok new_file → se_temp os = Ok new_file →
  disjoint_all (map_to_list (rs_extents st)).*2 → unshadowed d f (scrubbed d f gs) →
  ∃ issues, inspectPackedAnchorsOnDevice true (se_read os) dev = Ok issues ∧
    list_to_set (pi_TableFID <$> issues) = bad_fids d f (live gs) ∧
    (issues ≠ [] →
     ∃ f' bak s', fixPackedAnchorsOnDevice true os dev issues = (None, Some f', Some bak) ∧
       (f_size bak = GridStart ∧ ∀ a, 0 ≤ a < GridStart → f_data bak a = f_data f a) ∧
       (∀ a, GridStart ≤ a → f_data f' a = f_data f a) ∧
       (∀ od, opens od f' d → inspectPackedAnchorsOnDevice true od dev = Ok []) ∧
       OpenDevice (clean f') d direct id = (Ok s', clean f') ∧
       ∀ fid r, rs_refs st !! fid = Some r → fid ∉ bad_fids d f (live gs) →
         ∃ r', confirmed s' !! fid = Some r' ∧ (r_packed r' = false → r' = r)).
Proof.
  intros Hsb Hid Hr Hw Hb Hm Hbm Hbc Ht Hdis Hun.
  destruct (inspect_outcome d id f gs st dev Hsb Hid _ Hr) as (issues & Hi & Hbad & _).
  exists issues. split; [exact Hi|]. split; [exact Hbad|]. intros Hne.
  destruct (fix_outcome d id f gs st dev Hsb Hid os issues) as (f' & bak & Hfx & [Hsb' Hab Hgood] & Hbk); [done..|].
  destruct (scrub_live d id f gs st Hsb) as [Hl Est].
  pose proof (scrubbed_live d id f gs st Hsb) as Hsl. pose proof (live_fix d _ Hsl) as Hfix.
  destruct (scrubbable_opens d id f' _ _ direct Hsb') as (s' & Hop & _ & Hrefs); [|done| |].
  { rewrite Est in Hdis. eapply disjoint_all_submseteq; [by apply exts_filter|exact Hdis]. }
  { rewrite Hfix. intros t size addr i k hd es e Hin Ha Hdec. apply (Hun t size addr i k hd es e Hin Ha).
    rewrite <- Hdec. f_equal. apply bytes_at_ext. intros a Ha'. symmetry. apply Hab.
    destruct Hsl as [Hlg _]. rewrite Forall_forall in Hlg. destruct (Hlg _ Hin) as ((Ht' & _ & Hsz) & _ & _).
    destruct Hsb as [Hd _ _ _ _ _ _ _ _ _]. unfold disk_fits, is_u64, IndexPackedSentinel in *.
    apply AddrForFID_Ok in Ha; [|unfold disk_ok; llia|llia..]. llia. }
  exists f', bak, s'. split; [exact Hfx|]. split; [exact Hbk|]. split; [exact Hab|]. split.
  { intros od Ho. destruct (inspect_outcome d id f' _ _ dev Hsb' Hid od Ho) as (i2 & Hi2 & _ & Hnil).
    by rewrite (proj2 Hnil Hgood) in Hi2. }
  split; [exact Hop|]. intros fid r Hr' Hnb. apply Hrefs. rewrite Est in Hr'.
  apply (refs_state_of d) in Hr' as (g & Hin & Hg); [|done].
  apply (refs_state_of d); [done|]. exists g. split; [|done]. apply list_elem_of_filter. split; [|done].
  destruct (good d f g) eqn:E; [done|]. destruct Hnb. unfold bad_fids. rewrite elem_of_list_to_set.
  apply list_elem_of_fmap. exists g. destruct g as [| |t size|]; try done. cbn [group_refs] in Hg.
  apply lookup_singleton_Some in Hg as [<- _]. split; [done|]. by apply list_elem_of_filter.
Qed.

Definition scrub_dev : PanDevice := mkPanDevice "match" "d" "0x7" 2 0.
Definition scrub_os_of (f : file) (d : Z) : scrub_os :=
  let od := mkOsDevice (Ok true) (Ok f) None (Ok d) in
  mkScrubOs od od od None None (Ok new_file) (Ok new_file) "yes".

(** The sample index of the compaction: the blob of its table is all zeros. *)
Lemma sample_scrubbable :
  scrubbable sample_disk 7 sample_input sample_groups (state_of sample_disk (live sample_groups)).
Proof.
  pose proof sample_compactable as [_ _ _ _ _ _ Hlog Hok _ _ Hre].
  constructor.
  - unfold disk_fits, sample_disk. llia.
  - reflexivity.
  - reflexivity.
  - reflexivity.
  - apply (bool_decide_unpack _). vm_compute. exact I.
  - exact Hlog.
  - exact Hok.
  - vm_compute. reflexivity.
  - exact Hre.
  - replace (live sample_groups) with sample_live by (vm_compute; reflexivity).
    apply Forall_forall. unfold sample_live. intros g Hg.
    rewrite !elem_of_cons in Hg. destruct Hg as [->|[->|[->|Hg]]]; try exact I; [|by apply not_elem_of_nil in Hg].
    intros e. vm_compute. by intros [= <-].
Qed.

Lemma scrub_recovers_witness :
  ∃ i f' bak s',
    inspectPackedAnchorsOnDevice true (se_read (scrub_os_of sample_input sample_disk)) scrub_dev = Ok i ∧
    fixPackedAnchorsOnDevice true (scrub_os_of sample_input sample_disk) scrub_dev i = (None, Some f', Some bak) ∧
    OpenDevice (clean f') sample_disk true 7 = (Ok s', clean f') ∧ is_Some (confirmed s' !! 5).
Proof.
  assert (Hsc : scrubbed sample_disk sample_input sample_groups = [GAlias 9 3 6 50; GPlain 5 200])
    by (vm_compute; reflexivity).
  assert (Hbad : bad_fids sample_disk sample_input (live sample_groups) = {[11]}) by (vm_compute; reflexivity).
  destruct (scrub_recovers sample_disk 7 sample_input sample_groups _ scrub_dev
    (scrub_os_of sample_input sample_disk) true sample_scrubbable) as (i & Hi & Hids & Hfix).
  1-8: by try split_and!.
  { vm_compute. repeat constructor. }
  { rewrite Hsc. intros t size addr j k hd es e Hin. by apply elem_of_cons in Hin as [?|Hin%list_elem_of_singleton]. }
  destruct Hfix as (f' & bak & s' & H1 & _ & _ & _ & H2 & H3).
  { intros ->. rewrite Hbad in Hids. symmetry in Hids. by apply non_empty_singleton_L in Hids. }
  exists i, f', bak, s'. split; [exact Hi|]. split; [exact H1|]. split; [exact H2|].
  destruct (H3 5 (plain_ref 5 200)) as (r' & Hr & _); [vm_compute; reflexivity|by rewrite Hbad, elem_of_singleton|by exists r'].
Defined.

(** C22: two readers, one test: on a device without faults the scrubber accepts a table exactly when its
    extent exists, the decoder of the daemon accepts the bytes there and the container is not empty -
    although the scrubber compares sizes modulo 2^64 and slices without a bound. *)
Theorem scrub_agrees_with_decoder d fid size f :
  disk_fits d → f_faults f = [] → f_size f = d → is_u64 fid → is_u64 size →
  (validatePackedTableObject d fid size f).1 = Ok tt ↔
  ∃ addr slot count hd es, AddrForFID d fid size = Ok (addr, slot, count) ∧
    decodePackedTable (bytes_at (f_data f) addr (Z.to_nat size)) = Ok (hd, es) ∧ h_containerSize hd ≠ 0.
Proof.
  intros Hd Hf Hs Hfid Hsz. destruct (validate_outcome d fid size f) as (r & -> & Hok); [done..|].
  cbn [fst]. transitivity (is_ok r = true); [by destruct r as [[]|]|]. rewrite Hok. unfold table_loads. split.
  - destruct (AddrForFID d fid size) as [[[addr i] k]|]; [|done].
    destruct (decodePackedTable _) as [[hd es]|] eqn:E; [|done]. intros Hc.
    exists addr, i, k, hd, es. split; [done|]. split; [done|]. by destruct (Z.eqb_spec (h_containerSize hd) 0).
  - intros (addr & i & k & hd & es & -> & -> & Hc). by rewrite (proj2 (Z.eqb_neq _ _)).
Qed.

Definition table_disk (blob : list byte) : file :=
  match AddrForFID sample_disk 11 (Z.of_nat (length blob)) with
  | Ok (addr, _, _) => plain_file (upd (λ _, x00) addr (buf_of blob)) sample_disk
  | Err _ => new_file
  end.

Lemma scrub_agrees_with_decoder_witness :
  let blob := encodePackedTable (mkTableHeader 7 9 100 1 0) [mkTableEntry 5 0 60] in
  (validatePackedTableObject sample_disk 11 72 (table_disk blob)).1 = Ok tt.
Proof.
  intros blob. apply (scrub_agrees_with_decoder sample_disk 11 72 (table_disk blob)).
  - unfold disk_fits, sample_disk. llia.
  - reflexivity.
  - reflexivity.
  - unfold is_u64. lia.
  - unfold is_u64. lia.
  - do 5 eexists. split; [reflexivity|]. split; [vm_compute; reflexivity|]. done.
Defined.

(** A count of 2^61 + 1 makes the size check wrap to the size of one entry: the scrub panics, on just
    the kind of table it is there to remove. *)
Definition wrapped_table : list byte :=
  packedTableMagic ++ le_bytes 2 1 ++ le_bytes 2 48 ++ le_bytes 8 7 ++ le_bytes 8 9 ++ le_bytes 8 100 ++
  le_bytes 8 (2 ^ 61 + 1) ++ le_bytes 8 0 ++ encode_table_entry (mkTableEntry 5 0 60).

Example scrub_count_wraps :
  (validatePackedTableObject sample_disk 11 72 (table_disk wrapped_table)).1 =
    Err (EPanic "slice bounds out of range").
Proof. vm_compute. reflexivity. Qed.
