(* ===== verification/Flag.v ===== *)
(** * Command-line flags

    Go's [flag.FlagSet] with [ContinueOnError], as the commands under src/cmd and src/internal use
    it: the flags come first, in the forms [-name], [-name=value] and [-name value], with one or two
    dashes, and the rest are positional arguments.  A flag set maps a name to its [Value], whose [Set]
    updates the record of options of the command. *)

From S2P Require Import Prelude Machine Float Text Config.
From Stdlib Require Import Ascii QArith.
#[local] Open Scope Z_scope.

(** ** strconv *)
Definition ParseBool (s : string) : res bool :=
  if bool_decide (s ∈ ["1"; "t"; "T"; "TRUE"; "true"; "True"]%string) then Ok true else
  if bool_decide (s ∈ ["0"; "f"; "F"; "FALSE"; "false"; "False"]%string) then Ok false else
  Err syntax_error.

(** [strconv.ParseInt(s, 0, 64)]. *)
Definition ParseInt (s : string) : res Z :=
  match chars s with
  | [] => Err syntax_error
  | c :: l =>
      let neg := code c =? 45 in
      let body := if neg || (code c =? 43) then str l else s in
      n ← ParseUint body 0;
      if negb neg && (2 ^ 63 <=? n) || neg && (2 ^ 63 <? n) then Err range_error
      else Ok (if neg then - n else n)
  end.

(** [strconv.ParseFloat(s, 64)].  The mantissa: its value, the digits after the point, whether a point,
    a digit and an underscore were seen, and the rest. *)
Fixpoint read_mantissa (base : Z) (l : list ascii) (m frac : Z) (point digits us : bool) :
    Z * Z * bool * bool * list ascii :=
  match l with
  | [] => (m, frac, digits, us, l)
  | c :: l' =>
      if code c =? 95 then read_mantissa base l' m frac point digits true else
      if code c =? 46 then
        if point then (m, frac, digits, us, l) else read_mantissa base l' m frac true digits us
      else
        match digit_val c with
        | Some d =>
            if d <? base then read_mantissa base l' (m * base + d) (if point then frac + 1 else frac) point true us
            else (m, frac, digits, us, l)
        | None => (m, frac, digits, us, l)
        end
  end.

(** The digits of the exponent, which stop growing at 10000; they must be all that is left. *)
Fixpoint read_exponent (l : list ascii) (e : Z) (us : bool) : option (Z * bool) :=
  match l with
  | [] => Some (e, us)
  | c :: l =>
      if code c =? 95 then read_exponent l e true
      else if is_digit c then read_exponent l (if e <? 10000 then e * 10 + (code c - 48) else e) us
      else None
  end.

(** The optional exponent, a sign and at least one digit. *)
Definition exponent (hex : bool) (l : list ascii) (us : bool) : option (Z * bool) :=
  match l with
  | [] => if hex then None else Some (0, us)
  | c :: l =>
      if negb (lower c =? (if hex then 112 else 101)) then None else
      let '(esign, l) := match l with
        | c :: l' => if code c =? 43 then (1, l') else if code c =? 45 then (-1, l') else (1, l)
        | [] => (1, l)
        end in
      match l with
      | c :: _ => if is_digit c then '(e, us) ← read_exponent l 0 us; Some (esign * e, us) else None
      | [] => None
      end
  end.

Definition power (b e : Z) : Q := if 0 <=? e then inject_Z (b ^ e) else 1 # Z.to_pos (b ^ (- e)).

Definition ParseFloat (s : string) : res f64 :=
  let '(neg, l) := match chars s with
    | c :: l => if code c =? 45 then (true, l) else if code c =? 43 then (false, l) else (false, c :: l)
    | [] => (false, [])
    end in
  if EqualFold (str l) "inf" || EqualFold (str l) "infinity" then Ok (Inf (negb neg)) else
  if EqualFold s "nan" then Ok NaN else
  let '(hex, ds) := match l with
    | c0 :: c1 :: l' => if (code c0 =? 48) && (lower c1 =? 120) then (true, l') else (false, l)
    | _ => (false, l)
    end in
  let '(m, frac, digits, us, rest) := read_mantissa (if hex then 16 else 10) ds 0 0 false false false in
  if negb digits then Err syntax_error else
  match exponent hex rest us with
  | None => Err syntax_error
  | Some (e, us) =>
      if us && negb (underscoreOK (chars s)) then Err syntax_error else
      let q := (inject_Z m * (if hex then power 2 (e - 4 * frac) else power 10 (e - frac)))%Q in
      let r := round64 q in
      if Qle_bool (inject_Z (2 ^ 1024)) r then Err range_error else Ok (F64 (if neg then - r else r)%Q)
  end.

(** ** Flag sets *)
Record value (O : Type) := mkValue { isBool : bool; Set_ : string → O → res O }.
Arguments mkValue {O} _ _.
Arguments isBool {O} _.
Arguments Set_ {O} _ _ _.

Definition flag_set (O : Type) := list (string * value O).

Definition StringVar {O} (set : string → O → O) : value O := mkValue false (λ s o, Ok (set s o)).
Definition BoolVar {O} (set : bool → O → O) : value O := mkValue true (λ s o, b ← ParseBool s; Ok (set b o)).
Definition IntVar {O} (set : Z → O → O) : value O := mkValue false (λ s o, n ← ParseInt s; Ok (set n o)).
Definition DurationVar {O} (set : Z → O → O) : value O :=
  mkValue false (λ s o, d ← ParseDuration s; Ok (set d o)).
Definition Float64Var {O} (set : f64 → O → O) : value O :=
  mkValue false (λ s o, x ← ParseFloat s; Ok (set x o)).

Fixpoint find_flag {O} (fs : flag_set O) (name : string) : option (value O) :=
  match fs with
  | [] => None
  | (n, v) :: fs => if bool_decide (n = name) then Some v else find_flag fs name
  end.

Definition ErrHelp : error := EMsg "flag: help requested".

(** The first argument: not a flag, the terminator, a syntax error, or a name with a value. *)
Inductive token := NoFlag | Terminator | BadSyntax | Named (name : string) (value : option string).

Fixpoint cut_equals (l acc : list ascii) : string * option string :=
  match l with
  | [] => (str (reverse acc), None)
  | c :: l => if code c =? 61 then (str (reverse acc), Some (str l)) else cut_equals l (c :: acc)
  end.

Definition flag_name (name : list ascii) : token :=
  match name with
  | [] => BadSyntax
  | c :: l => if (code c =? 45) || (code c =? 61) then BadSyntax
              else let '(n, v) := cut_equals l [c] in Named n v
  end.

Definition tokenize (s : string) : token :=
  match chars s with
  | c0 :: c1 :: l =>
      if negb (code c0 =? 45) then NoFlag else
      if code c1 =? 45 then (if bool_decide (l = []) then Terminator else flag_name l)
      else flag_name (c1 :: l)
  | _ => NoFlag
  end.

(** Setting a flag; the error of its value becomes a message. *)
Definition set_flag {O} (flag : value O) (v : string) (o : O) : res O :=
  match Set_ flag v o with Ok o => Ok o | Err _ => Err (EMsg "invalid value for flag") end.

(** [Parse]: the options and the positional arguments. *)
Fixpoint Parse {O} (fs : flag_set O) (args : list string) (o : O) : res (O * list string) :=
  match args with
  | [] => Ok (o, [])
  | s :: rest =>
      match tokenize s with
      | NoFlag => Ok (o, args)
      | Terminator => Ok (o, rest)
      | BadSyntax => Err (EMsg "bad flag syntax")
      | Named name v =>
          match find_flag fs name with
          | None => Err (if bool_decide (name ∈ ["help"; "h"]%string) then ErrHelp
                         else EMsg "flag provided but not defined")
          | Some flag =>
              if isBool flag then
                o ← set_flag flag (default "true"%string v) o; Parse fs rest o
              else
                match v, rest with
                | Some v, _ => o ← set_flag flag v o; Parse fs rest o
                | None, v :: rest => o ← set_flag flag v o; Parse fs rest o
                | None, [] => Err (EMsg "flag needs an argument")
                end
          end
      end
  end.

(** ** Properties of the parser *)

(** The positional arguments are a suffix of the arguments. *)
Lemma Parse_suffix {O} (fs : flag_set O) args o o' rest :
  Parse fs args o = Ok (o', rest) → ∃ used, args = used ++ rest.
Proof.
  revert o. induction args as [args IH] using (induction_ltof1 _ (@length string)). intros o.
  unfold ltof in IH. destruct args as [|s args]; [intros [= _ <-]; by exists []|].
  cbn [Parse]. destruct (tokenize s) as [| | |name v].
  - intros [= _ <-]. by exists [].
  - intros [= _ <-]. by exists [s].
  - done.
  - destruct (find_flag fs name) as [flag|]; [|done]. destruct (isBool flag).
    + intros (o1 & _ & H)%res_bind_Ok. destruct (IH args ltac:(cbn; lia) _ H) as [used ->]. by exists (s :: used).
    + destruct v as [v|].
      * intros (o1 & _ & H)%res_bind_Ok. destruct (IH args ltac:(cbn; lia) _ H) as [used ->]. by exists (s :: used).
      * destruct args as [|v args]; [done|].
        intros (o1 & _ & H)%res_bind_Ok. destruct (IH args ltac:(cbn; lia) _ H) as [used ->]. by exists (s :: v :: used).
Qed.

(** Arguments none of which starts with a dash are positional. *)
Lemma Parse_positional {O} (fs : flag_set O) args o :
  (∀ s, head args = Some s → tokenize s = NoFlag) → Parse fs args o = Ok (o, args).
Proof. destruct args as [|s args]; [done|]. intros H. cbn [Parse]. by rewrite H. Qed.

Example tokenize_samples :
  tokenize "--id=0x7" = Named "id" (Some "0x7"%string) ∧ tokenize "-yes" = Named "yes" None ∧
  tokenize "--" = Terminator ∧ tokenize "-" = NoFlag ∧ tokenize "/dev/sda" = NoFlag ∧
  tokenize "---x" = BadSyntax.
Proof. by split_and!. Qed.

(** Values, as [strconv.ParseFloat] gives them. *)
Definition float_is (s : string) (q : Q) : bool :=
  match ParseFloat s with Ok (F64 p) => Qeq_bool p q | _ => false end.
Example parse_float_samples :
  float_is "0.2" (3602879701896397 # 18014398509481984) = true ∧ float_is "-1" (-1) = true ∧
  float_is "1_0.5e-1" (4728779608739021 # 4503599627370496) = true ∧ float_is "0x1.8p3" 12 = true ∧
  float_is ".5" (1 # 2) = true ∧ float_is "1e-400" 0 = true ∧ ParseFloat "-Inf" = Ok (Inf false) ∧
  ParseFloat "1e309" = Err range_error ∧ ParseFloat "0x1" = Err syntax_error ∧
  ParseFloat "_1" = Err syntax_error ∧ ParseFloat "1e" = Err syntax_error ∧ ParseFloat "." = Err syntax_error.
Proof. by split_and!. Qed.
