(* ===== verification/Init.v ===== *)
(** * Initialising a device (internal/blk/init.go) and showing it (info.go)

    [RunInit] from its arguments to the bytes on the device: the refusals, the layout it zeroes and
    the header it writes.  What it answers on every branch, that a device it refuses is not written and
    that one it initialises opens as an empty disk, is [init_formats].  SHA-256 and the random salt of an automatic disk id are
    arguments. *)

From S2P Require Import Prelude Machine Loop Device Layout IndexScan PackedTable Interval Replay.
From S2P Require Import DirectIO DeviceState DeviceInv DeviceOps DiskStore Text Path Config Flag Compact.
From S2P Require Import CompactRun Backup.
From Stdlib Require Import Strings.Byte Ascii.

Definition maxNoteBytes : Z := HeaderBytes - 16.

Definition exitOK : Z := 0.
Definition exitBadArgs : Z := 2.
Definition exitIO : Z := 5.
Definition exitDevBusy : Z := 6.
Definition exitAlreadyNBSS : Z := 7.
Definition exitIndexNotEmpty : Z := 8.
Definition exitTooSmall : Z := 9.
Definition exitNotBlockDevice : Z := 10.
Definition exitNoteTooLong : Z := 11.
Definition exitBadID : Z := 12.
Definition exitTooLarge : Z := 13.
Definition exitAborted : Z := 14.
Definition exitPermission : Z := 15.

Definition bytes (s : string) : list byte := String.list_byte_of_string s.

(** ** Arguments *)
Record initOptions := mkInit {
  io_note : string; io_id : string; io_force : bool; io_yes : bool; io_dryRun : bool
}.
Definition initOptions0 : initOptions := mkInit "" "auto" false false false.

Definition newInitFlagSet : flag_set initOptions := [
  ("note", StringVar (λ s o, mkInit s (io_id o) (io_force o) (io_yes o) (io_dryRun o)));
  ("id", StringVar (λ s o, mkInit (io_note o) s (io_force o) (io_yes o) (io_dryRun o)));
  ("force", BoolVar (λ b o, mkInit (io_note o) (io_id o) b (io_yes o) (io_dryRun o)));
  ("yes", BoolVar (λ b o, mkInit (io_note o) (io_id o) (io_force o) b (io_dryRun o)));
  ("dry-run", BoolVar (λ b o, mkInit (io_note o) (io_id o) (io_force o) (io_yes o) b))]%string.

(** The options and the device path, or the exit code. *)
Definition init_args (args : list string) : initOptions * string + Z :=
  match Parse newInitFlagSet args initOptions0 with
  | Err _ => inr exitBadArgs
  | Ok (opts, [devicePath]) => inl (opts, devicePath)
  | Ok _ =>
      match args with
      | arg :: tail =>
          if HasPrefix arg "-" then inr exitBadArgs else
          match Parse newInitFlagSet tail initOptions0 with
          | Err _ => inr exitBadArgs
          | Ok (opts, []) => inl (opts, arg)
          | Ok _ => inr exitBadArgs
          end
      | [] => inr exitBadArgs
      end
  end.

(** ** The device *)
Record FileInfo := mkFileInfo { fi_device : bool; fi_regular : bool; fi_size : Z }.

Definition IsBlockDevice (st : FileInfo) : bool := fi_device st.

(** [ioctl] is the answer of BLKGETSIZE64. *)
Definition deviceSizeBytes (ioctl : res Z) (st : FileInfo) : res Z :=
  if fi_regular st then Ok (u64 (fi_size st)) else ioctl.

Definition DeviceSizeBytes := deviceSizeBytes.

Definition EBUSY : error := EMsg "device or resource busy".

(** What the operating system and the user answer. *)
Record init_os := mkInitOs {
  in_stat : res FileInfo; in_open : res file; in_fstat : res FileInfo; in_ioctl : res Z;
  in_salt : res (list byte); in_line : string
}.

(** [ReadAt] into a zeroed buffer of [n] bytes where [io.EOF] is tolerated. *)
Definition read_padded (off n : Z) : M file buf := λ f,
  let '((b, err), f) := ReadAt off n f in
  match err with
  | Some e => if bool_decide (e = EEOF)
              then (Ok (Buf n (λ i, if i <? blen b then bat b i else x00)), f)
              else (Err e, f)
  | None => (Ok b, f)
  end.

Definition checkExistingHeader : M file unit :=
  header ← read_padded 0 HeaderBytes;
  if bool_decide (bytes_at (bat header) 0 4 = magic_NBSS) &&
     (le_val (bytes_at (bat header) 4 2) =? FormatVersion)
  then mfail (EMsg "existing header version") else mret tt.

Definition checkIndexNotEmpty : M file unit :=
  b ← read_padded IndexStart 4096;
  if forallb (λ x, byte_val x =? 0) (buf_list b) then mret tt
  else mfail (EMsg "index contains non-zero data").

Definition zeroRegion (start_ length_ : Z) : M file unit :=
  let chunk := 4 * 1024 * 1024 in
  mloop (Z.to_pos (length_ + 1)) (λ written f,
    if written <? length_ then
      let remaining := length_ - written in
      let writeSize := if remaining <? chunk then remaining else chunk in
      match must_write (zeros writeSize) (int64 (u64 (start_ + written))) f with
      | (Err e, f) => (Err e, f)
      | (Ok _, f) => (Ok (inl (written + writeSize)), f)
      end
    else (Ok (inr tt), f)) 0.

Definition confirmInit (line : string) : bool := bool_decide (TrimSpace line = "yes"%string).

Section init.
Context (sha256 : list byte → list byte).

Definition autoDiskID (salt : res (list byte)) (diskBytes : Z) (devicePath : string) : res Z :=
  salt ← salt;
  let normPath := Clean devicePath in
  let data := le_bytes 8 diskBytes ++ bytes normPath ++ salt in
  Ok (le_val (take 8 (sha256 data))).

Definition resolveDiskID (salt : res (list byte)) (idArg : string) (diskBytes : Z) (devicePath : string) :
    res Z :=
  if bool_decide (idArg = EmptyString) || EqualFold idArg "auto"
  then autoDiskID salt diskBytes devicePath
  else ParseUint (TrimSpace idArg) 0.

(** The checks that need the content of the device. *)
Definition init_checks (force : bool) : M file (option Z) := λ f,
  if force then (Ok None, f) else
  match checkExistingHeader f with
  | (Err _, f) => (Ok (Some exitAlreadyNBSS), f)
  | (Ok _, f) =>
      match checkIndexNotEmpty f with
      | (Err _, f) => (Ok (Some exitIndexNotEmpty), f)
      | (Ok _, f) => (Ok None, f)
      end
  end.

(** The two writes. *)
Definition init_writes (header : buf) (f : file) : Z * file :=
  match zeroRegion IndexStart IndexBytes f with
  | (Err _, f) => (exitIO, f)
  | (Ok _, f) =>
      match must_write header 0 f with
      | (Err _, f) => (exitIO, f)
      | (Ok _, f) => (exitOK, f)
      end
  end.

(** [RunInit] once the device is open. *)
Definition init_opened (opts : initOptions) (devicePath : string) (os : init_os) (f : file) : Z * file :=
  match in_fstat os with
  | Err _ => (exitIO, f)
  | Ok st =>
      if negb (IsBlockDevice st) && negb (fi_regular st) then (exitNotBlockDevice, f) else
      match deviceSizeBytes (in_ioctl os) st with
      | Err _ => (exitIO, f)
      | Ok diskBytes =>
          if diskBytes <? GridStart + SlotSize then (exitTooSmall, f) else
          let capacityGB := diskBytes / 1000000000 in
          if 0xFFFF <? capacityGB then (exitTooLarge, f) else
          match resolveDiskID (in_salt os) (io_id opts) diskBytes devicePath with
          | Err _ => (exitBadID, f)
          | Ok diskID =>
              match init_checks (io_force opts) f with
              | (Err _, f) => (exitIO, f)
              | (Ok (Some code), f) => (code, f)
              | (Ok None, f) =>
                  if io_dryRun opts then (exitOK, f) else
                  if negb (io_yes opts) && negb (confirmInit (in_line os)) then (exitAborted, f) else
                  init_writes (buildHeader capacityGB diskID (bytes (io_note opts))) f
              end
          end
      end
  end.

(** The exit code and the device, if it was opened. *)
Definition RunInit (root : bool) (os : string → init_os) (args : list string) : Z * option file :=
  match init_args args with
  | inr code => (code, None)
  | inl (opts, devicePath) =>
      if maxNoteBytes <? Z.of_nat (length (bytes (io_note opts))) then (exitNoteTooLong, None) else
      match in_stat (os devicePath) with
      | Err _ => (exitIO, None)
      | Ok st =>
          if IsBlockDevice st && negb root then (exitPermission, None) else
          match in_open (os devicePath) with
          | Err e => (if errors_Is e EBUSY then exitDevBusy else exitIO, None)
          | Ok f => let '(code, f) := init_opened opts devicePath (os devicePath) f in (code, Some f)
          end
      end
  end.

(** ** [bsos blk info] *)
Definition infoExitOK : Z := 0.
Definition infoExitBadArgs : Z := 2.
Definition infoExitIO : Z := 3.
Definition infoExitPerm : Z := 4.
Definition infoExitNotNBSS : Z := 5.
Definition infoExitTooSmall : Z := 6.

Record device_info := mkDeviceInfo { df_size : Z; df_slots : Z; df_header : Header }.

(** The exit code and what is printed. *)
Definition RunInfo (root : bool) (os : string → init_os) (args : list string) : Z * option device_info :=
  match Parse ([] : flag_set unit) args tt with
  | Err _ => (infoExitBadArgs, None)
  | Ok (_, [devicePath]) =>
      let os := os devicePath in
      match in_stat os with
      | Err _ => (infoExitIO, None)
      | Ok st =>
          if IsBlockDevice st && negb root then (infoExitPerm, None) else
          match in_open os with
          | Err _ => (infoExitIO, None)
          | Ok f =>
              match in_fstat os with
              | Err _ => (infoExitIO, None)
              | Ok st =>
                  match DeviceSizeBytes (in_ioctl os) st with
                  | Err _ => (infoExitIO, None)
                  | Ok diskBytes =>
                      if diskBytes <? GridStart + SlotSize then (infoExitTooSmall, None) else
                      match read_header f with
                      | (Err _, _) => (infoExitIO, None)
                      | (Ok b, _) =>
                          match ParseHeader b with
                          | Err _ => (infoExitNotNBSS, None)
                          | Ok header =>
                              let slots := if GridStart <? diskBytes then (diskBytes - GridStart) / SlotSize else 0 in
                              (infoExitOK, Some (mkDeviceInfo diskBytes slots header))
                          end
                      end
                  end
              end
          end
      end
  | Ok _ => (infoExitBadArgs, None)
  end.
End init.

(** ** What it does to the device *)
Lemma read_padded_ok off n f :
  f_faults f = [] → 0 ≤ off → 0 ≤ n → off + n ≤ f_size f →
  read_padded off n f = (Ok (region (f_data f) off n), f).
Proof. intros Hf Ho Hn Hs. unfold read_padded. by rewrite (ReadAt_ok f Hf) by lia. Qed.

(** The device has no header of the current version and the first page of its index is empty. *)
Definition fresh (g : Z → byte) : bool :=
  negb (bool_decide (bytes_at g 0 4 = magic_NBSS) && (le_val (bytes_at g 4 2) =? FormatVersion)) &&
  forallb (λ x, byte_val x =? 0) (bytes_at g IndexStart 4096).

Lemma init_checks_outcome force f :
  f_faults f = [] → GridStart ≤ f_size f →
  ∃ o, init_checks force f = (Ok o, f) ∧ if force || fresh (f_data f) then o = None else ∃ c, o = Some c ∧ c ≠ exitOK.
Proof.
  intros Hf Hs. unfold init_checks. destruct force; [by eexists|].
  assert (H1 : read_padded 0 HeaderBytes f = (Ok (region (f_data f) 0 HeaderBytes), f))
    by (apply read_padded_ok; [done|llia..]).
  assert (H2 : read_padded IndexStart 4096 f = (Ok (region (f_data f) IndexStart 4096), f))
    by (apply read_padded_ok; [done|llia..]).
  assert (E : ∀ off n, bytes_at (bat (region (f_data f) 0 HeaderBytes)) off n = bytes_at (f_data f) off n) by done.
  unfold checkExistingHeader, mbind, M_bind. rewrite H1, !E. unfold fresh.
  destruct (bool_decide _ && _); cbn [orb negb andb]; [by eauto|]. unfold mret, M_ret.
  unfold checkIndexNotEmpty, mbind, M_bind. rewrite H2, buf_list_region.
  change (Z.to_nat 4096) with 4096%nat. destruct (forallb _ _); [by eexists|]. by eauto.
Qed.

Lemma zeroRegion_ok start_ len f :
  takes f (start_ + len) → 0 ≤ start_ → 0 ≤ len → start_ + len < 2 ^ 63 → f_grow f = false →
  ∃ f', zeroRegion start_ len f = (Ok tt, f') ∧ takes f' (start_ + len) ∧ f_grow f' = false ∧
    f_size f' = f_size f ∧
    (∀ a, f_data f' a = if (start_ <=? a) && (a <? start_ + len) then x00 else f_data f a).
Proof.
  intros Hf H0 Hlen Hb Hg.
  pose (Q (r : res unit) (f' : file) := r = Ok tt ∧ takes f' (start_ + len) ∧ f_grow f' = false ∧
    f_size f' = f_size f ∧ (∀ a, f_data f' a = if (start_ <=? a) && (a <? start_ + len) then x00 else f_data f a)).
  enough (H : Q (zeroRegion start_ len f).1 (zeroRegion start_ len f).2).
  { destruct (zeroRegion start_ len f) as [r f']. destruct H as (H & H'). cbn in H. subst r. by exists f'. }
  unfold zeroRegion. apply (mloop_total
    (λ w f', 0 ≤ w ≤ len ∧ takes f' (start_ + len) ∧ f_grow f' = false ∧ f_size f' = f_size f ∧
      ∀ a, f_data f' a = if (start_ <=? a) && (a <? start_ + w) then x00 else f_data f a)
    (λ w, len - w) Q).
  - split; [lia|]. split; [done|]. split; [done|]. split; [done|]. intros a.
    destruct (Z.leb_spec start_ a), (Z.ltb_spec a (start_ + 0)); try done; lia.
  - rewrite Z2Pos.id by lia. lia.
  - intros w f1 (Hw & Ht & Hg1 & Hs1 & Hd1) _. destruct (Z.ltb_spec w len) as [Hlt|Hge].
    + set (n := if len - w <? _ then _ else _).
      assert (Hn : 0 < n ≤ len - w) by (unfold n; destruct (Z.ltb_spec (len - w) (4 * 1024 * 1024)); lia).
      rewrite u64_small, int64_small by lia. unfold must_write.
      destruct (WriteAt_takes (zeros n) (start_ + w) f1 (start_ + len) Ht) as (f2 & -> & Ht2 & Hg2 & Hd2 & Hs2);
        [lia|cbn; lia|cbn; lia|].
      split; [|lia]. split; [lia|]. split; [done|]. split; [congruence|].
      split; [by rewrite Hs2, Hg1|]. intros a. rewrite Hd2.
      destruct (Z.leb_spec (start_ + w) a), (Z.ltb_spec a (start_ + w + n)).
      * rewrite upd_in by (cbn; lia). by rewrite (proj2 (Z.leb_le _ _)), (proj2 (Z.ltb_lt _ _)) by lia.
      * rewrite upd_out by (cbn; lia). rewrite Hd1.
        by rewrite (proj2 (Z.ltb_ge a (start_ + w))), (proj2 (Z.ltb_ge a (start_ + (w + n)))) by lia.
      * rewrite upd_out by (cbn; lia). rewrite Hd1.
        destruct (Z.leb_spec start_ a); [|done].
        by rewrite (proj2 (Z.ltb_lt a (start_ + w))), (proj2 (Z.ltb_lt a (start_ + (w + n)))) by lia.
      * lia.
    + replace w with len in * by lia. done.
Qed.

Lemma le_val_take_u64 l n : (n ≤ 8)%nat → is_u64 (le_val (take n l)).
Proof.
  intros Hn. unfold is_u64. pose proof (le_val_range (take n l)) as H.
  assert (256 ^ Z.of_nat (length (take n l)) ≤ 256 ^ 8); [|lia].
  apply Z.pow_le_mono_r; [lia|]. rewrite length_take. lia.
Qed.

Lemma parse_digits_range base b0 l n u m u' :
  0 < base → is_u64 n → parse_digits base b0 l n u = Ok (m, u') → is_u64 m.
Proof.
  intros Hb. revert n u. induction l as [|c l IH]; intros n u Hn; cbn [parse_digits]; [by intros [= <- _]|].
  destruct (b0 && _); [by apply IH|].
  destruct (digit_val c) as [d|] eqn:Ed; [|done]. destruct (base <=? d); [done|].
  destruct (Z.leb_spec (2 ^ 64) (n * base + d)); [done|]. apply IH. unfold is_u64 in *.
  assert (0 ≤ d); [|nia]. unfold digit_val, code, lower in Ed.
  destruct ((48 <=? _) && _) eqn:E1; [injection Ed as <-; lia|].
  destruct ((97 <=? _) && _) eqn:E2; [injection Ed as <-; lia|done].
Qed.

Lemma ParseUint_range s base n : 0 ≤ base → ParseUint s base = Ok n → is_u64 n.
Proof.
  unfold ParseUint. intros Hb. destruct (bool_decide _); [done|].
  assert (Hp : ∀ l, 0 < (base_prefix l).1).
  { intros l. unfold base_prefix. destruct l as [|c0 l1]; [done|]. destruct (_ =? 48); [|done].
    destruct l1 as [|c1 [|c2 l2]]; try done. by repeat (destruct (_ =? _)). }
  destruct (Z.eqb_spec base 0) as [->|Hne].
  - specialize (Hp (chars s)). destruct (base_prefix (chars s)) as [b ds]. cbn in Hp.
    intros ([m u] & Hd & H)%res_bind_Ok. apply parse_digits_range in Hd; [|lia|unfold is_u64; lia].
    destruct (_ && _); [done|]. by injection H as <-.
  - intros ([m u] & Hd & H)%res_bind_Ok. apply parse_digits_range in Hd; [|lia|unfold is_u64; lia].
    destruct (_ && _); [done|]. by injection H as <-.
Qed.

Lemma resolveDiskID_range sha salt idArg d path id : resolveDiskID sha salt idArg d path = Ok id → is_u64 id.
Proof.
  unfold resolveDiskID. destruct (_ || _).
  - unfold autoDiskID. intros (x & _ & [= <-])%res_bind_Ok. by apply le_val_take_u64.
  - by apply ParseUint_range.
Qed.

Lemma buildHeader_valid cap id note :
  is_u64 id → header_valid id (bat (buildHeader cap id note)).
Proof.
  intros Hid. unfold header_valid, buildHeader, copy_at. change (take (Z.to_nat 4) magic_NBSS) with magic_NBSS.
  rewrite !(bytes_at_put_other _ 16) by (cbn; lia).
  rewrite !(bytes_at_put_other _ 8) by (rewrite ?length_le_bytes; lia).
  rewrite !(bytes_at_put_other _ 6) by (rewrite ?length_le_bytes; lia).
  rewrite !(bytes_at_put_other _ 4) by (rewrite ?length_le_bytes; lia).
  rewrite !bytes_at_put_same by (by rewrite ?length_le_bytes). split; [done|].
  rewrite !le_val_bytes_small by (unfold FormatVersion; cbn; unfold is_u64 in Hid; lia). done.
Qed.

(** A device whose index is blank opens empty. *)
Lemma blank_mirrors d f :
  (∀ a, IndexStart ≤ a < GridStart → f_data f a = x00) → mirrors d f ∅ ∅ [] IndexStart [] rstate0.
Proof.
  intros Hz. constructor; cbn; try done.
  - apply index_log_nil. intros a Ha. by apply Hz.
  - intros t Ht. by apply not_elem_of_nil in Ht.
Qed.

Lemma blank_opens d f id direct :
  disk_fits d → f_size f = d → f_grow f = false → header_valid id (f_data f) →
  (∀ a, IndexStart ≤ a < GridStart → f_data f a = x00) →
  ∃ s, OpenDevice (clean f) d direct id = (Ok s, clean f) ∧ Inv s ∧ confirmed s = ∅ ∧ intervals s = [] ∧
    indexEnd s = IndexStart.
Proof.
  intros Hd Hs Hg Hv Hz.
  destruct (open_mirrors d f ∅ ∅ [] IndexStart [] rstate0 direct id Hd Hs Hg Hv I (blank_mirrors d f Hz)) as [Ho Hi].
  eexists. split; [exact Ho|]. split; [exact Hi|]. by split_and!.
Qed.

(** The device behind a path: its size, as one of the two ways to find it answers. *)
Record answers (os : init_os) (f : file) (d : Z) (st : FileInfo) : Prop := {
  an_open : in_open os = Ok f;
  an_faults : f_faults f = [];
  an_size : f_size f = d;
  an_grow : f_grow f = false;
  an_fstat : in_fstat os = Ok st;
  an_kind : IsBlockDevice st || fi_regular st = true;
  an_bytes : deviceSizeBytes (in_ioctl os) st = Ok d
}.

(** What [RunInit] asks of the device and of the options. *)
Definition init_allowed (sha : list byte → list byte) (os : init_os) (opts : initOptions) (path : string)
    (f : file) (d : Z) : bool :=
  (GridStart + SlotSize <=? d) && (d / 1000000000 <=? 0xFFFF) &&
  is_ok (resolveDiskID sha (in_salt os) (io_id opts) d path) && (io_force opts || fresh (f_data f)) &&
  (io_dryRun opts || io_yes opts || confirmInit (in_line os)).

(** What a device is after it was initialised. *)
Record initialised (d id : Z) (f f' : file) : Prop := {
  in_size : f_size f' = d;
  in_nogrow : f_grow f' = false;
  in_header : header_valid id (f_data f');
  in_index a : IndexStart ≤ a < GridStart → f_data f' a = x00;
  in_above a : GridStart ≤ a → f_data f' a = f_data f a
}.

Lemma init_writes_outcome d id cap note f :
  f_faults f = [] → f_size f = d → f_grow f = false → GridStart + SlotSize ≤ d → is_u64 id →
  ∃ f', init_writes (buildHeader cap id note) f = (exitOK, f') ∧ initialised d id f f'.
Proof.
  intros Hf Hs Hg Hd Hid. unfold init_writes.
  destruct (zeroRegion_ok IndexStart IndexBytes f) as (f1 & -> & Ht1 & Hg1 & Hs1 & Hd1);
    [split; [done|right; llia]|llia|llia|llia|done|].
  destruct Ht1 as [Hf1 _]. unfold must_write.
  destruct (WriteAt_takes (buildHeader cap id note) 0 f1 HeaderBytes) as (f2 & -> & _ & Hg2 & Hd2 & Hs2);
    [split; [done|right; llia]|lia|cbn; llia|cbn; llia|].
  exists f2. split; [done|]. split.
  - by rewrite Hs2, Hg1, Hs1.
  - by rewrite Hg2.
  - eapply header_valid_ext; [|exact (buildHeader_valid cap id note Hid)]. intros a Ha.
    rewrite Hd2, upd_in by (cbn; llia). f_equal. lia.
  - intros a Ha. rewrite Hd2, upd_out by (cbn; llia). rewrite Hd1.
    by rewrite (proj2 (Z.leb_le _ _)), (proj2 (Z.ltb_lt _ _)) by llia.
  - intros a Ha. rewrite Hd2, upd_out by (cbn; llia). rewrite Hd1.
    by rewrite (proj2 (Z.ltb_ge _ _)), andb_false_r by llia.
Qed.

Lemma init_opened_outcome sha opts path os f d st :
  answers os f d st →
  ∃ code f', init_opened sha opts path os f = (code, f') ∧
    (code = exitOK ↔ init_allowed sha os opts path f d = true) ∧
    if bool_decide (code = exitOK) && negb (io_dryRun opts)
    then ∃ id, resolveDiskID sha (in_salt os) (io_id opts) d path = Ok id ∧ initialised d id f f'
    else f' = f.
Proof.
  intros [Ho Hf Hs Hg Hst Hk Hb]. unfold init_opened, init_allowed. rewrite Hst.
  assert (Hno : negb (IsBlockDevice st) && negb (fi_regular st) = false)
    by (destruct (IsBlockDevice st), (fi_regular st); done).
  rewrite Hno, Hb.
  assert (Hrefuse : ∀ c, c ≠ exitOK → (c = exitOK ↔ false = true)) by (intros c Hc; by split).
  destruct (Z.ltb_spec d (GridStart + SlotSize)) as [Hsm|Hsm].
  { rewrite (proj2 (Z.leb_gt _ _)) by done. by eexists _, _. }
  rewrite (proj2 (Z.leb_le (GridStart + SlotSize) d)) by done. rewrite Z.ltb_antisym.
  destruct (d / 1000000000 <=? 0xFFFF); cbn [negb andb]; [|by eexists _, _].
  destruct (resolveDiskID _ _ _ _ _) as [id|] eqn:Eid; cbn [is_ok andb]; [|by eexists _, _].
  destruct (init_checks_outcome (io_force opts) f Hf) as (o & -> & Ho'); [llia|].
  destruct (io_force opts || fresh (f_data f)).
  2: { destruct Ho' as (c & -> & Hc). exists c, f. split; [done|]. split; [by apply Hrefuse|].
       by rewrite bool_decide_eq_false_2. }
  rewrite Ho'. cbn [andb]. destruct (io_dryRun opts); cbn [orb negb]; [by eexists _, _|].
  destruct (io_yes opts); cbn [orb negb andb]; [|destruct (confirmInit _); cbn [negb]; [|by eexists _, _]].
  all: destruct (init_writes_outcome d id (d / 1000000000) (bytes (io_note opts)) f) as (f' & Hw & Hi);
    [done|done|done|lia|by eapply resolveDiskID_range|].
  all: exists exitOK, f'; split; [exact Hw|]; split; [by split|]; exists id; by split.
Qed.

(** C28: [bsos blk init].  On a device without faults the command succeeds exactly when the device is
    large enough and not too large, the disk id parses, the device has no header of this version and an
    empty first index page (or --force is given), and the user agrees.  Unless it is a dry run, the
    device then opens as an empty disk with that id, and nothing above the index has changed.  In
    every other case the device is left as it was. *)
Theorem init_formats sha root os args opts path f d st direct :
  init_args args = inl (opts, path) → Z.of_nat (length (bytes (io_note opts))) ≤ maxNoteBytes →
  in_stat (os path) = Ok st → IsBlockDevice st && negb root = false → answers (os path) f d st →
  ∃ code f', RunInit sha root os args = (code, Some f') ∧
    (code = exitOK ↔ init_allowed sha (os path) opts path f d = true) ∧
    if bool_decide (code = exitOK) && negb (io_dryRun opts)
    then (∀ a, GridStart ≤ a → f_data f' a = f_data f a) ∧
      ∃ id s, resolveDiskID sha (in_salt (os path)) (io_id opts) d path = Ok id ∧
        OpenDevice (clean f') d direct id = (Ok s, clean f') ∧ Inv s ∧ confirmed s = ∅ ∧
        intervals s = [] ∧ indexEnd s = IndexStart
    else f' = f.
Proof.
  intros Hargs Hnote Hst Hdev Han. unfold RunInit. rewrite Hargs.
  rewrite (proj2 (Z.ltb_ge _ _)) by done. rewrite Hst, Hdev, (an_open _ _ _ _ Han).
  destruct (init_opened_outcome sha opts path (os path) f d st Han) as (code & f' & -> & Hiff & Hout).
  exists code, f'. split; [done|]. split; [done|].
  destruct (bool_decide (code = exitOK)) eqn:Ec; [|done]. apply bool_decide_eq_true in Ec.
  destruct (io_dryRun opts); [done|]. cbn [negb andb] in *. destruct Hout as (id & Hid & [Hs Hg Hh Hz Hab]).
  split; [done|]. apply Hiff in Ec. unfold init_allowed in Ec.
  assert (Hd : disk_fits d).
  { rewrite !andb_true_iff in Ec. destruct Ec as [[[[E1 E2] _] _] _].
    unfold disk_fits. apply Z.leb_le in E1. apply Z.leb_le in E2.
    pose proof (Z.mul_succ_div_gt d 1000000000 ltac:(lia)). llia. }
  destruct (blank_opens d f' id direct) as (s & H); [done..|]. exists id, s. by split.
Qed.

Definition blank_device : file := plain_file (λ _, x00) demo_size.
Definition blank_os : init_os :=
  mkInitOs (Ok (mkFileInfo true false 0)) (Ok blank_device) (Ok (mkFileInfo true false 0)) (Ok demo_size)
    (Ok []) "".

(** The device first, the flags after it. *)
Lemma init_formats_witness :
  ∃ f' s, RunInit (λ l, l) true (λ _, blank_os) ["/dev/sda"; "--id"; "0x7"; "-yes"]%string = (exitOK, Some f') ∧
    OpenDevice (clean f') demo_size true 7 = (Ok s, clean f') ∧ confirmed s = ∅.
Proof.
  destruct (init_formats (λ l, l) true (λ _, blank_os) ["/dev/sda"; "--id"; "0x7"; "-yes"]%string
    (mkInit "" "0x7" false true false) "/dev/sda" blank_device demo_size (mkFileInfo true false 0) true)
    as (code & f' & Hr & Hiff & Hout).
  - vm_compute. reflexivity.
  - vm_compute. discriminate.
  - reflexivity.
  - reflexivity.
  - by constructor.
  - assert (code = exitOK) as -> by (apply Hiff; vm_compute; reflexivity).
    destruct Hout as (_ & id & s & Hid & Ho & _ & Hc & _). vm_compute in Hid. injection Hid as <-.
    exists f', s. split; [exact Hr|]. split; [exact Ho|exact Hc].
Defined.
