(* ===== verification/Find.v ===== *)
(** * Finding devices (internal/blk/find.go)

    [RunFind] from its arguments to the pan.json it writes: which names under /sys/block are looked at,
    what is read of each device, the stable alias under /dev/disk/by-id, and the exit code.  pan.json
    lists exactly the readable devices with a header of the current version, each with an id that parses
    back to the one in its header ([find_lists_devices]).  JSON, the two-decimal size and the printed
    lines are not modelled. *)

From S2P Require Import Prelude Machine Loop Device Layout IndexScan DeviceState DeviceInv DiskStore Text.
From S2P Require Import Path Config Flag Init.
From Stdlib Require Import Strings.Byte Ascii.

Definition findExitOK : Z := 0.
Definition findExitFatal : Z := 1.
Definition findExitNotFound : Z := 2.
Definition findExitBadArgs : Z := 3.
Definition findExitPerm : Z := 4.

(** ** Arguments *)
Record findOptions := mkFindOptions {
  ff_all : bool; ff_include : string; ff_paths : list string; ff_json : bool; ff_quiet : bool;
  ff_showErrors : bool; ff_rawPath : bool
}.
Definition findOptions0 : findOptions := mkFindOptions false "" [] false false false false.

(** [arrayFlags]: [Set] appends. *)
Definition find_flags : flag_set findOptions := [
  ("all", BoolVar (λ b o, mkFindOptions b (ff_include o) (ff_paths o) (ff_json o) (ff_quiet o) (ff_showErrors o) (ff_rawPath o)));
  ("include", StringVar (λ s o, mkFindOptions (ff_all o) s (ff_paths o) (ff_json o) (ff_quiet o) (ff_showErrors o) (ff_rawPath o)));
  ("path", StringVar (λ s o, mkFindOptions (ff_all o) (ff_include o) (ff_paths o ++ [s]) (ff_json o) (ff_quiet o) (ff_showErrors o) (ff_rawPath o)));
  ("json", BoolVar (λ b o, mkFindOptions (ff_all o) (ff_include o) (ff_paths o) b (ff_quiet o) (ff_showErrors o) (ff_rawPath o)));
  ("quiet", BoolVar (λ b o, mkFindOptions (ff_all o) (ff_include o) (ff_paths o) (ff_json o) b (ff_showErrors o) (ff_rawPath o)));
  ("show-errors", BoolVar (λ b o, mkFindOptions (ff_all o) (ff_include o) (ff_paths o) (ff_json o) (ff_quiet o) b (ff_rawPath o)));
  ("raw-path", BoolVar (λ b o, mkFindOptions (ff_all o) (ff_include o) (ff_paths o) (ff_json o) (ff_quiet o) (ff_showErrors o) b))]%string.

(** ** Which devices *)

(** [strings.Split(s, ",")] and [strings.Contains]. *)
Fixpoint split_at_char (sep : Z) (l cur : list ascii) : list (list ascii) :=
  match l with
  | [] => [reverse cur]
  | c :: l => if code c =? sep then reverse cur :: split_at_char sep l []
              else split_at_char sep l (c :: cur)
  end.
Definition Split (s : string) (sep : Z) : list string := str <$> split_at_char sep (chars s) [].

Fixpoint contains_chars (l p : list ascii) : bool :=
  bool_decide (take (length p) l = p) ||
  match l with [] => false | _ :: l => contains_chars l p end.
Definition Contains (s p : string) : bool := contains_chars (chars s) (chars p).

Definition buildAllowSet (include : string) : gset string :=
  let allow : gset string := list_to_set ["sd"; "nvme"; "mmcblk"; "vd"; "zram"]%string in
  if bool_decide (include = EmptyString) then allow else
  foldl (λ allow part, let part := TrimSpace part in
                       if bool_decide (part = EmptyString) then allow else {[part]} ∪ allow)
    allow (Split include 44).

Definition namePrefix (name : string) : string :=
  if HasPrefix name "nvme" then "nvme"
  else if HasPrefix name "mmcblk" then "mmcblk"
  else if HasPrefix name "sd" then "sd"
  else if HasPrefix name "vd" then "vd"
  else if HasPrefix name "dm-" then "dm"
  else if HasPrefix name "loop" then "loop"
  else if HasPrefix name "zram" then "zram"
  else if HasPrefix name "ram" then "ram"
  else name.

Definition shouldIncludeDevice (name : string) (all : bool) (allow : gset string) : bool :=
  if all then true else
  if HasPrefix name "loop" || HasPrefix name "ram" || HasPrefix name "zram"
  then bool_decide (namePrefix name ∈ allow)
  else bool_decide (namePrefix name ∈ allow).

Definition resolveFindPaths (opts : findOptions) (sys_block : res (list string)) : res (list string) :=
  if bool_decide (ff_paths opts ≠ []) then Ok (map Clean (ff_paths opts)) else
  match sys_block with
  | Err e => Err e
  | Ok entries =>
      let allow := buildAllowSet (ff_include opts) in
      Ok (map (Join "/dev") (filter (λ name, shouldIncludeDevice name (ff_all opts) allow = true) entries))
  end.

(** ** Aliases

    [os.ReadDir] of /dev/disk/by-id and the device number [os.Stat] gives for a path, if it is one. *)
Definition name_le (a b : string) : Prop := String.leb a b = true.
#[export] Instance name_le_dec a b : Decision (name_le a b) := decide (String.leb a b = true).

Definition add_alias (root : string) (rdev : string → option Z) (aliases : gmap Z string) (name : string) :
    gmap Z string :=
  if Contains name "-part" then aliases else
  let aliasPath := Join root name in
  match rdev aliasPath with
  | None => aliases
  | Some n => if n =? 0 then aliases else
              match aliases !! n with
              | Some _ => aliases
              | None => <[n := aliasPath]> aliases
              end
  end.

Definition buildDeviceAliasMap (root : string) (entries : res (list string)) (rdev : string → option Z) :
    option (gmap Z string) :=
  match entries with
  | Err _ => None
  | Ok entries => Some (foldl (add_alias root rdev) ∅ (merge_sort name_le entries))
  end.

Definition resolveAliasPath (aliasMap : option (gmap Z string)) (rdev : option Z) : string :=
  match aliasMap, rdev with
  | Some aliases, Some n => default EmptyString (aliases !! n)
  | _, _ => EmptyString
  end.

(** ** One device *)
Record findResult := mkFindResult {
  fr_Status : string; fr_DevicePath : string; fr_SizeBytes : Z; fr_Version : Z; fr_CapacityGB : Z;
  fr_DiskID : string; fr_NoteBytes : Z; fr_GridStart : Z; fr_IndexLen : Z; fr_Slots : Z;
  fr_Error : option error
}.

(** What the operating system answers about a path. *)
Record find_device := mkFindDevice {
  fd_open : res file; fd_fstat : res FileInfo; fd_ioctl : res Z; fd_rdev : option Z
}.

Definition scanDevice (devPath : string) (dev : find_device) (aliasMap : option (gmap Z string))
    (rawPath : bool) : findResult :=
  let result status size err := mkFindResult status devPath size 0 0 "" 0 0 0 0 err in
  match fd_open dev with
  | Err e => result "error"%string 0 (Some e)
  | Ok f =>
      match fd_fstat dev with
      | Err e => result "error"%string 0 (Some e)
      | Ok st =>
          match deviceSizeBytes (fd_ioctl dev) st with
          | Err e => result "error"%string 0 (Some e)
          | Ok sizeBytes =>
              match read_padded 0 16 f with
              | (Err e, _) => result "error"%string sizeBytes (Some e)
              | (Ok buf16, f) =>
                  if negb (bool_decide (bytes_at (bat buf16) 0 4 = magic_NBSS))
                  then result "not_nbss"%string sizeBytes None else
                  match read_padded 0 HeaderBytes f with
                  | (Err e, _) => result "error"%string sizeBytes (Some e)
                  | (Ok b, f) =>
                      match ParseHeader b with
                      | Err e => result "error"%string sizeBytes (Some e)
                      | Ok header =>
                          if negb (h_Version header =? FormatVersion)
                          then result "error"%string sizeBytes (Some (EMsg "unsupported version")) else
                          let slots := if GridStart <? sizeBytes
                                       then (sizeBytes - GridStart) / SlotSize else 0 in
                          let alias := if negb (bool_decide (aliasMap = None)) && negb rawPath
                                       then resolveAliasPath aliasMap (fd_rdev dev) else EmptyString in
                          mkFindResult "match" (if bool_decide (alias = EmptyString) then devPath else alias)
                            sizeBytes (h_Version header) (h_CapacityGB header) (formatID (h_DiskID header))
                            (h_NoteLen header) GridStart IndexBytes slots None
                      end
                  end
              end
          end
      end
  end.

(** ** The command *)
Record find_os := mkFindOs {
  fo_sys_block : res (list string); fo_by_id : res (list string);
  fo_rdev : string → option Z; fo_device : string → find_device; fo_write : option error
}.

(** The loop over the paths: the matches and the errors. *)
Fixpoint scan_devices (os : find_os) (aliasMap : option (gmap Z string)) (opts : findOptions)
    (paths : list string) (matches errors : list findResult) : list findResult * list findResult :=
  match paths with
  | [] => (matches, errors)
  | devPath :: paths =>
      let r := scanDevice devPath (fo_device os devPath) aliasMap (ff_rawPath opts) in
      if bool_decide (fr_Status r = "match"%string)
      then scan_devices os aliasMap opts paths (matches ++ [r]) errors
      else if bool_decide (fr_Status r = "error"%string) && ff_showErrors opts
      then scan_devices os aliasMap opts paths matches (errors ++ [r])
      else scan_devices os aliasMap opts paths matches errors
  end.

(** The exit code and the devices of the pan.json that was written. *)
Definition RunFind (root : bool) (os : find_os) (args : list string) : Z * option (list findResult) :=
  match Parse find_flags args findOptions0 with
  | Err _ => (findExitBadArgs, None)
  | Ok (opts, []) =>
      if negb root then (findExitPerm, None) else
      match resolveFindPaths opts (fo_sys_block os) with
      | Err _ => (findExitFatal, None)
      | Ok devicePaths =>
          let aliasMap := buildDeviceAliasMap "/dev/disk/by-id" (fo_by_id os) (fo_rdev os) in
          let '(matchResults, _) := scan_devices os aliasMap opts devicePaths [] [] in
          match fo_write os with
          | Some _ => (findExitFatal, None)
          | None => (if bool_decide (matchResults ≠ []) then findExitOK else findExitNotFound,
                     Some matchResults)
          end
      end
  | Ok _ => (findExitBadArgs, None)
  end.

(** What the other commands read of an entry of pan.json. *)
Definition to_pan (r : findResult) : PanDevice :=
  mkPanDevice (fr_Status r) (fr_DevicePath r) (fr_DiskID r) (fr_Version r) (fr_SizeBytes r).

(** ** What pan.json lists *)

(** [pan.json] of the devices at [paths] holds the matches, in order. *)
Lemma scan_devices_matches os aliasMap opts paths ms es :
  (scan_devices os aliasMap opts paths ms es).1 =
  ms ++ filter (λ r, fr_Status r = "match"%string)
    (map (λ p, scanDevice p (fo_device os p) aliasMap (ff_rawPath opts)) paths).
Proof.
  revert ms es. induction paths as [|p paths IH]; intros ms es; [cbn; by rewrite app_nil_r|].
  cbn [scan_devices map]. rewrite filter_cons. set (r := scanDevice p _ _ _).
  case_bool_decide.
  - rewrite IH, decide_True by done. by rewrite <- app_assoc.
  - rewrite decide_False by done. by destruct (_ && _); rewrite IH.
Qed.

(** A device that can be read: its content and its size. *)
Record readable (dev : find_device) (f : file) (d : Z) (st : FileInfo) : Prop := {
  re_open : fd_open dev = Ok f;
  re_faults : f_faults f = [];
  re_fstat : fd_fstat dev = Ok st;
  re_bytes : deviceSizeBytes (fd_ioctl dev) st = Ok d;
  re_size : HeaderBytes ≤ f_size f
}.

Lemma ParseHeader_fields g h :
  ParseHeader (region g 0 HeaderBytes) = Ok h →
  bytes_at g 0 4 = magic_NBSS ∧ h_Version h = le_val (bytes_at g 4 2) ∧
  h_DiskID h = le_val (bytes_at g 8 8).
Proof.
  unfold ParseHeader. cbn [blen bat region]. change (HeaderBytes <? HeaderBytes) with false. cbn match.
  assert (E : ∀ off n, bytes_at (λ i, g (0 + i)) off n = bytes_at g off n) by done.
  rewrite !E. destruct (bool_decide (_ = magic_NBSS)) eqn:Hm; [|done]. apply bool_decide_eq_true in Hm.
  cbn match. intros [= <-]. done.
Qed.

(** Reading a device: it matches exactly when its header is one of this version. *)
Lemma scanDevice_outcome devPath dev f d st aliasMap rawPath :
  readable dev f d st →
  let r := scanDevice devPath dev aliasMap rawPath in
  let id := le_val (bytes_at (f_data f) 8 8) in
  (fr_Status r = "match"%string ↔ header_valid id (f_data f)) ∧
  (fr_Status r = "match"%string → fr_DiskID r = formatID id ∧ fr_SizeBytes r = d ∧ fr_Version r = FormatVersion).
Proof.
  intros [Ho Hf Hst Hb Hs]. cbv zeta. unfold scanDevice. rewrite Ho, Hst, Hb. unfold HeaderBytes in Hs.
  assert (H16 : read_padded 0 16 f = (Ok (region (f_data f) 0 16), f)) by (apply read_padded_ok; [done|lia..]).
  assert (Hall : read_padded 0 HeaderBytes f = (Ok (region (f_data f) 0 HeaderBytes), f))
    by (apply read_padded_ok; [done|unfold HeaderBytes; lia..]).
  rewrite H16. assert (E : bytes_at (bat (region (f_data f) 0 16)) 0 4 = bytes_at (f_data f) 0 4) by done. rewrite E.
  unfold header_valid. destruct (bool_decide (_ = magic_NBSS)) eqn:Em; cbn [negb].
  2: { apply bool_decide_eq_false in Em. cbn [fr_Status]. split; [|done]. split; [done|]. by intros [? _]. }
  apply bool_decide_eq_true in Em. rewrite Hall.
  destruct (ParseHeader _) as [h|e] eqn:Eh.
  - apply ParseHeader_fields in Eh as (_ & Hv & Hi). rewrite Hv.
    destruct (Z.eqb_spec (le_val (bytes_at (f_data f) 4 2)) FormatVersion) as [Hfv|Hfv]; cbn [negb fr_Status].
    + split; [by split|]. intros _. cbn [fr_DiskID fr_SizeBytes fr_Version]. by rewrite Hi.
    + split; [|done]. split; [done|]. by intros (_ & ? & _).
  - exfalso. revert Eh. unfold ParseHeader. cbn [blen bat region]. change (HeaderBytes <? HeaderBytes) with false.
    cbn match. assert (E' : bytes_at (λ i, f_data f (0 + i)) 0 4 = bytes_at (f_data f) 0 4) by done.
    rewrite E', bool_decide_eq_true_2 by done. done.
Qed.

Lemma header_id_u64 g : is_u64 (le_val (bytes_at g 8 8)).
Proof.
  unfold is_u64. pose proof (le_val_range (bytes_at g 8 8)) as H. rewrite length_bytes_at in H.
  change (256 ^ Z.of_nat 8) with (2 ^ 64) in H. lia.
Qed.

Lemma scanned_matches os aliasMap rawPath paths content size :
  (∀ p, p ∈ paths → ∃ st, readable (fo_device os p) (content p) (size p) st) →
  (λ r, (fr_Status r, ParseDiskID (fr_DiskID r), fr_SizeBytes r)) <$>
    filter (λ r, fr_Status r = "match"%string) (map (λ p, scanDevice p (fo_device os p) aliasMap rawPath) paths) =
  (λ p, ("match"%string, Ok (le_val (bytes_at (f_data (content p)) 8 8)), size p)) <$>
    filter (λ p, header_valid (le_val (bytes_at (f_data (content p)) 8 8)) (f_data (content p))) paths.
Proof.
  induction paths as [|p paths IH]; intros Hr; [done|]. cbn [map]. rewrite !filter_cons.
  destruct (Hr p) as [st Hp]; [by left|]. specialize (IH ltac:(intros; apply Hr; by right)).
  destruct (scanDevice_outcome p (fo_device os p) (content p) (size p) st aliasMap rawPath Hp) as [Hiff Hm].
  set (r := scanDevice p _ aliasMap rawPath) in *.
  destruct (decide (fr_Status r = "match"%string)) as [E|E].
  - rewrite decide_True by by apply Hiff. destruct (Hm E) as (Hid & Hsz & _).
    rewrite !fmap_cons, IH, E, Hid, Hsz. by rewrite disk_id_roundtrip by apply header_id_u64.
  - rewrite decide_False; [exact IH|]. intros Hv. by apply E, Hiff.
Qed.

(** [bsos blk find] lists the disks.  When the devices it looks at can be read, the pan.json it
    writes has one entry, in the order of the paths, for exactly the devices with a header of the
    current version; each entry has the device's size and an id that parses back to the id in the
    header, and the command exits with 0 exactly when there is one. *)
Theorem find_lists_devices os args opts paths (content : string → file) (size : string → Z) code results :
  Parse find_flags args findOptions0 = Ok (opts, []) → resolveFindPaths opts (fo_sys_block os) = Ok paths →
  (∀ p, p ∈ paths → ∃ st, readable (fo_device os p) (content p) (size p) st) →
  RunFind true os args = (code, Some results) →
  let id p := le_val (bytes_at (f_data (content p)) 8 8) in
  let disks := filter (λ p, header_valid (id p) (f_data (content p))) paths in
  (λ r, (fr_Status r, ParseDiskID (fr_DiskID r), fr_SizeBytes r)) <$> results =
    (λ p, ("match"%string, Ok (id p), size p)) <$> disks ∧
  (code = findExitOK ↔ disks ≠ []).
Proof.
  intros Hargs Hpaths Hr. unfold RunFind. rewrite Hargs. cbn [negb]. rewrite Hpaths.
  set (aliasMap := buildDeviceAliasMap _ _ _). cbv zeta.
  pose proof (scan_devices_matches os aliasMap opts paths [] []) as Hm.
  destruct (scan_devices _ _ _ _ _ _) as [ms es]. cbn [fst app] in Hm. destruct (fo_write os); [done|].
  intros [= <- <-]. rewrite Hm, (scanned_matches os aliasMap (ff_rawPath opts) paths content size Hr).
  split; [done|]. pose proof (f_equal length (scanned_matches os aliasMap (ff_rawPath opts) paths content size Hr)) as Hl.
  rewrite !length_fmap in Hl. revert Hl. generalize (filter (λ r, fr_Status r = "match"%string)
    (map (λ p, scanDevice p (fo_device os p) aliasMap (ff_rawPath opts)) paths)).
  generalize (filter (λ p, header_valid (le_val (bytes_at (f_data (content p)) 8 8)) (f_data (content p))) paths).
  by intros [|x l] [|y l'] Hl.
Qed.

(** A disk and an empty device. *)
Definition find_demo_device (f : file) : find_device :=
  mkFindDevice (Ok f) (Ok (mkFileInfo true false 0)) (Ok demo_size) None.
Definition find_demo_content (p : string) : file :=
  if bool_decide (p = "/dev/sda"%string) then ds_file demo_state else plain_file (λ _, x00) demo_size.
Definition find_demo_os : find_os :=
  mkFindOs (Ok ["loop0"; "sda"; "sdb"]%string) (Ok []) (λ _, None) (λ p, find_demo_device (find_demo_content p)) None.

Lemma find_lists_devices_witness :
  ∃ results, RunFind true find_demo_os ["-quiet"%string] = (findExitOK, Some results) ∧
    (λ r, (fr_Status r, ParseDiskID (fr_DiskID r), fr_SizeBytes r)) <$> results =
      [("match"%string, Ok 7, demo_size)].
Proof.
  destruct (RunFind true find_demo_os ["-quiet"%string]) as [code o] eqn:E.
  destruct o as [results|]; [|vm_compute in E; discriminate].
  destruct (find_lists_devices find_demo_os ["-quiet"%string]
    (mkFindOptions false "" [] false true false false) ["/dev/sda"; "/dev/sdb"]%string find_demo_content
    (λ _, demo_size) code results) as [Hr Hc].
  - vm_compute. reflexivity.
  - vm_compute. reflexivity.
  - intros p Hp. exists (mkFileInfo true false 0). constructor; try reflexivity.
    + unfold find_demo_content. by case_bool_decide.
    + unfold find_demo_content. by case_bool_decide.
  - exact E.
  - exists results. vm_compute filter in Hr, Hc. split; [|exact Hr].
    by rewrite (proj2 Hc).
Defined.
