(* ===== verification/Snapshot.v ===== *)
(** * Snapshots of zram disks (internal/zram: flush.go, and the snapshot files of recovery.go and load.go)

    The files a zram tier is saved to and restored from: the compressed image, named by the disk id, and
    the line with its size and checksum.  [readSnapshotMeta] reads what [writeSnapshotMeta] writes
    ([meta_outcome]).  The zstd codec and SHA-256 are parameters.  The theorems are in SnapshotFlush.v. *)

From S2P Require Import Prelude Machine Device Layout IndexScan DeviceState DeviceInv DiskStore Text Path.
From S2P Require Import Config Flag Find.
From Stdlib Require Import Strings.Byte Ascii.

Definition ErrNotExist : error := EMsg "file does not exist".

(** ** Readers

    What a reader delivers, and the error it ends with instead of [io.EOF]. *)
Definition source : Type := buf * option error.

(** [io.LimitReader]. *)
Definition limit (n : Z) (s : source) : source :=
  if n <=? blen s.1 then (buf_slice s.1 0 (Z.max 0 n), None) else s.

(** [io.ReadFull] of [n] bytes: the bytes and the rest. *)
Definition ReadFull (n : Z) (s : source) : res (buf * source) :=
  if n <=? blen s.1 then Ok (buf_slice s.1 0 n, (buf_slice s.1 n (blen s.1), s.2)) else
  match s.2 with
  | Some e => Err e
  | None => Err (if blen s.1 =? 0 then EEOF else EUnexpectedEOF)
  end.

(** [io.Copy]: all of it, or the error. *)
Definition copy_all (s : source) : res buf :=
  match s.2 with Some e => Err e | None => Ok s.1 end.

(** ** The codec and the checksum *)
Class Codec := {
  zstd_encode : buf → buf;
  zstd_decode : buf → source;
  sha256 : buf → list byte
}.

(** The documented behaviour the flush relies on. *)
Record codec_ok (C : Codec) : Prop := {
  cd_roundtrip b : blen (zstd_decode (zstd_encode b)).1 = blen b ∧
    (∀ i, 0 ≤ i < blen b → bat (zstd_decode (zstd_encode b)).1 i = bat b i) ∧
    (zstd_decode (zstd_encode b)).2 = None;
  cd_sha_length b : length (sha256 b) = 32%nat;
  cd_sha_ext b b' : blen b = blen b' → (∀ i, 0 ≤ i < blen b → bat b i = bat b' i) → sha256 b = sha256 b'
}.

(** ** Files *)
Record files := mkFiles { fl_open : string → res buf; fl_stat : string → res Z }.

Definition files_of (fs : gmap string buf) : files :=
  mkFiles (λ path, match fs !! path with Some b => Ok b | None => Err ErrNotExist end)
          (λ path, match fs !! path with Some b => Ok (blen b) | None => Err ErrNotExist end).

(** ** The checksum line *)
Fixpoint dec_digits (n : nat) (z : Z) (acc : list ascii) : list ascii :=
  match n with
  | O => acc
  | S n => let acc := ascii_of_N (Z.to_N (48 + z `mod` 10)) :: acc in
           if z / 10 =? 0 then acc else dec_digits n (z / 10) acc
  end.
(** [strconv.FormatUint(z, 10)]. *)
Definition FormatUint (z : Z) : list ascii := dec_digits 20 z [].

Definition nibble_char (d : Z) : ascii := ascii_of_N (Z.to_N (if d <? 10 then 48 + d else 87 + d)).
Definition hex_encode (bs : list byte) : list ascii :=
  bs ≫= λ b, [nibble_char (byte_val b / 16); nibble_char (byte_val b `mod` 16)].

Definition nibble (c : ascii) : option Z :=
  match digit_val c with Some d => if d <? 16 then Some d else None | None => None end.
Fixpoint hex_decode (l : list ascii) : option (list byte) :=
  match l with
  | [] => Some []
  | [_] => None
  | a :: b :: l =>
      match nibble a, nibble b, hex_decode l with
      | Some x, Some y, Some bs => Some (byte_of (16 * x + y) :: bs)
      | _, _, _ => None
      end
  end.

(** The first token of a [bufio.Scanner]: up to a newline, without a carriage return. *)
Definition MaxScanTokenSize : Z := 64 * 1024.
Fixpoint until_newline (l acc : list ascii) : list ascii * bool :=
  match l with
  | [] => (reverse acc, false)
  | c :: l => if code c =? 10 then (reverse acc, true) else until_newline l (c :: acc)
  end.
Definition drop_cr (l : list ascii) : list ascii :=
  match reverse l with
  | c :: l' => if code c =? 13 then reverse l' else l
  | [] => l
  end.
Definition scan_line (l : list ascii) : option (list ascii) :=
  match l with
  | [] => None
  | _ => let '(line, _) := until_newline l [] in
         if MaxScanTokenSize <=? Z.of_nat (length line) then None else Some (drop_cr line)
  end.

(** [strings.Fields]. *)
Fixpoint fields (l cur : list ascii) : list (list ascii) :=
  match l with
  | [] => if bool_decide (cur = []) then [] else [reverse cur]
  | c :: l => if is_space c
              then (if bool_decide (cur = []) then fields l [] else reverse cur :: fields l [])
              else fields l (c :: cur)
  end.

Definition buf_chars (b : buf) : list ascii := ascii_of_byte <$> buf_list b.
Definition chars_buf (l : list ascii) : buf := buf_of (byte_of_ascii <$> l).

Definition readSnapshotMeta (fl : files) (path : string) : res (Z * list byte) :=
  f ← fl_open fl path;
  match scan_line (buf_chars f) with
  | None => Err (EMsg "empty meta")
  | Some line =>
      match fields line [] with
      | [a; b] =>
          size ← ParseUint (str a) 10;
          match hex_decode b with
          | Some decoded => if bool_decide (length decoded = 32%nat) then Ok (size, decoded)
                            else Err (EMsg "bad hash")
          | None => Err (EMsg "bad hash")
          end
      | _ => Err (EMsg "bad meta")
      end
  end.

Definition meta_text (size : Z) (hash : list byte) : buf :=
  chars_buf (FormatUint size ++ [ascii_of_N 32] ++ hex_encode hash ++ [ascii_of_N 10]).

(** [fail] is an error of [os.WriteFile], with what it left in the file when it was truncated. *)
Definition writeSnapshotMeta (path : string) (size : Z) (hash : list byte) (fail : option (error * option buf))
    (fs : gmap string buf) : option error * gmap string buf :=
  match fail with
  | Some (e, part) => (Some e, match part with Some b => <[path := b]> fs | None => fs end)
  | None => (None, <[path := meta_text size hash]> fs)
  end.

(** ** Reading a snapshot *)
Record snapshot := mkSnapshot { sn_path : string; sn_id : Z; sn_size : Z }.

Section snapshots.
Context {C : Codec}.

Definition snapshotReader (fl : files) (path : string) : res source :=
  f ← fl_open fl path;
  Ok (if HasSuffix path ".zst" then zstd_decode f else (f, None)).

Definition snapshotSize (fl : files) (path : string) : res Z :=
  let base := TrimSuffix (Base path) ".zst" in
  let metaPath := Join (Dir path) (String.append base ".sha256") in
  let rest := if HasSuffix path ".zst" then Err (EMsg "missing snapshot meta")
              else size ← fl_stat fl path; Ok (u64 size) in
  match readSnapshotMeta fl metaPath with
  | Ok (size, _) => if 0 <? size then Ok size else rest
  | Err _ => rest
  end.

Definition validateSnapshot (fl : files) (path : string) (id : Z) : res snapshot :=
  size ← snapshotSize fl path;
  if (size <=? GridStart) || negb (size `mod` SlotSize =? 0) then Err (EMsg "invalid snapshot size") else
  r ← snapshotReader fl path;
  '(header, r) ← ReadFull HeaderBytes r;
  h ← ParseHeader header;
  if negb (h_Version h =? FormatVersion) || negb (h_DiskID h =? id)
  then Err (EMsg "snapshot header identity/version mismatch") else
  body ← copy_all (limit (int64 (int64 size - HeaderBytes + 1)) r);
  if negb (u64 (blen body + HeaderBytes) =? size) then Err (EMsg "snapshot length mismatch") else
  let base := TrimSuffix path ".zst" in
  match readSnapshotMeta fl (String.append base ".sha256") with
  | Ok (metaSize, want) =>
      if negb (metaSize =? size) || negb (bool_decide (sha256 (buf_app header body) = want))
      then Err (EMsg "snapshot checksum mismatch") else Ok (mkSnapshot path id size)
  | Err e =>
      if negb (errors_Is e ErrNotExist) || HasSuffix path ".zst" then Err e
      else Ok (mkSnapshot path id size)
  end.

(** ** Flushing *)

(** The hash of the first [size] bytes of a device; [dev] is what [os.Open] gives. *)
Definition hashDevice (dev : res source) (size : Z) : res (list byte) :=
  f ← dev;
  b ← copy_all (limit (int64 size) f);
  if negb (blen b =? size) then Err EUnexpectedEOF else Ok (sha256 b).

Definition readNBSSHeader (dev : res source) : option error :=
  match dev with
  | Err e => Some e
  | Ok f =>
      match ReadFull HeaderBytes f with
      | Err e => Some (if errors_Is e EUnexpectedEOF || errors_Is e EEOF then EMsg "device too small" else e)
      | Ok (b, _) => match ParseHeader b with Ok _ => None | Err e => Some e end
      end
  end.

(** What the operating system answers while one device is flushed: the device each time it is
    opened, and the failures of the steps that write. *)
Record flush_os := mkFlushOs {
  fe_check : res source;     (* opened by [readNBSSHeader] *)
  fe_header : res source;    (* opened for its header *)
  fe_hash : res source;      (* opened for its hash *)
  fe_copy : res source;      (* opened to be copied *)
  fe_create : option error;
  fe_encode : option error;  (* the encoder is made, written to and closed, and its file closed *)
  fe_partial : buf;          (* what is in the file when one of these fails *)
  fe_rename : option error;
  fe_meta : option (error * option buf)
}.

Definition validateZstd (fl : files) (path : string) : option error :=
  match fl_open fl path with
  | Err e => Some e
  | Ok f => match copy_all (zstd_decode f) with Ok _ => None | Err e => Some e end
  end.

Definition snapshotDeviceCompressed (os : flush_os) (outPath : string) (size : Z) (fs : gmap string buf) :
    option error * gmap string buf :=
  match fe_copy os with
  | Err e => (Some e, fs)
  | Ok f =>
      match fe_create os with
      | Some e => (Some e, fs)
      | None =>
          match copy_all (limit (int64 size) f) with
          | Err e => (Some e, <[outPath := fe_partial os]> fs)
          | Ok b =>
              match fe_encode os with
              | Some e => (Some e, <[outPath := fe_partial os]> fs)
              | None =>
                  let fs := <[outPath := zstd_encode b]> fs in
                  (validateZstd (files_of fs) outPath, fs)
              end
          end
      end
  end.

Definition rename (src dst : string) (fail : option error) (fs : gmap string buf) :
    option error * gmap string buf :=
  match fail, fs !! src with
  | Some e, _ => (Some e, fs)
  | None, Some b => (None, <[dst := b]> (delete src fs))
  | None, None => (Some ErrNotExist, fs)
  end.

Definition flushDevice (os : flush_os) (dev : PanDevice) (outDir : string) (fs : gmap string buf) :
    option error * gmap string buf :=
  let size := SizeBytes dev in
  let diskID := NormalizeID (DiskID dev) in
  if bool_decide (diskID = EmptyString) then (Some (EMsg "missing disk id"), fs) else
  let checked :=
    f ← fe_header os;
    '(header, _) ← ReadFull HeaderBytes f;
    h ← ParseHeader header;
    wantID ← ParseDiskID (DiskID dev);
    if negb (h_DiskID h =? wantID) || negb (h_Version h =? FormatVersion)
    then Err (EMsg "snapshot device identity/version does not match pan.json") else
    hashDevice (fe_hash os) size in
  let sumPath := Join outDir (String.append diskID ".sha256") in
  match checked with
  | Err e => (Some e, fs)
  | Ok hash =>
      let '(prevSize, prevHash) := match readSnapshotMeta (files_of fs) sumPath with
                                   | Ok m => m
                                   | Err _ => (0, replicate 32 x00)
                                   end in
      if (prevSize =? size) && bool_decide (prevHash = hash) then (None, fs) else
      let outPath := Join outDir (String.append diskID ".zst") in
      let tmpPath := String.append outPath ".tmp" in
      match snapshotDeviceCompressed os tmpPath size fs with
      | (Some e, fs) => (Some e, fs)
      | (None, fs) =>
          match rename tmpPath outPath (fe_rename os) fs with
          | (Some e, fs) => (Some e, fs)
          | (None, fs) => writeSnapshotMeta sumPath size hash (fe_meta os) fs
          end
      end
  end.

(** The loop of [FlushDevices], which keeps the first error. *)
Fixpoint flush_devices (os : PanDevice → flush_os) (outDir : string) (devices : list PanDevice)
    (firstErr : option error) (fs : gmap string buf) : option error * gmap string buf :=
  match devices with
  | [] => (firstErr, fs)
  | dev :: devices =>
      if negb (HasPrefix (DevicePath dev) "/dev/zram") ||
         negb (bool_decide (Status dev = EmptyString)) && negb (bool_decide (Status dev = "match"%string)) ||
         (SizeBytes dev =? 0) || bool_decide (readNBSSHeader (fe_check (os dev)) ≠ None)
      then flush_devices os outDir devices firstErr fs else
      let '(err, fs) := flushDevice (os dev) dev outDir fs in
      flush_devices os outDir devices
        (match firstErr with Some _ => firstErr | None => err end) fs
  end.

(** [home] is [os.UserHomeDir], [mkdir] is [os.MkdirAll]. *)
Definition FlushDevices (os : PanDevice → flush_os) (home : res string) (mkdir : option error)
    (devices : list PanDevice) (outDir : string) (fs : gmap string buf) : option error * gmap string buf :=
  let dir := if bool_decide (TrimSpace outDir = EmptyString)
             then home ← home; Ok (Join home ".bsos_zram_snapshots") else Ok outDir in
  match dir, mkdir with
  | Err e, _ => (Some e, fs)
  | Ok _, Some e => (Some e, fs)
  | Ok outDir, None => flush_devices os outDir devices None fs
  end.
End snapshots.

Definition zramExitOK : Z := 0.
Definition zramExitBadArgs : Z := 2.
Definition zramExitIO : Z := 5.
Definition zramExitPerm : Z := 15.
Definition zramExitNotFound : Z := 16.

Record flushOptions := mkFlushOptions { fl_panPath : string; fl_outDir : string }.
Definition flushOptions0 : flushOptions := mkFlushOptions "pan.json" "".
Definition flush_flags : flag_set flushOptions := [
  ("pan", StringVar (λ s o, mkFlushOptions s (fl_outDir o)));
  ("out", StringVar (λ s o, mkFlushOptions (fl_panPath o) s))]%string.

(** [read] is [pan.Read]. *)
Definition RunFlush {C : Codec} (root : bool) (read : string → res (list PanDevice)) (os : PanDevice → flush_os)
    (home : res string) (mkdir : option error) (args : list string) (fs : gmap string buf) :
    Z * gmap string buf :=
  match Parse flush_flags args flushOptions0 with
  | Err _ => (zramExitBadArgs, fs)
  | Ok (opts, []) =>
      if negb root then (zramExitPerm, fs) else
      match read (fl_panPath opts) with
      | Err e => (if errors_Is e ErrNotExist then zramExitNotFound else zramExitIO, fs)
      | Ok [] => (zramExitNotFound, fs)
      | Ok devices =>
          let '(err, fs) := FlushDevices os home mkdir devices (TrimSpace (fl_outDir opts)) fs in
          (match err with Some _ => zramExitIO | None => zramExitOK end, fs)
      end
  | Ok _ => (zramExitBadArgs, fs)
  end.

(** ** The checksum line *)
Definition word (l : list ascii) : Prop := l ≠ [] ∧ Forall (λ c, is_space c = false) l.

Lemma buf_chars_buf l : buf_chars (chars_buf l) = l.
Proof.
  unfold buf_chars, chars_buf. rewrite buf_list_of, <- list_fmap_compose. rewrite <- (list_fmap_id l) at 2.
  apply list_fmap_ext. intros _ c _. apply ascii_of_byte_of_ascii.
Qed.

Lemma digit_char_ok d :
  0 ≤ d < 10 → let c := ascii_of_N (Z.to_N (48 + d)) in digit_val c = Some d ∧ code c ≠ 95 ∧ is_space c = false.
Proof.
  intros Hd. assert (H : d ∈ seqZ 0 10) by (apply elem_of_seqZ; lia). revert d Hd H.
  assert (Hall : Forall (λ d, let c := ascii_of_N (Z.to_N (48 + d)) in
    digit_val c = Some d ∧ code c ≠ 95 ∧ is_space c = false) (seqZ 0 10)).
  { repeat (constructor; [split_and!; by vm_compute|]). constructor. }
  intros d _ H. rewrite Forall_forall in Hall. by apply Hall.
Qed.

Lemma dec_digits_spec n z acc u :
  0 ≤ z < 10 ^ Z.of_nat n → (0 < n)%nat → z < 2 ^ 64 →
  parse_digits 10 false (dec_digits n z acc) 0 u = parse_digits 10 false acc z u.
Proof.
  revert z acc. induction n as [|n IH]; intros z acc Hz Hn Hz'; [lia|].
  rewrite Nat2Z.inj_succ, Z.pow_succ_r in Hz by lia. cbn [dec_digits].
  pose proof (Z.mod_pos_bound z 10 ltac:(lia)) as Hm. pose proof (Z.div_mod z 10 ltac:(lia)) as Hdm.
  destruct (digit_char_ok (z `mod` 10) Hm) as (Hd & Hc & _).
  set (c := ascii_of_N (Z.to_N (48 + z `mod` 10))) in *.
  assert (Hstep : ∀ m, m * 10 + z `mod` 10 = z → parse_digits 10 false (c :: acc) m u = parse_digits 10 false acc z u).
  { intros m Hmz. cbn [parse_digits andb]. rewrite Hd, (proj2 (Z.leb_gt 10 _)), Hmz by lia.
    by rewrite (proj2 (Z.leb_gt (2 ^ 64) z)) by lia. }
  destruct (Z.eqb_spec (z / 10) 0) as [E|E]; [apply Hstep; lia|].
  assert (0 < z / 10) by (pose proof (Z.div_pos z 10); lia).
  assert (z / 10 < 10 ^ Z.of_nat n) by (apply Z.div_lt_upper_bound; lia).
  assert (n ≠ 0)%nat by (intros ->; cbn in *; lia).
  rewrite IH by lia. apply Hstep. lia.
Qed.

Lemma dec_digits_word n z acc :
  (0 < n)%nat → Forall (λ c, is_space c = false) acc →
  word (dec_digits n z acc) ∧ (length (dec_digits n z acc) ≤ n + length acc)%nat.
Proof.
  revert z acc. induction n as [|n IH]; intros z acc Hn Hacc; [lia|]. cbn [dec_digits].
  pose proof (Z.mod_pos_bound z 10 ltac:(lia)) as Hm.
  destruct (digit_char_ok (z `mod` 10) Hm) as (_ & _ & Hsp).
  set (c := ascii_of_N (Z.to_N (48 + z `mod` 10))) in *.
  destruct (z / 10 =? 0).
  - split; [|cbn; lia]. split; [done|by constructor].
  - destruct n as [|n].
    + cbn. split; [split; [done|by constructor]|lia].
    + destruct (IH (z / 10) (c :: acc)) as [Hw Hl]; [lia|by constructor|]. split; [done|]. cbn [length] in *. lia.
Qed.

Lemma FormatUint_parse z : is_u64 z → ParseUint (str (FormatUint z)) 10 = Ok z.
Proof.
  intros Hz. unfold is_u64 in Hz. unfold ParseUint, FormatUint. rewrite chars_str.
  destruct (dec_digits_word 20 z []) as [[Hne _] _]; [lia|constructor|].
  rewrite bool_decide_eq_false_2 by done. change (10 =? 0) with false. cbn match.
  rewrite dec_digits_spec by lia. done.
Qed.

Lemma nibble_char_ok d : 0 ≤ d < 16 → nibble (nibble_char d) = Some d ∧ is_space (nibble_char d) = false.
Proof.
  intros Hd. assert (H : d ∈ seqZ 0 16) by (apply elem_of_seqZ; lia). revert d Hd H.
  assert (Hall : Forall (λ d, nibble (nibble_char d) = Some d ∧ is_space (nibble_char d) = false) (seqZ 0 16)).
  { repeat (constructor; [split; by vm_compute|]). constructor. }
  intros d _ H. rewrite Forall_forall in Hall. by apply Hall.
Qed.

Lemma byte_nibbles b : 0 ≤ byte_val b / 16 < 16 ∧ 0 ≤ byte_val b `mod` 16 < 16.
Proof.
  pose proof (byte_val_range b). split; [|apply Z.mod_pos_bound; lia].
  split; [apply Z.div_pos; lia|apply Z.div_lt_upper_bound; lia].
Qed.

Lemma hex_roundtrip bs : hex_decode (hex_encode bs) = Some bs.
Proof.
  induction bs as [|b bs IH]; [done|]. unfold hex_encode in *. rewrite bind_cons. cbn [app hex_decode].
  destruct (byte_nibbles b) as [H1 H2].
  rewrite (proj1 (nibble_char_ok _ H1)), (proj1 (nibble_char_ok _ H2)), IH.
  rewrite <- Z.div_mod by lia. by rewrite byte_of_val.
Qed.

Lemma hex_encode_word bs :
  Forall (λ c, is_space c = false) (hex_encode bs) ∧ length (hex_encode bs) = (2 * length bs)%nat.
Proof.
  unfold hex_encode. induction bs as [|b bs [IH Hl]]; [by split|]. rewrite bind_cons. destruct (byte_nibbles b) as [H1 H2].
  split; [|cbn [app length] in *; lia]. cbn [app].
  repeat (apply Forall_cons; split; [by apply nibble_char_ok|]). done.
Qed.

Lemma until_newline_app l acc c rest :
  Forall (λ c, code c ≠ 10) l → code c = 10 → until_newline (l ++ c :: rest) acc = (reverse acc ++ l, true).
Proof.
  intros Hl Hc. revert acc. induction Hl as [|x l Hx Hl IH]; intros acc; cbn [app until_newline].
  - by rewrite Hc, app_nil_r.
  - rewrite (proj2 (Z.eqb_neq _ 10)), IH, reverse_cons, <- app_assoc by done. done.
Qed.

Lemma fields_word l cur rest :
  Forall (λ c, is_space c = false) l → fields (l ++ rest) cur = fields rest (reverse l ++ cur).
Proof.
  intros Hl. revert cur. induction Hl as [|x l Hx Hl IH]; intros cur; [done|]. cbn [app fields].
  rewrite Hx, IH, reverse_cons, <- app_assoc. done.
Qed.

Lemma two_fields a b c : word a → word b → is_space c = true → fields (a ++ c :: b) [] = [a; b].
Proof.
  intros [Ha Has] [Hb Hbs] Hc. rewrite fields_word, app_nil_r by done. cbn [fields]. rewrite Hc.
  assert (Hr : ∀ l : list ascii, l ≠ [] → reverse l ≠ []).
  { intros l Hl Hz. apply Hl. by rewrite <- (reverse_involutive l), Hz. }
  rewrite bool_decide_eq_false_2 by by apply Hr. rewrite reverse_involutive. f_equal.
  rewrite <- (app_nil_r b) at 1. rewrite fields_word, app_nil_r by done. cbn [fields].
  rewrite bool_decide_eq_false_2 by by apply Hr. by rewrite reverse_involutive.
Qed.

Lemma drop_cr_word a l : Forall (λ c, is_space c = false) l → l ≠ [] → drop_cr (a ++ l) = a ++ l.
Proof.
  intros Hl Hne. unfold drop_cr. destruct l as [|x l _] using rev_ind; [done|].
  rewrite app_assoc, reverse_snoc. apply Forall_app in Hl as [_ Hl]. apply Forall_cons in Hl as [Hl _].
  destruct (Z.eqb_spec (code x) 13) as [E|E]; [|done].
  exfalso. revert Hl. unfold is_space. by rewrite E.
Qed.

Lemma meta_outcome fl path size hash :
  is_u64 size → length hash = 32%nat → fl_open fl path = Ok (meta_text size hash) →
  readSnapshotMeta fl path = Ok (size, hash).
Proof.
  intros Hsz Hh Ho. unfold readSnapshotMeta. rewrite Ho. cbn [mbind res_bind]. unfold meta_text.
  rewrite buf_chars_buf.
  destruct (dec_digits_word 20 size []) as [[Hne Hd] Hdl]; [lia|constructor|]. fold (FormatUint size) in *.
  destruct (hex_encode_word hash) as [Hx Hxl]. rewrite Hh in Hxl.
  assert (Hxne : hex_encode hash ≠ []) by (destruct (hex_encode hash); done).
  set (sp := ascii_of_N 32) in *. set (line := FormatUint size ++ [sp] ++ hex_encode hash).
  assert (Hline : FormatUint size ++ [sp] ++ hex_encode hash ++ [ascii_of_N 10] = line ++ [ascii_of_N 10])
    by (unfold line; by rewrite <- !app_assoc).
  assert (Hnl : Forall (λ c, code c ≠ 10) line).
  { assert (Hs : ∀ l, Forall (λ c, is_space c = false) l → Forall (λ c, code c ≠ 10) l).
    { intros l Hl. eapply Forall_impl; [exact Hl|]. cbn beta. intros c Hc E. revert Hc. unfold is_space. by rewrite E. }
    unfold line. apply Forall_app. split; [by apply Hs|]. by constructor; [|apply Hs]. }
  assert (Hscan : scan_line (line ++ [ascii_of_N 10]) = Some line).
  { unfold scan_line. destruct (line ++ [ascii_of_N 10]) as [|y ys] eqn:E; [by destruct line|]. rewrite <- E.
    rewrite (until_newline_app line [] (ascii_of_N 10) []) by done. cbn [reverse app].
    rewrite (proj2 (Z.leb_gt _ _)).
    - f_equal. change (reverse [] ++ line) with line. unfold line. rewrite app_assoc. by apply drop_cr_word.
    - change (reverse [] ++ line) with line. unfold line. rewrite !length_app, Hxl. cbn [length] in *.
      unfold MaxScanTokenSize. lia. }
  rewrite Hline, Hscan. unfold line. cbn [app]. rewrite two_fields by (done || by split).
  rewrite FormatUint_parse by done. cbn [mbind res_bind]. rewrite hex_roundtrip, bool_decide_eq_true_2 by done. done.
Qed.
