(* ===== verification/SnapshotFlush.v ===== *)
(** * A flush leaves a snapshot that restores the device

    What [validateSnapshot] accepts ([validate_inv]) and when it accepts ([validate_intro]); a flush that
    succeeds leaves such a snapshot, which decodes to the device ([flush_then_validate]); a flush that
    fails leaves the old files, or an image that is accepted only with its own checksum
    ([flush_failure]). *)

From S2P Require Import Prelude Machine Device Layout IndexScan DeviceState DeviceInv DiskStore Text Path.
From S2P Require Import Config Flag Init Find Snapshot.
From Stdlib Require Import Strings.Byte Ascii.

(** ** The names of the files *)
Lemma formatID_chars id :
  ∃ ds, chars (formatID id) = ascii_of_N 48 :: ascii_of_N 120 :: ds ∧
        Forall (λ c, c ∈ (λ d, hex_char d) <$> seqZ 0 16) ds.
Proof.
  exists (hex_digits 16 id []). unfold formatID. rewrite chars_str. split; [done|].
  assert (H : ∀ n z acc, Forall (λ c, c ∈ hex_char <$> seqZ 0 16) acc →
    Forall (λ c, c ∈ hex_char <$> seqZ 0 16) (hex_digits n z acc)); [|by apply H].
  induction n as [|n IH]; intros z acc Ha; [done|]. cbn [hex_digits].
  assert (Hc : Forall (λ c, c ∈ hex_char <$> seqZ 0 16) (hex_char (z `mod` 16) :: acc)).
  { constructor; [|done]. apply list_elem_of_fmap_2, elem_of_seqZ. pose proof (Z.mod_pos_bound z 16). lia. }
  destruct (z / 16 =? 0); [done|]. by apply IH.
Qed.

Lemma hex_chars_ok c :
  c ∈ hex_char <$> seqZ 0 16 → upper c = c ∧ c ≠ slash ∧ c ≠ ascii_of_N 88.
Proof.
  assert (Hall : Forall (λ c, upper c = c ∧ c ≠ slash ∧ c ≠ ascii_of_N 88) (hex_char <$> seqZ 0 16)).
  { vm_compute. repeat (constructor; [by split_and!|]). constructor. }
  rewrite Forall_forall in Hall. apply Hall.
Qed.

Lemma formatID_plain id : plain_elem (chars (formatID id)).
Proof.
  destruct (formatID_chars id) as (ds & -> & Hds). split_and!; [done..|].
  rewrite !not_elem_of_cons. split_and!; [discriminate..|]. intros H.
  rewrite Forall_forall in Hds. by destruct (hex_chars_ok slash (Hds _ H)) as (_ & ? & _).
Qed.

Lemma ToUpper_id l : Forall (λ c, upper c = c) l → ToUpper (str l) = str l.
Proof.
  intros Hl. unfold ToUpper. rewrite chars_str. f_equal. induction Hl as [|c l Hc Hl IH]; [done|].
  by rewrite fmap_cons, Hc, IH.
Qed.

(** The id a flush names its files by is the id [blk find] wrote. *)
Lemma NormalizeID_formatID id : NormalizeID (formatID id) = formatID id.
Proof.
  destruct (formatID_chars id) as (ds & Hc & Hds). unfold NormalizeID.
  assert (Hp : HasPrefix (formatID id) "0x" = true).
  { unfold HasPrefix. rewrite Hc. by apply bool_decide_eq_true_2. }
  rewrite Hp. cbn [orb]. unfold TrimPrefix at 2. rewrite Hp, Hc. cbn [drop].
  change (drop (length (chars "0x")) (ascii_of_N 48 :: ascii_of_N 120 :: ds)) with ds.
  assert (Ht : TrimPrefix (str ds) "0X" = str ds).
  { unfold TrimPrefix. assert (Hn : HasPrefix (str ds) "0X" = false); [|by rewrite Hn].
    unfold HasPrefix. rewrite chars_str. apply bool_decide_eq_false_2. intros E.
    change (chars "0X") with [ascii_of_N 48; ascii_of_N 88] in E. destruct ds as [|c1 [|c2 ds]]; [done..|].
    cbn in E. injection E as _ E. apply Forall_cons in Hds as [_ Hds]. apply Forall_cons in Hds as [Hds _].
    by destruct (hex_chars_ok c2 Hds) as (_ & _ & ?). }
  rewrite Ht, ToUpper_id.
  - apply chars_inj. rewrite chars_append, chars_str, Hc. done.
  - eapply Forall_impl; [exact Hds|]. cbn beta. intros c H. apply (hex_chars_ok c H).
Qed.

Definition image_path (dir : string) (id : Z) : string := Join dir (String.append (formatID id) ".zst").
Definition meta_path (dir : string) (id : Z) : string := Join dir (String.append (formatID id) ".sha256").

Lemma no_slash (l : list ascii) : bool_decide (slash ∈ l) = false → slash ∉ l.
Proof. by intros ?%bool_decide_eq_false. Qed.

Lemma snapshot_names id : plain_name (String.append (formatID id) ".zst") ∧ plain_name (String.append (formatID id) ".sha256").
Proof. split; (apply plain_append; [apply formatID_plain|by apply no_slash|cbn; lia]). Qed.

(** What [snapshotSize] and [validateSnapshot] compute from the path of an image. *)
Lemma image_names dir id :
  let path := image_path dir id in
  HasSuffix path ".zst" = true ∧
  Join (Dir path) (String.append (TrimSuffix (Base path) ".zst") ".sha256") = meta_path dir id ∧
  String.append (TrimSuffix path ".zst") ".sha256" = meta_path dir id.
Proof.
  destruct (snapshot_names id) as [Hz Hs]. pose proof (formatID_plain id) as Hp.
  assert (Hn : plain_name (formatID id)).
  { split; [done|]. destruct (formatID_chars id) as (ds & -> & _). discriminate. }
  cbv zeta. unfold image_path, meta_path.
  rewrite Base_Join, TrimSuffix_append, Dir_Join, !Join_append, TrimSuffix_append, HasSuffix_append by done. done.
Qed.

Lemma Join_inj dir a b : plain_name a → plain_name b → Join dir a = Join dir b → a = b.
Proof.
  intros Ha Hb E. apply (f_equal chars) in E. rewrite !chars_Join in E by done.
  by apply app_inv_head, chars_inj in E.
Qed.

Lemma snapshot_paths_differ dir id :
  meta_path dir id ≠ image_path dir id ∧
  String.append (image_path dir id) ".tmp" ≠ image_path dir id ∧
  String.append (image_path dir id) ".tmp" ≠ meta_path dir id.
Proof.
  destruct (snapshot_names id) as [Hz Hs].
  assert (Hlen : ∀ a b, length (chars a) ≠ length (chars b) → a ≠ b) by (intros a b H ->; done).
  split_and!; apply Hlen; unfold image_path, meta_path;
    rewrite ?chars_append, ?length_app, !chars_Join, !length_app, !chars_append, !length_app by done; cbn; lia.
Qed.

(** ** Accepting a snapshot *)
Lemma u64_int64 z : u64 (int64 z) = u64 z.
Proof.
  unfold u64, int64. rewrite Zminus_mod_idemp_l. f_equal. lia.
Qed.

Section validate.
Context {C : Codec} (HC : codec_ok C).

(** The header and the rest, hashed one after the other. *)
Lemma sha_parts b r :
  HeaderBytes ≤ blen b → blen r = blen b - HeaderBytes →
  (∀ i, 0 ≤ i < blen b - HeaderBytes → bat r i = bat b (HeaderBytes + i)) →
  sha256 (buf_app (buf_slice b 0 HeaderBytes) r) = sha256 b.
Proof.
  intros Hb Hr Hat. apply (cd_sha_ext C HC); cbn [buf_app buf_slice blen bat]; [lia|].
  intros i Hi. destruct (Z.ltb_spec i (HeaderBytes - 0)); [done|]. rewrite Hat by lia. f_equal. lia.
Qed.

Lemma ParseHeader_slice b :
  ParseHeader (buf_slice b 0 HeaderBytes) = ParseHeader (region (bat b) 0 HeaderBytes).
Proof. done. Qed.

(** What is read after the header when the snapshot has the length its checksum line says. *)
Lemma body_whole b er size body :
  is_u64 size → GridStart < size → HeaderBytes ≤ blen b →
  copy_all (limit (int64 (int64 size - HeaderBytes + 1)) (buf_slice b HeaderBytes (blen b), er)) = Ok body →
  u64 (blen body + HeaderBytes) = size → er = None ∧ body = buf_slice b HeaderBytes (blen b).
Proof.
  intros Hs Hg Hb. unfold limit, copy_all. cbn [fst snd buf_slice blen].
  set (n := int64 (int64 size - HeaderBytes + 1)).
  destruct (Z.leb_spec n (blen b - HeaderBytes)) as [Hn|Hn]; cbn [fst snd].
  2: { destruct er; [done|]. by intros [= <-]. }
  intros [= <-] E.
  exfalso. assert (Hu : u64 (int64 size - HeaderBytes + 1) = u64 (size - HeaderBytes + 1)).
  { rewrite <- Z.add_opp_r, <- Z.add_assoc. unfold u64. rewrite Zplus_mod. fold (u64 (int64 size)).
    rewrite u64_int64. unfold u64. rewrite <- Zplus_mod. f_equal. lia. }
  assert (Hun : u64 n = u64 (size - HeaderBytes + 1)) by (unfold n; by rewrite u64_int64).
  cbn [buf_slice blen] in E. rewrite Z.sub_0_r in E.
  unfold is_u64, GridStart, HeaderBytes in *. destruct (Z.max_spec 0 n) as [[Hm Em]|[Hm Em]]; rewrite Em in E.
  - assert (E1 : u64 (n + 4096) = u64 (size + 1)).
    { unfold u64 in *. rewrite Zplus_mod, Hun, <- Zplus_mod. f_equal. lia. }
    rewrite E1 in E. unfold u64 in E.
    destruct (decide (size = 2 ^ 64 - 1)) as [->|]; [done|]. rewrite Z.mod_small in E by lia. lia.
  - cbn in E. unfold u64 in E. rewrite Z.mod_small in E by lia. lia.
Qed.

Lemma bytes_fields_header g h id :
  ParseHeader (region g 0 HeaderBytes) = Ok h → h_Version h = FormatVersion → h_DiskID h = id → header_valid id g.
Proof. intros (H1 & H2 & H3)%ParseHeader_fields Hv Hi. split_and!; congruence. Qed.

Lemma readSnapshotMeta_u64 fl path size hash : readSnapshotMeta fl path = Ok (size, hash) → is_u64 size.
Proof.
  unfold readSnapshotMeta. destruct (fl_open fl path) as [f|]; [|done]. cbn [mbind res_bind].
  destruct (scan_line _) as [line|]; [|done]. destruct (fields line []) as [|a [|b [|]]]; try done.
  destruct (ParseUint (str a) 10) as [n|] eqn:E; [|done]. cbn [mbind res_bind].
  destruct (hex_decode b); [|done]. case_bool_decide; [|done]. intros [= <- _]. by apply (ParseUint_range (str a) 10).
Qed.

(** What an accepted snapshot is. *)
Record accepted (fl : files) (path : string) (s : snapshot) (b : buf) : Prop := {
  ac_path : sn_path s = path;
  ac_reader : snapshotReader fl path = Ok (b, None);
  ac_size : GridStart < sn_size s < 2 ^ 64 ∧ sn_size s `mod` SlotSize = 0;
  ac_length : HeaderBytes ≤ blen b ∧ u64 (blen b) = sn_size s;
  ac_header : header_valid (sn_id s) (bat b);
  ac_sum : match readSnapshotMeta fl (String.append (TrimSuffix path ".zst") ".sha256") with
           | Ok m => m = (sn_size s, sha256 b)
           | Err e => errors_Is e ErrNotExist = true ∧ HasSuffix path ".zst" = false
           end
}.

Lemma snapshotSize_u64 fl path size : snapshotSize fl path = Ok size → is_u64 size.
Proof.
  unfold snapshotSize.
  assert (Hst : (if HasSuffix path ".zst" then Err (EMsg "missing snapshot meta")
    else size ← fl_stat fl path; Ok (u64 size)) = Ok size → is_u64 size).
  { destruct (HasSuffix path ".zst"); [done|]. destruct (fl_stat fl path); [|done]. intros [= <-]. apply u64_range. }
  destruct (readSnapshotMeta fl _) as [[n hash]|e] eqn:E; [|done].
  destruct (0 <? n); [|done]. intros [= <-]. by eapply readSnapshotMeta_u64.
Qed.

Lemma validate_inv fl path id s :
  validateSnapshot fl path id = Ok s → sn_id s = id ∧ ∃ b, accepted fl path s b.
Proof.
  unfold validateSnapshot. destruct (snapshotSize fl path) as [size|] eqn:Esz; [|done].
  apply snapshotSize_u64 in Esz. cbn [mbind res_bind].
  destruct (Z.leb_spec size GridStart) as [|Hg]; [done|]. cbn [orb].
  destruct (Z.eqb_spec (size `mod` SlotSize) 0) as [Hm|]; [|done]. cbn [negb].
  destruct (snapshotReader fl path) as [[b er]|] eqn:Er; [|done]. cbn [mbind res_bind]. unfold ReadFull. cbn [fst snd].
  destruct (Z.leb_spec HeaderBytes (blen b)) as [Hh|]; [|by destruct er]. cbn [mbind res_bind].
  rewrite ParseHeader_slice. destruct (ParseHeader _) as [h|] eqn:Eh; [|done]. cbn [mbind res_bind].
  destruct (Z.eqb_spec (h_Version h) FormatVersion) as [Hv|]; [|done].
  destruct (Z.eqb_spec (h_DiskID h) id) as [Hi|]; [|done]. cbn [negb orb].
  destruct (copy_all _) as [body|] eqn:Eb; [|done]. cbn [mbind res_bind].
  destruct (Z.eqb_spec (u64 (blen body + HeaderBytes)) size) as [El|]; [|done]. cbn [negb].
  destruct (body_whole b er size body) as [-> ->]; [done..|].
  cbn [buf_slice blen] in El. rewrite Z.sub_add in El.
  assert (Hsha : sha256 (buf_app (buf_slice b 0 HeaderBytes) (buf_slice b HeaderBytes (blen b))) = sha256 b)
    by (apply sha_parts; done). rewrite Hsha.
  assert (Hval : header_valid id (bat b)) by by eapply bytes_fields_header.
  unfold is_u64 in Esz.
  destruct (readSnapshotMeta fl (String.append _ _)) as [[n want]|e] eqn:Em.
  - destruct (Z.eqb_spec n size) as [->|]; [|done]. cbn [negb orb]. case_bool_decide as Ew; [|done]. subst want.
    intros [= <-]. split; [done|]. exists b. split; try done; [cbn; lia|]. by rewrite Em.
  - destruct (errors_Is e ErrNotExist) eqn:Ee, (HasSuffix path ".zst") eqn:Es; try done. cbn [negb orb].
    intros [= <-]. split; [done|]. exists b. split; try done; [cbn; lia|]. by rewrite Em.
Qed.

Lemma validate_intro fl dir id b f :
  let path := image_path dir id in
  fl_open fl path = Ok f → (zstd_decode f).2 = None → blen (zstd_decode f).1 = blen b →
  (∀ i, 0 ≤ i < blen b → bat (zstd_decode f).1 i = bat b i) →
  GridStart < blen b < 2 ^ 63 → blen b `mod` SlotSize = 0 → header_valid id (bat b) →
  readSnapshotMeta fl (meta_path dir id) = Ok (blen b, sha256 b) →
  validateSnapshot fl path id = Ok (mkSnapshot path id (blen b)).
Proof.
  cbv zeta. intros Hf He Hl Hat Hg Hm Hv Hmeta. destruct (image_names dir id) as (Hz & Hsz & Hsum).
  unfold validateSnapshot, snapshotSize. rewrite Hsz, Hmeta, Hsum, Hmeta.
  unfold GridStart in Hg. rewrite (proj2 (Z.ltb_lt 0 (blen b))) by lia. cbn [mbind res_bind].
  rewrite (proj2 (Z.leb_gt _ _)) by (unfold GridStart; lia). rewrite Hm. cbn [orb negb Z.eqb].
  unfold snapshotReader. rewrite Hf. cbn [mbind res_bind]. rewrite Hz.
  destruct (zstd_decode f) as [d er]. cbn [fst snd] in *. subst er. unfold ReadFull. cbn [fst snd].
  rewrite (proj2 (Z.leb_le _ _)) by (unfold HeaderBytes; lia). cbn [mbind res_bind]. rewrite ParseHeader_slice.
  destruct (ParseHeader_valid id (bat d)) as (h & HP & Hhv & Hhi).
  { destruct Hv as (H1 & H2 & H3).
    assert (E : ∀ off n, 0 ≤ off → off + Z.of_nat n ≤ 16 → bytes_at (bat d) off n = bytes_at (bat b) off n).
    { intros off n Ho Hn. apply bytes_at_ext. intros a Ha. apply Hat. lia. }
    split_and!; rewrite E by lia; done. }
  rewrite HP. cbn [mbind res_bind]. rewrite Hhv, Hhi, !Z.eqb_refl. cbn [negb orb].
  unfold limit. cbn [fst snd buf_slice blen]. unfold HeaderBytes in *.
  rewrite (int64_small (blen b)), int64_small by lia. rewrite (proj2 (Z.leb_gt _ _)) by lia.
  unfold copy_all. cbn [fst snd mbind res_bind buf_slice blen]. rewrite Hl, Z.sub_add, u64_small, Z.eqb_refl by lia. cbn [negb orb].
  rewrite bool_decide_eq_true_2; [done|]. rewrite <- Hl. rewrite (sha_parts d).
  - by apply (cd_sha_ext C HC); [|rewrite Hl].
  - unfold HeaderBytes. lia.
  - done.
  - done.
Qed.
End validate.

(** ** Flushing *)
Section flush.
Context {C : Codec} (HC : codec_ok C).

(** The device named by its id, with the same bytes each time it is opened. *)
Record stable (os : flush_os) (dev : PanDevice) (id : Z) (b : buf) : Prop := {
  st_id : DiskID dev = formatID id;
  st_u64 : is_u64 id;
  st_header : fe_header os = Ok (b, None);
  st_hash : fe_hash os = Ok (b, None);
  st_copy : fe_copy os = Ok (b, None)
}.

(** The device named by its id, that nobody writes to: each time it is opened this fails, or the reads
    deliver its bytes up to the end or up to the first one that fails. *)
Definition delivers (b : buf) (s : res source) : Prop :=
  match s with
  | Err _ => True
  | Ok (p, er) => blen p ≤ blen b ∧ (∀ i, 0 ≤ i < blen p → bat p i = bat b i) ∧ (er = None → blen p = blen b)
  end.

Record unchanging (os : flush_os) (dev : PanDevice) (id : Z) (b : buf) : Prop := {
  un_id : DiskID dev = formatID id;
  un_u64 : is_u64 id;
  un_header : delivers b (fe_header os);
  un_hash : delivers b (fe_hash os);
  un_copy : delivers b (fe_copy os)
}.

Lemma stable_unchanging os dev id b : stable os dev id b → unchanging os dev id b.
Proof. intros [? ? Hh Hs Hc]. split; try done; rewrite ?Hh, ?Hs, ?Hc; by cbn. Qed.

(** The first [size] bytes of the device, as [io.LimitReader] delivers them. *)
Definition content (b : buf) (size : Z) : buf := (limit (int64 size) (b, None)).1.

(** The image at [path] decodes to [c]. *)
Definition decodes_to (fs : gmap string buf) (path : string) (c : buf) : Prop :=
  ∃ d, snapshotReader (files_of fs) path = Ok (d, None) ∧ blen d = blen c ∧
       ∀ i, 0 ≤ i < blen c → bat d i = bat c i.

Lemma limit_content b size : limit (int64 size) (b, None) = (content b size, None).
Proof. unfold content, limit. by case_match. Qed.

Lemma content_size b size :
  is_u64 size → 0 ≤ blen b → blen (content b size) = size →
  (0 < size → size < 2 ^ 63) ∧ (∀ i, 0 ≤ i → bat (content b size) i = bat b i).
Proof.
  unfold content, limit, is_u64. cbn [fst snd]. intros Hs Hb.
  assert (Hlow : int64 size < 0 ∨ size < 2 ^ 63 ∧ int64 size = size).
  { destruct (decide (size < 2 ^ 63)); [right; split; [done|]; apply int64_small; lia|left].
    unfold int64. rewrite <- (Z.mod_add _ (-1)), Z.mod_small by lia. lia. }
  destruct (Z.leb_spec (int64 size) (blen b)) as [H|H]; cbn [fst blen buf_slice bat]; intros E.
  - split; [|done]. lia.
  - split; [|done]. lia.
Qed.

Lemma decodes_content fs path c :
  HasSuffix path ".zst" = true → fs !! path = Some (zstd_encode c) → decodes_to fs path c.
Proof.
  intros Hz Hf. unfold decodes_to, snapshotReader. cbn [files_of fl_open]. rewrite Hf. cbn [mbind res_bind]. rewrite Hz.
  destruct (cd_roundtrip C HC c) as (Hl & Hat & He). exists (zstd_decode (zstd_encode c)).1.
  split; [|by split]. f_equal. destruct (zstd_decode _). cbn in *. by subst.
Qed.

(** What a copy that ends without an error has read. *)
Lemma delivered b n p er q :
  delivers b (Ok (p, er)) → copy_all (limit n (p, er)) = Ok q →
  blen q = blen (limit n (b, None)).1 ∧ ∀ i, 0 ≤ i < blen q → bat q i = bat (limit n (b, None)).1 i.
Proof.
  intros (Hp & Hat & Hend). unfold limit, copy_all. cbn [fst snd]. destruct (Z.leb_spec n (blen p)); cbn [fst snd].
  - intros [= <-]. rewrite (proj2 (Z.leb_le n (blen b))) by lia. cbn [fst buf_slice blen bat].
    split; [done|]. intros i Hi. apply Hat. lia.
  - destruct er; [done|]. intros [= <-]. pose proof (Hend eq_refl). rewrite (proj2 (Z.leb_gt n (blen b))) by lia.
    by split.
Qed.

Definition copied (os : flush_os) (size : Z) : buf :=
  match fe_copy os with Ok f => (limit (int64 size) f).1 | Err _ => zeros 0 end.

Lemma header_prefix id p b :
  HeaderBytes ≤ blen p → (∀ i, 0 ≤ i < blen p → bat p i = bat b i) → header_valid id (bat p) → header_valid id (bat b).
Proof.
  unfold HeaderBytes. intros Hl Hat (H1 & H2 & H3).
  split_and!; (erewrite bytes_at_ext; [eassumption|]; intros a Ha; symmetry; apply Hat; lia).
Qed.

Lemma limit_source b size q :
  (blen q = blen (limit (int64 size) (b, None)).1 ∧
    ∀ i, 0 ≤ i < blen q → bat q i = bat (limit (int64 size) (b, None)).1 i) →
  blen q = blen (content b size) ∧ ∀ i, 0 ≤ i < blen q → bat q i = bat (content b size) i.
Proof. done. Qed.

(** The two files after a flush: as they were, or the image of what the copy read, all of it. *)
Lemma flush_cases os dev id b dir fs r fs' :
  unchanging os dev id b → 0 < SizeBytes dev →
  flushDevice os dev dir fs = (r, fs') →
  let size := SizeBytes dev in let c := content b size in
  (fs' !! image_path dir id = fs !! image_path dir id ∧ fs' !! meta_path dir id = fs !! meta_path dir id ∧
   (r = None → fs' = fs ∧ readSnapshotMeta (files_of fs) (meta_path dir id) = Ok (size, sha256 c))) ∨
  (blen c = size ∧ HeaderBytes ≤ blen b ∧ header_valid id (bat b) ∧
   blen (copied os size) = size ∧ (∀ i, 0 ≤ i < size → bat (copied os size) i = bat c i) ∧
   fs' !! image_path dir id = Some (zstd_encode (copied os size)) ∧
   (r = None → fs' !! meta_path dir id = Some (meta_text size (sha256 c)))).
Proof.
  intros [Hid Hu Hh Hha Hc] Hpos. cbv zeta. unfold flushDevice. rewrite Hid, NormalizeID_formatID.
  set (size := SizeBytes dev) in *. set (c := content b size).
  destruct (snapshot_paths_differ dir id) as (D1 & D2 & D3). fold (meta_path dir id) (image_path dir id).
  set (image := image_path dir id) in *. set (meta := meta_path dir id) in *. set (tmp := String.append image ".tmp") in *.
  assert (Hsame : ∀ e, (Some e, fs) = (r, fs') → fs' !! image = fs !! image ∧ fs' !! meta = fs !! meta ∧
    (r = None → fs' = fs ∧ readSnapshotMeta (files_of fs) meta = Ok (size, sha256 c))) by by intros e [= <- <-].
  case_bool_decide; [intros E; left; by apply (Hsame _ E)|].
  destruct (fe_header os) as [[hd her]|]; [|intros E; left; by apply (Hsame _ E)]. destruct Hh as (Hhl & Hhat & _).
  rewrite disk_id_roundtrip by done. cbn [mbind res_bind]. unfold ReadFull at 1. cbn [fst snd].
  destruct (Z.leb_spec HeaderBytes (blen hd)) as [Hhb|].
  2: { intros E. left. destruct her; by apply (Hsame _ E). }
  cbn [mbind res_bind].
  rewrite ParseHeader_slice. destruct (ParseHeader _) as [h|e] eqn:Eh; [|intros E; left; by apply (Hsame _ E)].
  cbn [mbind res_bind].
  destruct (Z.eqb_spec (h_DiskID h) id) as [Hi|]; [|intros E; left; by apply (Hsame _ E)].
  destruct (Z.eqb_spec (h_Version h) FormatVersion) as [Hv|]; [|intros E; left; by apply (Hsame _ E)]. cbn [negb orb].
  unfold hashDevice. destruct (fe_hash os) as [[hs hser]|]; [|intros E; left; by apply (Hsame _ E)]. cbn [mbind res_bind].
  destruct (copy_all (limit (int64 size) (hs, hser))) as [hb|] eqn:Ehb; [|intros E; left; by apply (Hsame _ E)].
  cbn [mbind res_bind]. destruct (limit_source _ _ _ (delivered b _ _ _ _ Hha Ehb)) as [Hhbl Hhbat]. fold c in Hhbl, Hhbat.
  destruct (Z.eqb_spec (blen hb) size) as [Hl|]; [|intros E; left; by apply (Hsame _ E)]. cbn [negb].
  assert (Hcl : blen c = size) by congruence.
  rewrite (cd_sha_ext C HC hb c) by (done || congruence).
  assert (Hval : header_valid id (bat b)).
  { apply (header_prefix id hd); [done..|]. by eapply bytes_fields_header. }
  set (prev := match readSnapshotMeta (files_of fs) meta with Ok m => m | Err _ => (0, replicate 32 x00) end).
  destruct prev as [psz ph] eqn:Ep.
  destruct ((psz =? size) && bool_decide (ph = sha256 c)) eqn:Eskip.
  { intros [= <- <-]. left. split_and!; [done..|]. intros _. split; [done|].
    apply andb_true_iff in Eskip as [E1%Z.eqb_eq E2%bool_decide_eq_true]. unfold prev in Ep.
    destruct (readSnapshotMeta _ _) as [m|]; [congruence|]. injection Ep as ? ?. lia. }
  unfold snapshotDeviceCompressed, copied. destruct (fe_copy os) as [[cp cper]|]; [|intros E; left; by apply (Hsame _ E)].
  destruct (fe_create os) as [e|]; [intros E; left; by apply (Hsame _ E)|].
  assert (Htmp : ∀ e b', (Some e, <[tmp:=b']> fs) = (r, fs') → fs' !! image = fs !! image ∧ fs' !! meta = fs !! meta ∧
    (r = None → fs' = fs ∧ readSnapshotMeta (files_of fs) meta = Ok (size, sha256 c))).
  { intros e b' [= <- <-]. by rewrite !lookup_insert_ne. }
  destruct (copy_all (limit (int64 size) (cp, cper))) as [q|] eqn:Eq; [|intros E; left; by apply (Htmp _ _ E)].
  destruct (limit_source _ _ _ (delivered b _ _ _ _ Hc Eq)) as [Hql Hqat]. fold c in Hql, Hqat.
  assert (Hq : (limit (int64 size) (cp, cper)).1 = q).
  { unfold copy_all in Eq. destruct (limit (int64 size) (cp, cper)) as [q' [e|]]; cbn in *; congruence. }
  rewrite Hq. clear Hq.
  destruct (fe_encode os) as [e|]; [intros E; left; by apply (Htmp _ _ E)|].
  unfold validateZstd. cbn [files_of fl_open]. rewrite lookup_insert_eq. unfold copy_all.
  destruct (cd_roundtrip C HC q) as (_ & _ & ->). unfold rename. rewrite lookup_insert_eq.
  destruct (fe_rename os) as [e|]; [intros E; left; by apply (Htmp _ _ E)|].
  intros E. right. split; [done|]. split; [lia|]. split; [done|]. split; [congruence|].
  split; [intros i Hi'; apply Hqat; lia|].
  unfold writeSnapshotMeta in E; destruct (fe_meta os) as [[e [part|]]|].
  all: injection E as <- <-; rewrite ?lookup_insert_ne, ?lookup_insert_eq by done; done.
Qed.

(** The same on a device that is read without errors. *)
Lemma flush_files os dev id b dir fs r fs' :
  stable os dev id b → 0 < SizeBytes dev →
  flushDevice os dev dir fs = (r, fs') →
  let size := SizeBytes dev in let c := content b size in
  (fs' !! image_path dir id = fs !! image_path dir id ∧ fs' !! meta_path dir id = fs !! meta_path dir id ∧
   (r = None → fs' = fs ∧ readSnapshotMeta (files_of fs) (meta_path dir id) = Ok (size, sha256 c))) ∨
  (blen c = size ∧ HeaderBytes ≤ blen b ∧ header_valid id (bat b) ∧
   fs' !! image_path dir id = Some (zstd_encode c) ∧
   (r = None → fs' !! meta_path dir id = Some (meta_text size (sha256 c)))).
Proof.
  intros Hst Hpos E. destruct (flush_cases _ _ _ _ _ _ _ _ (stable_unchanging _ _ _ _ Hst) Hpos E)
    as [H|(Hl & Hh & Hv & _ & _ & Hi & Hs)]; [by left|right].
  assert (Hc : copied os (SizeBytes dev) = content b (SizeBytes dev)) by (unfold copied; by rewrite (st_copy _ _ _ _ Hst)).
  rewrite Hc in Hi. done.
Qed.

(** A flush that reports success either left everything as it was, the recorded size and checksum
    being those of the device, or wrote an image and a checksum line that [validateSnapshot] accepts
    for the disk, with the size of the device, and the image decodes to the bytes of the device. *)
Theorem flush_then_validate os dev id b dir fs fs' :
  let size := SizeBytes dev in let image := image_path dir id in
  stable os dev id b → GridStart < size → is_u64 size → size `mod` SlotSize = 0 →
  flushDevice os dev dir fs = (None, fs') →
  (fs' = fs ∧ readSnapshotMeta (files_of fs) (meta_path dir id) = Ok (size, sha256 (content b size))) ∨
  (validateSnapshot (files_of fs') image id = Ok (mkSnapshot image id size) ∧
   ∃ d, snapshotReader (files_of fs') image = Ok (d, None) ∧ blen d = size ∧ ∀ i, 0 ≤ i < size → bat d i = bat b i).
Proof.
  cbv zeta. intros Hst Hg Hsz Hm E. assert (Hpos : 0 < SizeBytes dev) by (unfold GridStart in Hg; lia).
  destruct (flush_files _ _ _ _ _ _ _ _ Hst Hpos E) as [(_ & _ & H)|(Hl & Hh & Hv & Hi & Hs)]; [left; by apply H|right].
  specialize (Hs eq_refl). set (c := content b (SizeBytes dev)) in *.
  destruct (content_size b (SizeBytes dev) Hsz) as [Hlt Hat]; [unfold HeaderBytes in Hh; lia|done|].
  destruct (image_names dir id) as (Hz & _ & _). destruct (cd_roundtrip C HC c) as (Hdl & Hdat & Hde). split.
  - rewrite <- Hl. apply (validate_intro HC) with (f := zstd_encode c); try done; try rewrite Hl; try done.
    + cbn [files_of fl_open]. by rewrite Hi.
    + split; [done|]. by apply Hlt.
    + destruct Hv as (H1 & H2 & H3).
      split_and!; (erewrite bytes_at_ext; [eassumption|]; intros a Ha; apply Hat; lia).
    + apply meta_outcome; [done|apply (cd_sha_length C HC)|]. cbn [files_of fl_open]. by rewrite Hs.
  - destruct (decodes_content fs' (image_path dir id) c Hz Hi) as (d & Hd & Hdl' & Hda).
    exists d. split_and!; [done|congruence|]. intros i Hi'. rewrite Hda by (rewrite Hl; lia). apply Hat. lia.
Qed.

(** C24: a flush that fails, at any of its steps, on a device that nobody writes to meanwhile: each of the
    times it is opened the opening may fail, or its reads at any point.  Either the image and the checksum
    line of the disk are as they were, or there is an image that decodes to the whole device and that
    [validateSnapshot] rejects as long as the checksum line is not the one of this image: the old image is
    never replaced by a part of the device, and the old line never vouches for the new image.  (The temporary
    file may hold anything.) *)
Theorem flush_failure os dev id b dir fs e fs' :
  let size := SizeBytes dev in let image := image_path dir id in let c := content b size in
  unchanging os dev id b → 0 < size → is_u64 size →
  flushDevice os dev dir fs = (Some e, fs') →
  (fs' !! image = fs !! image ∧ fs' !! meta_path dir id = fs !! meta_path dir id) ∨
  (decodes_to fs' image c ∧ blen c = size ∧
   (readSnapshotMeta (files_of fs') (meta_path dir id) ≠ Ok (size, sha256 c) →
    ∃ e', validateSnapshot (files_of fs') image id = Err e')).
Proof.
  cbv zeta. intros Hst Hpos Hsz E.
  destruct (flush_cases _ _ _ _ _ _ _ _ Hst Hpos E) as [(H1 & H2 & _)|(Hl & _ & _ & Hql & Hqat & Hi & _)]; [by left|right].
  set (c := content b (SizeBytes dev)) in *. set (q := copied os (SizeBytes dev)) in *.
  destruct (image_names dir id) as (Hz & _ & Hsum).
  destruct (decodes_content fs' (image_path dir id) q Hz Hi) as (d & Hd & Hdl & Hdat).
  assert (Hdc : ∀ i, 0 ≤ i < blen d → bat d i = bat c i).
  { intros i Hi'. rewrite Hdl, Hql in Hi'. rewrite Hdat, Hqat by lia. done. }
  split; [exists d; split; [done|]; split; [congruence|]; intros i Hi'; apply Hdc; lia|]. split; [done|]. intros Hne.
  destruct (validateSnapshot (files_of fs') (image_path dir id) id) as [s|e'] eqn:Ev; [|by exists e'].
  exfalso. apply Hne. apply validate_inv in Ev as (_ & b' & Hacc); [|done].
  destruct Hacc as [_ Hr _ [_ Hlen] _ Hm].
  rewrite Hd in Hr. injection Hr as <-. rewrite Hsum in Hm.
  rewrite Hdl, Hql, u64_small in Hlen by done.
  destruct (readSnapshotMeta _ _) as [m|e']; [|by destruct Hm as [_ Hm]; rewrite Hz in Hm].
  rewrite Hm, <- Hlen. by rewrite (cd_sha_ext C HC d c) by (done || lia).
Qed.
End flush.

(** *** A concrete codec and device *)
Definition demo_codec : Codec := {|
  zstd_encode := λ b, b; zstd_decode := λ b, (b, None); sha256 := λ b, le_bytes 32 (blen b) |}.

Lemma demo_codec_ok : codec_ok demo_codec.
Proof. split; [done|intros b; apply length_le_bytes|]. cbn. by intros b b' -> _. Qed.

Definition demo_tier : buf := Buf (GridStart + SlotSize) (bat (buildHeader 1 0x2A [])).
Definition demo_tier_os (meta : option (error * option buf)) : flush_os :=
  mkFlushOs (Ok (demo_tier, None)) (Ok (demo_tier, None)) (Ok (demo_tier, None)) (Ok (demo_tier, None))
    None None (zeros 0) None meta.
Definition demo_tier_dev : PanDevice := mkPanDevice "match" "/dev/zram0" "0x2A" 2 (GridStart + SlotSize).

Lemma demo_stable meta : stable (demo_tier_os meta) demo_tier_dev 0x2A demo_tier.
Proof. constructor; try reflexivity. unfold is_u64. lia. Qed.

Lemma flush_then_validate_witness :
  let fs' := (flushDevice (C := demo_codec) (demo_tier_os None) demo_tier_dev "/snap" ∅).2 in
  (flushDevice (C := demo_codec) (demo_tier_os None) demo_tier_dev "/snap" ∅).1 = None ∧
  validateSnapshot (C := demo_codec) (files_of fs') "/snap/0x2A.zst" 0x2A =
    Ok (mkSnapshot "/snap/0x2A.zst" 0x2A (GridStart + SlotSize)).
Proof.
  cbv zeta.
  assert (E1 : (flushDevice (C := demo_codec) (demo_tier_os None) demo_tier_dev "/snap" ∅).1 = None) by (vm_compute; reflexivity).
  split; [exact E1|].
  destruct (flushDevice (C := demo_codec) (demo_tier_os None) demo_tier_dev "/snap" ∅) as [r fs'] eqn:E.
  cbn [fst snd] in *. subst r.
  destruct (flush_then_validate (C := demo_codec) demo_codec_ok (demo_tier_os None) demo_tier_dev 0x2A demo_tier "/snap" ∅ fs'
    (demo_stable None)) as [[_ H]|[H _]].
  - reflexivity.
  - unfold is_u64. cbn. unfold GridStart, SlotSize. lia.
  - reflexivity.
  - exact E.
  - discriminate H.
  - exact H.
Defined.

(** The first flush loses the checksum line.  On top of it comes one of which the copy fails after the header:
    the files stay. *)
Definition demo_copy_os : flush_os :=
  mkFlushOs (Ok (demo_tier, None)) (Ok (demo_tier, None)) (Ok (demo_tier, None))
    (Ok (buf_slice demo_tier 0 HeaderBytes, Some (EMsg "input/output error"))) None None (zeros 0) None None.

Lemma demo_unchanging : unchanging demo_copy_os demo_tier_dev 0x2A demo_tier.
Proof.
  split; [reflexivity|by unfold is_u64|..]; cbn; [done..|].
  unfold HeaderBytes, GridStart, SlotSize. split; [lia|]. split; [|done]. intros i Hi. f_equal.
Qed.

Lemma flush_failure_witness :
  let flushed := flushDevice (C := demo_codec) (demo_tier_os (Some (EMsg "no space left on device", None))) demo_tier_dev "/snap" ∅ in
  let again := flushDevice (C := demo_codec) demo_copy_os demo_tier_dev "/snap" flushed.2 in
  (is_Some flushed.1 ∧ ∃ e', validateSnapshot (C := demo_codec) (files_of flushed.2) "/snap/0x2A.zst" 0x2A = Err e') ∧
  (is_Some again.1 ∧
   (again.2 !! image_path "/snap" 0x2A = flushed.2 !! image_path "/snap" 0x2A ∨
    decodes_to (C := demo_codec) again.2 (image_path "/snap" 0x2A) (content demo_tier (GridStart + SlotSize)))).
Proof.
  cbv zeta. set (os := demo_tier_os _).
  assert (E1 : (flushDevice (C := demo_codec) os demo_tier_dev "/snap" ∅).1 = Some (EMsg "no space left on device")) by (vm_compute; reflexivity).
  assert (E2 : (flushDevice (C := demo_codec) os demo_tier_dev "/snap" ∅).2 !! image_path "/snap" 0x2A ≠ None) by (vm_compute; discriminate).
  assert (E3 : (flushDevice (C := demo_codec) os demo_tier_dev "/snap" ∅).2 !! meta_path "/snap" 0x2A = None) by (vm_compute; reflexivity).
  assert (E4 : (flushDevice (C := demo_codec) demo_copy_os demo_tier_dev "/snap"
    (flushDevice (C := demo_codec) os demo_tier_dev "/snap" ∅).2).1 = Some (EMsg "input/output error")) by (vm_compute; reflexivity).
  assert (Hu : is_u64 (SizeBytes demo_tier_dev)).
  { unfold is_u64. cbn. unfold GridStart, SlotSize. lia. }
  destruct (flushDevice (C := demo_codec) os demo_tier_dev "/snap" ∅) as [r fs'] eqn:E.
  cbn [fst snd] in *. subst r. split; [split; [by eexists|]|].
  - destruct (flush_failure (C := demo_codec) demo_codec_ok os demo_tier_dev 0x2A demo_tier "/snap" ∅
      (EMsg "no space left on device") fs' (stable_unchanging _ _ _ _ (demo_stable _))) as [[H _]|(_ & _ & H)];
      [reflexivity|exact Hu|exact E|exfalso; by apply E2|].
    apply H. unfold readSnapshotMeta. cbn [files_of fl_open]. rewrite E3. discriminate.
  - destruct (flushDevice (C := demo_codec) demo_copy_os demo_tier_dev "/snap" fs') as [r fs''] eqn:E'.
    cbn [fst snd] in *. subst r. split; [by eexists|].
    destruct (flush_failure (C := demo_codec) demo_codec_ok demo_copy_os demo_tier_dev 0x2A demo_tier "/snap" fs'
      (EMsg "input/output error") fs'' demo_unchanging) as [[H _]|(H & _)];
      [reflexivity|exact Hu|exact E'|left; exact H|right; exact H].
Defined.
