(* ===== verification/Recovery.v ===== *)
(** * Restoring the zram tiers of a pool (recovery.go)

    [restorePool] resolves the configured zram disks and the snapshots found on disk to devices: a live
    device with the id is used as it is, another is restored from its validated snapshot into a device the
    kernel allocates.  The kernel is the interface [recoveryBackend] of the source; KernelRecovery.v has
    the instance of the host.  [restore_pool] says what the resulting pool is; [restart_restores_nothing]
    that a second start on the same kernel, if it keeps the laws of [RecoveryLaws], restores nothing. *)

From S2P Require Import Prelude Machine Device Layout IndexScan DeviceState DeviceInv Text Path Config.
From S2P Require Import Flag Init Find Snapshot SnapshotFlush.
From Stdlib Require Import Strings.Byte Ascii.

(** ** The snapshots of a directory

    [os.ReadDir]: the entries in order, with [IsDir]. *)
Definition add_snapshot (dir : string) (out : gmap Z string) (e : string * bool) : gmap Z string :=
  let '(name, isDir) := e in
  if isDir || HasSuffix name ".sha256" || HasSuffix name ".tmp" then out else
  match ParseDiskID (TrimSuffix name ".zst") with
  | Err _ => out
  | Ok id =>
      let path := Join dir name in
      match out !! id with
      | None => <[id := path]> out
      | Some old => if HasSuffix path ".zst" && negb (HasSuffix old ".zst") then <[id := path]> out else out
      end
  end.

Definition discoverSnapshots (readDir : string → res (list (string * bool))) (dir : string) : res (gmap Z string) :=
  match readDir dir with
  | Err e => if errors_Is e ErrNotExist then Ok ∅ else Err e
  | Ok entries => Ok (foldl (add_snapshot dir) ∅ entries)
  end.

(** ** The kernel *)
Class recoveryBackend (B : Type) := {
  devices : B → res (list PanDevice);
  allocate : B → res string * B;
  restore : string → snapshot → B → option error * B
}.

(** ** The pool *)
Record tiers := mkTiers { ti_seen : gset Z; ti_ordinary : gset Z; ti_want : gset Z; ti_out : list PanDevice }.
Definition tiers0 : tiers := mkTiers ∅ ∅ ∅ [].

(** The loop over the configured devices. *)
Fixpoint classify (configured : list PanDevice) (t : tiers) : res tiers :=
  match configured with
  | [] => Ok t
  | d :: configured =>
      id ← ParseDiskID (DiskID d);
      if bool_decide (id ∈ ti_seen t) then Err (EMsg "duplicate configured disk id") else
      let seen := {[id]} ∪ ti_seen t in
      classify configured
        (if IsZramDevicePath (DevicePath d)
         then mkTiers seen (ti_ordinary t) ({[id]} ∪ ti_want t) (ti_out t)
         else mkTiers seen ({[id]} ∪ ti_ordinary t) (ti_want t) (ti_out t ++ [d]))
  end.

(** The loop over the live devices. *)
Fixpoint by_id (live : list PanDevice) (m : gmap Z PanDevice) : res (gmap Z PanDevice) :=
  match live with
  | [] => Ok m
  | d :: live =>
      id ← ParseDiskID (DiskID d);
      if bool_decide (is_Some (m !! id)) then Err (EMsg "duplicate live zram disk id") else
      by_id live (<[id := d]> m)
  end.

Section restore.
Context {C : Codec} `{recoveryBackend B}.

(** One wanted tier: its device, or the warning. *)
Definition restore_tier (fl : files) (byID : gmap Z PanDevice) (paths : gmap Z string) (id : Z) (k : B) :
    res PanDevice * B :=
  match byID !! id with
  | Some d => (Ok d, k)
  | None =>
      match paths !! id with
      | None => (Err (EMsg "unavailable: snapshot missing"), k)
      | Some path =>
          match validateSnapshot fl path id with
          | Err e => (Err e, k)
          | Ok snap =>
              match allocate k with
              | (Err e, k) => (Err e, k)
              | (Ok device, k) =>
                  match restore device snap k with
                  | (Some e, k) => (Err e, k)
                  | (None, k) => (Ok (mkPanDevice "match" device (formatID id) FormatVersion (sn_size snap)), k)
                  end
              end
          end
      end
  end.

(** The warnings carry the id they name. *)
Fixpoint restore_tiers (fl : files) (byID : gmap Z PanDevice) (paths : gmap Z string) (ids : list Z)
    (out : list PanDevice) (warnings : list (Z * error)) (k : B) : list PanDevice * list (Z * error) * B :=
  match ids with
  | [] => (out, warnings, k)
  | id :: ids =>
      match restore_tier fl byID paths id k with
      | (Ok d, k) => restore_tiers fl byID paths ids (out ++ [d]) warnings k
      | (Err e, k) => restore_tiers fl byID paths ids out (warnings ++ [(id, e)]) k
      end
  end.

Definition restorePool (fl : files) (readDir : string → res (list (string * bool)))
    (configured : list PanDevice) (dir : string) (k : B) : res (list PanDevice * list (Z * error)) * B :=
  match (paths ← discoverSnapshots readDir dir; t ← classify configured tiers0; Ok (paths, t)) with
  | Err e => (Err e, k)
  | Ok (paths, t) =>
      if bool_decide (set_Exists (λ id, id ∈ ti_ordinary t) (dom paths))
      then (Err (EMsg "snapshot disk id conflicts with an ordinary disk"), k) else
      let want := dom paths ∪ ti_want t in
      if bool_decide (want = ∅) then (Ok (ti_out t, []), k) else
      match (live ← devices k; by_id live ∅) with
      | Err e => (Err e, k)
      | Ok byID =>
          let '(out, warnings, k) := restore_tiers fl byID paths (merge_sort Z.le (elements want)) (ti_out t) [] k in
          (Ok (out, warnings), k)
      end
  end.

(** [home] is [os.UserHomeDir]. *)
Definition RestorePool (home : res string) (fl : files) (readDir : string → res (list (string * bool)))
    (devices : list PanDevice) (dir : string) (k : B) : res (list PanDevice * list (Z * error)) * B :=
  match (if HasPrefix dir "~/" then home ← home; Ok (Join home (str (drop 2 (chars dir)))) else Ok dir) with
  | Err e => (Err e, k)
  | Ok dir => restorePool fl readDir devices dir k
  end.
End restore.

(** ** What the pool is *)
Definition parsed_id (d : PanDevice) : res Z := ParseDiskID (DiskID d).

(** The devices have these ids. *)
Definition have_ids (ds : list PanDevice) (ids : list Z) : Prop := parsed_id <$> ds = Ok <$> ids.

Lemma have_ids_app ds1 ds2 ids1 ids2 : have_ids ds1 ids1 → have_ids ds2 ids2 → have_ids (ds1 ++ ds2) (ids1 ++ ids2).
Proof. unfold have_ids. intros H1 H2. by rewrite !fmap_app, H1, H2. Qed.

Lemma have_ids_one d id : parsed_id d = Ok id → have_ids [d] [id].
Proof. intros E. exact (f_equal (λ r, [r]) E). Qed.

Lemma have_ids_inj ds ids ids' : have_ids ds ids → have_ids ds ids' → ids = ids'.
Proof. unfold have_ids. intros -> H. apply list_fmap_eq_inj in H; [done|]. by intros ? ? [=]. Qed.

Lemma have_ids_elem ds ids d id : have_ids ds ids → d ∈ ds → parsed_id d = Ok id → id ∈ ids.
Proof.
  unfold have_ids. intros Hi Hd Hp. apply (list_elem_of_fmap_2 parsed_id) in Hd. rewrite Hi, Hp in Hd.
  by apply list_elem_of_fmap in Hd as (i & [= ->] & ?).
Qed.

Lemma have_ids_u64 ds ids : have_ids ds ids → Forall is_u64 ids.
Proof.
  unfold have_ids. revert ids. induction ds as [|d ds IH]; intros [|id ids] H; try done. injection H as H1 H2.
  constructor; [by apply (ParseUint_range (TrimSpace (DiskID d)) 0)|by apply IH].
Qed.

Lemma have_ids_snoc ds d ids id : have_ids ds ids → parsed_id d = Ok id → have_ids (ds ++ [d]) (ids ++ [id]).
Proof. intros H1 H2. by apply have_ids_app, have_ids_one. Qed.

(** The configured devices, split. *)
Definition ordinary (d : PanDevice) : Prop := IsZramDevicePath (DevicePath d) = false.
Definition zram_tier (d : PanDevice) : Prop := IsZramDevicePath (DevicePath d) = true.

Lemma classify_outcome configured t t' :
  classify configured t = Ok t' →
  ∃ ids oids zids, have_ids configured ids ∧ have_ids (filter ordinary configured) oids ∧
    have_ids (filter zram_tier configured) zids ∧ ids ≡ₚ oids ++ zids ∧
    NoDup ids ∧ (∀ id, id ∈ ids → id ∉ ti_seen t) ∧
    ti_ordinary t' = list_to_set oids ∪ ti_ordinary t ∧ ti_want t' = list_to_set zids ∪ ti_want t ∧
    ti_out t' = ti_out t ++ filter ordinary configured.
Proof.
  revert t. induction configured as [|d configured IH]; intros t; cbn [classify].
  { intros [= <-]. exists [], [], []. split_and!; try done; [constructor|set_solver..|by rewrite app_nil_r]. }
  destruct (ParseDiskID (DiskID d)) as [id|] eqn:Eid; [|done]. cbn [mbind res_bind].
  case_bool_decide as Hs; [done|]. intros E.
  apply IH in E as (ids & oids & zids & H1 & H2 & H3 & Hp & Hn & Hd & Ho & Hw & Hout). exists (id :: ids).
  assert (Hids : have_ids (d :: configured) (id :: ids)) by (apply (have_ids_app [d] _ [id]); [by apply have_ids_one|done]).
  assert (Hni : id ∉ ids).
  { intros Hi. apply (Hd id Hi). destruct (IsZramDevicePath _); cbn [ti_seen]; set_solver. }
  assert (Hseen : ∀ i, i ∈ id :: ids → i ∉ ti_seen t).
  { intros i [-> |Hi]%elem_of_cons; [done|]. intros Hx. apply (Hd i Hi). destruct (IsZramDevicePath _); cbn [ti_seen]; set_solver. }
  destruct (IsZramDevicePath (DevicePath d)) eqn:Ez.
  - rewrite filter_cons_False, filter_cons_True by (done || unfold ordinary; congruence). exists oids, (id :: zids). cbn [ti_ordinary ti_want ti_out ti_seen] in *.
    split_and!; try done.
    + apply (have_ids_app [d] _ [id]); [by apply have_ids_one|done].
    + rewrite Hp. by rewrite Permutation_middle.
    + by constructor.
    + rewrite Hw. set_solver.
  - rewrite filter_cons_True, filter_cons_False by (done || unfold zram_tier; congruence). exists (id :: oids), zids. cbn [ti_ordinary ti_want ti_out ti_seen] in *.
    split_and!; try done.
    + apply (have_ids_app [d] _ [id]); [by apply have_ids_one|done].
    + by rewrite Hp.
    + by constructor.
    + rewrite Ho. set_solver.
    + rewrite Hout. by rewrite <- app_assoc.
Qed.

Lemma discover_u64 readDir dir paths : discoverSnapshots readDir dir = Ok paths → ∀ id, id ∈ dom paths → is_u64 id.
Proof.
  unfold discoverSnapshots. destruct (readDir dir) as [es|e].
  2: { destruct (errors_Is e ErrNotExist); [|done]. intros [= <-] id Hid. set_solver. }
  intros [= <-].
  assert (H : ∀ m : gmap Z string, (∀ id, id ∈ dom m → is_u64 id) →
    ∀ id, id ∈ dom (foldl (add_snapshot dir) m es) → is_u64 id); [|apply H; set_solver].
  induction es as [|[name isDir] es IH]; intros m Hm; [done|]. apply IH. unfold add_snapshot.
  destruct (isDir || _ || _); [done|]. destruct (ParseDiskID _) as [i|] eqn:E; [|done].
  assert (Hi : ∀ p id, id ∈ dom (<[i := p]> m) → is_u64 id).
  { intros p id. rewrite dom_insert_L. intros [->%elem_of_singleton|Hid]%elem_of_union; [|by apply Hm].
    by apply (ParseUint_range (TrimSpace (TrimSuffix name ".zst")) 0). }
  destruct (m !! i); [|apply Hi]. destruct (_ && _); [apply Hi|done].
Qed.

Lemma by_id_outcome live m m' :
  by_id live m = Ok m' →
  ∃ ids, have_ids live ids ∧ NoDup ids ∧ (∀ id, id ∈ ids → m !! id = None) ∧
    dom m' = list_to_set ids ∪ dom m ∧
    ((∀ id d, m !! id = Some d → parsed_id d = Ok id) → ∀ id d, m' !! id = Some d → parsed_id d = Ok id).
Proof.
  revert m. induction live as [|d live IH]; intros m; cbn [by_id].
  { intros [= <-]. exists []. split_and!; try done; [constructor|set_solver..]. }
  destruct (ParseDiskID (DiskID d)) as [id|] eqn:Eid; [|done]. cbn [mbind res_bind].
  case_bool_decide as Hs; [done|]. apply eq_None_not_Some in Hs. intros E.
  apply IH in E as (ids & H1 & Hn & Hd & Hdom & Hm). exists (id :: ids). split_and!.
  - apply (have_ids_app [d] _ [id]); [by apply have_ids_one|done].
  - constructor; [|done]. intros Hi. apply Hd in Hi. by rewrite lookup_insert_eq in Hi.
  - intros i [-> |Hi]%elem_of_cons; [done|]. apply Hd in Hi. by apply lookup_insert_None in Hi as [? _].
  - rewrite Hdom, dom_insert_L. set_solver.
  - intros Hpm. apply Hm. intros i d' [[<- <-]|[_ ?]]%lookup_insert_Some; [done|by apply Hpm].
Qed.

Lemma by_id_total live ids m :
  have_ids live ids → NoDup ids → (∀ id, id ∈ ids → m !! id = None) → ∃ m', by_id live m = Ok m'.
Proof.
  revert ids m. induction live as [|d live IH]; intros [|id ids] m H Hn Hm; try done; [by eexists|].
  injection H as H1 H2. apply NoDup_cons in Hn as [Hni Hn]. cbn [by_id]. unfold parsed_id in H1. rewrite H1. cbn [mbind res_bind].
  rewrite bool_decide_eq_false_2 by (rewrite (Hm id) by (by left); by intros []).
  apply (IH ids); [done|done|]. intros i Hi. rewrite lookup_insert_ne by (by intros ->). apply Hm. by right.
Qed.

(** What a client of the kernel may rely on: allocating adds no disk, and a restore that succeeds adds the
    disk of the snapshot. *)
Class RecoveryLaws (B : Type) `{recoveryBackend B} := {
  allocate_devices k : devices (allocate k).2 = devices k;
  restore_adds dev s k k' live :
    restore dev s k = (None, k') → devices k = Ok live →
    ∃ d live', devices k' = Ok live' ∧ live' ≡ₚ d :: live ∧ (is_u64 (sn_id s) → parsed_id d = Ok (sn_id s))
}.

Section pool.
Context {C : Codec} `{recoveryBackend B}.

Lemma validate_id fl path id s : validateSnapshot fl path id = Ok s → sn_id s = id.
Proof.
  unfold validateSnapshot, mbind, res_bind. intros E. repeat (case_match; try discriminate). all: by injection E as <-.
Qed.

(** One tier: a device with the id, and the kernel is only asked for tiers that are not live. *)
Lemma restore_tier_outcome fl byID paths id k r k' :
  (∀ id d, byID !! id = Some d → parsed_id d = Ok id) → is_u64 id →
  restore_tier fl byID paths id k = (r, k') →
  (∀ d, r = Ok d → parsed_id d = Ok id) ∧
  (is_Some (byID !! id) → k' = k ∧ is_ok r = true).
Proof.
  intros Hby Hu. unfold restore_tier. destruct (byID !! id) as [d|] eqn:Ed.
  { intros [= <- <-]. split; [|done]. intros ? [= <-]. by apply Hby. }
  intros E. split; [|by intros []]. intros d ->.
  destruct (paths !! id) as [path|]; [|done]. destruct (validateSnapshot fl path id) as [s|]; [|done].
  destruct (allocate k) as [[device|] k1]; [|done]. destruct (restore device s k1) as [[e|] k2]; [done|].
  injection E as <- <-. by apply disk_id_roundtrip.
Qed.

(** All of them: each wanted id is served or has a warning. *)
Lemma restore_tiers_outcome fl byID paths ids out warnings k out' warnings' k' :
  (∀ id d, byID !! id = Some d → parsed_id d = Ok id) → Forall is_u64 ids →
  restore_tiers fl byID paths ids out warnings k = (out', warnings', k') →
  ∃ ds served ws, out' = out ++ ds ∧ warnings' = warnings ++ ws ∧ have_ids ds served ∧
    ids ≡ₚ served ++ ws.*1 ∧
    (ws = [] → served = ids) ∧ (Forall (λ id, is_Some (byID !! id)) ids → k' = k ∧ ws = []).
Proof.
  intros Hby Hu. revert out warnings k. induction Hu as [|id ids Hid Hu IH]; intros out warnings k; cbn [restore_tiers].
  { intros [= <- <- <-]. exists [], [], []. by rewrite !app_nil_r. }
  destruct (restore_tier fl byID paths id k) as [[d|e] k1] eqn:Et; intros E;
    destruct (restore_tier_outcome _ _ _ _ _ _ _ Hby Hid Et) as [Hd Hlive];
    apply IH in E as (ds & served & ws & -> & -> & Hds & Hp & Hsame & Hall).
  - exists (d :: ds), (id :: served), ws. split_and!; [by rewrite <- app_assoc|done| |by rewrite Hp| |].
    + apply (have_ids_app [d] _ [id]); [by apply have_ids_one, Hd|done].
    + intros Hw. by rewrite Hsame.
    + intros [Hl Hls]%Forall_cons. destruct (Hlive Hl) as [-> _]. by apply Hall.
  - exists ds, served, ((id, e) :: ws). split_and!; [done|by rewrite <- app_assoc|done| |done|].
    + rewrite Hp. by rewrite Permutation_middle.
    + intros [Hl _]%Forall_cons. by destruct (Hlive Hl) as [_ ?].
Qed.

(** The pool of a start, and the kernel after it. *)
Lemma restorePool_inv fl readDir configured dir k out warnings k' :
  restorePool fl readDir configured dir k = (Ok (out, warnings), k') →
  ∃ paths t, discoverSnapshots readDir dir = Ok paths ∧ classify configured tiers0 = Ok t ∧
    (∀ id, id ∈ dom paths → id ∉ ti_ordinary t) ∧
    let want := merge_sort Z.le (elements (dom paths ∪ ti_want t)) in
    (want = [] ∧ out = ti_out t ∧ warnings = [] ∧ k' = k ∨
     ∃ live byID, devices k = Ok live ∧ by_id live ∅ = Ok byID ∧
       restore_tiers fl byID paths want (ti_out t) [] k = (out, warnings, k')).
Proof.
  unfold restorePool. destruct (discoverSnapshots readDir dir) as [paths|]; [|done]. cbn [mbind res_bind].
  destruct (classify configured tiers0) as [t|] eqn:Et; [|done]. cbn [mbind res_bind].
  case_bool_decide as Hc; [done|]. intros E. exists paths, t. split_and!; try done.
  { intros id H1 H2. apply Hc. by exists id. }
  cbv zeta. case_bool_decide as Hw.
  { left. injection E as <- <- <-. rewrite Hw. by rewrite elements_empty. }
  right. destruct (devices k) as [live|]; [|done]. cbn [mbind res_bind] in E.
  destruct (by_id live ∅) as [byID|] eqn:Hb; [|done]. exists live, byID.
  destruct (restore_tiers _ _ _ _ _ _ _) as [[o w] k1]. by injection E as <- <- <-.
Qed.

Lemma wanted_u64 (paths : gmap Z string) zids ds :
  (∀ id, id ∈ dom paths → is_u64 id) → have_ids ds zids →
  Forall is_u64 (merge_sort Z.le (elements (dom paths ∪ list_to_set zids))).
Proof.
  intros Hp Hz%have_ids_u64. rewrite merge_sort_Permutation. rewrite Forall_forall in *.
  intros id [H1|H1%elem_of_list_to_set]%elem_of_elements%elem_of_union; auto.
Qed.

(** C25: restoring the pool keeps the ordinary disks, in their order and as they are configured, and adds one
    device for some of the ids wanted, those of the configured zram disks and of the snapshots; every
    other wanted id has a warning.  No id occurs twice, among the devices and the warnings together. *)
Theorem restore_pool fl readDir configured dir k out warnings k' :
  restorePool fl readDir configured dir k = (Ok (out, warnings), k') →
  ∃ paths oids zids tier served,
    discoverSnapshots readDir dir = Ok paths ∧
    have_ids (filter ordinary configured) oids ∧ have_ids (filter zram_tier configured) zids ∧
    out = filter ordinary configured ++ tier ∧ have_ids tier served ∧
    (∀ id, id ∈ served ++ warnings.*1 ↔ is_Some (paths !! id) ∨ id ∈ zids) ∧
    NoDup (oids ++ served ++ warnings.*1).
Proof.
  intros (paths & t & Hp & Ht & Hc & E)%restorePool_inv.
  apply classify_outcome in Ht as (ids & oids & zids & _ & Ho & Hz & Hperm & Hn & _ & Hto & Htw & Hout).
  cbn [tiers0 ti_ordinary ti_want ti_out ti_seen app] in Hto, Htw, Hout. rewrite union_empty_r_L in Hto, Htw.
  exists paths, oids, zids. rewrite Hto in Hc. rewrite Htw, Hout in E.
  assert (Hu : Forall is_u64 (merge_sort Z.le (elements (dom paths ∪ list_to_set zids))))
    by by eapply wanted_u64, Hz; eapply discover_u64.
  set (want := merge_sort Z.le _) in *.
  assert (Hwant : ∀ id, id ∈ want ↔ is_Some (paths !! id) ∨ id ∈ zids).
  { intros id. unfold want. rewrite merge_sort_Permutation, elem_of_elements, elem_of_union, elem_of_dom, elem_of_list_to_set. done. }
  assert (Hnd : NoDup (oids ++ want)).
  { rewrite Hperm in Hn. apply NoDup_app in Hn as (Hno & Hoz & _). apply NoDup_app. split; [done|]. split.
    - intros id Hi [Hs|Hs]%Hwant; [|by apply (Hoz id)]. apply (Hc id); [by apply elem_of_dom|by apply elem_of_list_to_set].
    - unfold want. rewrite merge_sort_Permutation. apply NoDup_elements. }
  destruct E as [(Hw & -> & -> & _)|(live & byID & Hl & Hb & E)].
  - exists [], []. rewrite Hw in Hwant. rewrite Hw, app_nil_r in Hnd. cbn [fmap list_fmap app]. by rewrite !app_nil_r.
  - apply by_id_outcome in Hb as (_ & _ & _ & _ & _ & Hby). specialize (Hby ltac:(done)).
    destruct (restore_tiers_outcome _ _ _ _ _ _ _ _ _ _ Hby Hu E) as (ds & served & ws & -> & -> & Hds & Hpw & _).
    exists ds, served. cbn [app]. split_and!; try done.
    + intros id. by rewrite <- Hpw.
    + by rewrite <- Hpw.
Qed.
End pool.

(** ** Starting again *)
Section restart.
Context {C : Codec} `{recoveryBackend B, !RecoveryLaws B}.

Lemma restore_tier_live fl byID paths id k live d k' :
  is_u64 id → devices k = Ok live → restore_tier fl byID paths id k = (Ok d, k') →
  (is_Some (byID !! id) ∧ k' = k) ∨
  (byID !! id = None ∧ ∃ d' live', devices k' = Ok live' ∧ live' ≡ₚ d' :: live ∧ parsed_id d' = Ok id).
Proof.
  intros Hu Hl. unfold restore_tier. destruct (byID !! id); [intros [= <- <-]; left; by eauto|]. intros E. right. split; [done|].
  destruct (paths !! id) as [path|]; [|done]. destruct (validateSnapshot fl path id) as [s|] eqn:Es; [|done].
  apply validate_id in Es. pose proof (allocate_devices k) as Ha.
  destruct (allocate k) as [[device|] k1]; [|done]. cbn [snd] in Ha.
  destruct (restore device s k1) as [[e|] k2] eqn:Er; [done|]. injection E as _ <-.
  destruct (restore_adds _ _ _ _ live Er) as (d' & live' & Hd & Hp & Hid); [congruence|].
  exists d', live'. rewrite Es in Hid. split_and!; auto.
Qed.

(** Without a warning, the tiers that were not live are live afterwards. *)
Lemma restore_tiers_live fl byID paths ids out k live out' k' w :
  (∀ id d, byID !! id = Some d → parsed_id d = Ok id) → Forall is_u64 ids → devices k = Ok live →
  restore_tiers fl byID paths ids out w k = (out', w, k') →
  ∃ live' new, devices k' = Ok live' ∧ live' ≡ₚ new ++ live ∧
    have_ids new (filter (λ id, byID !! id = None) ids).
Proof.
  intros Hby Hu. revert out k live. induction Hu as [|id ids Hid Hu IH]; intros out k live Hl; cbn [restore_tiers].
  { intros [= <- <-]. exists live, []. split_and!; done. }
  destruct (restore_tier fl byID paths id k) as [[d|e] k1] eqn:Et; intros E.
  - apply (restore_tier_live fl byID paths id k live d k1 Hid Hl) in Et as [[[d0 Hs] ->]|(Hn & d' & live1 & Hl1 & Hp1 & Hd')].
    + rewrite filter_cons_False by congruence. by eapply IH.
    + destruct (IH _ _ _ Hl1 E) as (live' & new & Hl' & Hp & Hnew). exists live', (d' :: new).
      rewrite filter_cons_True by done. split_and!; [done| |].
      * rewrite Hp, Hp1. cbn [app]. by rewrite Permutation_middle.
      * by apply (have_ids_app [d'] _ [id]); [apply have_ids_one|].
  - exfalso. eapply restore_tiers_outcome in E as (ds & served & ws & _ & Hw & _); [|done|done].
    rewrite <- app_assoc in Hw. apply (f_equal length) in Hw. rewrite length_app in Hw. cbn in Hw. lia.
Qed.

Lemma have_ids_perm ds ds' ids : ds' ≡ₚ ds → have_ids ds ids → ∃ ids', have_ids ds' ids' ∧ ids' ≡ₚ ids.
Proof.
  intros Hp Hi. unfold have_ids in *.
  assert (Hf : parsed_id <$> ds' ≡ₚ Ok <$> ids) by by rewrite Hp, Hi.
  apply Permutation_map_inv in Hf as (l & Hl & Hpl). by exists l.
Qed.

(** C26: a start that restored every wanted tier leaves a kernel on which the next start, with the same
    configuration and snapshots, touches nothing: it finds every tier live, reports no warning, and
    its pool has the same ids. *)
Theorem restart_restores_nothing fl readDir configured dir k out k' :
  restorePool fl readDir configured dir k = (Ok (out, []), k') →
  ∃ out' ids, restorePool fl readDir configured dir k' = (Ok (out', []), k') ∧ have_ids out ids ∧ have_ids out' ids.
Proof.
  intros E. pose proof E as (paths & t & Hp & Ht & Hc & E')%restorePool_inv. cbv zeta in E'.
  destruct (classify_outcome _ _ _ Ht) as (ids & oids & zids & _ & Ho & Hz & _ & _ & _ & _ & Htw & Hout).
  cbn [tiers0 ti_want ti_out app] in Htw, Hout. rewrite union_empty_r_L in Htw.
  destruct E' as [(_ & -> & _ & ->)|(live & byID & Hl & Hb & E')].
  { exists (ti_out t), oids. by rewrite Hout in *. }
  assert (Hu := wanted_u64 paths zids _ (discover_u64 _ _ _ Hp) Hz). rewrite <- Htw in Hu.
  set (want := merge_sort Z.le _) in *.
  destruct (by_id_outcome _ _ _ Hb) as (lids & Hlids & Hnl & _ & Hdom & Hby). specialize (Hby ltac:(done)).
  destruct (restore_tiers_outcome _ _ _ _ _ _ _ _ _ _ Hby Hu E') as (ds & served & ws & -> & Hws & Hds & _ & Hsame & _).
  destruct (restore_tiers_live _ _ _ _ _ _ _ _ _ _ Hby Hu Hl E') as (live' & new & Hl' & Hpl & Hnew).
  symmetry in Hws. apply app_eq_nil in Hws as [_ ->]. rewrite (Hsame eq_refl) in Hds.
  assert (Hin : ∀ id, is_Some (byID !! id) ↔ id ∈ lids).
  { intros id. rewrite <- elem_of_dom, Hdom, elem_of_union, elem_of_list_to_set. set_solver. }
  destruct (have_ids_perm _ _ _ Hpl (have_ids_app _ _ _ _ Hnew Hlids)) as (ids' & Hids' & Hperm).
  assert (Hnd : NoDup ids').
  { rewrite Hperm. apply NoDup_app. split_and!; [apply NoDup_filter; unfold want; rewrite merge_sort_Permutation; apply NoDup_elements| |done].
    intros id [Hnone _]%list_elem_of_filter Hi. apply Hin in Hi as [? Hi]. congruence. }
  destruct (by_id_total live' ids' ∅ Hids' Hnd) as [byID' Hb']; [done|].
  destruct (by_id_outcome _ _ _ Hb') as (ids2 & Hids2 & _ & _ & Hdom' & Hby'). specialize (Hby' ltac:(done)).
  assert (ids2 = ids') as -> by by eapply have_ids_inj.
  assert (Hall : Forall (λ id, is_Some (byID' !! id)) want).
  { apply Forall_forall. intros id Hi. rewrite <- elem_of_dom, Hdom', elem_of_union, elem_of_list_to_set, Hperm, elem_of_app. left.
    destruct (byID !! id) as [d|] eqn:Ed; [right; apply Hin; by eexists|left; by apply list_elem_of_filter]. }
  destruct (restore_tiers fl byID' paths want (ti_out t) [] k') as [[out2 w2] k2] eqn:E2.
  destruct (restore_tiers_outcome _ _ _ _ _ _ _ _ _ _ Hby' Hu E2) as (ds2 & served2 & ws2 & -> & -> & Hds2 & _ & Hsame2 & Hl2).
  destruct (Hl2 Hall) as [-> ->]. rewrite (Hsame2 eq_refl) in Hds2.
  exists (ti_out t ++ ds2), (oids ++ want). split_and!.
  - unfold restorePool. rewrite Hp. cbn [mbind res_bind]. rewrite Ht. cbn [mbind res_bind].
    rewrite bool_decide_eq_false_2 by (intros (id & H1 & H2); by apply (Hc id)).
    fold want. case_bool_decide as Hw.
    + assert (Hnil : want = []) by (unfold want; by rewrite Hw, elements_empty).
      rewrite Hnil in Hds2. unfold have_ids in Hds2. apply fmap_nil_inv in Hds2 as ->. by rewrite app_nil_r.
    + rewrite Hl'. cbn [mbind res_bind]. by rewrite Hb', E2.
  - apply have_ids_app; [by rewrite Hout|done].
  - apply have_ids_app; [by rewrite Hout|done].
Qed.
End restart.

(** *** The fake kernel of recovery_test.go *)
Record fakeRecovery := mkFake { fk_live : list PanDevice; fk_allocs : Z; fk_loads : Z; fk_fail : bool }.

Definition fake_device (path : string) (s : snapshot) : PanDevice :=
  mkPanDevice "" path (formatID (sn_id s)) 0 (sn_size s).

#[export] Instance fake_backend : recoveryBackend fakeRecovery := {|
  devices := λ f, Ok (fk_live f);
  allocate := λ f, (Ok (String.append "/dev/zram" (str (FormatUint (fk_allocs f + 11)))),
                    mkFake (fk_live f) (fk_allocs f + 1) (fk_loads f) (fk_fail f));
  restore := λ path s f,
    if fk_fail f then (Some (EMsg "injected device failure"), mkFake (fk_live f) (fk_allocs f) (fk_loads f + 1) (fk_fail f))
    else (None, mkFake (fk_live f ++ [fake_device path s])
                       (fk_allocs f) (fk_loads f + 1) (fk_fail f)) |}.

#[export] Instance fake_laws : RecoveryLaws fakeRecovery.
Proof.
  split; [done|]. intros dev s f k' live. unfold restore, devices, fake_backend.
  destruct (fk_fail f); [done|]. intros [= <-] [= <-]. cbn [fk_live].
  exists (fake_device dev s), (fk_live f ++ [fake_device dev s]).
  split; [done|]. split; [apply Permutation_app_comm|]. apply disk_id_roundtrip.
Defined.

(** The cold start of the test: an ordinary disk, a zram disk that is not live, and its raw snapshot. *)
Definition demo_configured : list PanDevice :=
  [mkPanDevice "" "/dev/test" "1" 0 0; mkPanDevice "" "/dev/zram0" "42" 0 0].
Definition demo_fake : fakeRecovery := mkFake [] 0 0 false.
Definition demo_snapshots : files := files_of {["/snap/0x2A" := demo_tier]}%string.
Definition demo_dir (_ : string) : res (list (string * bool)) := Ok [("0x2A", false)]%string.
Definition demo_restored : res (list PanDevice * list (Z * error)) * fakeRecovery :=
  restorePool (C := demo_codec) demo_snapshots demo_dir demo_configured "/snap" demo_fake.

Lemma restore_pool_witness :
  demo_restored.1 = Ok ([mkPanDevice "" "/dev/test" "1" 0 0;
                         mkPanDevice "match" "/dev/zram11" "0x2A" FormatVersion (GridStart + SlotSize)], []) ∧
  ∃ zids, have_ids (filter zram_tier demo_configured) zids.
Proof.
  assert (E : demo_restored.1 = Ok ([mkPanDevice "" "/dev/test" "1" 0 0;
    mkPanDevice "match" "/dev/zram11" "0x2A" FormatVersion (GridStart + SlotSize)], [])) by (vm_compute; reflexivity).
  split; [exact E|]. unfold demo_restored in E. destruct (restorePool _ _ _ _ _) as [r k'] eqn:Er.
  cbn [fst] in E. subst r. destruct (restore_pool _ _ _ _ _ _ _ _ Er) as (_ & _ & zids & _ & _ & _ & _ & Hz & _).
  exists zids. exact Hz.
Defined.

Lemma restart_restores_nothing_witness :
  fk_loads demo_restored.2 = 1 ∧
  ∃ out', restorePool (C := demo_codec) demo_snapshots demo_dir demo_configured "/snap" demo_restored.2 =
    (Ok (out', []), demo_restored.2).
Proof.
  assert (E1 : fk_loads demo_restored.2 = 1) by (vm_compute; reflexivity).
  split; [exact E1|].
  assert (E : ∃ out, demo_restored.1 = Ok (out, [])) by (eexists; vm_compute; reflexivity).
  destruct E as [out E].
  assert (Er : restorePool (C := demo_codec) demo_snapshots demo_dir demo_configured "/snap" demo_fake = (Ok (out, []), demo_restored.2)).
  { rewrite <- E. unfold demo_restored. apply surjective_pairing. }
  destruct (restart_restores_nothing _ _ _ _ _ _ _ Er) as (out' & ids & H & _ & _).
  exists out'. exact H.
Defined.
