(* ===== verification/KernelRecovery.v ===== *)
(** * Zram devices of the host (zram.go, create.go, load.go and kernelRecovery of recovery.go)

    The host is the class [Host]: sysfs, the block devices and the snapshot files, with a state.  What the
    commands do with it is translated here, and [kernelRecovery] is the instance of [recoveryBackend] the
    daemon uses.  [restore_protects]: a device in use is never touched, a failed restore ends with a
    reset, and a restore that succeeds has checked the device.  Under the laws [HostLaws] of a host
    that stores what is written, the device then holds the snapshot, and a flush followed by a restore
    gives the bytes back ([flush_restore_roundtrip]). *)

From S2P Require Import Prelude Machine Device Layout IndexScan DeviceState DeviceInv DiskStore Text Path.
From S2P Require Import Config Flag Init Find Snapshot SnapshotFlush Recovery.
From Stdlib Require Import Strings.Byte Ascii.

(** ** The host *)
Class Host (K : Type) := {
  h_files : K → files;                                (* the snapshot files *)
  h_readdir : string → K → res (list (string * bool));  (* [os.ReadDir], with [IsDir] *)
  h_stat : string → K → res bool;                     (* [os.Stat], with [IsDir] *)
  h_sysread : string → K → res (list ascii);          (* [os.ReadFile] of a sysfs attribute *)
  h_hot_add : K → res (list ascii) * K;               (* reading [hot_add], which adds a device *)
  h_hot_add_opens : K → bool;                         (* [hot_add] can be opened for reading *)
  h_sysfs : string → string → K → option error * K;   (* an attribute opened and written to *)
  h_open : string → K → res source;                   (* [os.Open] of a device, and what it reads *)
  h_openw : string → K → option error;                (* [os.OpenFile] of a device for writing *)
  h_copy : string → source → K → res Z * K;           (* [io.Copy] to it *)
  h_sync : string → K → option error * K;
  h_init_os : K → string → init_os;                   (* a device, as [blk.RunInit] sees it *)
  h_initialised : string → file → K → K               (* the host after [blk.RunInit] wrote to it *)
}.

Definition HotAdd : string := "/sys/class/zram-control/hot_add".
Definition zramSysPath (devicePath name : string) : string :=
  Clean (String.append "/sys/block/" (String.append (Base devicePath) (String.append "/" name))).

Section host.
Context `{Host K} {C : Codec}.

Definition readZramDiskSize (devicePath : string) (k : K) : res Z :=
  raw ← h_sysread (zramSysPath devicePath "disksize") k;
  let trimmed := TrimSpace (str raw) in
  if bool_decide (trimmed = EmptyString) then Ok 0 else ParseUint trimmed 10.

Definition writeZramDiskSize (devicePath : string) (size : Z) (k : K) : option error * K :=
  h_sysfs (zramSysPath devicePath "disksize") (str (FormatUint size)) k.

Definition resetZramDevice (devicePath : string) (k : K) : option error * K :=
  h_sysfs (zramSysPath devicePath "reset") "1" k.

Definition resolveZramDevice (spec : string) (k : K) : res string :=
  if bool_decide (spec = EmptyString) then Ok EmptyString else
  let spec := if HasPrefix spec "/dev/" then spec else String.append "/dev/" spec in
  if negb (isZramPath spec) then Err (EMsg "not a zram device") else
  _ ← h_stat spec k; Ok spec.

Definition hotAddAvailable (k : K) : bool := h_hot_add_opens k.

Definition zram_names (entries : list (string * bool)) : list string :=
  filter (λ name, HasPrefix name "zram" = true) entries.*1.

(** The names, each once. *)
Definition listZramDevices (k : K) : res (list string) :=
  entries ← h_readdir "/sys/block" k; Ok (remove_dups (merge_sort name_le (zram_names entries))).

Definition unused (devPath : string) (k : K) : bool :=
  match readZramDiskSize devPath k with Ok size => size =? 0 | Err _ => false end.

Definition listUnusedZramDevices (k : K) : res (list string) :=
  entries ← h_readdir "/sys/block" k;
  let devPaths := map (Join "/dev") (zram_names entries) in
  Ok (merge_sort name_le (filter (λ devPath, unused devPath k = true) devPaths)).

Definition findUnusedZramDevice (k : K) : res string :=
  devices ← listUnusedZramDevices k; Ok (default EmptyString (head devices)).

Definition addZramDevice (k : K) : res string * K :=
  match h_stat HotAdd k with
  | Err _ => (Err (EMsg "zram-control not available"), k)
  | Ok _ =>
      if negb (hotAddAvailable k) then (Err (EMsg "zram hot_add unavailable"), k) else
      match h_hot_add k with
      | (Err e, k) => (Err e, k)
      | (Ok raw, k) =>
          match ParseUint (TrimSpace (str raw)) 10 with
          | Ok id => (if id <? 2 ^ 32 then Ok (String.append "/dev/zram" (str (FormatUint id)))
                      else Err (EMsg "invalid hot_add response"), k)
          | Err _ => (Err (EMsg "invalid hot_add response"), k)
          end
      end
  end.

Record zramAllocator := mkAllocator { za_free : list string; za_canHotAdd : bool }.

Definition newZramAllocator (k : K) : res zramAllocator :=
  free ← listUnusedZramDevices k; Ok (mkAllocator free (hotAddAvailable k)).

Definition next (a : zramAllocator) (k : K) : res string * zramAllocator * K :=
  match za_free a with
  | dev :: free => (Ok dev, mkAllocator free (za_canHotAdd a), k)
  | [] => if negb (za_canHotAdd a) then (Err (EMsg "zram hot_add unavailable"), a, k) else
          let '(r, k) := addZramDevice k in (r, a, k)
  end.

(** ** [kernelRecovery] *)

(** One device of [devices]: none if it has no header of this version. *)
Definition probe (name : string) (k : K) : res (option PanDevice) :=
  let path := Join "/dev" name in
  match h_open path k with
  | Err _ => Ok None
  | Ok f =>
      match ReadFull HeaderBytes f with
      | Err _ => Ok None
      | Ok (header, _) =>
          match ParseHeader header with
          | Err _ => Ok None
          | Ok h =>
              if negb (h_Version h =? FormatVersion) then Ok None else
              size ← readZramDiskSize path k;
              Ok (Some (mkPanDevice "match" path (formatID (h_DiskID h)) (h_Version h) size))
          end
      end
  end.

Fixpoint probe_all (names : list string) (k : K) : res (list PanDevice) :=
  match names with
  | [] => Ok []
  | name :: names =>
      d ← probe name k; ds ← probe_all names k;
      Ok (match d with Some d => d :: ds | None => ds end)
  end.

Definition kernel_devices (k : K) : res (list PanDevice) :=
  names ← listZramDevices k; probe_all names k.

Definition kernel_allocate (k : K) : res string * K :=
  match newZramAllocator k with
  | Err e => (Err e, k)
  | Ok a => let '(r, _, k) := next a k in (r, k)
  end.

(** The checks of a device that was written. *)
Definition verify_restored (path : string) (s : snapshot) (k : K) : option error :=
  match validateSnapshot (h_files k) (sn_path s) (sn_id s) with
  | Err e => Some e
  | Ok _ =>
      match hashDevice (h_open path k) (sn_size s) with
      | Err e => Some e
      | Ok got =>
          match (src ← snapshotReader (h_files k) (sn_path s); copy_all src) with
          | Err e => Some e
          | Ok b => if bool_decide (got = sha256 b) then None else Some (EMsg "restored snapshot checksum mismatch")
          end
      end
  end.

(** From the device having its size to the device being checked. *)
Definition restore_content (path : string) (s : snapshot) (k : K) : option error * K :=
  match snapshotReader (h_files k) (sn_path s) with
  | Err e => (Some e, k)
  | Ok r =>
      match h_openw path k with
      | Some e => (Some e, k)
      | None =>
          match h_copy path (limit (int64 (int64 (sn_size s) + 1)) r) k with
          | (Err e, k) => (Some e, k)
          | (Ok n, k) =>
              if negb (u64 n =? sn_size s) then (Some (EMsg "snapshot changed during restore"), k) else
              match h_sync path k with
              | (Some e, k) => (Some e, k)
              | (None, k) => (verify_restored path s k, k)
              end
          end
      end
  end.

Definition kernel_restore (path : string) (s : snapshot) (k : K) : option error * K :=
  match readZramDiskSize path k with
  | Err e => (Some e, k)
  | Ok size =>
      if negb (size =? 0) then (Some (EMsg "zram device already in use"), k) else
      match writeZramDiskSize path (sn_size s) k with
      | (Some e, k) => (Some e, k)
      | (None, k) =>
          match restore_content path s k with
          | (None, k) => (None, k)
          | (Some e, k) => (Some e, (resetZramDevice path k).2)
          end
      end
  end.

#[export] Instance kernelRecovery : recoveryBackend K := {|
  devices := kernel_devices; allocate := kernel_allocate; restore := kernel_restore |}.

(** ** The commands *)
Record createOptions := mkCreate { cr_device : string; cr_note : string; cr_id : string }.
Definition createOptions0 : createOptions := mkCreate "" "" "auto".
Definition create_flags : flag_set createOptions := [
  ("device", StringVar (λ s o, mkCreate s (cr_note o) (cr_id o)));
  ("note", StringVar (λ s o, mkCreate (cr_device o) s (cr_id o)));
  ("id", StringVar (λ s o, mkCreate (cr_device o) (cr_note o) s))]%string.

(** The device to create on: the one named, or a free one. *)
Definition create_device (device : string) (k : K) : (string + Z) * K :=
  match resolveZramDevice device k with
  | Err _ => (inr zramExitBadArgs, k)
  | Ok devicePath =>
      if negb (bool_decide (devicePath = EmptyString)) then (inl devicePath, k) else
      match newZramAllocator k with
      | Err _ => (inr zramExitIO, k)
      | Ok alloc =>
          if negb (za_canHotAdd alloc) && bool_decide (za_free alloc = []) then (inr zramExitIO, k) else
          match next alloc k with
          | (Err _, _, k) => (inr zramExitIO, k)
          | (Ok devicePath, _, k) => (inl devicePath, k)
          end
      end
  end.

Definition create_init_args (opts : createOptions) (devicePath : string) : list string :=
  ["--yes"%string; "--id"%string; cr_id opts] ++
  (if bool_decide (TrimSpace (cr_note opts) = EmptyString) then [] else ["--note"%string; cr_note opts]) ++
  [devicePath].

(** [sha] is the hash [blk.RunInit] derives an id with. *)
Definition RunCreate (sha : list byte → list byte) (root : bool) (args : list string) (k : K) : Z * K :=
  match Parse create_flags args createOptions0 with
  | Ok (opts, [arg]) =>
      if negb root then (zramExitPerm, k) else
      match parseSize arg with
      | Err _ => (zramExitBadArgs, k)
      | Ok size =>
          match create_device (cr_device opts) k with
          | (inr code, k) => (code, k)
          | (inl devicePath, k) =>
              match readZramDiskSize devicePath k with
              | Err _ => (zramExitIO, k)
              | Ok existing =>
                  if 0 <? existing then (zramExitIO, k) else
                  match writeZramDiskSize devicePath size k with
                  | (Some _, k) => (zramExitIO, k)
                  | (None, k) =>
                      match RunInit sha root (h_init_os k) (create_init_args opts devicePath) with
                      | (code, Some f) =>
                          (if code =? 0 then zramExitOK else code, h_initialised devicePath f k)
                      | (code, None) => (if code =? 0 then zramExitOK else code, k)
                      end
                  end
              end
          end
      end
  | _ => (zramExitBadArgs, k)
  end.

Record loadOptions := mkLoad { ld_dir : string; ld_diskID : string }.
Definition loadOptions0 : loadOptions := mkLoad "" "".
Definition load_flags : flag_set loadOptions := [
  ("dir", StringVar (λ s o, mkLoad s (ld_diskID o)));
  ("disk", StringVar (λ s o, mkLoad (ld_dir o) s))]%string.

Definition loadSnapshot (path : string) (alloc : zramAllocator) (k : K) : option error * zramAllocator * K :=
  match (id ← ParseDiskID (TrimSuffix (Base path) ".zst"); validateSnapshot (h_files k) path id) with
  | Err e => (Some e, alloc, k)
  | Ok snap =>
      match next alloc k with
      | (Err e, alloc, k) => (Some e, alloc, k)
      | (Ok device, alloc, k) => let '(err, k) := kernel_restore device snap k in (err, alloc, k)
      end
  end.

(** The loop of [RunLoad]: it stops at the first failure. *)
Fixpoint load_targets (targets : list string) (alloc : zramAllocator) (k : K) : Z * K :=
  match targets with
  | [] => (zramExitOK, k)
  | path :: targets =>
      match loadSnapshot path alloc k with
      | (Some _, _, k) => (zramExitIO, k)
      | (None, alloc, k) => load_targets targets alloc k
      end
  end.

Definition load_names (entries : list (string * bool)) : list string :=
  (filter (λ e, (e.2 || HasSuffix e.1 ".sha256" || HasSuffix e.1 ".tmp") = false) entries).*1.

(** The snapshots to load. *)
Definition load_paths (opts : loadOptions) (dir : string) (k : K) : res (list string) :=
  if negb (bool_decide (TrimSpace (ld_diskID opts) = EmptyString)) then
    let name := NormalizeID (ld_diskID opts) in
    let zstPath := Join dir (String.append name ".zst") in
    Ok [if is_ok (h_stat zstPath k) then zstPath else Join dir name]
  else
    entries ← h_readdir dir k;
    Ok (merge_sort name_le (map (Join dir) (load_names entries))).

Definition RunLoad (root : bool) (home : res string) (args : list string) (k : K) : Z * K :=
  match Parse load_flags args loadOptions0 with
  | Ok (opts, []) =>
      if negb root then (zramExitPerm, k) else
      match (if bool_decide (TrimSpace (ld_dir opts) = EmptyString)
             then home ← home; Ok (Join home ".bsos_zram_snapshots") else Ok (TrimSpace (ld_dir opts))) with
      | Err _ => (zramExitIO, k)
      | Ok dir =>
          if negb (match h_stat dir k with Ok isDir => isDir | Err _ => false end) then (zramExitNotFound, k) else
          match load_paths opts dir k with
          | Err _ => (zramExitIO, k)
          | Ok [] => (zramExitNotFound, k)
          | Ok targets =>
              match newZramAllocator k with
              | Err _ => (zramExitIO, k)
              | Ok alloc =>
                  if negb (za_canHotAdd alloc) && (length (za_free alloc) <? length targets)%nat
                  then (zramExitIO, k) else load_targets targets alloc k
              end
          end
      end
  | _ => (zramExitBadArgs, k)
  end.

(** The check of the live devices in [EnsureLoaded]: [Some] when it returns there. *)
Fixpoint live_at (devicePath : string) (id : Z) (live : list PanDevice) : option (res bool) :=
  match live with
  | [] => None
  | d :: live =>
      if bool_decide (DevicePath d = devicePath) then
        let liveID := match ParseDiskID (DiskID d) with Ok i => i | Err _ => 0 end in
        Some (if liveID =? id then Ok false else Err (EMsg "zram device belongs to another disk"))
      else live_at devicePath id live
  end.

Definition EnsureLoaded (devicePath diskID snapshotDir : string) (k : K) : res bool * K :=
  if negb (IsZramDevicePath devicePath) then (Err (EMsg "not a zram device"), k) else
  match (id ← ParseDiskID diskID; live ← kernel_devices k; Ok (id, live)) with
  | Err e => (Err e, k)
  | Ok (id, live) =>
      match live_at devicePath id live with
      | Some r => (r, k)
      | None =>
          match (paths ← discoverSnapshots (λ d, h_readdir d k) snapshotDir;
                 match paths !! id with
                 | Some path => validateSnapshot (h_files k) path id
                 | None => Err (EMsg "snapshot missing for disk")
                 end) with
          | Err e => (Err e, k)
          | Ok snap =>
              match kernel_restore devicePath snap k with
              | (Some e, k) => (Err e, k)
              | (None, k) => (Ok true, k)
              end
          end
      end
  end.

(** [loadRaw] and [loadCompressed], which nothing calls; [io.CopyBuffer]. *)
Definition load_with (decode : buf → source) (devicePath path : string) (size : Z) (k : K) : option error * K :=
  match writeZramDiskSize devicePath size k with
  | (Some e, k) => (Some e, k)
  | (None, k) =>
      match fl_open (h_files k) path, h_openw devicePath k with
      | Err e, _ => (Some e, k)
      | Ok _, Some e => (Some e, k)
      | Ok f, None =>
          match h_copy devicePath (decode f) k with
          | (Err e, k) => (Some e, k)
          | (Ok _, k) => (None, k)
          end
      end
  end.
Definition loadRaw := load_with (λ f, (f, None)).
Definition loadCompressed := load_with zstd_decode.
End host.

(** ** A device in use is never touched *)
Section protect.
Context `{Host K} {C : Codec}.

(** What a restore that succeeded has checked. *)
Definition verified (path : string) (s : snapshot) (k : K) : Prop :=
  is_ok (validateSnapshot (h_files k) (sn_path s) (sn_id s)) = true ∧
  ∃ b, snapshotReader (h_files k) (sn_path s) = Ok (b, None) ∧
       hashDevice (h_open path k) (sn_size s) = Ok (sha256 b).

Lemma verify_restored_None path s k : verify_restored path s k = None → verified path s k.
Proof.
  unfold verify_restored, verified. destruct (validateSnapshot _ _ _); [|done].
  destruct (hashDevice _ _) as [got|]; [|done]. destruct (snapshotReader _ _) as [[b [e|]]|]; [done| |done].
  unfold copy_all. cbn [mbind res_bind fst snd]. case_bool_decide as Hg; [|done]. intros _. subst got. by eauto.
Qed.

Lemma restore_content_None path s k k' : restore_content path s k = (None, k') → verified path s k'.
Proof.
  unfold restore_content. destruct (snapshotReader _ _) as [r|]; [|done]. destruct (h_openw path k); [done|].
  destruct (h_copy _ _ _) as [[n|] k1]; [|done]. destruct (negb _); [done|].
  destruct (h_sync path k1) as [[e|] k2]; [done|]. intros [= E <-]. by apply verify_restored_None.
Qed.

(** C27: restoring a snapshot into a device that is in use, or whose size cannot be read, fails and
    changes nothing on the host.  Otherwise a failure is the one of setting the size, or ends with a
    reset of the device; and success means that the snapshot was valid and that the device, read back,
    has the checksum of what the snapshot decodes to. *)
Theorem restore_protects path s k r k' :
  kernel_restore path s k = (r, k') →
  (readZramDiskSize path k ≠ Ok 0 → r ≠ None ∧ k' = k) ∧
  (r = None → verified path s k') ∧
  (readZramDiskSize path k = Ok 0 → r ≠ None →
   (r, k') = writeZramDiskSize path (sn_size s) k ∨ ∃ k1, k' = (resetZramDevice path k1).2).
Proof.
  unfold kernel_restore. destruct (readZramDiskSize path k) as [size|e]; [|by intros [= <- <-]].
  destruct (Z.eqb_spec size 0) as [->|Hne]; cbn [negb].
  2: { intros [= <- <-]. split_and!; [done|done|]. intros [=]. lia. }
  intros E. split; [done|]. destruct (writeZramDiskSize path (sn_size s) k) as [[e|] k1].
  { injection E as <- <-. split; [done|]. by left. }
  destruct (restore_content path s k1) as [[e|] k2] eqn:Ec; injection E as <- <-.
  - split; [done|]. intros _ _. right. by exists k2.
  - split; [|done]. intros _. by eapply restore_content_None.
Qed.

(** [create] and [EnsureLoaded] keep off devices in use as well. *)
Lemma create_protects sha root opts arg size args devicePath k k1 :
  Parse create_flags args createOptions0 = Ok (opts, [arg]) → parseSize arg = Ok size →
  create_device (cr_device opts) k = (inl devicePath, k1) →
  (∀ n, readZramDiskSize devicePath k1 = Ok n → 0 < n) →
  ∃ code, RunCreate sha root args k = (code, if root then k1 else k) ∧ code ≠ 0.
Proof.
  intros Hp Hs Hc Hn. unfold RunCreate. rewrite Hp. destruct root; cbn [negb]; [|by eexists].
  rewrite Hs, Hc. destruct (readZramDiskSize devicePath k1) as [n|]; [|by eexists].
  rewrite (proj2 (Z.ltb_lt 0 n)) by auto. by eexists.
Qed.

Lemma live_at_Some devicePath id live d :
  d ∈ live → DevicePath d = devicePath → is_Some (live_at devicePath id live).
Proof.
  intros Hd Hp. induction live as [|d' live IH]; [by apply not_elem_of_nil in Hd|]. cbn [live_at].
  case_bool_decide as E; [by eexists|]. apply elem_of_cons in Hd as [-> |Hd]; [done|auto].
Qed.

Lemma ensure_loaded_protects devicePath diskID dir k id live d :
  ParseDiskID diskID = Ok id → kernel_devices k = Ok live → d ∈ live → DevicePath d = devicePath →
  (EnsureLoaded devicePath diskID dir k).2 = k.
Proof.
  intros Hid Hl Hd Hp. unfold EnsureLoaded. destruct (negb _); [done|]. rewrite Hid. cbn [mbind res_bind]. rewrite Hl.
  cbn [mbind res_bind]. by destruct (live_at_Some devicePath id live d Hd Hp) as [r ->].
Qed.
End protect.

(** ** A flush and a restore

    A host that stores what is copied to a device, and leaves the snapshot files alone. *)
Class HostLaws (K : Type) `{Host K} := {
  files_sysfs p v k : h_files (h_sysfs p v k).2 = h_files k;
  copy_reads p b k n k' :
    h_copy p (b, None) k = (Ok n, k') →
    ∃ d, h_open p k' = Ok (d, None) ∧ ∀ i, 0 ≤ i < blen b → bat d i = bat b i;
  sync_reads p k k' : h_sync p k = (None, k') → h_open p k' = h_open p k
}.

Section roundtrip.
Context `{Host K, !HostLaws K} {C : Codec} (HC : codec_ok C).

Lemma restore_copies path s k k' b :
  kernel_restore path s k = (None, k') → snapshotReader (h_files k) (sn_path s) = Ok (b, None) →
  blen b = sn_size s → sn_size s < 2 ^ 63 - 1 → 0 ≤ sn_size s →
  ∃ d, h_open path k' = Ok (d, None) ∧ ∀ i, 0 ≤ i < sn_size s → bat d i = bat b i.
Proof.
  intros E Hr Hl Hs Hs0. unfold kernel_restore in E. destruct (readZramDiskSize path k) as [size|]; [|done].
  destruct (negb _); [done|]. pose proof (files_sysfs (zramSysPath path "disksize") (str (FormatUint (sn_size s))) k) as Hf.
  fold (writeZramDiskSize path (sn_size s) k) in Hf. destruct (writeZramDiskSize _ _ _) as [[e|] k1]; [done|].
  cbn [snd] in Hf. destruct (restore_content path s k1) as [[e|] k2] eqn:Ec; [done|]. injection E as <-.
  unfold restore_content in Ec. rewrite Hf, Hr in Ec. destruct (h_openw path k1); [done|].
  unfold limit in Ec. cbn [fst snd] in Ec. rewrite !int64_small, (proj2 (Z.leb_gt _ _)) in Ec by (rewrite ?int64_small; lia).
  destruct (h_copy path (b, None) k1) as [[n|] k3] eqn:Ecopy; [|done]. destruct (negb _); [done|].
  destruct (h_sync path k3) as [[e|] k4] eqn:Esync; [done|]. injection Ec as _ <-.
  apply copy_reads in Ecopy as (d & Hd & Hat). exists d. rewrite (sync_reads _ _ _ Esync). rewrite <- Hl. done.
Qed.

(** C23: on a host that stores what is written, a tier that was flushed, the flush having succeeded and not
    been skipped, and whose snapshot is later restored, the restore having succeeded, comes back with the
    bytes the device had. *)
Theorem flush_restore_roundtrip os dev id b dir fs fs' path s k k' :
  let size := SizeBytes dev in let image := image_path dir id in
  stable os dev id b → GridStart < size < 2 ^ 63 - 1 → size `mod` SlotSize = 0 →
  readSnapshotMeta (files_of fs) (meta_path dir id) ≠ Ok (size, sha256 (content b size)) →
  flushDevice os dev dir fs = (None, fs') →
  h_files k = files_of fs' → validateSnapshot (h_files k) image id = Ok s →
  kernel_restore path s k = (None, k') →
  ∃ d, h_open path k' = Ok (d, None) ∧ ∀ i, 0 ≤ i < size → bat d i = bat b i.
Proof.
  cbv zeta. intros Hst Hg Hm Hne E Hf Hv Hr. unfold GridStart in Hg.
  assert (Hpos : 0 < SizeBytes dev) by lia. assert (Hu : is_u64 (SizeBytes dev)) by (unfold is_u64; lia).
  destruct (flush_files HC _ _ _ _ _ _ _ _ Hst Hpos E) as [(_ & _ & Hs)|(Hl & Hh & _ & Hi & _)].
  { exfalso. apply Hne. by apply Hs. }
  destruct (image_names dir id) as (Hz & _ & _).
  destruct (decodes_content HC fs' (image_path dir id) _ Hz Hi) as (d & Hd & Hdl & Hdat).
  destruct (validate_inv HC _ _ _ _ Hv) as (_ & b' & [Hp Hrd _ [_ Hlen] _ _]).
  rewrite Hf, Hd in Hrd. injection Hrd as <-. rewrite Hdl, Hl, u64_small in Hlen by (unfold is_u64 in Hu; lia).
  destruct (content_size b (SizeBytes dev) Hu) as [_ Hat]; [unfold HeaderBytes in Hh; lia|done|].
  destruct (restore_copies path s k k' d Hr) as (d' & Hd' & Hdat'); [by rewrite Hf, Hp|by rewrite Hdl, Hl|lia..|].
  exists d'. split; [done|]. intros i Hi'. rewrite Hdat' by lia. rewrite Hdat by (rewrite Hl; lia). apply Hat. lia.
Qed.
End roundtrip.

(** *** A host with one zram device *)
Record one_zram := mkOneZram { oz_fs : gmap string buf; oz_size : Z; oz_data : buf }.

Definition oz_path : string := "/dev/zram0".
Definition oz_reset (k : one_zram) (n : Z) : one_zram := mkOneZram (oz_fs k) n (zeros n).

#[export] Instance one_zram_host : Host one_zram := {|
  h_files k := files_of (oz_fs k);
  h_readdir p k := if bool_decide (p = "/sys/block"%string) then Ok [("zram0"%string, true)] else Err ErrNotExist;
  h_stat p k := if bool_decide (p = oz_path) then Ok false else Err ErrNotExist;
  h_sysread p k := if bool_decide (p = zramSysPath oz_path "disksize")
                   then Ok (FormatUint (oz_size k) ++ [ascii_of_N 10]) else Err ErrNotExist;
  h_hot_add k := (Err ErrNotExist, k);
  h_hot_add_opens k := false;
  h_sysfs p v k :=
    if bool_decide (p = zramSysPath oz_path "disksize")
    then match ParseUint v 10 with Ok n => (None, oz_reset k n) | Err e => (Some e, k) end
    else if bool_decide (p = zramSysPath oz_path "reset") then (None, oz_reset k 0) else (Some ErrNotExist, k);
  h_open p k := if bool_decide (p = oz_path) then Ok (oz_data k, None) else Err ErrNotExist;
  h_openw p k := if bool_decide (p = oz_path) then None else Some ErrNotExist;
  h_copy p s k :=
    match s.2 with
    | None => if bool_decide (p = oz_path) && (blen s.1 <=? oz_size k)
              then (Ok (blen s.1), mkOneZram (oz_fs k) (oz_size k)
                      (Buf (oz_size k) (λ i, if i <? blen s.1 then bat s.1 i else bat (oz_data k) i)))
              else (Err (EMsg "no space left on device"), k)
    | Some e => (Err e, k)
    end;
  h_sync p k := (None, k);
  h_init_os k p := mkInitOs (Err ErrNotExist) (Err ErrNotExist) (Err ErrNotExist) (Err ErrNotExist) (Err ErrNotExist) "";
  h_initialised p f k := k |}.

#[export] Instance one_zram_laws : HostLaws one_zram.
Proof.
  split.
  - intros p v k. cbn [h_sysfs h_files one_zram_host]. repeat case_match; try done; by simplify_eq.
  - intros p b k n k'. cbn [h_copy h_open one_zram_host fst snd]. case_bool_decide; [|done]. cbn [andb].
    destruct (blen b <=? oz_size k); [|done]. intros [= <- <-]. cbn [oz_data]. eexists. split; [done|]. cbn [bat].
    intros i Hi. by rewrite (proj2 (Z.ltb_lt _ _)) by lia.
  - intros p k k'. cbn [h_sync one_zram_host]. by intros [= <-].
Defined.

(** A device in use, and the tier of SnapshotFlush.v flushed and restored. *)
Definition demo_used : one_zram := mkOneZram ∅ 4096 (zeros 4096).
Definition demo_flushed : option error * gmap string buf :=
  flushDevice (C := demo_codec) (demo_tier_os None) demo_tier_dev "/snap" ∅.
Definition demo_empty : one_zram := mkOneZram demo_flushed.2 0 (zeros 0).
Definition demo_snap : snapshot := mkSnapshot "/snap/0x2A.zst" 0x2A (GridStart + SlotSize).

Lemma restore_protects_witness :
  kernel_restore (C := demo_codec) oz_path demo_snap demo_used =
    (Some (EMsg "zram device already in use"), demo_used) ∧
  (kernel_restore (C := demo_codec) oz_path demo_snap demo_used).2 = demo_used.
Proof.
  assert (E : kernel_restore (C := demo_codec) oz_path demo_snap demo_used =
    (Some (EMsg "zram device already in use"), demo_used)) by reflexivity.
  split; [exact E|]. rewrite E. destruct (restore_protects _ _ _ _ _ E) as [H _]. apply H. discriminate.
Defined.

Lemma flush_restore_roundtrip_witness :
  let restored := kernel_restore (C := demo_codec) oz_path demo_snap demo_empty in
  restored.1 = None ∧
  ∃ d, h_open oz_path restored.2 = Ok (d, None) ∧ ∀ i, 0 ≤ i < GridStart + SlotSize → bat d i = bat demo_tier i.
Proof.
  cbv zeta.
  assert (E1 : demo_flushed.1 = None) by (vm_compute; reflexivity).
  assert (E2 : validateSnapshot (C := demo_codec) (h_files demo_empty) "/snap/0x2A.zst" 0x2A = Ok demo_snap) by (vm_compute; reflexivity).
  assert (E3 : (kernel_restore (C := demo_codec) oz_path demo_snap demo_empty).1 = None) by (vm_compute; reflexivity).
  split; [exact E3|].
  destruct (kernel_restore (C := demo_codec) oz_path demo_snap demo_empty) as [r k'] eqn:Er. cbn [fst snd] in *. subst r.
  apply (flush_restore_roundtrip (C := demo_codec) demo_codec_ok (demo_tier_os None) demo_tier_dev 0x2A demo_tier "/snap" ∅
    demo_flushed.2 oz_path demo_snap demo_empty k' (demo_stable None)).
  - split; reflexivity.
  - reflexivity.
  - discriminate.
  - rewrite <- E1. apply surjective_pairing.
  - reflexivity.
  - exact E2.
  - exact Er.
Defined.
