(* ===== verification/PoolMap.v ===== *)
(** * The pool mapping a start leaves behind (internal/daemon/pool_mapping.go)

    [persistPoolMapping] writes pan.json again after the zram tiers were resolved: the runtime devices
    replace the configured ones of the same id, new ones are appended, and a configured tier that is
    unavailable stays ([merge_pool]).  The file is replaced through a temporary one, so that whatever
    step fails pan.json is the old file or the whole new one ([persist_atomic]).  The JSON encoder is a
    parameter. *)

From S2P Require Import Prelude Machine Text Init Find Snapshot Recovery.
From Stdlib Require Import Ascii.

Record PanFile := mkPanFile { pf_Version : Z; pf_Devices : list PanDevice }.

(** The inner loop: the first entry with the id is replaced. *)
Fixpoint replace_id (id : Z) (d : PanDevice) (ds : list PanDevice) : res (option (list PanDevice)) :=
  match ds with
  | [] => Ok None
  | old :: ds =>
      oldID ← ParseDiskID (DiskID old);
      if oldID =? id then Ok (Some (d :: ds)) else
      r ← replace_id id d ds; Ok (option_map (cons old) r)
  end.

Fixpoint merge_devices (runtime next : list PanDevice) : res (list PanDevice) :=
  match runtime with
  | [] => Ok next
  | d :: runtime =>
      id ← ParseDiskID (DiskID d);
      r ← replace_id id d next;
      merge_devices runtime (match r with Some next => next | None => next ++ [d] end)
  end.

Definition merged (original : PanFile) (runtime : list PanDevice) : res PanFile :=
  ds ← merge_devices runtime (pf_Devices original);
  Ok (mkPanFile (if pf_Version original =? 0 then 1 else pf_Version original) ds).

(** What the operating system answers: the name of the temporary file, and the step that fails. *)
Record persist_os := mkPersistOs {
  ps_create : res string;
  ps_chmod : option error;                      (* of the mode of the old file, when there is one *)
  ps_write : option (error * list ascii);       (* with what was written *)
  ps_sync : option error; ps_close : option error; ps_rename : option error;
  ps_removes : bool;                            (* the deferred removal works *)
  ps_opendir : option error; ps_dirsync : option error
}.

Section persist.
Context (Marshal : PanFile → res (list ascii)) (MarshalIndent : PanFile → res (list ascii)).

(** [old, _ := json.Marshal(original)] *)
Definition marshal_or_nil (f : PanFile) : list ascii := match Marshal f with Ok b => b | Err _ => [] end.

(** The steps up to the rename; [None] when the temporary file has its new name. *)
Definition write_temp (os : persist_os) (path tmp : string) (data : list ascii) (fs : gmap string (list ascii)) :
    option error * gmap string (list ascii) :=
  let fs := <[tmp := []]> fs in
  match ps_chmod os, ps_write os with
  | Some e, _ => (Some e, fs)
  | None, Some (e, part) => (Some e, <[tmp := part]> fs)
  | None, None =>
      let fs := <[tmp := data]> fs in
      match ps_sync os, ps_close os, ps_rename os with
      | Some e, _, _ | None, Some e, _ | None, None, Some e => (Some e, fs)
      | None, None, None => (None, <[path := data]> (delete tmp fs))
      end
  end.

Definition persistPoolMapping (os : persist_os) (path : string) (original : PanFile) (runtime : list PanDevice)
    (fs : gmap string (list ascii)) : option error * gmap string (list ascii) :=
  match (next ← merged original runtime; raw ← MarshalIndent next; Ok (next, raw)) with
  | Err e => (Some e, fs)
  | Ok (next, raw) =>
      if bool_decide (marshal_or_nil original = marshal_or_nil next) then (None, fs) else
      match ps_create os with
      | Err e => (Some e, fs)
      | Ok tmp =>
          let '(err, fs) := write_temp os path tmp (raw ++ [ascii_of_N 10]) fs in
          let fs := if ps_removes os then delete tmp fs else fs in
          (match err with
           | Some e => Some e
           | None => match ps_opendir os with Some e => Some e | None => ps_dirsync os end
           end, fs)
      end
  end.

(** Whatever step of it fails, [persistPoolMapping] leaves pan.json as it was or holding the whole new
    mapping, and touches no other file than its temporary one, which it removes; when it reports success
    the new mapping is there, or it was the old one already. *)
Theorem persist_atomic os path original runtime fs r fs' :
  (∀ tmp, ps_create os = Ok tmp → tmp ≠ path ∧ fs !! tmp = None) →
  persistPoolMapping os path original runtime fs = (r, fs') →
  (fs' !! path = fs !! path ∨
   ∃ next raw, merged original runtime = Ok next ∧ MarshalIndent next = Ok raw ∧
     fs' !! path = Some (raw ++ [ascii_of_N 10])) ∧
  (∀ p, p ≠ path → ps_create os ≠ Ok p → fs' !! p = fs !! p) ∧
  (ps_removes os = true → ∀ tmp, ps_create os = Ok tmp → fs' !! tmp = None) ∧
  (r = None → ∃ next raw, merged original runtime = Ok next ∧ MarshalIndent next = Ok raw ∧
     (fs' = fs ∧ marshal_or_nil original = marshal_or_nil next ∨ fs' !! path = Some (raw ++ [ascii_of_N 10]))).
Proof.
  intros Htmp. unfold persistPoolMapping.
  assert (Hsame : ∀ r', r' ≠ None → (r', fs) = (r, fs') → r ≠ None ∧ fs' = fs) by by intros r' Hr [= <- <-].
  destruct (merged original runtime) as [next|e] eqn:Em; cbn [mbind res_bind].
  2: { intros E. apply Hsame in E as [Hr ->]; [|done]. split_and!; [by left|done|intros _ t Ht; by apply Htmp|done]. }
  destruct (MarshalIndent next) as [raw|e] eqn:Er; cbn [mbind res_bind].
  2: { intros E. apply Hsame in E as [Hr ->]; [|done]. split_and!; [by left|done|intros _ t Ht; by apply Htmp|done]. }
  case_bool_decide as Eq.
  { intros [= <- <-]. split_and!; [by left|done|intros _ t Ht; by apply Htmp|]. intros _. exists next, raw. auto. }
  destruct (ps_create os) as [tmp|e].
  2: { intros E. apply Hsame in E as [Hr ->]; [|done]. split_and!; [by left|done|done|done]. }
  destruct (Htmp tmp eq_refl) as [Hne Hnone]. set (data := raw ++ [ascii_of_N 10]).
  destruct (write_temp os path tmp data fs) as [err fs1] eqn:Ew.
  assert (H : (∀ p, p ≠ path → p ≠ tmp → fs1 !! p = fs !! p) ∧
    (fs1 !! path = Some data ∨ fs1 !! path = fs !! path ∧ err ≠ None)).
  { revert Ew. unfold write_temp. repeat case_match; intros [= <- <-]; split; intros;
      rewrite ?lookup_insert_eq, ?lookup_insert_ne, ?lookup_delete_ne by done;
      rewrite ?lookup_insert_ne by done; auto. }
  clear Ew. destruct H as [Hp Hpath].
  set (fs2 := if ps_removes os then delete tmp fs1 else fs1).
  assert (Hf : ∀ p, p ≠ tmp → fs2 !! p = fs1 !! p).
  { intros p Hpt. unfold fs2. destruct (ps_removes os); [|done]. by rewrite lookup_delete_ne. }
  intros [= Hr <-]. rewrite (Hf path) by done. split_and!.
  - destruct Hpath as [->|[-> _]]; [right; by exists next, raw|by left].
  - intros p Hp1 Hp2. assert (p ≠ tmp) by (intros ->; by apply Hp2). rewrite Hf, Hp by done. done.
  - intros Hrem t [= <-]. unfold fs2. by rewrite Hrem, lookup_delete_eq.
  - intros Hnone'. exists next, raw. split_and!; [done|done|]. right.
    destruct Hpath as [->|[_ Herr]]; [done|]. exfalso. apply Herr. by destruct err; subst.
Qed.
End persist.

(** ** The merged devices *)
Lemma replace_id_absent id d ds ids : have_ids ds ids → id ∉ ids → replace_id id d ds = Ok None.
Proof.
  revert ids. induction ds as [|old ds IH]; intros [|i ids] Hi Hni; try done. injection Hi as H1 H2.
  apply not_elem_of_cons in Hni as [Hne Hni]. cbn [replace_id]. unfold parsed_id in H1. rewrite H1. cbn [mbind res_bind].
  rewrite (proj2 (Z.eqb_neq _ _)) by done. by rewrite (IH ids).
Qed.

Lemma replace_id_present id d ds ids :
  have_ids ds ids → NoDup ids → id ∈ ids → parsed_id d = Ok id →
  ∃ ds', replace_id id d ds = Ok (Some ds') ∧ have_ids ds' ids ∧
    (∀ x, x ∈ ds' ↔ x = d ∨ x ∈ ds ∧ parsed_id x ≠ Ok id).
Proof.
  revert ids. induction ds as [|old ds IH]; intros [|i ids] Hi Hn Hin Hd; try done; [by apply not_elem_of_nil in Hin|].
  injection Hi as H1 H2. apply NoDup_cons in Hn as [Hni Hn]. cbn [replace_id].
  pose proof H1 as H1'. unfold parsed_id in H1'. rewrite H1'. cbn [mbind res_bind].
  assert (Hrest : ∀ x, x ∈ ds → parsed_id x ≠ Ok i).
  { intros x Hx Ex. apply Hni. by apply (have_ids_elem ds ids x). }
  destruct (Z.eqb_spec i id) as [->|Hne].
  - exists (d :: ds). split; [done|]. split; [apply (have_ids_app [d] ds [id]); [by apply have_ids_one|done]|].
    intros x. rewrite !elem_of_cons. split; [|naive_solver]. intros [-> |Hx]; [by left|]. right. auto.
  - apply elem_of_cons in Hin as [->|Hin]; [done|]. destruct (IH ids H2 Hn Hin Hd) as (ds' & -> & Hds & Hx).
    exists (old :: ds'). split; [done|]. split; [apply (have_ids_app [old] ds' [i]); [by apply have_ids_one|done]|].
    intros x. rewrite !elem_of_cons, Hx. split.
    + intros [-> |[-> |[? ?]]]; [right; split; [by left|congruence]|by left|right; split; [by right|done]].
    + intros [-> |[[-> |?] ?]]; auto.
Qed.

Lemma filter_absent_snoc (ids ids0 : list Z) id :
  id ∉ ids → filter (λ i, i ∉ ids0 ++ [id]) ids = filter (λ i, i ∉ ids0) ids.
Proof.
  induction ids as [|i ids IH]; intros Hni; [done|]. apply not_elem_of_cons in Hni as [Hne Hni].
  destruct (decide (i ∈ ids0)) as [Hi|Hi].
  - rewrite !filter_cons_False by (rewrite ?elem_of_app; tauto). by apply IH.
  - rewrite !filter_cons_True by (rewrite ?elem_of_app, ?list_elem_of_singleton; naive_solver). by rewrite IH.
Qed.

(** Merging the runtime devices into the configured ones, neither having an id twice, succeeds and keeps
    every configured id, in order, followed by the new ones; the device of an id is the runtime one if
    there is one, and the configured one otherwise. *)
Theorem merge_pool original runtime ids0 idsr :
  have_ids original ids0 → NoDup ids0 → have_ids runtime idsr → NoDup idsr →
  ∃ next, merge_devices runtime original = Ok next ∧
    have_ids next (ids0 ++ filter (λ id, id ∉ ids0) idsr) ∧
    ∀ d id, parsed_id d = Ok id → d ∈ next ↔ d ∈ runtime ∨ d ∈ original ∧ id ∉ idsr.
Proof.
  intros H0 Hn0 Hr Hnr. revert original ids0 idsr H0 Hn0 Hr Hnr.
  induction runtime as [|d runtime IH]; intros original ids0 [|id idsr] H0 Hn0 Hr Hnr; try done.
  { exists original. rewrite app_nil_r. split_and!; [done..|]. intros x i _. set_solver. }
  injection Hr as Hd Hr. apply NoDup_cons in Hnr as [Hni Hnr]. cbn [merge_devices].
  pose proof Hd as Hd'. unfold parsed_id in Hd'. rewrite Hd'. cbn [mbind res_bind].
  destruct (decide (id ∈ ids0)) as [Hin|Hin].
  - destruct (replace_id_present id d original ids0 H0 Hn0 Hin Hd) as (ds' & -> & Hds & Hx). cbn [mbind res_bind].
    destruct (IH ds' ids0 idsr Hds Hn0 Hr Hnr) as (next & -> & Hids & Hm). exists next. split; [done|].
    rewrite filter_cons_False by tauto. split; [done|]. intros x i Hxi. rewrite (Hm x i Hxi), Hx, !elem_of_cons.
    split.
    + intros [?|[[-> |[? ?]] ?]]; [by left; right|by left; left|]. right. split; [done|]. intros [-> |?]; congruence.
    + intros [[-> |?]|[? Hno]]; [|by left|]; [right; split; [by left|congruence]|].
      assert (i ≠ id ∧ i ∉ idsr) as [? ?] by tauto. right. split; [right; split; [done|congruence]|done].
  - rewrite (replace_id_absent id d original ids0 H0 Hin). cbn [mbind res_bind].
    destruct (IH (original ++ [d]) (ids0 ++ [id]) idsr) as (next & -> & Hids & Hm); [by apply have_ids_snoc| |done|done|].
    { apply NoDup_app. split; [done|]. split; [|apply NoDup_singleton]. by intros i Hi ->%list_elem_of_singleton. }
    exists next. split; [done|]. rewrite filter_cons_True by done.
    rewrite filter_absent_snoc, <- app_assoc in Hids by done. split; [done|]. intros x i Hxi. rewrite (Hm x i Hxi), elem_of_app, list_elem_of_singleton, !elem_of_cons.
    split.
    + intros [?|[[Ho| ->] ?]]; [by left; right| |by left; left]. right. split; [done|]. intros [->|?]; [|done].
      apply Hin. by eapply have_ids_elem.
    + intros [[-> |?]|[? Hno]]; [|by left|].
      * right. split; [by right|]. congruence.
      * assert (i ≠ id ∧ i ∉ idsr) as [? ?] by tauto. right. split; [by left|done].
Qed.

(** *** A tier that moved to another device *)
Definition demo_encode (f : PanFile) : res (list ascii) :=
  Ok (pf_Devices f ≫= λ d, chars (DevicePath d) ++ chars (DiskID d)).
Definition demo_original : list PanDevice :=
  [mkPanDevice "" "/dev/sda" "0x1" 2 0; mkPanDevice "" "/dev/zram0" "0x2A" 2 0; mkPanDevice "" "/dev/zram1" "0x2B" 2 0].
Definition demo_runtime : list PanDevice :=
  [mkPanDevice "" "/dev/sda" "1" 2 0; mkPanDevice "match" "/dev/zram5" "0x2A" 2 0; mkPanDevice "match" "/dev/zram6" "0x2C" 2 0].

Lemma merge_pool_witness :
  ∃ next, merge_devices demo_runtime demo_original = Ok next ∧ have_ids next [1; 42; 43; 44] ∧
    (∀ d id, parsed_id d = Ok id → d ∈ next ↔ d ∈ demo_runtime ∨ d ∈ demo_original ∧ id ∉ [1; 42; 44]).
Proof.
  assert (Hn : ∀ l : list Z, bool_decide (NoDup l) = true → NoDup l) by (intros l H; by apply bool_decide_eq_true in H).
  destruct (merge_pool demo_original demo_runtime [1; 42; 43] [1; 42; 44]) as (next & H1 & H2 & H3).
  - reflexivity.
  - apply Hn. reflexivity.
  - reflexivity.
  - apply Hn. reflexivity.
  - exists next. split; [exact H1|]. split; [exact H2|exact H3].
Defined.

Definition demo_persist (write : option (error * list ascii)) : persist_os :=
  mkPersistOs (Ok "/etc/.bsos-pan-1"%string) None write None None None true None None.
Definition demo_etc : gmap string (list ascii) := {["/etc/pan.json"%string := [ascii_of_N 48]]}.

Lemma persist_atomic_witness :
  let persisted write := persistPoolMapping demo_encode demo_encode (demo_persist write) "/etc/pan.json"
    (mkPanFile 1 demo_original) demo_runtime demo_etc in
  (persisted (Some (EMsg "no space left on device", []))).2 !! "/etc/pan.json"%string = Some [ascii_of_N 48] ∧
  (persisted None).1 = None ∧
  (persisted None).2 !! "/etc/.bsos-pan-1"%string = None.
Proof.
  cbv zeta. split; [vm_compute; reflexivity|].
  assert (E1 : (persistPoolMapping demo_encode demo_encode (demo_persist None) "/etc/pan.json"
    (mkPanFile 1 demo_original) demo_runtime demo_etc).1 = None) by (vm_compute; reflexivity).
  split; [exact E1|].
  destruct (persistPoolMapping demo_encode demo_encode (demo_persist None) "/etc/pan.json"
    (mkPanFile 1 demo_original) demo_runtime demo_etc) as [r fs'] eqn:E.
  assert (Htmp : ∀ tmp, ps_create (demo_persist None) = Ok tmp → tmp ≠ "/etc/pan.json"%string ∧ demo_etc !! tmp = None).
  { intros tmp [= <-]. split; [discriminate|reflexivity]. }
  destruct (persist_atomic demo_encode demo_encode (demo_persist None) "/etc/pan.json" (mkPanFile 1 demo_original)
    demo_runtime demo_etc r fs' Htmp E) as (_ & _ & H & _).
  apply (H eq_refl "/etc/.bsos-pan-1"%string eq_refl).
Defined.
