(* ===== verification/Client.v ===== *)
(** * The Go client (pkg/client/client.go)

    The client over the interface [BSOSClient], the methods of the generated gRPC stub: streaming a
    payload, the jump codes after a conflict, reading into a writer, the retry-safety check.  What
    the service behind the stub promises is the class [PoolService] of Service.v.  The xxh3 hash is a
    parameter; hashing a file as it is read gives the hash of its bytes. *)

From S2P Require Import Prelude Machine Loop Device DirectIO Reader Server.
From Stdlib Require Import Strings.Byte.

(** An error of the client: a gRPC status, or an error of its own. *)
Inductive cerror :=
  | CStatus (st : status)
  | CError (e : error).

Definition code_is (c : status_code) (e : cerror) : bool :=
  match e with CStatus st => bool_decide (st_code st = c) | CError _ => false end.

Definition IsConflict : cerror → bool := code_is AlreadyExists.
Definition IsNotFound : cerror → bool := code_is NotFound.
Definition IsResourceExhausted : cerror → bool := code_is ResourceExhausted.
Definition IsInvalidArgument : cerror → bool := code_is InvalidArgument.

Definition isIdempotentConflict (e : cerror) : bool :=
  if negb (IsConflict e) then false else
  match e with CStatus st => bool_decide (st_msg st = "fid already registered"%string) | CError _ => false end.

(** bsospb.BSOSClient: [W] is everything outside the client.  A Put is a stream of messages; a Get
    answers its messages and the status that ends them, [None] for OK. *)
Class BSOSClient (W : Type) := {
  put_stream : Type;
  pb_Put : W → (put_stream + cerror) * W;
  Send : put_stream → PutRequest → W → (option cerror * put_stream) * W;
  CloseAndRecv : put_stream → W → option cerror * W;
  CloseSend : put_stream → W → W;
  pb_Get : GetRequest → W → (list GetResponse * option cerror) * W;
  pb_Head : Z → W → (Z + cerror) * W;
  pb_Bonnie : W → (Z + cerror) * W;
  pb_Health : W → (bool + cerror) * W
}.

Definition DefaultChunkSize : Z := 1048576.
Definition MaxAtomicPayloadSize : Z := 16777216.
Definition MaxJumpCode : Z := 255.

Definition ErrJumpExhausted : cerror := CError (EMsg "jump retry exhausted: all jump codes collided").
Definition ErrPayloadTooLarge : cerror :=
  CError (EMsg "payload exceeds atomic 16MB threshold; use PutCDC instead").

(** The options of [New] and [NewFromConn]. *)
Inductive Option_ := WithChunkSize (size : Z) | WithDialOptions.

Definition apply_option (chunkSize : Z) (o : Option_) : Z :=
  match o with WithChunkSize size => if 0 <? size then size else chunkSize | WithDialOptions => chunkSize end.

Definition NewFromConn (opts : list Option_) : Z := foldl apply_option DefaultChunkSize opts.

(** A reader over bytes in memory, and one after another. *)
Definition NewReader (data : list byte) : stream := Stream (buf_of data) 0 EEOF.
Definition MultiReader (data tail : list byte) : stream := NewReader (data ++ tail).

(** What [os.Stat], [os.Open] and reads say of a path: the size and whether it is a directory; the
    bytes and the error after them; whether rewinding works. *)
Record local_file := mkLocal {
  lf_stat : res (Z * bool);
  lf_open : res (list byte * error);
  lf_seek : option error
}.

(** [io.Copy] of the whole file into the hasher. *)
Definition copy_all (content : list byte * error) : res (list byte) :=
  if bool_decide (content.2 = EEOF) then Ok content.1 else Err content.2.

(** ** Putting *)
Record JumpResult := mkJump { j_FID : Z; j_TargetFID : Z; j_JumpsTaken : Z; j_IsDuplicate : bool }.

Definition no_jump : JumpResult := mkJump 0 0 0 false.

Section client.
Context {W : Type} `{!BSOSClient W}.
Context (Hash : list byte → Z) (chunkSize : Z).

Definition ComputeFID (content : list byte) : Z := Hash content.

Definition ComputeFileFID (lf : local_file) : (Z * Z) * option error :=
  match lf_open lf with
  | Err e => ((0, 0), Some (EWrap "open file" e))
  | Ok content =>
      match lf_stat lf with
      | Err e => ((0, 0), Some (EWrap "stat file" e))
      | Ok (size, isDir) =>
          if isDir : bool then ((0, 0), Some (EMsg "is a directory")) else
          match copy_all content with
          | Err e => ((0, 0), Some (EWrap "hash file" e))
          | Ok data => ((Hash data, size), None)
          end
      end
  end.

(** [CloseAndRecv] after a failed [Send]: the status if there is one, else the send error. *)
Definition recv_or (st : put_stream) (e : cerror) (w : W) : option cerror * W :=
  match CloseAndRecv st w with
  | (Some recvErr, w) => (Some recvErr, w)
  | (None, w) => (Some e, w)
  end.

(** The loop that streams the payload: [inr] leaves [Put] with a result, [inl] is the next
    iteration; after the loop the stream is closed. *)
Definition put_chunks (totalSize : Z) : Z * put_stream * stream * W → option cerror * W := λ s,
  match loop (Z.to_pos (totalSize + 1)) (λ '(totalSent, st, r, w),
      if totalSent <? totalSize then
        let toRead := Z.min chunkSize (totalSize - totalSent) in
        let '((b, readErr), r) := ReadFull toRead r in
        let '(sendErr, st, w) :=
          if 0 <? blen b
          then let '((e, st), w) := Send st (PutChunk (buf_list b)) w in (e, st, w)
          else (None, st, w) in
        match sendErr with
        | Some e => inr (recv_or st e w)
        | None =>
            let totalSent := totalSent + blen b in
            match readErr with
            | Some e =>
                if is_eof e then
                  if totalSent <? totalSize
                  then inr (Some (CError (EWrap "premature EOF from source" e)), CloseSend st w)
                  else inr (CloseAndRecv st w)
                else inr (Some (CError (EWrap "read error" e)), CloseSend st w)
            | None => inl (totalSent, st, r, w)
            end
        end
      else if negb (totalSent =? totalSize)
      then inr (Some (CError (EMsg "payload size mismatch")), CloseSend st w)
      else inr (CloseAndRecv st w)) s with
  | inr out => out
  | inl (_, _, _, w) => (Some (CError EFuel), w)
  end.

Definition Put (fid totalSize aliasFor : Z) (r : stream) (w : W) : option cerror * W :=
  match pb_Put w with
  | (inr err, w) => (Some err, w)
  | (inl st, w) =>
      match Send st (PutHeader fid totalSize aliasFor) w with
      | ((Some err, st), w) => recv_or st err w
      | ((None, st), w) => put_chunks totalSize (0, st, r, w)
      end
  end.

Definition PutBytes (data : list byte) (w : W) : (Z * option cerror) * W :=
  let fid := ComputeFID data in
  let '(err, w) := Put fid (Z.of_nat (length data)) 0 (NewReader data) w in
  ((fid, err), w).

Definition PutFile (lf : local_file) (w : W) : (Z * option cerror) * W :=
  let fail msg e := ((0, Some (CError (EWrap msg e))), w) in
  match lf_open lf with
  | Err e => fail "open file"%string e
  | Ok content =>
      match lf_stat lf with
      | Err e => fail "stat file"%string e
      | Ok (size, isDir) =>
          if isDir : bool then ((0, Some (CError (EMsg "is a directory"))), w) else
          if size =? 0 then ((0, Some (CError (EMsg "empty file not allowed"))), w) else
          match copy_all content with
          | Err e => fail "hash file"%string e
          | Ok data =>
              let fid := Hash data in
              match lf_seek lf with
              | Some e => fail "rewind file"%string e
              | None => let '(err, w) := Put fid size 0 (NewReader data) w in ((fid, err), w)
              end
          end
      end
  end.

(** [opts]: the MaxJumps of the caller's options, if it gave some. *)
Definition max_jumps (opts : option Z) : Z :=
  match opts with
  | Some m => if 0 <? m then Z.min m MaxJumpCode else MaxJumpCode
  | None => MaxJumpCode
  end.

Definition jump_data (data : list byte) (code : Z) : list byte := data ++ [byte_of code].

(** The loop over the jump codes still to try. *)
Fixpoint try_jumps (data : list byte) (fid maxJumps : Z) (codes : list Z) (w : W) :
    (JumpResult * option cerror) * W :=
  match codes with
  | [] => ((mkJump fid 0 maxJumps false, Some ErrJumpExhausted), w)
  | code :: codes =>
      let jumpData := jump_data data code in
      let jumpFID := ComputeFID jumpData in
      match Put jumpFID (Z.of_nat (length jumpData)) fid (NewReader jumpData) w with
      | (None, w) => ((mkJump fid jumpFID code false, None), w)
      | (Some err, w) =>
          if negb (IsConflict err) then ((mkJump fid jumpFID code false, Some err), w)
          else try_jumps data fid maxJumps codes w
      end
  end.

Definition putWithJumpRetryCollision (data : list byte) (fid maxJumps : Z) :
    W → (JumpResult * option cerror) * W :=
  try_jumps data fid maxJumps (seqZ 1 maxJumps).

Definition PutWithJumpRetry (data : list byte) (opts : option Z) (w : W) :
    (JumpResult * option cerror) * W :=
  let maxJumps := max_jumps opts in
  let fid := ComputeFID data in
  match Put fid (Z.of_nat (length data)) 0 (NewReader data) w with
  | (None, w) => ((mkJump fid fid 0 false, None), w)
  | (Some err, w) =>
      if negb (IsConflict err) then ((mkJump fid 0 0 false, Some err), w)
      else if isIdempotentConflict err then ((mkJump fid fid 0 true, None), w)
      else putWithJumpRetryCollision data fid maxJumps w
  end.

Definition PutAtomic (data : list byte) (opts : option Z) (w : W) : (JumpResult * option cerror) * W :=
  if MaxAtomicPayloadSize <? Z.of_nat (length data) then ((no_jump, Some ErrPayloadTooLarge), w)
  else PutWithJumpRetry data opts w.

Definition no_jump_error (msg : string) (e : error) (w : W) : (JumpResult * option cerror) * W :=
  ((no_jump, Some (CError (EWrap msg e))), w).

Definition PutFileAtomic (lf : local_file) (opts : option Z) (w : W) : (JumpResult * option cerror) * W :=
  match lf_stat lf with
  | Err e => no_jump_error "stat file" e w
  | Ok (size, isDir) =>
      if isDir : bool then ((no_jump, Some (CError (EMsg "is a directory"))), w) else
      if size =? 0 then ((no_jump, Some (CError (EMsg "empty file not allowed"))), w) else
      if MaxAtomicPayloadSize <? size then ((no_jump, Some ErrPayloadTooLarge), w) else
      match (content ← lf_open lf; copy_all content) with
      | Err e => no_jump_error "read file" e w
      | Ok data => PutWithJumpRetry data opts w
      end
  end.

(** The same loop over a file that is rewound for each code; [size] is what [Stat] said. *)
Fixpoint try_file_jumps (lf : local_file) (data : list byte) (size fid maxJumps : Z) (codes : list Z)
    (w : W) : (JumpResult * option cerror) * W :=
  match codes with
  | [] => ((mkJump fid 0 maxJumps false, Some ErrJumpExhausted), w)
  | code :: codes =>
      let jumpFID := Hash (jump_data data code) in
      match lf_seek lf with
      | Some e => ((mkJump fid jumpFID code false, Some (CError (EWrap "rewind file" e))), w)
      | None =>
          match Put jumpFID (size + 1) fid (MultiReader data [byte_of code]) w with
          | (None, w) => ((mkJump fid jumpFID code false, None), w)
          | (Some err, w) =>
              if negb (IsConflict err) then ((mkJump fid jumpFID code false, Some err), w)
              else try_file_jumps lf data size fid maxJumps codes w
          end
      end
  end.

Definition PutFileWithJumpRetry (lf : local_file) (opts : option Z) (w : W) :
    (JumpResult * option cerror) * W :=
  match lf_stat lf with
  | Err e => no_jump_error "stat file" e w
  | Ok (size, isDir) =>
      if isDir : bool then ((no_jump, Some (CError (EMsg "is a directory"))), w) else
      if size =? 0 then ((no_jump, Some (CError (EMsg "empty file not allowed"))), w) else
      if size <=? MaxAtomicPayloadSize then PutFileAtomic lf opts w else
      let maxJumps := max_jumps opts in
      match lf_open lf with
      | Err e => no_jump_error "open file" e w
      | Ok content =>
          match copy_all content with
          | Err e => no_jump_error "hash file" e w
          | Ok data =>
              let fid := Hash data in
              match lf_seek lf with
              | Some e => ((mkJump fid 0 0 false, Some (CError (EWrap "rewind file" e))), w)
              | None =>
                  match Put fid size 0 (NewReader data) w with
                  | (None, w) => ((mkJump fid fid 0 false, None), w)
                  | (Some err, w) =>
                      if negb (IsConflict err) then ((mkJump fid 0 0 false, Some err), w)
                      else if isIdempotentConflict err then ((mkJump fid fid 0 false, None), w)
                      else try_file_jumps lf data size fid maxJumps (seqZ 1 maxJumps) w
                  end
              end
          end
      end
  end.

(** ** Getting *)
Definition request (fid : Z) (optRange : option (Z * Z)) : GetRequest :=
  match optRange with
  | Some (start_, end_) => mkGetRequest fid true start_ end_
  | None => mkGetRequest fid false 0 0
  end.

Section writer.
Context {X : Type} (Write : list byte → X → (Z * option error) * X).

(** The loop over the messages; the results are the object's size, the bytes written, the error. *)
Fixpoint recv_all (msgs : list GetResponse) (final : option cerror) (totalSize written : Z) (x : X) :
    (Z * Z * option cerror) * X :=
  match msgs with
  | [] => match final with
          | Some err => ((0, written, Some err), x)
          | None => ((totalSize, written, None), x)
          end
  | resp :: msgs =>
      let totalSize := gr_size resp in
      match gr_data resp with
      | [] => recv_all msgs final totalSize written x
      | data =>
          let '((n, writeErr), x) := Write data x in
          match writeErr with
          | Some e => ((totalSize, written + n, Some (CError e)), x)
          | None => recv_all msgs final totalSize (written + n) x
          end
      end
  end.

Definition Get (fid : Z) (optRange : option (Z * Z)) (x : X) (w : W) : (Z * Z * option cerror) * X * W :=
  let '((msgs, final), w) := pb_Get (request fid optRange) w in
  let '(out, x) := recv_all msgs final 0 0 x in
  (out, x, w).
End writer.

(** [bytes.Buffer]: writes append and never fail. *)
Definition buffer_write (data : list byte) (x : list byte) : (Z * option error) * list byte :=
  ((Z.of_nat (length data), None), x ++ data).

Definition GetBytes (fid : Z) (optRange : option (Z * Z)) (w : W) : (list byte + cerror) * W :=
  let '((_, _, err), x, w) := Get buffer_write fid optRange [] w in
  match err with Some e => (inr e, w) | None => (inl x, w) end.

(** Sequential writes to a file on disk. *)
Definition file_write (data : list byte) (x : file * Z) : (Z * option error) * (file * Z) :=
  let '(f, off) := x in
  let '((n, err), f) := WriteAt (buf_of data) off f in
  ((n, err), (f, off + n)).

(** [GetFile]: [create] is what [os.Create] gives, [close] what [Close] answers; the second component
    is the file left at the path, [None] when it was removed or never made. *)
Definition GetFile (create : res file) (close : option error) (fid : Z) (optRange : option (Z * Z)) (w : W) :
    (option cerror * option file) * W :=
  match create with
  | Err e => ((Some (CError (EWrap "create destination file" e)), None), w)
  | Ok f =>
      let '((_, _, err), (f, _), w) := Get file_write fid optRange (f, 0) w in
      match err with
      | Some e => ((Some e, None), w)
      | None => ((CError <$> close, Some f), w)
      end
  end.

Definition Head (fid : Z) (w : W) : (Z + cerror) * W := pb_Head fid w.
Definition Bonnie (w : W) : (Z + cerror) * W := pb_Bonnie w.
Definition Health (w : W) : (bool + cerror) * W := pb_Health w.

(** ** Verifying *)
Record VerifyOptions := mkVerify { MaxAttempts : Z; InitialBackoff : Z; CompareContent : bool }.

Definition verify_config (opts : option VerifyOptions) : VerifyOptions :=
  match opts with
  | None => mkVerify 10 20000000 true
  | Some o => mkVerify (if 0 <? MaxAttempts o then MaxAttempts o else 10)
                (if 0 <? InitialBackoff o then InitialBackoff o else 20000000) (CompareContent o)
  end.

(** One reading of the fid: [None] when it is not found. *)
Definition verify_once (compare : bool) (fid : Z) (expected : list byte) (w : W) :
    option (bool + cerror) * W :=
  if compare then
    match GetBytes fid None w with
    | (inr err, w) => (if IsNotFound err then None else Some (inr err), w)
    | (inl got, w) => (Some (inl (bool_decide (got = expected))), w)
    end
  else
    match Head fid w with
    | (inr err, w) => (if IsNotFound err then None else Some (inr err), w)
    | (inl size, w) => (Some (inl (size =? Z.of_nat (length expected))), w)
    end.

(** The attempts left; [wait] is the error of the context if it ends before the back-off. *)
Fixpoint verify_attempts (n : nat) (wait : Z → option error) (first compare : bool) (backoff fid : Z)
    (expected : list byte) (w : W) : (bool * option cerror) * W :=
  match n with
  | O => ((false, Some (CError (EMsg "verify fid: still not found"))), w)
  | S n =>
      match (if first then None else wait backoff) with
      | Some e => ((false, Some (CError e)), w)
      | None =>
          let backoff := if first then backoff else Z.min (int64 (backoff * 3) `quot` 2) 500000000 in
          match verify_once compare fid expected w with
          | (None, w) => verify_attempts n wait false compare backoff fid expected w
          | (Some (inl b), w) => ((b, None), w)
          | (Some (inr err), w) => ((false, Some err), w)
          end
      end
  end.

Definition VerifyContent (fid : Z) (expected : list byte) (opts : option VerifyOptions)
    (wait : Z → option error) (w : W) : (bool * option cerror) * W :=
  let cfg := verify_config opts in
  verify_attempts (Z.to_nat (MaxAttempts cfg)) wait true (CompareContent cfg) (InitialBackoff cfg)
    fid expected w.
End client.
