(* ===== verification/Service.v ===== *)
(** * What the client needs from the service

    [PoolService] states what the other side of [BSOSClient] promises: a stream of messages that is
    accepted registers its payload, one that is refused changes nothing, and a failure that comes after
    the commit, when only the response is lost, leaves the object registered (docs/CLIENT_SPEC.md); a
    Get sends the requested slice.  The theorems of this file are about the client over any such service; ServerService.v
    shows that the RPC handlers of Server.v are one. *)

From S2P Require Import Prelude Machine Loop Device Layout IndexScan DirectIO DiskStore Reader Server.
From S2P Require Import Pool Serve Client.
From Stdlib Require Import Strings.Byte.

Class PoolService (W : Type) `{!BSOSClient W} := {
  svc_ok : W → Prop;
  store_of : W → store;
  busy : W → Z → Prop;  (* a fid another call has reserved *)
  (* an open stream, or one the service has ended, and the messages sent on it *)
  session : put_stream → bool → list PutRequest → W → Prop;
  law_open w : svc_ok w →
    match pb_Put w with
    | (inl st, w') => svc_ok w' ∧ (∀ f, store_of w' f = store_of w f) ∧ session st true [] w'
    | (inr e, w') => svc_ok w' ∧ (∀ f, store_of w' f = store_of w f) ∧ isIdempotentConflict e = false
    end;
  law_send st msgs m w : svc_ok w → session st true msgs w →
    let '((e, st'), w') := Send st m w in
    svc_ok w' ∧ (∀ f, store_of w' f = store_of w f) ∧
    session st' (bool_decide (e = None)) (msgs ++ [m]) w';
  law_close st fid size aliasFor chunks w : svc_ok w →
    is_u64 fid → is_u64 size → is_u64 aliasFor →
    session st true (PutHeader fid size aliasFor :: (PutChunk <$> chunks)) w →
    match CloseAndRecv st w with
    | (None, w') => svc_ok w' ∧ fresh_put fid (concat chunks) aliasFor (store_of w) ∧
        Z.of_nat (length (concat chunks)) = size ∧
        ∀ f, store_of w' f = store_put fid (concat chunks) aliasFor (store_of w) f
    | (Some e, w') => svc_ok w' ∧
        ((∀ f, store_of w' f = store_of w f) ∧
         (isIdempotentConflict e = true →
          ∃ f, (f = fid ∨ (f = aliasFor ∧ aliasFor ≠ 0)) ∧ (is_Some (store_of w' f) ∨ busy w' f)) ∨
         (* the response to a put that was committed is lost *)
         IsConflict e = false ∧ fresh_put fid (concat chunks) aliasFor (store_of w) ∧
         Z.of_nat (length (concat chunks)) = size ∧
         ∀ f, store_of w' f = store_put fid (concat chunks) aliasFor (store_of w) f)
    end;
  law_ended st fid size aliasFor chunks w : svc_ok w →
    session st false (PutHeader fid size aliasFor :: (PutChunk <$> chunks)) w →
    match CloseAndRecv st w with
    | (None, _) => False
    | (Some e, w') => svc_ok w' ∧ (∀ f, store_of w' f = store_of w f) ∧
        (isIdempotentConflict e = true →
         ∃ f, (f = fid ∨ (f = aliasFor ∧ aliasFor ≠ 0)) ∧ (is_Some (store_of w' f) ∨ busy w' f))
    end;
  law_abandon st fid size aliasFor chunks w : svc_ok w →
    is_u64 fid → is_u64 size → is_u64 aliasFor →
    session st true (PutHeader fid size aliasFor :: (PutChunk <$> chunks)) w →
    Z.of_nat (length (concat chunks)) < size →
    svc_ok (CloseSend st w) ∧ ∀ f, store_of (CloseSend st w) f = store_of w f;
  law_get req w : svc_ok w → is_u64 (gq_range_start req) → is_u64 (gq_range_end req) →
    let '((out, st), w') := pb_Get req w in
    svc_ok w' ∧ (∀ f, store_of w' f = store_of w f) ∧
    match store_of w (gq_fid req) with
    | None => ∃ e, st = Some e ∧ IsNotFound e = true
    | Some l =>
        match get_range req (Z.of_nat (length l)) with
        | None => ∃ e, st = Some e ∧ IsInvalidArgument e = true
        | Some (a, b) => st = None ∧ out ≠ [] ∧ received out = slice l a b ∧
            covers out a b ∧ Forall (message_ok (Z.of_nat (length l))) out
        end
    end;
  law_head fid w : svc_ok w →
    let '(out, w') := pb_Head fid w in
    svc_ok w' ∧ (∀ f, store_of w' f = store_of w f) ∧
    match store_of w fid with
    | None => ∃ e, out = inr e ∧ IsNotFound e = true
    | Some l => out = inl (Z.of_nat (length l))
    end;
  law_health w : svc_ok w →
    svc_ok (pb_Health w).2 ∧ ∀ f, store_of (pb_Health w).2 f = store_of w f;
  law_bonnie w : svc_ok w →
    svc_ok (pb_Bonnie w).2 ∧ ∀ f, store_of (pb_Bonnie w).2 f = store_of w f
}.

(** ** Readers as lists *)
Definition rest_of (r : stream) : list byte :=
  bytes_at (bat (st_data r)) (st_pos r) (Z.to_nat (st_remaining r)).

Lemma rest_NewReader data : rest_of (NewReader data) = data.
Proof.
  unfold rest_of, st_remaining. cbn [NewReader st_data st_pos blen buf_of].
  rewrite Z.sub_0_r, Nat2Z.id. apply bytes_at_buf_of.
Qed.

Lemma ReadFull_rest want r :
  0 ≤ want →
  let '((b, err), r') := ReadFull want r in
  buf_list b = take (Z.to_nat want) (rest_of r) ∧ blen b = Z.of_nat (length (buf_list b)) ∧
  rest_of r' = drop (Z.to_nat want) (rest_of r) ∧ st_err r' = st_err r ∧
  (err = None ↔ want ≤ Z.of_nat (length (rest_of r))).
Proof.
  intros Hw. unfold ReadFull. set (av := clamp 0 want (st_remaining r)).
  assert (Hlen : Z.of_nat (length (rest_of r)) = Z.max 0 (st_remaining r))
    by (unfold rest_of; rewrite length_bytes_at; lia).
  assert (Hav : 0 ≤ av ∧ av = Z.min want (Z.max 0 (st_remaining r))) by (unfold av, clamp; lia).
  assert (Hb : buf_list (buf_slice (st_data r) (st_pos r) (st_pos r + av))
    = take (Z.to_nat want) (rest_of r)).
  { rewrite buf_list_bytes_at. cbn [buf_slice blen bat].
    replace (st_pos r + av - st_pos r) with av by lia.
    transitivity (bytes_at (bat (st_data r)) (st_pos r) (Z.to_nat av)).
    { unfold bytes_at. apply list_fmap_ext. intros. cbn. f_equal. }
    unfold rest_of. destruct (Z.le_gt_cases want (Z.max 0 (st_remaining r))).
    - replace (Z.to_nat want) with (Z.to_nat av) by lia.
      rewrite (bytes_at_take _ _ (Z.to_nat (st_remaining r)) (Z.to_nat av)) by lia. done.
    - rewrite take_ge by (rewrite length_bytes_at; lia). f_equal. lia. }
  split; [done|]. split; [rewrite length_buf_list; cbn [buf_slice blen]; lia|].
  split; [|split; [done|]].
  - unfold rest_of, st_remaining. cbn [st_data st_pos].
    destruct (Z.le_gt_cases want (Z.max 0 (st_remaining r))) as [Hle|Hgt].
    + replace (Z.to_nat (blen (st_data r) - (st_pos r + av)))
        with (Z.to_nat (st_remaining r) - Z.to_nat want)%nat by (unfold st_remaining in *; lia).
      rewrite <- (bytes_at_drop _ _ (Z.to_nat (blen (st_data r) - st_pos r)) (Z.to_nat want))
        by (unfold st_remaining in *; lia).
      replace (st_pos r + Z.of_nat (Z.to_nat want)) with (st_pos r + av) by lia. done.
    + rewrite drop_ge by (rewrite length_bytes_at; unfold st_remaining in *; lia).
      replace (Z.to_nat (blen (st_data r) - (st_pos r + av))) with 0%nat by (unfold st_remaining in *; lia).
      done.
  - rewrite Hlen. destruct (Z.eqb_spec av want); split; intros; try done; try lia.
Qed.

(** ** Putting *)
Section put.
Context {W : Type} `{!BSOSClient W} `{!PoolService W}.
Context (Hash : list byte → Z) (chunkSize : Z) (Hchunk : 0 < chunkSize).

(** Nothing has changed, and a conflict on a registered fid is one. *)
Definition refused (w : W) (fid aliasFor : Z) (e : cerror) (w' : W) : Prop :=
  svc_ok w' ∧ (∀ f, store_of w' f = store_of w f) ∧
  (isIdempotentConflict e = true →
   ∃ f, (f = fid ∨ (f = aliasFor ∧ aliasFor ≠ 0)) ∧ (is_Some (store_of w' f) ∨ busy w' f)).

(** The first [size] bytes of [l] have been registered. *)
Definition registered (w : W) (fid size aliasFor : Z) (l : list byte) (w' : W) : Prop :=
  fresh_put fid (take (Z.to_nat size) l) aliasFor (store_of w) ∧ size ≤ Z.of_nat (length l) ∧
  ∀ f, store_of w' f = store_put fid (take (Z.to_nat size) l) aliasFor (store_of w) f.

(** The outcome of a Put of the bytes [l]: registered, refused, or registered with the response lost. *)
Definition put_outcome (w : W) (fid size aliasFor : Z) (l : list byte) (out : option cerror * W) : Prop :=
  match out with
  | (None, w') => svc_ok w' ∧ registered w fid size aliasFor l w'
  | (Some e, w') => refused w fid aliasFor e w' ∨
      svc_ok w' ∧ IsConflict e = false ∧ registered w fid size aliasFor l w'
  end.

(** What has been sent when [sent] bytes of [l] have. *)
Definition sending (w0 : W) (fid size aliasFor : Z) (l : list byte)
    '((sent, st, r, w) : Z * put_stream * stream * W) : Prop :=
  0 ≤ sent ≤ size ∧ svc_ok w ∧ (∀ f, store_of w f = store_of w0 f) ∧
  sent ≤ Z.of_nat (length l) ∧ rest_of r = drop (Z.to_nat sent) l ∧
  ∃ chunks, session st true (PutHeader fid size aliasFor :: (PutChunk <$> chunks)) w ∧
    concat chunks = take (Z.to_nat sent) l ∧
    Forall (λ c, Z.of_nat (length c) ≤ chunkSize) chunks.

Lemma store_put_ext fid l aliasFor (m m' : store) f :
  (∀ f, m f = m' f) → store_put fid l aliasFor m f = store_put fid l aliasFor m' f.
Proof. intros H. unfold store_put. rewrite H. done. Qed.

Lemma recv_or_refused w0 fid size aliasFor l chunks st e w :
  svc_ok w → (∀ f, store_of w f = store_of w0 f) →
  session st false (PutHeader fid size aliasFor :: (PutChunk <$> chunks)) w →
  put_outcome w0 fid size aliasFor l (recv_or st e w) ∧ ∃ e', (recv_or st e w).1 = Some e'.
Proof.
  intros Hok Hs Hse. pose proof (law_ended st fid size aliasFor chunks w Hok Hse) as H.
  unfold recv_or. destruct (CloseAndRecv st w) as [[e'|] w']; [|done].
  destruct H as (Hok' & Hs' & Ha). split; [|by exists e']. left. split; [done|]. split; [|done].
  intros f. by rewrite Hs', Hs.
Qed.

Lemma close_outcome w0 fid size aliasFor l st r w :
  is_u64 fid → is_u64 size → is_u64 aliasFor →
  sending w0 fid size aliasFor l (size, st, r, w) →
  put_outcome w0 fid size aliasFor l (CloseAndRecv st w).
Proof.
  intros H1 H2 H3 (_ & Hok & Hs & Hle & _ & chunks & Hse & Hcc & _).
  pose proof (law_close st fid size aliasFor chunks w Hok H1 H2 H3 Hse) as H. unfold put_outcome.
  assert (Hreg : ∀ w', fresh_put fid (concat chunks) aliasFor (store_of w) →
    (∀ f, store_of w' f = store_put fid (concat chunks) aliasFor (store_of w) f) →
    registered w0 fid size aliasFor l w').
  { intros w' Hn Hp. rewrite Hcc in *. split_and!; try done.
    - unfold fresh_put in *. by rewrite <- !Hs.
    - intros f. rewrite Hp. by apply store_put_ext. }
  destruct (CloseAndRecv st w) as [[e|] w'].
  - destruct H as [Hok' [[Hs' Ha]|(Hnc & Hn & _ & Hp)]]; [left|right; auto].
    split; [done|]. split; [|done]. intros f. by rewrite Hs', Hs.
  - destruct H as (Hok' & Hn & _ & Hp). auto.
Qed.

Lemma abandon_outcome w0 fid size aliasFor l sent st r w e :
  is_u64 fid → is_u64 size → is_u64 aliasFor → isIdempotentConflict e = false →
  sending w0 fid size aliasFor l (sent, st, r, w) → sent < size →
  put_outcome w0 fid size aliasFor l (Some e, CloseSend st w).
Proof.
  intros H1 H2 H3 He (Hsent & Hok & Hs & Hle & _ & chunks & Hse & Hcc & _) Hlt.
  destruct (law_abandon st fid size aliasFor chunks w Hok H1 H2 H3 Hse) as [Hok' Hs'].
  { rewrite Hcc, length_take. lia. }
  left. split; [done|]. split; [intros f; by rewrite Hs', Hs|]. by rewrite He.
Qed.

(** One chunk: it is sent, or the stream has ended. *)
Lemma send_step w0 fid size aliasFor l sent st r w :
  sending w0 fid size aliasFor l (sent, st, r, w) → sent < size →
  let want := Z.min chunkSize (size - sent) in
  let '((b, readErr), r') := ReadFull want r in
  let '(sendErr, st', w') :=
    if 0 <? blen b
    then let '((e, st), w) := Send st (PutChunk (buf_list b)) w in (e, st, w)
    else (None, st, w) in
  match sendErr with
  | Some _ => svc_ok w' ∧ (∀ f, store_of w' f = store_of w0 f) ∧
      ∃ chunks, session st' false (PutHeader fid size aliasFor :: (PutChunk <$> chunks)) w'
  | None => sending w0 fid size aliasFor l (sent + blen b, st', r', w') ∧
      match readErr with Some _ => sent + blen b < size | None => blen b = want end
  end.
Proof.
  intros (Hsent & Hok & Hs & Hle & Hr & chunks & Hse & Hcc & Hfa) Hlt want.
  pose proof (ReadFull_rest want r ltac:(lia)) as H. destruct (ReadFull want r) as [[b readErr] r'].
  destruct H as (Hb & Hbl & Hr' & _ & Hnone). rewrite Hr in *. rewrite drop_drop in Hr'.
  rewrite length_drop in Hnone.
  assert (Hlen : blen b = Z.min want (Z.of_nat (length l) - sent))
    by (rewrite Hbl, Hb, length_take, length_drop; lia).
  assert (Herr : match readErr with Some _ => sent + blen b < size | None => blen b = want end).
  { destruct readErr; [|assert (want ≤ Z.of_nat (length l - Z.to_nat sent)) by (by apply Hnone); lia].
    destruct (Z.le_gt_cases want (Z.of_nat (length l - Z.to_nat sent))); [|lia].
    by assert (Some e = None) by (by apply Hnone). }
  destruct (Z.ltb_spec 0 (blen b)) as [Hpos|Hz].
  - pose proof (law_send st _ (PutChunk (buf_list b)) w Hok Hse) as Hsend.
    destruct (Send st _ w) as [[e st'] w']. destruct Hsend as (Hok' & Hs' & Hse').
    change (PutHeader fid size aliasFor :: (PutChunk <$> chunks)) with
      ([PutHeader fid size aliasFor] ++ (PutChunk <$> chunks)) in Hse'.
    rewrite <- app_assoc in Hse'. change [PutChunk (buf_list b)] with (PutChunk <$> [buf_list b]) in Hse'.
    rewrite <- fmap_app in Hse'. destruct e as [e|].
    + split; [done|]. split; [intros f; by rewrite Hs', Hs|]. by exists (chunks ++ [buf_list b]).
    + split; [|done]. split; [lia|]. split; [done|]. split; [intros f; by rewrite Hs', Hs|].
      split; [lia|]. split.
      { rewrite Hr'. destruct (Z.le_gt_cases want (Z.of_nat (length l) - sent)).
        - f_equal. lia.
        - by rewrite !drop_ge by lia. }
      exists (chunks ++ [buf_list b]). split; [done|]. split.
      * rewrite concat_app, Hcc, Hb. cbn [concat]. rewrite app_nil_r.
        replace (Z.to_nat (sent + blen b)) with (Z.to_nat sent + Z.to_nat (blen b))%nat by lia.
        rewrite <- take_take_drop. f_equal. rewrite Hlen.
        destruct (Z.le_gt_cases want (Z.of_nat (length l) - sent)); [f_equal; lia|].
        by rewrite !take_ge by (rewrite length_drop; lia).
      * apply Forall_app. split; [done|]. apply Forall_singleton. rewrite <- Hbl. lia.
  - split; [|done]. replace (blen b) with 0 in * by lia. rewrite Z.add_0_r.
    split; [lia|]. split; [done|]. split; [done|]. split; [done|]. split; [|by eauto].
    rewrite Hr'. rewrite !drop_ge by lia. done.
Qed.

Lemma put_chunks_outcome w0 fid size aliasFor l s :
  is_u64 fid → is_u64 size → is_u64 aliasFor → sending w0 fid size aliasFor l s →
  put_outcome w0 fid size aliasFor l (put_chunks chunkSize size s).
Proof using Hchunk.
  intros H1 H2 H3 Hs. unfold put_chunks.
  edestruct (loop_total (sending w0 fid size aliasFor l) (λ '(sent, _, _, _), size - sent)
    (put_outcome w0 fid size aliasFor l) (Z.to_pos (size + 1)))
    as (r & -> & Hr); [exact Hs| |clear s Hs|exact Hr].
  { destruct s as [[[sent st] r] w]. destruct Hs as [Hs _]. unfold is_u64 in H2. lia. }
  intros [[[sent st] r] w] HI _. destruct (Z.ltb_spec sent size) as [Hlt|Hge].
  2:{ assert (sent = size) as -> by (destruct HI as [? _]; lia). rewrite Z.eqb_refl. cbn [negb].
      by eapply close_outcome. }
  pose proof (send_step w0 fid size aliasFor l sent st r w HI Hlt) as H. cbv zeta in H.
  destruct (ReadFull _ r) as [[b readErr] r']. cbv zeta.
  destruct (if 0 <? blen b then _ else _) as [[sendErr st'] w'].
  destruct sendErr as [e|].
  { destruct H as (Hok & Hst & chunks & Hse).
    destruct (recv_or_refused w0 fid size aliasFor l chunks st' e w' Hok Hst Hse) as [Ho [e' He]].
    destruct (recv_or st' e w') as [o w'']. cbn [fst] in He. subst o. exact Ho. }
  destruct H as [HI' Herr]. destruct readErr as [e|].
  - destruct (is_eof e); [rewrite (proj2 (Z.ltb_lt _ _)) by done|];
      by eapply abandon_outcome.
  - split; [done|]. destruct HI' as [? _]. lia.
Qed.

Lemma Put_service fid size aliasFor r w :
  svc_ok w → is_u64 fid → is_u64 size → is_u64 aliasFor →
  put_outcome w fid size aliasFor (rest_of r) (Put chunkSize fid size aliasFor r w).
Proof using Hchunk.
  intros Hok H1 H2 H3. unfold Put. pose proof (law_open w Hok) as Ho.
  destruct (pb_Put w) as [[st|e] w1].
  2:{ destruct Ho as (Hok1 & Hs1 & He). left. split; [done|]. split; [done|]. by rewrite He. }
  destruct Ho as (Hok1 & Hs1 & Hse). pose proof (law_send st [] (PutHeader fid size aliasFor) w1 Hok1 Hse) as H.
  destruct (Send st _ w1) as [[e st'] w2]. destruct H as (Hok2 & Hs2 & Hse2).
  assert (Hs : ∀ f, store_of w2 f = store_of w f) by (intros f; by rewrite Hs2, Hs1).
  destruct e as [e|].
  - destruct (recv_or_refused w fid size aliasFor (rest_of r) [] st' e w2 Hok2 Hs Hse2) as [Hput [e' He]].
    destruct (recv_or st' e w2) as [o w'']. cbn [fst] in He. subst o. exact Hput.
  - apply put_chunks_outcome; [done..|]. split; [unfold is_u64 in H2; lia|]. split; [done|]. split; [done|].
    split; [lia|]. split; [done|]. exists []. split; [exact Hse2|]. split; [done|constructor].
Qed.
End put.

(** ** The jump codes *)
Section jumps.
Context {W : Type} `{!BSOSClient W} `{!PoolService W}.
Context (Hash : list byte → Z) (chunkSize : Z) (Hchunk : 0 < chunkSize).
Context (Hhash : ∀ l, is_u64 (Hash l)).

(** What a put of [data] under the jump code [code] has done; code 0 is the direct put. *)
Definition placed (w : W) (data : list byte) (maxJumps code : Z) (w' : W) : Prop :=
  if decide (code = 0) then
    fresh_put (Hash data) data 0 (store_of w) ∧
    ∀ f, store_of w' f = store_put (Hash data) data 0 (store_of w) f
  else
    let jumpData := jump_data data code in
    1 ≤ code ≤ maxJumps ∧ fresh_put (Hash jumpData) jumpData (Hash data) (store_of w) ∧
    ∀ f, store_of w' f = store_put (Hash jumpData) jumpData (Hash data) (store_of w) f.

(** What a successful [PutWithJumpRetry] has done. *)
Definition jumped (w : W) (data : list byte) (maxJumps : Z) (j : JumpResult) (w' : W) : Prop :=
  let fid := Hash data in
  j_FID j = fid ∧
  if j_IsDuplicate j then
    j_TargetFID j = fid ∧ j_JumpsTaken j = 0 ∧ (∀ f, store_of w' f = store_of w f) ∧
    (is_Some (store_of w' fid) ∨ busy w' fid)
  else
    j_TargetFID j = (if decide (j_JumpsTaken j = 0) then fid else Hash (jump_data data (j_JumpsTaken j))) ∧
    placed w data maxJumps (j_JumpsTaken j) w'.

(** A failure changes nothing, or it lost the response to the last put. *)
Definition jump_outcome (w : W) (data : list byte) (maxJumps : Z)
    '((j, err, w') : (JumpResult * option cerror) * W) : Prop :=
  svc_ok w' ∧
  match err with
  | Some e => (∀ f, store_of w' f = store_of w f) ∨
      IsConflict e = false ∧ placed w data maxJumps (j_JumpsTaken j) w'
  | None => jumped w data maxJumps j w'
  end.

Lemma placed_ext w0 w data maxJumps code w' :
  (∀ f, store_of w f = store_of w0 f) → placed w data maxJumps code w' → placed w0 data maxJumps code w'.
Proof.
  intros Hs. unfold placed, fresh_put. rewrite <- !Hs. case_decide; cbv zeta.
  - intros [? Hst]. split; [done|]. intros f. rewrite Hst. by apply store_put_ext.
  - intros (? & ? & Hst). split; [done|]. split; [done|]. intros f. rewrite Hst. by apply store_put_ext.
Qed.

Lemma jump_outcome_ext w0 w data maxJumps out :
  (∀ f, store_of w f = store_of w0 f) → jump_outcome w data maxJumps out →
  jump_outcome w0 data maxJumps out.
Proof.
  intros Hs. destruct out as [[j [e|]] w']; intros [Hok H]; (split; [done|]).
  - destruct H as [H|[? H]]; [left; intros f; by rewrite H, Hs|right; split; [done|by eapply placed_ext]].
  - destruct H as [Hf H]. split; [done|]. destruct (j_IsDuplicate j).
    + destruct H as (? & ? & Hst & ?). split_and!; try done. intros f. by rewrite Hst, Hs.
    + destruct H as [? H]. split; [done|]. by eapply placed_ext.
Qed.

Lemma length_jump_data data code : length (jump_data data code) = S (length data).
Proof. unfold jump_data. rewrite length_app. cbn. lia. Qed.

Lemma take_whole (l : list byte) : take (Z.to_nat (Z.of_nat (length l))) l = l.
Proof. apply take_ge. lia. Qed.

Lemma try_jumps_outcome data maxJumps codes w :
  svc_ok w → Z.of_nat (length data) < 2 ^ 63 → Forall (λ code, 1 ≤ code ≤ maxJumps) codes →
  jump_outcome w data maxJumps (try_jumps Hash chunkSize data (Hash data) maxJumps codes w).
Proof using Hchunk Hhash.
  intros Hok Hlen Hc. revert w Hok. induction Hc as [|code codes Hcode Hc IH]; intros w Hok; [by split; [|left]|].
  cbn [try_jumps]. unfold ComputeFID. set (jd := jump_data data code).
  assert (Hjd : Z.of_nat (length jd) < 2 ^ 64) by (unfold jd; rewrite length_jump_data; lia).
  pose proof (Put_service chunkSize Hchunk (Hash jd) (Z.of_nat (length jd)) (Hash data) (NewReader jd) w
    Hok (Hhash _) ltac:(unfold is_u64; lia) (Hhash _)) as Hput.
  assert (Hpl : ∀ w', registered w (Hash jd) (Z.of_nat (length jd)) (Hash data) (rest_of (NewReader jd)) w' →
    placed w data maxJumps code w').
  { intros w' (Hfr & _ & Hs). rewrite rest_NewReader, take_whole in *. unfold placed.
    rewrite decide_False by lia. done. }
  destruct (Put chunkSize _ _ _ _ w) as [[e|] w']; unfold put_outcome, refused in Hput.
  - destruct Hput as [(Hok' & Hs & _)|(Hok' & Hnc & Hreg)].
    + destruct (negb (IsConflict e)); [by split; [|left]|].
      eapply jump_outcome_ext; [exact Hs|]. by apply IH.
    + rewrite Hnc. split; [done|]. right. auto.
  - destruct Hput as [Hok' Hreg]. split; [done|]. split; [done|].
    cbn [j_TargetFID j_JumpsTaken j_IsDuplicate]. rewrite decide_False by lia. auto.
Qed.

Lemma max_jumps_range opts : 1 ≤ max_jumps opts ≤ 255.
Proof.
  unfold max_jumps, MaxJumpCode. destruct opts as [m|]; [|lia]. destruct (Z.ltb_spec 0 m); lia.
Qed.

Lemma PutWithJumpRetry_outcome data opts w :
  svc_ok w → Z.of_nat (length data) < 2 ^ 63 →
  jump_outcome w data (max_jumps opts) (PutWithJumpRetry Hash chunkSize data opts w).
Proof using Hchunk Hhash.
  intros Hok Hlen. unfold PutWithJumpRetry, ComputeFID.
  pose proof (Put_service chunkSize Hchunk (Hash data) (Z.of_nat (length data)) 0 (NewReader data) w
    Hok (Hhash _) ltac:(unfold is_u64; lia) ltac:(unfold is_u64; lia)) as Hput.
  assert (Hpl : ∀ w', registered w (Hash data) (Z.of_nat (length data)) 0 (rest_of (NewReader data)) w' →
    placed w data (max_jumps opts) 0 w').
  { intros w' (Hfr & _ & Hs). rewrite rest_NewReader, take_whole in *. unfold placed. by rewrite decide_True. }
  destruct (Put chunkSize _ _ _ _ w) as [[e|] w']; unfold put_outcome, refused in Hput.
  - destruct Hput as [(Hok' & Hs & Hid)|(Hok' & Hnc & Hreg)].
    2:{ rewrite Hnc. split; [done|]. right. auto. }
    destruct (negb (IsConflict e)) eqn:Ec; [by split; [|left]|].
    destruct (isIdempotentConflict e) eqn:Ei.
    + split; [done|]. split; [done|]. cbn. split_and!; try done.
      destruct (Hid eq_refl) as (f & [->|[_ []]] & Hf); done.
    + eapply jump_outcome_ext; [exact Hs|]. apply try_jumps_outcome; [done|done|].
      apply Forall_forall. intros code Hin%elem_of_seqZ. lia.
  - destruct Hput as [Hok' Hreg]. split; [done|]. split; [done|].
    cbn [j_TargetFID j_JumpsTaken j_IsDuplicate]. rewrite decide_True by done. auto.
Qed.

(** The object is readable under its own fid, unless that is the fid no alias can name. *)
Lemma placed_readable w data maxJumps code w' :
  placed w data maxJumps code w' → Hash data ≠ 0 ∨ code = 0 → store_of w' (Hash data) = Some data.
Proof.
  unfold placed. intros H Hz. case_decide as Ht.
  - destruct H as [_ ->]. unfold store_put. rewrite decide_False by naive_solver. by rewrite decide_True.
  - destruct H as (_ & _ & ->). unfold store_put. rewrite decide_True by naive_solver.
    f_equal. rewrite length_jump_data. cbn [Nat.sub]. rewrite Nat.sub_0_r. unfold jump_data.
    by rewrite take_app_length.
Qed.

Lemma jumped_readable w data maxJumps j w' :
  jumped w data maxJumps j w' → j_IsDuplicate j = false → Hash data ≠ 0 ∨ j_JumpsTaken j = 0 →
  store_of w' (Hash data) = Some data.
Proof. intros [_ H] Hd. rewrite Hd in H. by apply (placed_readable w data maxJumps), H. Qed.

(** Every other object keeps its bytes. *)
Lemma placed_others w data maxJumps code w' f l :
  placed w data maxJumps code w' → store_of w f = Some l → store_of w' f = Some l.
Proof.
  unfold placed. intros H Hf. case_decide.
  - destruct H as [(Hn & _) Hs]. rewrite Hs. unfold store_put.
    rewrite decide_False by (by intros [_ []]).
    rewrite decide_False by congruence. done.
  - destruct H as (_ & (Hn & _ & Ha) & Hs). rewrite Hs. unfold store_put.
    rewrite decide_False; [|intros [-> Hne]; destruct (Ha Hne) as (_ & ? & _); congruence].
    rewrite decide_False by congruence. done.
Qed.

Lemma jumped_others w data maxJumps j w' f l :
  jumped w data maxJumps j w' → store_of w f = Some l → store_of w' f = Some l.
Proof.
  intros [_ H] Hf. destruct (j_IsDuplicate j).
  - destruct H as (_ & _ & Hs & _). by rewrite Hs.
  - by eapply placed_others; [apply H|].
Qed.

(** A failure loses nothing either. *)
Lemma jump_outcome_others w data maxJumps j err w' f l :
  jump_outcome w data maxJumps (j, err, w') → store_of w f = Some l → store_of w' f = Some l.
Proof.
  intros [_ H] Hf. destruct err as [e|]; [|by eapply jumped_others].
  destruct H as [H|[_ H]]; [by rewrite H|by eapply placed_others].
Qed.
End jumps.

(** ** Reading *)
Section get.
Context {W : Type} `{!BSOSClient W} `{!PoolService W}.

Lemma recv_all_buffer msgs totalSize written x size :
  Forall (λ m, gr_size m = size) msgs →
  recv_all buffer_write msgs None totalSize written x =
    ((match msgs with [] => totalSize | _ => size end,
      written + Z.of_nat (length (received msgs)), None), x ++ received msgs).
Proof.
  intros Hm. revert totalSize written x. induction Hm as [|m msgs Hs Hm IH]; intros ts wr x.
  { cbn. by rewrite Z.add_0_r, app_nil_r. }
  cbn [recv_all]. unfold received. cbn [fmap list_fmap concat]. fold (received msgs).
  rewrite Hs. destruct (gr_data m) as [|b data] eqn:Ed.
  - rewrite IH. cbn [app]. by destruct msgs.
  - unfold buffer_write at 1. rewrite IH. rewrite length_app, <- app_assoc.
    replace (wr + Z.of_nat (length (b :: data)) + Z.of_nat (length (received msgs)))
      with (wr + Z.of_nat (length (b :: data) + length (received msgs))) by lia.
    by destruct msgs.
Qed.

Lemma recv_all_err msgs e totalSize written x :
  (recv_all buffer_write msgs (Some e) totalSize written x).1.2 = Some e.
Proof.
  revert totalSize written x. induction msgs as [|m msgs IH]; intros ts wr x; [done|].
  cbn [recv_all]. destruct (gr_data m); cbn; apply IH.
Qed.

Definition range_u64 (optRange : option (Z * Z)) : Prop :=
  match optRange with Some (a, b) => is_u64 a ∧ is_u64 b | None => True end.

(** The slice of an object of [size] bytes the options of a Get select. *)
Definition range_of (optRange : option (Z * Z)) (size : Z) : option (Z * Z) :=
  get_range (request 0 optRange) size.

Lemma Get_service fid optRange w :
  svc_ok w → range_u64 optRange →
  let '((total, written, err), x, w') := Get buffer_write fid optRange [] w in
  svc_ok w' ∧ (∀ f, store_of w' f = store_of w f) ∧
  match store_of w fid with
  | None => ∃ e, err = Some e ∧ IsNotFound e = true
  | Some l =>
      match range_of optRange (Z.of_nat (length l)) with
      | None => ∃ e, err = Some e ∧ IsInvalidArgument e = true
      | Some (a, b) => err = None ∧ total = Z.of_nat (length l) ∧ x = slice l a b ∧
          written = Z.of_nat (length x)
      end
  end.
Proof.
  intros Hok Hr. unfold Get.
  pose proof (law_get (request fid optRange) w Hok) as H.
  assert (Hreq : gq_fid (request fid optRange) = fid) by (by destruct optRange as [[? ?]|]).
  assert (Hrange : ∀ n, get_range (request fid optRange) n = range_of optRange n)
    by (intros n; by destruct optRange as [[? ?]|]).
  destruct (pb_Get (request fid optRange) w) as [[msgs final] w'].
  destruct H as (Hok' & Hs & H); [by destruct optRange as [[? ?]|]; [apply Hr|]..|].
  rewrite Hreq in H. destruct (store_of w fid) as [l|].
  - rewrite Hrange in H. destruct (range_of optRange _) as [[a b]|].
    + destruct H as (-> & Hne & Hrec & _ & Hmsgs).
      assert (Hsz : Forall (λ m, gr_size m = Z.of_nat (length l)) msgs) by (eapply Forall_impl; [exact Hmsgs|by intros m [? _]]).
      rewrite (recv_all_buffer msgs 0 0 [] _ Hsz).
      split; [done|]. split; [done|]. cbn [app]. rewrite Hrec. split_and!; try done.
      by destruct msgs.
    + destruct H as (e & -> & He).
      pose proof (recv_all_err msgs e 0 0 []) as Herr.
      destruct (recv_all buffer_write msgs (Some e) 0 0 []) as [[[t wr] err] x]. eauto.
  - destruct H as (e & -> & He).
    pose proof (recv_all_err msgs e 0 0 []) as Herr.
    destruct (recv_all buffer_write msgs (Some e) 0 0 []) as [[[t wr] err] x]. eauto.
Qed.

Lemma GetBytes_service fid optRange w :
  svc_ok w → range_u64 optRange →
  let '(out, w') := GetBytes fid optRange w in
  svc_ok w' ∧ (∀ f, store_of w' f = store_of w f) ∧
  match store_of w fid with
  | None => ∃ e, out = inr e ∧ IsNotFound e = true
  | Some l =>
      match range_of optRange (Z.of_nat (length l)) with
      | None => ∃ e, out = inr e ∧ IsInvalidArgument e = true
      | Some (a, b) => out = inl (slice l a b)
      end
  end.
Proof.
  intros Hok Hr. pose proof (Get_service fid optRange w Hok Hr) as H. unfold GetBytes.
  destruct (Get buffer_write fid optRange [] w) as [[[[t wr] err] x] w'].
  destruct H as (Hok' & Hs & H). destruct (store_of w fid) as [l|];
    [destruct (range_of optRange _) as [[a b]|]|].
  - destruct H as (-> & _ & -> & _). done.
  - destruct H as (e & -> & He). split; [done|]. split; [done|]. by exists e.
  - destruct H as (e & -> & He). split; [done|]. split; [done|]. by exists e.
Qed.

Lemma slice_whole (l : list byte) : slice l 0 (Z.of_nat (length l)) = l.
Proof. unfold slice. rewrite Z.sub_0_r, Nat2Z.id. cbn [Z.to_nat]. rewrite drop_0. by apply take_ge. Qed.

(** Without a range the whole object comes back. *)
Lemma GetBytes_whole fid w :
  svc_ok w →
  let '(out, w') := GetBytes fid None w in
  svc_ok w' ∧ (∀ f, store_of w' f = store_of w f) ∧
  match store_of w fid with
  | None => ∃ e, out = inr e ∧ IsNotFound e = true
  | Some l => out = inl l
  end.
Proof.
  intros Hok. pose proof (GetBytes_service fid None w Hok I) as H.
  destruct (GetBytes fid None w) as [out w']. destruct (store_of w fid) as [l|]; [|done].
  change (range_of None (Z.of_nat (length l))) with (Some (0, Z.of_nat (length l))) in H.
  cbn iota beta in H. by rewrite slice_whole in H.
Qed.

(** ** Verifying *)

(** The answer of a reading that found the object. *)
Definition verify_answer (compare : bool) (expected l : list byte) : bool :=
  if compare then bool_decide (l = expected) else Z.of_nat (length l) =? Z.of_nat (length expected).

Lemma verify_once_service compare fid expected w :
  svc_ok w →
  let '(out, w') := verify_once compare fid expected w in
  svc_ok w' ∧ (∀ f, store_of w' f = store_of w f) ∧
  out = match store_of w fid with None => None | Some l => Some (inl (verify_answer compare expected l)) end.
Proof.
  intros Hok. unfold verify_once, Head. destruct compare.
  - pose proof (GetBytes_whole fid w Hok) as H. destruct (GetBytes fid None w) as [[got|e] w'];
      destruct H as (Hok' & Hs & H); (split; [done|]; split; [done|]);
      destruct (store_of w fid) as [l|]; try done.
    + by injection H as ->.
    + by destruct H as (? & ? & _).
    + destruct H as (e' & [= ->] & ->). done.
  - pose proof (law_head fid w Hok) as H. destruct (pb_Head fid w) as [[size|e] w'];
      destruct H as (Hok' & Hs & H); (split; [done|]; split; [done|]);
      destruct (store_of w fid) as [l|]; try done.
    + by injection H as ->.
    + by destruct H as (? & ? & _).
    + destruct H as (e' & [= ->] & ->). done.
Qed.

Lemma verify_attempts_service n wait first compare backoff fid expected w :
  svc_ok w → (∀ b, wait b = None) →
  let '((b, err), w') := verify_attempts n wait first compare backoff fid expected w in
  svc_ok w' ∧ (∀ f, store_of w' f = store_of w f) ∧
  match store_of w fid with
  | None => b = false ∧ err ≠ None
  | Some l => if decide (n = 0%nat) then b = false ∧ err ≠ None
              else err = None ∧ b = verify_answer compare expected l
  end.
Proof.
  intros Hok Hw. revert first backoff w Hok. induction n as [|n IH]; intros first backoff w Hok.
  { cbn. split; [done|]. split; [done|]. by destruct (store_of w fid). }
  cbn [verify_attempts]. replace (if first then None else wait backoff) with (@None error) by (by destruct first).
  pose proof (verify_once_service compare fid expected w Hok) as H.
  destruct (verify_once compare fid expected w) as [out w']. destruct H as (Hok' & Hs & ->).
  destruct (store_of w fid) as [l|] eqn:Ef; [done|].
  match goal with |- context [verify_attempts n wait false compare ?b fid expected w'] =>
    specialize (IH false b w' Hok'); destruct (verify_attempts n wait false compare b fid expected w')
      as [[bb err] w''] end.
  rewrite Hs, Ef in IH. destruct IH as (Hok'' & Hs' & H). split; [done|]. split; [|done].
  intros f. by rewrite Hs', Hs.
Qed.
End get.
