(* ===== verification/ServerService.v ===== *)
(** * The server as the client's service

    The client joined to the RPC handlers of Server.v by a transport that delivers every message: the
    instance [loopback_service] discharges the laws of [PoolService], so the theorems about the
    client hold of the whole system, from [PutWithJumpRetry] to the bytes on the disks.  The disks
    have no faults; the contexts of the calls may still end, and the server may refuse. *)

From S2P Require Import Prelude Machine Loop Float Device Layout IndexScan PackedTable Interval.
From S2P Require Import Replay DirectIO DeviceState DeviceInv DeviceOps DiskStore Gate Chd Text.
From S2P Require Import Config MultiDisk Reader Server Pool Serve Client Service.
From Stdlib Require Import Strings.Byte.

(** ** Disks without faults keep working *)
Definition working (s : DeviceState) : Prop := indexErr s = None ∧ f_faults (ds_file s) = [].

Lemma WriteFrom_working s pw acquire r :
  Inv s → prepared s pw → 0 ≤ st_remaining r → working s → working (WriteFrom pw acquire r s).2.
Proof.
  intros Hs Hpw Hr [He Hf]. unfold WriteFrom. destruct acquire as [e|]; [done|].
  pose proof (prepared_geometry s pw Hs Hpw) as (Hgrid & Hk & Hga & Hcov & Hend & -> & Haddr).
  set (k := end_ (pw_iv pw) - start (pw_iv pw) + 1) in *.
  pose proof (i_disk _ Hs) as Hfit. unfold disk_fits in Hfit. pose proof (i_size _ Hs) as Hsz.
  pose proof (pp_size _ _ Hpw) as Hps.
  pose proof (write_payload_outcome (directFile s) (pw_addr pw) (pw_size pw) (k * SlotSize)
    (ds_file s) r ltac:(llia) ltac:(lia) ltac:(lia) ltac:(lia)
    ltac:(apply Z.mod_mul; layout_unfold; lia) Hr) as Hw.
  destruct (write_payload _ _ _ _ _) as [res [f' r']]. split; [done|]. cbn.
  destruct res; destruct Hw as [Hw _]; [by apply (filled_faults _ _ _ _ _ Hw)|by apply (touched_faults _ _ _ _ Hw)].
Qed.

Lemma Commit_working s pw aliasFor :
  Inv s → prepared s pw → is_u64 aliasFor → working s → working (Commit pw aliasFor s).2.
Proof.
  intros Hs Hpw Hal [He Hf]. unfold Commit. destruct (_ || _) eqn:E1; [done|]. rewrite He.
  destruct (bool_decide _ || _) eqn:E2; [done|].
  destruct (commit_entry _ _ _) as [entry|e] eqn:Ee; [|done]. apply commit_entry_Ok in Ee as ->.
  destruct (i_mirror _ Hs He) as (es & st & Hm). pose proof (m_end _ _ _ _ _ _ _ _ Hm) as Hend.
  pose proof (log_capacity _ _ (m_log _ _ _ _ _ _ _ _ Hm)) as Hcap.
  pose proof (i_disk _ Hs) as Hdisk. unfold disk_fits in Hdisk. pose proof (i_size _ Hs) as Hsz.
  pose proof (log_end_start es) as Hst. set (len := Z.of_nat (length _)).
  assert (Hlen : 0 ≤ len ≤ 32).
  { unfold len. rewrite length_encode_entries. unfold new_entries. destruct (aliasFor =? 0); cbn; lia. }
  assert (Hle : log_end es ≤ GridStart) by (unfold log_end; llia).
  rewrite Hend, u64_small by llia. destruct (Z.ltb_spec GridStart (log_end es + len)) as [|Hfit]; [done|].
  pose proof (must_sync_spec (ds_file s)) as Hsy. destruct (must_sync (ds_file s)) as [r1 f1].
  destruct Hsy as (_ & Hs1 & _ & _ & Hff). destruct (Hff Hf) as [Hr Hf1]. destruct r1 as [[]|]; [|done].
  pose proof (write_index_spec (buf_of (encode_entries (new_entries (pw_fid pw) (pw_size pw) aliasFor)))
    (log_end es) f1 ltac:(llia) ltac:(cbn; lia) ltac:(cbn; fold len; llia) ltac:(llia)) as Hw.
  destruct (write_index _ _ f1) as [[[]|e] f2]; destruct Hw as (Ht & _ & Hok).
  - split; [done|]. by apply (touched_faults _ _ _ _ Ht).
  - by specialize (Hok Hf1).
Qed.

Definition pool_working (s : Server) : Prop :=
  ∀ i d, disks s !! i = Some d → Inv (d_state d) ∧ working (d_state d).

Lemma pool_working_insert s i d st :
  pool_working s → Inv st → working st → pool_working (set_disks s (<[i := mkDisk st (devicePath d)]> (disks s))).
Proof.
  intros Hs Hi Hw j x Hj. cbn in Hj. apply list_lookup_insert_Some in Hj as [(-> & <- & _)|[_ Hj]]; [done|].
  by eapply Hs.
Qed.

Lemma put_prepared_working env i pw aliasFor r s d :
  pool_working s → disks s !! i = Some d → prepared (d_state d) pw → 0 ≤ st_remaining r → is_u64 aliasFor →
  pool_working (put_prepared env i pw aliasFor r s).2 ∧
  length (disks (put_prepared env i pw aliasFor r s).2) = length (disks s).
Proof.
  intros Hs Hd Hpw Hr Ha. destruct (Hs i d Hd) as [Hi Hw]. unfold put_prepared.
  rewrite (on_disk_Some i _ s d) by done.
  pose proof (WriteFrom_outcome (d_state d) pw (pe_acquire env) r Hi Hpw Hr) as Ho.
  pose proof (WriteFrom_working (d_state d) pw (pe_acquire env) r Hi Hpw Hr Hw) as Hw1.
  destruct (WriteFrom pw (pe_acquire env) r (d_state d)) as [res st1]. cbn [fst snd] in *.
  destruct Ho as (Hi1 & Eq & _).
  assert (Hpw1 : prepared st1 pw) by (rewrite Eq; destruct Hpw; done).
  set (s1 := set_disks s (<[i := mkDisk st1 (devicePath d)]> (disks s))).
  assert (Hd1 : disks s1 !! i = Some (mkDisk st1 (devicePath d)))
    by (apply list_lookup_insert_eq; by eapply lookup_lt_Some).
  assert (Hs1 : pool_working s1) by (by apply pool_working_insert).
  assert (Hl1 : length (disks s1) = length (disks s)) by (apply length_insert).
  assert (Habort : ∀ st, Inv st → working st → prepared st pw → ∀ s2, pool_working s2 →
    disks s2 !! i = Some (mkDisk st (devicePath d)) →
    pool_working (on_disk i (Abort pw) s2).2 ∧ length (disks (on_disk i (Abort pw) s2).2) = length (disks s2)).
  { intros st Hist Hwst Hpst s2 Hs2 Hd2. rewrite (on_disk_Some i _ s2 _ Hd2). cbn [snd]. split.
    - apply (pool_working_insert s2 i (mkDisk st (devicePath d))); [done| |done].
      exact (proj1 (abort_effect st pw _ _ Hist eq_refl)).(de_inv _ _ _).
    - apply length_insert. }
  destruct res as [[]|e]; cbn [snd].
  2:{ destruct (Habort st1 Hi1 Hw1 Hpw1 s1 Hs1 Hd1) as [? ->]. by rewrite Hl1. }
  destruct (pe_context env) as [e|].
  { destruct (Habort st1 Hi1 Hw1 Hpw1 s1 Hs1 Hd1) as [? ?]. cbn [snd]. split; [done|congruence]. }
  rewrite (on_disk_Some i _ s1 _ Hd1). cbn [d_state devicePath].
  pose proof (Commit_working st1 pw aliasFor Hi1 Hpw1 Ha Hw1) as Hw2.
  pose proof (commit_effect st1 pw aliasFor) as Hc.
  destruct (Commit pw aliasFor st1) as [res st2]. specialize (Hc res st2 Hi1 Hpw1 Ha eq_refl).
  cbn [fst snd] in *. destruct Hc as [Heff Hc].
  set (s2 := set_disks s1 (<[i := mkDisk st2 (devicePath d)]> (disks s1))).
  assert (Hs2 : pool_working s2)
    by (apply (pool_working_insert s1 i (mkDisk st1 (devicePath d))); [done|apply Heff|done]).
  assert (Hl2 : length (disks s2) = length (disks s)) by (rewrite <- Hl1; apply length_insert).
  destruct res as [[]|e].
  - by destruct (pe_send env).
  - assert (Hd2 : disks s2 !! i = Some (mkDisk st2 (devicePath d)))
      by (apply list_lookup_insert_eq; rewrite Hl1; by eapply lookup_lt_Some).
    destruct (Habort st2 ltac:(apply Heff) Hw2 ltac:(apply Hc) s2 Hs2 Hd2) as [? ?]. cbn [snd].
    split; [done|congruence].
Qed.

Lemma pool_working_gate s g : pool_working s → pool_working (set_gate s g).
Proof. done. Qed.

Lemma Put_working HashString env fid size aliasFor r s :
  pool_working s → is_u64 fid → is_u64 size → is_u64 aliasFor →
  let '(_, s') := Server.Put HashString env (Ok (PutHeader fid size aliasFor)) r s in
  pool_working s' ∧ length (disks s') = length (disks s).
Proof.
  intros Hs H1 H2 H3. unfold Server.Put. destruct (put_rejects s fid size aliasFor); [done|].
  destruct (reserve _ _ _ _) as [[[]|e] g]; [|done].
  set (s1 := set_gate s g). assert (Hs1 : pool_working s1) by done.
  enough (pool_working (put_reserved HashString env fid size aliasFor (reader_stream r) s1).2 ∧
    length (disks (put_reserved HashString env fid size aliasFor (reader_stream r) s1).2) = length (disks s1))
    as [Hw Hl] by (by destruct (put_reserved _ _ _ _ _ _ _)).
  unfold put_reserved. destruct (selectDiskForWrite HashString s1 size) as [i|e]; [|done].
  destruct (disks s1 !! i) as [d|] eqn:Hd.
  2:{ unfold on_disk. rewrite Hd. by destruct (errors_Is _ _). }
  rewrite (on_disk_Some i _ s1 d) by done. destruct (Hs1 i d Hd) as [Hi Hw].
  pose proof (PrepareWrite_outcome (d_state d) fid size Hi H1 H2) as Hp.
  destruct (PrepareWrite fid size (d_state d)) as [[pw|e] st] eqn:E; cbn [fst snd].
  - destruct Hp as (_ & _ & _ & -> & Hi' & Hpw').
    set (st' := set_extents _ _ _) in *.
    destruct (put_prepared_working env i pw aliasFor (reader_stream r)
      (set_disks s1 (<[i := mkDisk st' (devicePath d)]> (disks s1))) (mkDisk st' (devicePath d)))
      as [Hok Hl]; [by apply pool_working_insert| |done|apply st_remaining_reader|done|].
    { apply list_lookup_insert_eq. by eapply lookup_lt_Some. }
    split; [done|]. rewrite Hl. apply length_insert.
  - apply PrepareWrite_Err in E as ->. assert (Es : set_disks s1 (<[i := mkDisk (d_state d) (devicePath d)]> (disks s1)) = s1).
    { rewrite list_insert_id by (rewrite Hd; by destruct d). by destruct s1. }
    rewrite Es. by destruct (errors_Is e EConflict).
Qed.

(** ** What the pool answers *)

(** A refusal "fid already registered" names a fid that is registered or reserved. *)
Lemma reserve_conflict s ops fo fid aliasFor e g :
  PoolInv s ops → healthy s → fair fo (length (disks s)) →
  reserve fid aliasFor (pool_confirmed fo s) (gate s) = (Err e, g) → errors_Is e EConflict = true →
  ∃ f, f ∈ gate_fids fid aliasFor ∧ (f ∈ pending (gate s) ∨ is_Some (pool_contents s f)).
Proof.
  intros HP Hh Hf. unfold reserve. destruct (existsb _ _) eqn:Ex.
  { intros _ _. apply existsb_exists in Ex as (f & Hin & Hp). apply bool_decide_eq_true in Hp.
    exists f. split; [by apply list_elem_of_In|by left]. }
  destruct (check_confirmed _ _) as [[]|e'] eqn:Ec; [done|]. intros [= -> <-] He.
  enough (∃ f, f ∈ gate_fids fid aliasFor ∧ pool_confirmed fo s f = Ok true) as (f & Hin & Hc).
  { exists f. split; [done|]. right. unfold pool_confirmed in Hc. destruct (timedOut fo f); [done|].
    unfold confirmedAnywhere in Hc. rewrite collect_confirmed_true, list_elem_of_fmap in Hc.
    destruct Hc as (d & E & Hd). rewrite (arrived_perm _ (disks s) (Hf f)) in Hd.
    apply list_elem_of_lookup in Hd as [i Hi]. rewrite Confirmed_eq, (Hh i d Hi) in E. injection E as E.
    apply eq_sym, bool_decide_eq_true in E. apply contents_confirmed in E as [l Hl].
    exists l. by eapply pool_contents_at. }
  induction (gate_fids fid aliasFor) as [|f fids IH]; [done|]. cbn in Ec.
  destruct (pool_confirmed fo s f) as [[]|e'] eqn:E; cbn in Ec.
  - exists f. split; [by left|done].
  - destruct IH as (f' & ? & ?); [|done|exists f'; split; [by right|done]].
    cbn in Ex. by apply orb_false_iff in Ex as [_ ?].
  - injection Ec as ->. exfalso. unfold pool_confirmed in E. destruct (timedOut fo f).
    + injection E as <-. done.
    + assert (Hn : ∀ rs fe, (∀ r, r ∈ rs → is_ok r = true) → fe = None →
        collect_confirmed rs fe ≠ Err e).
      { clear. intros rs. induction rs as [|[[]|?] rs IH]; intros fe H ->; cbn; [done|done| |].
        - apply IH; [|done]. intros r Hr. apply H. by right.
        - by specialize (H (Err e0) ltac:(by left)). }
      unfold confirmedAnywhere in E. apply Hn in E; [done| |done].
      intros r (d & -> & Hd)%list_elem_of_fmap. rewrite (arrived_perm _ (disks s) (Hf f)) in Hd.
      apply list_elem_of_lookup in Hd as [i Hi]. by rewrite Confirmed_eq, (Hh i d Hi).
Qed.

Lemma put_prepared_status env i pw aliasFor r s st s' :
  put_prepared env i pw aliasFor r s = (Status st, s') → st_code st ≠ AlreadyExists.
Proof.
  unfold put_prepared, failedf. intros H.
  repeat (case_match; simplify_eq); by cbn.
Qed.

Lemma Put_conflict HashString env fid size aliasFor r s ops st s' :
  PoolInv s ops → healthy s → fair (pe_fanout env) (length (disks s)) →
  Server.Put HashString env (Ok (PutHeader fid size aliasFor)) r s = (Status st, s') →
  isIdempotentConflict (CStatus st) = true →
  ∃ f, f ∈ gate_fids fid aliasFor ∧ (f ∈ pending (gate s) ∨ is_Some (pool_contents s f)).
Proof.
  intros HP Hh Hf E Hi. unfold isIdempotentConflict, IsConflict, code_is in Hi.
  destruct (bool_decide (st_code st = AlreadyExists)) eqn:Ec; [|done]. cbn [negb] in Hi.
  apply bool_decide_eq_true in Ec, Hi. unfold Server.Put in E.
  destruct (put_rejects s fid size aliasFor); [injection E as <- _; done|].
  destruct (reserve _ _ _ _) as [[[]|e] g] eqn:Er.
  - exfalso. destruct (put_reserved _ _ _ _ _ _ _) as [rep s1] eqn:Ep. injection E as -> _.
    unfold put_reserved in Ep. destruct (selectDiskForWrite _ _ _) as [i|e]; [|by injection Ep as <- _].
    destruct (on_disk i _ _) as [[pw|e] s2]; [by apply put_prepared_status in Ep|].
    destruct (errors_Is e EConflict); injection Ep as <- _; done.
  - destruct (errors_Is e EConflict) eqn:Ee; [|by injection E as <- _].
    by eapply reserve_conflict.
Qed.

(** A put that is answered with a conflict has registered nothing. *)
Lemma Put_conflict_same HashString env fid size aliasFor r s st s' :
  Server.Put HashString env (Ok (PutHeader fid size aliasFor)) r s = (Status st, s') →
  IsConflict (CStatus st) = true → ∀ f, pool_contents s' f = pool_contents s f.
Proof.
  intros E Hc f. unfold IsConflict, code_is in Hc. apply bool_decide_eq_true in Hc. unfold Server.Put in E.
  destruct (put_rejects s fid size aliasFor); [by injection E as <- <-|].
  destruct (reserve _ _ _ _) as [[[]|e] g] eqn:Er; [|by destruct (errors_Is e EConflict); injection E as _ <-].
  destruct (put_reserved _ _ _ _ _ _ _) as [rep s1] eqn:Ep. injection E as -> <-.
  unfold put_reserved in Ep. destruct (selectDiskForWrite _ _ _) as [i|e]; [|by injection Ep as _ <-].
  destruct (on_disk i _ _) as [[pw|e] s2] eqn:Ed; [by apply put_prepared_status in Ep|].
  assert (s2 = s1) as -> by (by destruct (errors_Is e EConflict); injection Ep). clear Ep.
  unfold on_disk in Ed. destruct (disks _ !! i) as [d|] eqn:Hd; [|by injection Ed as _ <-].
  destruct (PrepareWrite _ _ _) as [r0 st0] eqn:E. injection Ed as -> <-.
  apply PrepareWrite_Err in E as ->. unfold pool_contents. cbn [disks set_disks set_gate] in *.
  rewrite list_insert_id by (rewrite Hd; by destruct d). done.
Qed.

(** [headAny] reports the size of the object. *)
Lemma HeadRPC_outcome fo fid s ops :
  PoolInv s ops → healthy s → fair fo (length (disks s)) →
  HeadRPC fo fid s = match pool_contents s fid with
                     | Some l => Reply (Z.of_nat (length l))
                     | None => failed NotFound "not found"
                     end.
Proof.
  intros HP Hh Hf. unfold HeadRPC, headAny.
  set (rs := (λ d, (DeviceState.Head fid (d_state d)).1) <$> arrived (arrival fo fid) (disks s)).
  assert (Hin : ∀ r, r ∈ rs ↔ ∃ i d, disks s !! i = Some d ∧ r = (DeviceState.Head fid (d_state d)).1).
  { intros r. unfold rs. rewrite list_elem_of_fmap. setoid_rewrite (arrived_perm _ (disks s) (Hf fid)).
    setoid_rewrite list_elem_of_lookup. naive_solver. }
  assert (Hhead : ∀ i d, disks s !! i = Some d → (DeviceState.Head fid (d_state d)).1 =
    match confirmed (d_state d) !! fid with Some ref => Ok (r_size ref) | None => Err ENotFound end).
  { intros i d Hd. unfold DeviceState.Head. cbn. unfold mbind, M_bind, lookup_fid. rewrite (Hh i d Hd).
    by destruct (confirmed (d_state d) !! fid). }
  assert (Hfirst : ∀ rs fe, (∀ r, r ∈ rs → r = Err ENotFound) →
    collect_first (A:=Z) rs fe = match fe with Some e => Err e | None => Err ENotFound end).
  { clear. intros rs. induction rs as [|r rs IH]; intros fe H; [done|].
    rewrite (H r) by (by left). cbn. apply IH. intros r' Hr'. apply H. by right. }
  destruct (pool_contents s fid) as [l|] eqn:Ec.
  - assert (Hok : ∀ rs fe, (∃ n, Ok n ∈ rs) → (∀ r, r ∈ rs → r = Err ENotFound ∨ r = Ok (Z.of_nat (length l))) →
      collect_first rs fe = Ok (Z.of_nat (length l))).
    { clear. intros rs. induction rs as [|r rs IH]; intros fe [n Hn] H; [by apply not_elem_of_nil in Hn|].
      destruct (H r) as [-> | ->]; [by left| |done]. cbn. apply IH.
      - exists n. by apply elem_of_cons in Hn as [?|?].
      - intros r' Hr'. apply H. by right. }
    rewrite Hok; [done| |].
    + unfold pool_contents in Ec. apply head_Some_elem_of, list_elem_of_omap in Ec as (d & Hd & Hl).
      apply list_elem_of_lookup in Hd as [i Hi].
      assert (is_Some (contents (d_state d) fid)) as [ref Hr]%contents_confirmed by eauto.
      exists (r_size ref). apply Hin. exists i, d. split; [done|]. by rewrite (Hhead i d Hi), Hr.
    + intros r (i & d & Hi & ->)%Hin. rewrite (Hhead i d Hi).
      destruct (confirmed (d_state d) !! fid) as [ref|] eqn:Er; [right|by left].
      assert (Hc : contents (d_state d) fid = Some (ref_bytes (diskBytes (d_state d)) (f_data (ds_file (d_state d))) ref))
        by (unfold contents; by rewrite Er).
      rewrite (pool_contents_at _ _ _ _ _ _ HP Hi Hc) in Ec. injection Ec as <-. f_equal. symmetry.
      eapply length_ref_bytes; [by eapply pi_disks|by eapply Hh|done].
  - rewrite Hfirst; [done|]. intros r (i & d & Hi & ->)%Hin. rewrite (Hhead i d Hi).
    rewrite pool_contents_None in Ec. specialize (Ec i d Hi). unfold contents in Ec.
    by destruct (confirmed (d_state d) !! fid).
Qed.

(** ** The transport *)

(** The server with the environment of its calls. *)
Record loopback := mkLoopback {
  lb_server : Server;
  lb_put : put_env;
  lb_get : get_env;
  lb_head : fanout;
  lb_timeout : Z
}.

Definition with_server (w : loopback) (s : Server) : loopback :=
  mkLoopback s (lb_put w) (lb_get w) (lb_head w) (lb_timeout w).

Definition reply_error {A} (r : reply A) : option cerror :=
  match r with Reply _ => None | Status st => Some (CStatus st) end.

Definition reply_out {A} (r : reply A) : A + cerror :=
  match r with Reply a => inl a | Status st => inr (CStatus st) end.

(** What the handler's reader sees of the messages: all of them at once, then the end. *)
Definition incoming (timeout : Z) (msgs : list PutRequest) : chunkReader :=
  mkReader (((λ m, mkEvent 0 (Ok m)) <$> msgs) ++ [mkEvent 0 (Err EEOF)]) timeout [] None 0.

Section loopback.
Context (HashString : string → Z).

Definition run_put (msgs : list PutRequest) (w : loopback) : reply unit * loopback :=
  let first := match msgs with [] => Err EEOF | m :: _ => Ok m end in
  let '(rep, s) :=
    Server.Put HashString (lb_put w) first (incoming (lb_timeout w) (drop 1 msgs)) (lb_server w) in
  (rep, with_server w s).

#[local] Instance loopback_client : BSOSClient loopback := {|
  put_stream := list PutRequest;
  pb_Put w := (inl [], w);
  Send st m w := ((None, st ++ [m]), w);
  CloseAndRecv st w := let '(rep, w) := run_put st w in (reply_error rep, w);
  CloseSend st w := (run_put st w).2;
  pb_Get req w := let '(out, st, s) := GetRPC (lb_get w) req (lb_server w) in
                  ((out, CStatus <$> st), with_server w s);
  pb_Head fid w := (reply_out (HeadRPC (lb_head w) fid (lb_server w)), w);
  pb_Bonnie w := (inl (Server.Bonnie HashString (lb_server w)), w);
  pb_Health w := (inl (Server.Health (lb_server w)), w)
|}.

(** The pool is working, no other call is in flight, and the transport delivers the messages to the
    server and those of a Get to the client; the response to a Put may be lost. *)
Record loop_ok (w : loopback) : Prop := {
  lo_inv : PoolInv (lb_server w) ∅;
  lo_work : pool_working (lb_server w);
  lo_put : fair (pe_fanout (lb_put w)) (length (disks (lb_server w)));
  lo_get : fair (ge_fanout (lb_get w)) (length (disks (lb_server w))) ∧ ge_context (lb_get w) = None ∧
    (∀ pos, ge_acquire (lb_get w) pos = None) ∧ (∀ pos, ge_send (lb_get w) pos = None);
  lo_head : fair (lb_head w) (length (disks (lb_server w)));
  lo_timeout : 0 < lb_timeout w
}.

Lemma loop_healthy w : loop_ok w → healthy (lb_server w).
Proof. intros H i d Hd. by destruct (lo_work w H i d Hd) as [_ [? _]]. Qed.

Lemma loop_quiet w : loop_ok w → quiet (lb_server w).
Proof. intros H i d Hd. by destruct (lo_work w H i d Hd) as [_ [_ ?]]. Qed.

Lemma loop_ok_server w s :
  loop_ok w → PoolInv s ∅ → pool_working s → length (disks s) = length (disks (lb_server w)) →
  loop_ok (with_server w s).
Proof. intros [] ? ? Hl. constructor; cbn; rewrite ?Hl; done. Qed.

Lemma drained_incoming timeout chunks :
  0 < timeout → drained (incoming timeout (PutChunk <$> chunks)) = (concat chunks, EEOF).
Proof.
  intros Ht. unfold drained, deadline_of, incoming. cbn [cr_stream cr_timeout cr_now cr_deadline cr_buf default].
  rewrite Z.add_0_l. cut (drain (((λ m, mkEvent 0 (Ok m)) <$> (PutChunk <$> chunks)) ++ [mkEvent 0 (Err EEOF)])
    timeout timeout 0 = (concat chunks, EEOF)).
  { by intros ->. }
  induction chunks as [|c chunks IH]; cbn [fmap list_fmap app drain].
  - rewrite (proj2 (Z.leb_gt _ _)) by lia. cbn [ev_at ev_out]. by rewrite (proj2 (Z.leb_le 0 timeout)) by lia.
  - rewrite (proj2 (Z.leb_gt _ _)) by lia. cbn [ev_at ev_out]. rewrite (proj2 (Z.leb_le 0 timeout)) by lia.
    assert (Ed : match c with [] => timeout | _ => Z.max 0 0 + timeout end = timeout) by (destruct c; lia).
    change (Z.max 0 0) with 0 in *. rewrite Ed, IH. done.
Qed.

(** The handler run on a whole stream. *)
Lemma run_put_outcome w fid size aliasFor chunks :
  loop_ok w → is_u64 fid → is_u64 size → is_u64 aliasFor →
  let '(rep, w') := run_put (PutHeader fid size aliasFor :: (PutChunk <$> chunks)) w in
  loop_ok w' ∧
  match rep with
  | Reply _ => Z.of_nat (length (concat chunks)) = size ∧
      fresh_put fid (concat chunks) aliasFor (pool_contents (lb_server w)) ∧
      ∀ f, pool_contents (lb_server w') f =
        store_put fid (concat chunks) aliasFor (pool_contents (lb_server w)) f
  | Status st =>
      (∀ f, pool_contents (lb_server w') f = pool_contents (lb_server w) f) ∧
      (isIdempotentConflict (CStatus st) = true →
       ∃ f, (f = fid ∨ (f = aliasFor ∧ aliasFor ≠ 0)) ∧ is_Some (pool_contents (lb_server w) f)) ∨
      IsConflict (CStatus st) = false ∧
      fresh_put fid (concat chunks) aliasFor (pool_contents (lb_server w)) ∧
      Z.of_nat (length (concat chunks)) = size ∧
      ∀ f, pool_contents (lb_server w') f =
        store_put fid (concat chunks) aliasFor (pool_contents (lb_server w)) f
  end.
Proof.
  intros Hw H1 H2 H3. unfold run_put. cbn [drop].
  set (r := incoming (lb_timeout w) (drop 0 (PutChunk <$> chunks))).
  assert (Hr : drained r = (concat chunks, EEOF))
    by (unfold r; rewrite drop_0; apply drained_incoming, lo_timeout; done).
  pose proof (Put_working HashString (lb_put w) fid size aliasFor r (lb_server w) (lo_work w Hw) H1 H2 H3) as Hwk.
  destruct (Server.Put HashString (lb_put w) (Ok (PutHeader fid size aliasFor)) r (lb_server w)) as [rep s'] eqn:E.
  destruct Hwk as [Hwk Hl]. pose proof (lo_put w Hw) as Hfo.
  destruct (Put_cases HashString (lb_put w) fid size aliasFor r (lb_server w) ∅ 0%nat rep s'
    (lo_inv w Hw) Hfo (lookup_empty _) H1 H2 H3 E) as [HP' Ho].
  assert (Hok : loop_ok (with_server w s')) by (by apply loop_ok_server).
  split; [done|]. specialize (Ho (loop_healthy _ Hok)). rewrite Hr in Ho. cbn [fst snd] in Ho.
  cbn [lb_server with_server].
  destruct Ho as [[Hrep Hs]|(Hrep & Hlen & _ & Hfr & Hs)]; destruct rep as [[]|st]; try done.
  - left. split; [done|]. intros Hi.
    destruct (Put_conflict HashString (lb_put w) fid size aliasFor r (lb_server w) ∅ st s'
      (lo_inv w Hw) (loop_healthy w Hw) Hfo E Hi) as (f & Hf & Hor).
    exists f. split; [by apply elem_of_gate_fids|]. destruct Hor as [Hp|Hso]; [|done].
    apply (pi_gate _ _ (lo_inv w Hw)) in Hp as (k & o & Hk & _). by rewrite lookup_empty in Hk.
  - right. split_and!; try done. destruct (IsConflict (CStatus st)) eqn:Ec; [exfalso|done].
    pose proof (Put_conflict_same _ _ _ _ _ _ _ _ _ E Ec fid) as Hsame. destruct Hfr as (Hn & Hne & _).
    rewrite Hs, Hn in Hsame. unfold store_put in Hsame. by repeat case_decide.
Qed.

#[local] Program Instance loopback_service : PoolService loopback := {|
  svc_ok := loop_ok;
  store_of w := pool_contents (lb_server w);
  busy _ _ := False;
  session st open msgs w := open = true ∧ st = msgs
|}.
Next Obligation. intros w Hw. done. Qed.
Next Obligation. intros st msgs m w Hw [_ ->]. done. Qed.
Next Obligation.
  intros st fid size aliasFor chunks w Hw H1 H2 H3 [_ ->].
  pose proof (run_put_outcome w fid size aliasFor chunks Hw H1 H2 H3) as H. cbn [CloseAndRecv loopback_client].
  destruct (run_put _ w) as [[[]|st'] w']; cbn [reply_error]; destruct H as [Hok H].
  - destruct H as (? & ? & ?). done.
  - destruct H as [[Hs Hi]|H]; (split; [done|]); [left|by right].
    split; [done|]. intros He. destruct (Hi He) as (f & Hf & Hsome).
    exists f. split; [done|]. left. by rewrite Hs.
Qed.
Next Obligation. by intros st fid size aliasFor chunks w Hw [? _]. Qed.
Next Obligation.
  intros st fid size aliasFor chunks w Hw H1 H2 H3 [_ ->] Hlt.
  pose proof (run_put_outcome w fid size aliasFor chunks Hw H1 H2 H3) as H. cbn [CloseSend loopback_client].
  destruct (run_put _ w) as [[[]|st'] w']; cbn [snd]; destruct H as [Hok H].
  - destruct H as (? & _). lia.
  - destruct H as [[Hs _]|(_ & _ & ? & _)]; [done|lia].
Qed.
Next Obligation.
  intros req w Hw Hu1 Hu2. cbn [pb_Get loopback_client]. destruct (lo_get w Hw) as (Hfo & Hc & Ha & Hsd).
  pose proof (GetRPC_outcome (lb_get w) req (lb_server w) ∅ (lo_inv w Hw) (loop_healthy w Hw)
    (loop_quiet w Hw) Hfo Hu1 Hu2 Hc Ha Hsd) as H.
  destruct (GetRPC (lb_get w) req (lb_server w)) as [[out st] s']. destruct H as [-> H].
  assert (Ew : with_server w (lb_server w) = w) by (by destruct w). rewrite Ew. split; [done|]. split; [done|].
  destruct (pool_contents (lb_server w) (gq_fid req)) as [l|].
  - cbv zeta in H. destruct (get_range req _) as [[a b]|].
    + by destruct H as (-> & Hcov & Hok & Hrec & Hne).
    + destruct H as [_ ->]. eexists. split; [done|]. done.
  - destruct H as [_ ->]. eexists. split; [done|]. done.
Qed.
Next Obligation.
  intros fid w Hw. cbn [pb_Head loopback_client].
  rewrite (HeadRPC_outcome (lb_head w) fid (lb_server w) ∅ (lo_inv w Hw) (loop_healthy w Hw) (lo_head w Hw)).
  split; [done|]. split; [done|]. destruct (pool_contents (lb_server w) fid) as [l|]; [done|].
  eexists. split; [done|]. done.
Qed.
Next Obligation. done. Qed.
Next Obligation. done. Qed.
End loopback.

(** ** The client over any service *)
Section client_theorems.
Context {W : Type} `{!BSOSClient W} `{!PoolService W}.

(** C14: [PutWithJumpRetry]: on success without a duplicate the object has been written once, under
    its own fid or under the fid of the bytes with the jump code appended, with an alias from its own
    fid; reading the object's fid then gives the bytes back (only the fid 0 cannot be an alias).  A
    duplicate changes nothing, and the fid is registered or being written by another call.  An error
    changes nothing, whatever the number of codes tried, unless it lost the response to the last put
    after its commit: that put is then complete, readable in the same way, and the error is not a
    conflict, so no other code was tried.  No object that was stored before is ever changed. *)
Theorem put_with_jump_retry Hash chunkSize data opts (w : W) :
  0 < chunkSize → (∀ l, is_u64 (Hash l)) → Z.of_nat (length data) < 2 ^ 63 → svc_ok w →
  let '((j, err), w') := PutWithJumpRetry Hash chunkSize data opts w in
  let readable := Hash data ≠ 0 ∨ j_JumpsTaken j = 0 → (GetBytes (Hash data) None w').1 = inl data in
  svc_ok w' ∧ (∀ f l, store_of w f = Some l → store_of w' f = Some l) ∧
  match err with
  | Some e => (∀ f, store_of w' f = store_of w f) ∨
      IsConflict e = false ∧ placed Hash w data (max_jumps opts) (j_JumpsTaken j) w' ∧ readable
  | None => jumped Hash w data (max_jumps opts) j w' ∧ (j_IsDuplicate j = false → readable)
  end.
Proof.
  intros Hc Hh Hlen Hok.
  pose proof (PutWithJumpRetry_outcome Hash chunkSize Hc Hh data opts w Hok Hlen) as H.
  destruct (PutWithJumpRetry Hash chunkSize data opts w) as [[j err] w']. intros readable.
  pose proof (λ f l, jump_outcome_others Hash w data _ j err w' f l H) as Hmono.
  destruct H as [Hok' H]. split; [done|]. split; [done|].
  assert (Hread : placed Hash w data (max_jumps opts) (j_JumpsTaken j) w' → readable).
  { intros Hp Hz. pose proof (placed_readable Hash w data _ _ w' Hp Hz) as Hr.
    pose proof (GetBytes_whole (Hash data) w' Hok') as Hg.
    destruct (GetBytes (Hash data) None w') as [out w'']. destruct Hg as (_ & _ & Hg). by rewrite Hr in Hg. }
  destruct err as [e|]; [destruct H as [?|[? ?]]; [by left|right; auto]|].
  split; [done|]. intros Hd. apply Hread. destruct H as [_ H]. rewrite Hd in H. apply H.
Qed.

(** C15: reading: [Get] into a buffer writes exactly the requested slice of the object and reports
    its whole size and the number of bytes written; [GetBytes] returns that slice; a fid that is not
    stored is [IsNotFound] and an inverted range [IsInvalidArgument].  Reading changes nothing. *)
Theorem client_get fid optRange (w : W) :
  svc_ok w → range_u64 optRange →
  let '((total, written, err), x, w1) := Client.Get buffer_write fid optRange [] w in
  let '(out, w2) := GetBytes fid optRange w in
  svc_ok w1 ∧ (∀ f, store_of w1 f = store_of w f) ∧ svc_ok w2 ∧ (∀ f, store_of w2 f = store_of w f) ∧
  match store_of w fid with
  | None => ∃ e, err = Some e ∧ out = inr e ∧ IsNotFound e = true
  | Some l =>
      match range_of optRange (Z.of_nat (length l)) with
      | None => ∃ e, err = Some e ∧ out = inr e ∧ IsInvalidArgument e = true
      | Some (a, b) => err = None ∧ total = Z.of_nat (length l) ∧ x = slice l a b ∧
          written = Z.of_nat (length x) ∧ out = inl (slice l a b)
      end
  end.
Proof.
  intros Hok Hr. pose proof (Get_service fid optRange w Hok Hr) as H1. unfold GetBytes.
  destruct (Client.Get buffer_write fid optRange [] w) as [[[[t wr] err] x] w1].
  destruct H1 as (Hok1 & Hs1 & H1). destruct (store_of w fid) as [l|];
    [destruct (range_of optRange _) as [[a b]|]|].
  - by destruct H1 as (-> & -> & -> & ->).
  - destruct H1 as (e & -> & ?). split_and!; eauto 10.
  - destruct H1 as (e & -> & ?). split_and!; eauto 10.
Qed.

(** [VerifyContent]: for a stored fid the first reading decides, and the answer is whether the
    bytes, or only the sizes, agree with the expected ones; for a fid that is not stored every attempt
    is used and an error is returned, never a confirmation. *)
Theorem verify_content fid expected opts wait (w : W) :
  svc_ok w → (∀ b, wait b = None) →
  let cfg := verify_config opts in
  let '((b, err), w') := VerifyContent fid expected opts wait w in
  (∀ f, store_of w' f = store_of w f) ∧
  match store_of w fid with
  | None => b = false ∧ err ≠ None
  | Some l => err = None ∧ (b = true ↔ if CompareContent cfg then l = expected
                                       else length l = length expected)
  end.
Proof.
  intros Hok Hw cfg. unfold VerifyContent. fold cfg.
  pose proof (verify_attempts_service (Z.to_nat (MaxAttempts cfg)) wait true (CompareContent cfg)
    (InitialBackoff cfg) fid expected w Hok Hw) as H.
  destruct (verify_attempts _ _ _ _ _ _ _ _) as [[b err] w']. destruct H as (_ & Hs & H).
  split; [done|]. destruct (store_of w fid) as [l|]; [|done].
  rewrite decide_False in H.
  2:{ unfold cfg, verify_config. destruct opts as [o|]; [|done]. cbn.
      destruct (Z.ltb_spec 0 (MaxAttempts o)); lia. }
  destruct H as [-> ->]. split; [done|]. unfold verify_answer. destruct (CompareContent cfg).
  - apply bool_decide_eq_true.
  - rewrite Z.eqb_eq. lia.
Qed.

Lemma try_file_jumps_eq Hash chunkSize lf data fid maxJumps codes (w : W) :
  lf_seek lf = None →
  try_file_jumps Hash chunkSize lf data (Z.of_nat (length data)) fid maxJumps codes w =
  try_jumps Hash chunkSize data fid maxJumps codes w.
Proof.
  intros Hs. revert w. induction codes as [|code codes IH]; intros w; [done|]. cbn [try_file_jumps try_jumps].
  rewrite Hs. unfold MultiReader, ComputeFID. rewrite length_jump_data.
  replace (Z.of_nat (length data) + 1) with (Z.of_nat (S (length data))) by lia. fold (jump_data data code).
  destruct (Client.Put chunkSize _ _ _ _ w) as [[e|] w']; [|done]. by rewrite IH.
Qed.

(** C16: uploading a file that does not change while it is read is uploading its bytes: the two-pass
    path for files above 16 MiB makes the same calls with the same fids, payloads and aliases and
    gives the same result, except that it never reports a duplicate. *)
Theorem file_upload_equiv Hash chunkSize lf data opts (w : W) :
  lf_stat lf = Ok (Z.of_nat (length data), false) → lf_open lf = Ok (data, EEOF) → lf_seek lf = None →
  data ≠ [] →
  PutFileWithJumpRetry Hash chunkSize lf opts w =
    let '((j, err), w') := PutWithJumpRetry Hash chunkSize data opts w in
    if Z.of_nat (length data) <=? MaxAtomicPayloadSize then ((j, err), w')
    else ((mkJump (j_FID j) (j_TargetFID j) (j_JumpsTaken j) false, err), w').
Proof.
  intros Hst Ho Hs Hne. unfold PutFileWithJumpRetry. rewrite Hst.
  assert (Hz : (Z.of_nat (length data) =? 0) = false) by (apply Z.eqb_neq; destruct data; cbn; [done|lia]).
  rewrite Hz. destruct (Z.leb_spec (Z.of_nat (length data)) MaxAtomicPayloadSize) as [Hle|Hgt].
  - unfold PutFileAtomic. rewrite Hst, Hz, (proj2 (Z.ltb_ge _ _)) by done. rewrite Ho. cbn [mbind res_bind].
    unfold copy_all. cbn [snd fst]. rewrite bool_decide_eq_true_2 by done.
    by destruct (PutWithJumpRetry Hash chunkSize data opts w) as [[j err] w'].
  - rewrite Ho. unfold copy_all. cbn [snd fst]. rewrite bool_decide_eq_true_2, Hs by done.
    unfold PutWithJumpRetry, ComputeFID.
    destruct (Client.Put chunkSize _ _ _ _ w) as [[e|] w']; [|done].
    destruct (negb (IsConflict e)); [done|]. destruct (isIdempotentConflict e); [done|].
    rewrite try_file_jumps_eq by done. unfold putWithJumpRetryCollision.
    assert (Hdup : ∀ codes w, j_IsDuplicate (try_jumps Hash chunkSize data (Hash data) (max_jumps opts) codes w).1.1 = false).
    { clear. intros codes. induction codes as [|code codes IH]; intros w; [done|]. cbn [try_jumps].
      destruct (Client.Put chunkSize _ _ _ _ w) as [[e|] w']; [|done]. destruct (negb (IsConflict e)); [done|]. apply IH. }
    specialize (Hdup (seqZ 1 (max_jumps opts)) w').
    destruct (try_jumps _ _ _ _ _ _ w') as [[j err] w'']. cbn [fst] in Hdup. by destruct j; cbn in *; subst.
Qed.
End client_theorems.

#[export] Instance demo_client : BSOSClient loopback := loopback_client (λ _, 0).
#[export] Instance demo_service : PoolService loopback := loopback_service (λ _, 0).
Definition demo_world : loopback :=
  mkLoopback demo_server demo_env demo_get_env (mkFanout (λ _, [0%nat]) (λ _, false)) 7.
Definition demo_hash (l : list byte) : Z := u64 (Z.of_nat (length l) + 1).
Definition demo_data : list byte := replicate 6 x41 ++ replicate 4 x42.

Lemma demo_loop_ok : loop_ok demo_world.
Proof.
  constructor.
  - exact demo_PoolInv.
  - intros [|i] d [= <-]. split; [apply demo_Inv|done].
  - exact demo_fair.
  - split_and!; try done; intros fid; reflexivity.
  - intros fid; reflexivity.
  - reflexivity.
Qed.

Lemma put_with_jump_retry_witness :
  let out := PutWithJumpRetry demo_hash 4 demo_data None demo_world in
  out.1.2 = None ∧ (GetBytes 11 None out.2).1 = inl demo_data.
Proof.
  pose proof (put_with_jump_retry demo_hash 4 demo_data None demo_world eq_refl
    (λ l, u64_range _) eq_refl demo_loop_ok) as H.
  assert (E : (PutWithJumpRetry demo_hash 4 demo_data None demo_world).1 = (mkJump 11 11 0 false, None))
    by reflexivity.
  destruct (PutWithJumpRetry demo_hash 4 demo_data None demo_world) as [[j err] w'].
  cbn [fst] in E. injection E as -> ->. split; [reflexivity|].
  apply H; [reflexivity|right; reflexivity].
Defined.

(** The same put with the response lost: an error, and the object is there. *)
Example lost_response :
  let w := mkLoopback demo_server (mkPutEnv (pe_fanout demo_env) None None (Some (EMsg "EPIPE"))) demo_get_env
             (mkFanout (λ _, [0%nat]) (λ _, false)) 7 in
  let out := PutWithJumpRetry demo_hash 4 demo_data None w in
  loop_ok w ∧ out.1.2 ≠ None ∧ (GetBytes 11 None out.2).1 = inl demo_data.
Proof.
  destruct demo_loop_ok as [H1 H2 H3 H4 H5 H6]. cbv zeta. split; [|split].
  - constructor; [exact H1|exact H2|exact H3|exact H4|exact H5|exact H6].
  - intros H. vm_compute in H. discriminate H.
  - vm_compute. reflexivity.
Qed.

Lemma client_get_witness :
  let '((total, written, err), x, _) := Client.Get buffer_write 5 (Some (2, 0)) [] demo_world in
  (∃ e, err = Some e ∧ IsNotFound e = true).
Proof.
  pose proof (client_get 5 (Some (2, 0)) demo_world demo_loop_ok
    ltac:(split; unfold is_u64; lia)) as H.
  destruct (Client.Get buffer_write 5 (Some (2, 0)) [] demo_world) as [[[[t wr] err] x] w1].
  destruct (GetBytes 5 (Some (2, 0)) demo_world) as [out w2].
  destruct H as (_ & _ & _ & _ & H).
  change (store_of demo_world 5) with (@None (list byte)) in H. destruct H as (e & ? & _ & ?). eauto.
Defined.

Lemma verify_content_witness :
  let '((b, err), _) := VerifyContent 5 demo_data (Some (mkVerify 3 0 true)) (λ _, None) demo_world in
  b = false ∧ err ≠ None.
Proof.
  pose proof (verify_content 5 demo_data (Some (mkVerify 3 0 true)) (λ _, None) demo_world demo_loop_ok
    ltac:(done)) as H. cbv zeta in H.
  destruct (VerifyContent 5 demo_data (Some (mkVerify 3 0 true)) (λ _, None) demo_world) as [[b err] w'].
  destruct H as [_ H]. change (store_of demo_world 5) with (@None (list byte)) in H. exact H.
Defined.

Lemma file_upload_equiv_witness :
  (PutFileWithJumpRetry demo_hash 4 (mkLocal (Ok (10, false)) (Ok (demo_data, EEOF)) None) None demo_world).1
  = (mkJump 11 11 0 false, None).
Proof.
  rewrite (file_upload_equiv demo_hash 4 (mkLocal (Ok (10, false)) (Ok (demo_data, EEOF)) None) demo_data
    None demo_world eq_refl eq_refl eq_refl ltac:(discriminate)).
  assert (E : (PutWithJumpRetry demo_hash 4 demo_data None demo_world).1 = (mkJump 11 11 0 false, None))
    by reflexivity.
  destruct (PutWithJumpRetry demo_hash 4 demo_data None demo_world) as [[j err] w']. exact E.
Defined.
