(* ===== verification/Smoke.v ===== *)
(** * The smoke test of a deployed daemon (src/scripts/vps-smoke/main.go)

    The program that an operator runs against a running daemon: [seed] stores three objects, writes
    them to a manifest and verifies them, [verify] verifies the objects of an older manifest.  An
    object is read over the wire, whole and in part, with every message's range checked, and looked up
    in the indexes of all devices of pan.json, by opening the devices beside the daemon.

    A pass means what it should ([seed_sound]), and a daemon that works passes, except that the lookup
    knows nothing of packed tables: [smoke_verify] says exactly when the verification succeeds. *)

From S2P Require Import Prelude Machine Loop Device Layout IndexScan PackedTable Interval.
From S2P Require Import Replay DirectIO DeviceState DeviceInv DeviceOps DiskStore Text Path Config MultiDisk.
From S2P Require Import Reader Server Pool Serve Client Service ServerService Compact CompactRun.
From S2P Require Import TrimIndex TrimWrite TrimStore TrimPack TrimCompact TrimCollect TrimRun TrimDisk PoolTrim.
From S2P Require Import IndexFind.
From Stdlib Require Import Strings.Byte.

(** ** The objects *)
Record object := mkObject { o_Name : string; o_FID : Z; o_Size : Z; o_Seed : string; o_Zram : bool }.

Definition unit_of (o : object) : list byte :=
  String.list_byte_of_string (String.append (o_Seed o) (String.append ":" (o_Name o))).

(** [bytes.Repeat(p, o.Size/len(p)+1)]: what lies behind the payload's slice, to its capacity. *)
Definition backing (o : object) : res (list byte) :=
  let p := unit_of o in
  let count := Z.quot (o_Size o) (Z.of_nat (length p)) + 1 in
  if o_Size o <? 0 then Err (EPanic "slice bounds out of range")
  else if maxAlloc <? Z.of_nat (length p) * count then Err (EPanic "makeslice: len out of range")
  else Ok (concat (replicate (Z.to_nat count) p)).

Definition payload (o : object) : res (list byte) :=
  b ← backing o; Ok (take (Z.to_nat (o_Size o)) b).

(** [want[7:77]], a slice of a slice, which may end past its length but not past its capacity. *)
Definition want_part (o : object) : res (list byte) :=
  b ← backing o;
  if Z.of_nat (length b) <? 77 then Err (EPanic "slice bounds out of range") else Ok (slice b 7 77).

Definition failing {W} (msg : string) (w : W) : option cerror * W := (Some (CError (EMsg msg)), w).

(** ** The devices *)
Section devices.
Context (open : string → res file).

(** The loop over the devices of pan.json: on how many of them the fid is registered. *)
Fixpoint count_devices (devices : list PanDevice) (o : object) (count : Z) : res Z :=
  match devices with
  | [] => Ok count
  | d :: devices =>
      f ← open (DevicePath d);
      '(_, _, _, found, _) ← (FindLatestIndexEntry (o_FID o) f).1;
      if found : bool then
        if negb (Bool.eqb (IsZramDevicePath (DevicePath d)) (o_Zram o)) then Err (EMsg "wrong tier")
        else count_devices devices o (count + 1)
      else count_devices devices o count
  end.
End devices.

(** ** The two calls *)
Section calls.
Context {W : Type} `{!BSOSClient W}.

(** The loop that sends [data] in messages of at most 1 MiB; it stops at the first error. *)
Definition send_chunks (data : list byte) (st : put_stream) (w : W) : put_stream * W :=
  match loop (Z.to_pos (Z.of_nat (length data) + 1)) (λ '(data, st, w),
      match data with
      | [] => inr (st, w)
      | _ =>
          let n := Z.to_nat (Z.min (Z.of_nat (length data)) messageBytes) in
          match Send st (PutChunk (take n data)) w with
          | ((Some _, st), w) => inr (st, w)
          | ((None, st), w) => inl (drop n data, st, w)
          end
      end) (data, st, w) with
  | inr out => out
  | inl (_, st, w) => (st, w)
  end.

Definition put (fid alias size : Z) (data : list byte) (w : W) : option cerror * W :=
  match pb_Put w with
  | (inr err, w) => (Some err, w)
  | (inl st, w) =>
      match Send st (PutHeader fid size alias) w with
      | ((Some err, _), w) => (Some err, w)
      | ((None, st), w) => let '(st, w) := send_chunks data st w in CloseAndRecv st w
      end
  end.

(** The loop over the messages: the data and their number. *)
Fixpoint get_messages (msgs : list GetResponse) (final : option cerror) (offset : Z) (data : list byte)
    (messages : Z) : (list byte * Z) + cerror :=
  match msgs with
  | [] => match final with None => inl (data, messages) | Some err => inr err end
  | r :: msgs =>
      if (messageBytes <? Z.of_nat (length (gr_data r))) || negb (gr_start r =? offset) ||
         negb (u64 (gr_end r - gr_start r) =? Z.of_nat (length (gr_data r)))
      then inr (CError (EMsg "invalid response range or chunk size"))
      else get_messages msgs final (gr_end r) (data ++ gr_data r) (messages + 1)
  end.

Definition get (req : GetRequest) (w : W) : ((list byte * Z) + cerror) * W :=
  let '((msgs, final), w) := pb_Get req w in
  let offset := if gq_has_range req then gq_range_start req else 0 in
  (get_messages msgs final offset [] 0, w).

(** ** The verification *)
Section verify.
Context (open : string → res file) (devices : list PanDevice).

(** The body of the loop over the objects. *)
Definition verify_object (o : object) (w : W) : option cerror * W :=
  match payload o with
  | Err e => (Some (CError e), w)
  | Ok want =>
      match get (mkGetRequest (o_FID o) false 0 0) w with
      | (inr err, w) => (Some err, w)
      | (inl (data, _), w) =>
          if negb (bool_decide (data = want)) then failing "content mismatch" w else
          match pb_Head (o_FID o) w with
          | (inr _, w) => failing "Head mismatch" w
          | (inl size, w) =>
              if negb (size =? u64 (o_Size o)) then failing "Head mismatch" w else
              match get (mkGetRequest (o_FID o) true 7 77) w with
              | (inr _, w) => failing "range mismatch" w
              | (inl (part, _), w) =>
                  match want_part o with
                  | Err e => (Some (CError e), w)
                  | Ok wp =>
                      if negb (bool_decide (part = wp)) then failing "range mismatch" w else
                      match count_devices open devices o 0 with
                      | Err e => (Some (CError e), w)
                      | Ok count =>
                          if negb (count =? 1) then failing "registered on several devices or none" w
                          else (None, w)
                      end
                  end
              end
          end
      end
  end.

Fixpoint verify_objects (objects : list object) (w : W) : option cerror * W :=
  match objects with
  | [] => (None, w)
  | o :: objects =>
      match verify_object o w with
      | (Some err, w) => (Some err, w)
      | (None, w) => verify_objects objects w
      end
  end.
End verify.

(** ** Seeding *)
Section seed.
Context (Hash : list byte → Z).

Definition seed_objects (stamp : string) : list object := [
  mkObject "small" 0 (Z.shiftl 64 10) stamp true;
  mkObject "large" 0 (Z.shiftl 5 20) stamp false;
  mkObject "alias" 0 (Z.shiftl 32 10) stamp true].

(** One object of the seed: stored under the hash of its payload, or under the hash of the payload and
    one more byte with an alias. *)
Definition seed_object (o : object) (w : W) : (object + cerror) * W :=
  match payload o with
  | Err e => (inr (CError e), w)
  | Ok data =>
      let o := mkObject (o_Name o) (Hash data) (o_Size o) (o_Seed o) (o_Zram o) in
      let '(fid, alias, data) :=
        if bool_decide (o_Name o = "alias"%string)
        then (Hash (data ++ [byte_of 1]), o_FID o, data ++ [byte_of 1]) else (o_FID o, 0, data) in
      match put fid alias (Z.of_nat (length data)) data w with
      | (Some err, w) => (inr err, w)
      | (None, w) => (inl o, w)
      end
  end.

Fixpoint seed_all (objects : list object) (w : W) : (list object + cerror) * W :=
  match objects with
  | [] => (inl [], w)
  | o :: objects =>
      match seed_object o w with
      | (inr err, w) => (inr err, w)
      | (inl o, w) =>
          match seed_all objects w with
          | (inr err, w) => (inr err, w)
          | (inl os, w) => (inl (o :: os), w)
          end
      end
  end.

(** What must fail: a stream shorter than its header says, reading what it left, a fid taken twice. *)
Definition seed_refusals (short : Z) (objects : list object) (w : W) : option cerror * W :=
  match put short 0 10 [x61; x62; x63] w with
  | (None, w) => failing "short stream accepted" w
  | (Some _, w) =>
      match pb_Head short w with
      | (inl _, w) => failing "aborted object visible" w
      | (inr err, w) =>
          if negb (code_is NotFound err) then failing "aborted object visible" w else
          match objects with
          | [] => (Some (CError (EPanic "index out of range")), w)
          | o :: _ =>
              match put (o_FID o) 0 (u64 (o_Size o)) [] w with
              | (None, w) => failing "duplicate accepted" w
              | (Some err, w) =>
                  if negb (code_is AlreadyExists err) then failing "duplicate accepted" w else (None, w)
              end
          end
      end
  end.

(** ** The program *)

(** What [run] meets outside: the result of dialling, the clock's two strings, the hash of a string,
    the result of writing the manifest, the manifest and pan.json as they are read, the devices. *)
Record smoke_env := mkSmokeEnv {
  se_dial : option error;
  se_stamp : string;
  se_now : string;
  se_write : list object → option error;
  se_manifest : res (list object);
  se_pan : res (list PanDevice);
  se_open : string → res file
}.

Definition run (HashString : string → Z) (mode : string) (env : smoke_env) (w : W) : option cerror * W :=
  let seed := bool_decide (mode = "seed"%string) in
  if negb seed && negb (bool_decide (mode = "verify"%string)) then failing "invalid mode" w else
  match se_dial env with
  | Some e => (Some (CError e), w)
  | None =>
  match pb_Health w with
  | (inr err, w) => (Some err, w)
  | (inl ok, w) =>
  if negb ok then failing "degraded health" w else
  match pb_Bonnie w with
  | (inr err, w) => (Some err, w)
  | (inl _, w) =>
  let '(objects, w) :=
    if seed then
      match seed_all (seed_objects (se_stamp env)) w with
      | (inr err, w) => (inr err, w)
      | (inl os, w) => match se_write env os with Some e => (inr (CError e), w) | None => (inl os, w) end
      end
    else match se_manifest env with Err e => (inr (CError e), w) | Ok os => (inl os, w) end in
  match objects with
  | inr err => (Some err, w)
  | inl objects =>
  match se_pan env with
  | Err e => (Some (CError e), w)
  | Ok devices =>
  match verify_objects (se_open env) devices objects w with
  | (Some err, w) => (Some err, w)
  | (None, w) =>
      if seed then seed_refusals (HashString (String.append "short:" (se_now env))) objects w else (None, w)
  end end end end end end.
End seed.
End calls.

(** ** Payloads *)
Lemma length_concat_replicate {A} n (p : list A) : length (concat (replicate n p)) = (n * length p)%nat.
Proof. induction n as [|n IH]; [done|]. cbn. rewrite length_app, IH. lia. Qed.

Lemma unit_nonempty o : 0 < Z.of_nat (length (unit_of o)).
Proof. unfold unit_of, String.list_byte_of_string. rewrite length_map. by destruct (o_Seed o). Qed.

(** The backing of a payload is at least as long as the payload. *)
Lemma backing_length o b : backing o = Ok b → 0 ≤ o_Size o ≤ Z.of_nat (length b) ∧ Z.of_nat (length b) ≤ maxAlloc.
Proof.
  unfold backing. pose proof (unit_nonempty o) as Hp. set (p := unit_of o) in *. set (k := Z.of_nat (length p)) in *.
  destruct (Z.ltb_spec (o_Size o) 0) as [|H0]; [done|]. destruct (Z.ltb_spec maxAlloc (k * (Z.quot (o_Size o) k + 1))) as [|Hm]; [done|].
  intros [= <-]. rewrite length_concat_replicate.
  pose proof (Z.quot_rem' (o_Size o) k). pose proof (Z.rem_bound_pos (o_Size o) k H0 ltac:(lia)).
  pose proof (Z.quot_pos (o_Size o) k H0 Hp).
  rewrite Nat2Z.inj_mul, Z2Nat.id by lia. fold k. lia.
Qed.

Lemma payload_length o l : payload o = Ok l → Z.of_nat (length l) = o_Size o ∧ 0 ≤ o_Size o ≤ maxAlloc.
Proof.
  unfold payload. destruct (backing o) as [b|] eqn:E; [|done]. intros [= <-]. apply backing_length in E.
  rewrite length_take. lia.
Qed.

Lemma want_part_whole o l : payload o = Ok l → 77 ≤ o_Size o → want_part o = Ok (slice l 7 77).
Proof.
  unfold payload, want_part. destruct (backing o) as [b|] eqn:E; [|done]. intros [= <-] H. apply backing_length in E. cbn.
  rewrite (proj2 (Z.ltb_ge _ _)) by lia. f_equal. unfold slice.
  by rewrite (skipn_firstn_comm (Z.to_nat 7) (Z.to_nat (o_Size o)) b), take_take, Nat.min_l by lia.
Qed.

Lemma want_part_length o w : want_part o = Ok w → length w = 70%nat.
Proof.
  unfold want_part. destruct (backing o) as [b|]; [|done]. cbn. destruct (Z.ltb_spec (Z.of_nat (length b)) 77); [done|].
  intros [= <-]. unfold slice. rewrite length_take, length_drop. lia.
Qed.

(** ** Reading over the wire *)
Lemma get_messages_sound msgs final : ∀ offset data n out,
  get_messages msgs final offset data n = inl out → final = None ∧ out.1 = data ++ received msgs.
Proof.
  induction msgs as [|m msgs IH]; intros offset data n out H; cbn in H.
  - destruct final; [done|]. injection H as <-. by rewrite app_nil_r.
  - destruct (_ || _); [done|]. apply IH in H as [-> ->]. split; [done|]. by rewrite <- app_assoc.
Qed.

Lemma get_messages_covers size msgs : ∀ offset end_ data n,
  covers msgs offset end_ → Forall (message_ok size) msgs → size < 2 ^ 64 →
  get_messages msgs None offset data n = inl (data ++ received msgs, n + Z.of_nat (length msgs)).
Proof.
  induction msgs as [|m msgs IH]; intros offset end_ data n Hc Hm Hs; cbn.
  { by rewrite app_nil_r, Z.add_0_r. }
  destruct Hc as [<- Hc]. apply Forall_cons in Hm as [(Hsz & Hr & He & Hl & Hb) Hms].
  rewrite (proj2 (Z.ltb_ge _ _)), Z.eqb_refl by done. rewrite u64_small by lia. rewrite Hl, Z.eqb_refl. cbn [negb orb].
  rewrite (IH _ end_) by done. f_equal. f_equal; [by rewrite <- app_assoc|lia].
Qed.

Section service.
Context {W : Type} `{!BSOSClient W} `{!PoolService W}.

Lemma get_service req (w : W) :
  svc_ok w → is_u64 (gq_range_start req) → is_u64 (gq_range_end req) →
  (gq_has_range req = false → gq_range_start req = 0) →
  let '(out, w') := get req w in
  svc_ok w' ∧ (∀ f, store_of w' f = store_of w f) ∧
  (∀ data, out = inl data → ∃ l a b, store_of w (gq_fid req) = Some l ∧
     get_range req (Z.of_nat (length l)) = Some (a, b) ∧ data.1 = slice l a b) ∧
  (∀ l a b, store_of w (gq_fid req) = Some l → get_range req (Z.of_nat (length l)) = Some (a, b) →
     Z.of_nat (length l) < 2 ^ 64 → ∃ n, out = inl (slice l a b, n)).
Proof.
  intros Hok H1 H2 H0. unfold get. pose proof (law_get req w Hok H1 H2) as H.
  destruct (pb_Get req w) as [[msgs final] w']. destruct H as (Hok' & Hs & H).
  split; [done|]. split; [done|]. split.
  - intros data E. apply get_messages_sound in E as [-> E].
    destruct (store_of w (gq_fid req)) as [l|]; [|by destruct H as (? & ? & _)].
    destruct (get_range req (Z.of_nat (length l))) as [[a b]|] eqn:Er; [|by destruct H as (? & ? & _)].
    destruct H as (_ & _ & Hr & _). exists l, a, b. rewrite E. cbn. done.
  - intros l a b El Er Hl. rewrite El, Er in H. destruct H as (-> & _ & Hr & Hc & Hm).
    assert (Ha : (if gq_has_range req then gq_range_start req else 0) = a).
    { unfold get_range in Er. destruct (gq_has_range req); [|by injection Er].
      destruct (_ <? gq_range_start req); [done|]. by injection Er. }
    rewrite Ha, (get_messages_covers _ _ _ _ _ _ Hc Hm Hl). rewrite Hr. eauto.
Qed.

(** The whole object, and the part the test asks for. *)
Lemma get_whole fid (w : W) :
  svc_ok w →
  let '(out, w') := get (mkGetRequest fid false 0 0) w in
  svc_ok w' ∧ (∀ f, store_of w' f = store_of w f) ∧
  (∀ data, out = inl data → store_of w fid = Some data.1) ∧
  (∀ l, store_of w fid = Some l → Z.of_nat (length l) < 2 ^ 64 → ∃ n, out = inl (l, n)).
Proof.
  intros Hok. pose proof (get_service (mkGetRequest fid false 0 0) w Hok ltac:(done) ltac:(done) ltac:(done)) as H.
  destruct (get _ w) as [out w']. cbn [gq_fid] in H. destruct H as (Hok' & Hs & Hsound & Hcomp).
  split; [done|]. split; [done|]. split.
  - intros data E. destruct (Hsound data E) as (l & a & b & Hst & Hr & Hd). injection Hr as <- <-.
    by rewrite Hd, slice_whole.
  - intros l Hst Hl. destruct (Hcomp l 0 (Z.of_nat (length l)) Hst eq_refl Hl) as [n ->]. exists n. by rewrite slice_whole.
Qed.

Lemma get_part o want (w : W) :
  svc_ok w → payload o = Ok want → store_of w (o_FID o) = Some want →
  let '(out, w') := get (mkGetRequest (o_FID o) true 7 77) w in
  svc_ok w' ∧ (∀ f, store_of w' f = store_of w f) ∧
  ((∃ wp n, want_part o = Ok wp ∧ out = inl (wp, n)) ↔ 77 ≤ o_Size o).
Proof.
  intros Hok Ep Hst. destruct (payload_length o want Ep) as [Hlen Hmax]. unfold maxAlloc in Hmax.
  pose proof (get_service (mkGetRequest (o_FID o) true 7 77) w Hok ltac:(done) ltac:(done) ltac:(done)) as H.
  destruct (get _ w) as [out w']. cbn [gq_fid] in H. destruct H as (Hok' & Hs & Hsound & Hcomp).
  split; [done|]. split; [done|]. split.
  - intros (wp & n & Hwp & ->). apply want_part_length in Hwp.
    destruct (Hsound _ eq_refl) as (l & a & b & Hst' & Hrng & Hd). rewrite Hst in Hst'. injection Hst' as <-.
    cbn in Hd. unfold get_range in Hrng. cbn in Hrng. rewrite Hlen in Hrng.
    destruct (Z.ltb_spec (o_Size o) 77); [|done]. destruct (_ <? 7); [done|]. injection Hrng as <- <-.
    subst wp. unfold slice in Hwp. rewrite length_take, length_drop in Hwp. lia.
  - intros H77. destruct (Hcomp want 7 77 Hst) as [n ->]; [|lia|by eauto using want_part_whole].
    unfold get_range. cbn. rewrite Hlen. destruct (Z.ltb_spec (o_Size o) 77); [lia|done].
Qed.

(** ** Verifying *)
Section verify.
Context (open : string → res file) (devices : list PanDevice).

(** The pool holds the payload of [o] and one device lists it. *)
Definition passes (m : store) (o : object) : Prop :=
  77 ≤ o_Size o ∧ ∃ l, payload o = Ok l ∧ m (o_FID o) = Some l ∧ count_devices open devices o 0 = Ok 1.

Lemma passes_ext m m' o : (∀ f, m' f = m f) → passes m o → passes m' o.
Proof. intros H (? & l & ? & ? & ?). split; [done|]. exists l. by rewrite H. Qed.

Lemma verify_object_service o (w : W) :
  svc_ok w →
  let '(r, w') := verify_object open devices o w in
  svc_ok w' ∧ (∀ f, store_of w' f = store_of w f) ∧ (r = None ↔ passes (store_of w) o).
Proof.
  intros Hok. unfold verify_object. destruct (payload o) as [want|e] eqn:Ep.
  2:{ split; [done|]. split; [done|]. split; [done|]. intros (_ & l & El & _). congruence. }
  destruct (payload_length o want Ep) as [Hlen Hmax]. unfold maxAlloc in Hmax.
  pose proof (get_whole (o_FID o) w Hok) as H1. destruct (get (mkGetRequest _ false _ _) w) as [out1 w1].
  destruct H1 as (Hok1 & Hs1 & Hsound1 & Hcomp1).
  assert (Hread : passes (store_of w) o → ∃ n, out1 = inl (want, n)).
  { intros (_ & l & El & Hst & _). rewrite Ep in El. injection El as <-. apply Hcomp1; [done|lia]. }
  destruct out1 as [[data n1]|err].
  2:{ split; [done|]. split; [done|]. split; [done|]. intros Hp. by destruct (Hread Hp) as [n ?]. }
  pose proof (Hsound1 _ eq_refl) as Hst. cbn in Hst. case_bool_decide as Hdw; cbn [negb].
  2:{ split; [done|]. split; [done|]. split; [done|]. intros Hp. destruct (Hread Hp) as [n ?]. congruence. }
  subst data. pose proof (law_head (o_FID o) w1 Hok1) as H2. destruct (pb_Head (o_FID o) w1) as [out2 w2].
  destruct H2 as (Hok2 & Hs2 & H2). rewrite Hs1, Hst in H2. subst out2.
  rewrite Hlen, u64_small, Z.eqb_refl by lia. cbn [negb].
  pose proof (get_part o want w2 Hok2 Ep ltac:(by rewrite Hs2, Hs1)) as H3.
  destruct (get (mkGetRequest _ true _ _) w2) as [out3 w3]. destruct H3 as (Hok3 & Hs3 & H77).
  assert (Hs : ∀ f, store_of w3 f = store_of w f) by (intros f; by rewrite Hs3, Hs2, Hs1).
  destruct out3 as [[part n3]|err].
  2:{ split; [done|]. split; [done|]. split; [done|]. intros (Hge & _). apply H77 in Hge. naive_solver. }
  destruct (want_part o) as [wp|e] eqn:Ew.
  2:{ split; [done|]. split; [done|]. split; [done|]. intros (Hge & _). apply H77 in Hge. naive_solver. }
  case_bool_decide as Hpw; cbn [negb].
  2:{ split; [done|]. split; [done|]. split; [done|]. intros (Hge & _). apply H77 in Hge. naive_solver. }
  assert (Hge : 77 ≤ o_Size o) by (apply H77; subst; by eauto).
  destruct (count_devices open devices o 0) as [count|e] eqn:Ec.
  2:{ split; [done|]. split; [done|]. split; [done|]. intros (_ & l & _ & _ & ?). congruence. }
  destruct (Z.eqb_spec count 1) as [->|Hc]; cbn [negb].
  - split; [done|]. split; [done|]. split; [|done]. intros _. split; [done|]. by exists want.
  - split; [done|]. split; [done|]. split; [done|]. intros (_ & l & _ & _ & ?). congruence.
Qed.

Lemma verify_objects_service objects : ∀ w : W,
  svc_ok w →
  let '(r, w') := verify_objects open devices objects w in
  svc_ok w' ∧ (∀ f, store_of w' f = store_of w f) ∧ (r = None ↔ Forall (passes (store_of w)) objects).
Proof.
  induction objects as [|o objects IH]; intros w Hok; cbn [verify_objects]; [by split_and!|].
  pose proof (verify_object_service o w Hok) as H. destruct (verify_object open devices o w) as [[e|] w1];
    destruct H as (Hok1 & Hs1 & H1).
  - split; [done|]. split; [done|]. split; [done|]. intros [Hp _]%Forall_cons. by apply H1 in Hp.
  - specialize (IH w1 Hok1). destruct (verify_objects open devices objects w1) as [r w2].
    destruct IH as (Hok2 & Hs2 & H2). split; [done|]. split; [intros f; by rewrite Hs2, Hs1|].
    rewrite H2, Forall_cons. split.
    + intros Hf. split; [by apply H1|]. eapply Forall_impl; [exact Hf|]. intros x. apply passes_ext. by intros f; rewrite Hs1.
    + intros [_ Hf]. eapply Forall_impl; [exact Hf|]. intros x. by apply passes_ext.
Qed.
End verify.

(** ** Putting *)

(** What has been sent when [rest] of [l] is left, on a stream that is open or ended. *)
Definition sent_so_far (w0 : W) (fid size alias : Z) (l : list byte) (live : bool) (rest : list byte)
    (st : put_stream) (w : W) : Prop :=
  svc_ok w ∧ (∀ f, store_of w f = store_of w0 f) ∧
  ∃ chunks, session st live (PutHeader fid size alias :: (PutChunk <$> chunks)) w ∧
    (live = true → concat chunks ++ rest = l).

Lemma send_chunks_service w0 fid size alias l st w :
  sent_so_far w0 fid size alias l true l st w →
  let '(st', w') := send_chunks l st w in ∃ live, sent_so_far w0 fid size alias l live [] st' w'.
Proof.
  intros H0. unfold send_chunks.
  edestruct (loop_total (λ '(rest, st, w), sent_so_far w0 fid size alias l true rest st w)
    (λ '(rest, _, _), Z.of_nat (length rest))
    (λ '(st', w'), ∃ live, sent_so_far w0 fid size alias l live [] st' w')
    (Z.to_pos (Z.of_nat (length l) + 1))) as (out & -> & Hout); [exact H0|lia| |clear H0; by destruct out].
  intros [[rest s1] w1] (Hok & Hs & chunks & Hse & Hc) _. specialize (Hc eq_refl).
  destruct rest as [|b rest]; [exists true; split; [done|split; [done|by exists chunks]]|].
  set (data := b :: rest) in *. set (n := Z.to_nat _).
  pose proof (law_send s1 _ (PutChunk (take n data)) w1 Hok Hse) as H.
  destruct (Send s1 (PutChunk (take n data)) w1) as [[e s2] w2]. destruct H as (Hok2 & Hs2 & Hse2).
  change (PutHeader fid size alias :: (PutChunk <$> chunks)) with
    ([PutHeader fid size alias] ++ (PutChunk <$> chunks)) in Hse2.
  rewrite <- app_assoc in Hse2. change [PutChunk (take n data)] with (PutChunk <$> [take n data]) in Hse2.
  rewrite <- fmap_app in Hse2.
  assert (Hs' : ∀ f, store_of w2 f = store_of w0 f) by (intros f; by rewrite Hs2, Hs).
  destruct e as [e|]; [exists false; split; [done|split; [done|eexists; by split; [exact Hse2|]]]|]. split.
  - split; [done|]. split; [done|]. eexists. split; [exact Hse2|]. intros _.
    rewrite concat_app. cbn [concat]. rewrite app_nil_r, <- app_assoc, take_drop. exact Hc.
  - rewrite length_drop. unfold n, messageBytes, data in *. cbn [length] in *. lia.
Qed.

Definition has_put (fid alias size : Z) (data : list byte) (w w' : W) : Prop :=
  fresh_put fid data alias (store_of w) ∧ Z.of_nat (length data) = size ∧
  ∀ f, store_of w' f = store_put fid data alias (store_of w) f.

Lemma put_service fid alias size data (w : W) :
  svc_ok w → is_u64 fid → is_u64 size → is_u64 alias →
  let '(r, w') := put fid alias size data w in
  svc_ok w' ∧
  match r with
  | None => has_put fid alias size data w w'
  | Some _ => (∀ f, store_of w' f = store_of w f) ∨ has_put fid alias size data w w'
  end.
Proof.
  intros Hok H1 H2 H3. unfold put. pose proof (law_open w Hok) as Ho.
  destruct (pb_Put w) as [[st|e] w1]; [|by destruct Ho as (? & ? & _); split; [|left]]. destruct Ho as (Hok1 & Hs1 & Hse).
  pose proof (law_send st [] (PutHeader fid size alias) w1 Hok1 Hse) as H.
  destruct (Send st _ w1) as [[e st2] w2]. destruct H as (Hok2 & Hs2 & Hse2).
  assert (Hs : ∀ f, store_of w2 f = store_of w f) by (intros f; by rewrite Hs2, Hs1).
  destruct e as [e|]; [by split; [|left]|]. pose proof (send_chunks_service w fid size alias data st2 w2) as H.
  destruct (send_chunks data st2 w2) as [st3 w3].
  destruct H as (live & Hok3 & Hs3 & chunks & Hse3 & Hc); [split; [done|split; [done|by exists []]]|].
  destruct live.
  - pose proof (law_close st3 fid size alias chunks w3 Hok3 H1 H2 H3 Hse3) as H. specialize (Hc eq_refl).
    rewrite app_nil_r in Hc. rewrite Hc in H.
    assert (Hput : ∀ w4, has_put fid alias size data w3 w4 → has_put fid alias size data w w4).
    { intros w4 (Hn & Hl & Hp). split; [|split; [done|]].
      - unfold fresh_put in *. by rewrite <- !Hs3.
      - intros f. rewrite Hp. by apply store_put_ext. }
    destruct (CloseAndRecv st3 w3) as [[e|] w4].
    + destruct H as [Hok4 [[Hs4 _]|[_ H]]]; (split; [done|]); [left|right; by apply Hput].
      intros f. by rewrite Hs4, Hs3.
    + destruct H as [Hok4 H]. split; [done|]. by apply Hput.
  - pose proof (law_ended st3 fid size alias chunks w3 Hok3 Hse3) as H.
    destruct (CloseAndRecv st3 w3) as [[e|] w4]; [|done]. destruct H as (Hok4 & Hs4 & _).
    split; [done|]. left. intros f. by rewrite Hs4, Hs3.
Qed.

(** ** Seeding *)
Section seed.
Context (Hash : list byte → Z) (Hhash : ∀ l, is_u64 (Hash l)).

(** Nothing that was stored is lost. *)
Definition store_grows (w w' : W) : Prop := ∀ f l, store_of w f = Some l → store_of w' f = Some l.

Lemma store_grows_same w w' : (∀ f, store_of w' f = store_of w f) → store_grows w w'.
Proof. intros H f l. by rewrite H. Qed.

Lemma store_grows_trans w1 w2 w3 : store_grows w1 w2 → store_grows w2 w3 → store_grows w1 w3.
Proof. unfold store_grows. eauto. Qed.

Lemma put_grows fid alias size data (w : W) :
  svc_ok w → is_u64 fid → is_u64 size → is_u64 alias →
  svc_ok (put fid alias size data w).2 ∧ store_grows w (put fid alias size data w).2.
Proof.
  intros Hok H1 H2 H3. pose proof (put_service fid alias size data w Hok H1 H2 H3) as H.
  assert (Hput : ∀ w', has_put fid alias size data w w' → store_grows w w').
  { intros w' ((Hn & _ & Ha) & _ & Hp) f l Hf. rewrite Hp. unfold store_put.
    destruct (decide (f = alias ∧ alias ≠ 0)) as [[-> Hz]|]; [destruct (Ha Hz) as (_ & ? & _); congruence|].
    case_decide; congruence. }
  destruct (put fid alias size data w) as [[e|] w']; cbn [snd]; destruct H as [Hok' H]; (split; [done|]); [|auto].
  destruct H as [H|H]; [by apply store_grows_same|auto].
Qed.

(** The object of the manifest made of one of the seed. *)
Definition hashed (o o' : object) : Prop :=
  ∃ l, payload o = Ok l ∧ o' = mkObject (o_Name o) (Hash l) (o_Size o) (o_Seed o) (o_Zram o).

Lemma seed_object_service o (w : W) :
  svc_ok w →
  let '(out, w') := seed_object Hash o w in
  svc_ok w' ∧ store_grows w w' ∧ match out with inl o' => hashed o o' | inr _ => True end.
Proof using Hhash.
  intros Hok. unfold seed_object. destruct (payload o) as [data|] eqn:Ep; [|by split; [done|split; [apply store_grows_same|]]].
  apply payload_length in Ep as Hl. unfold maxAlloc in Hl. cbn [o_FID].
  set (args := if bool_decide _ then _ else _).
  assert (Hargs : is_u64 args.1.1 ∧ is_u64 args.1.2 ∧ is_u64 (Z.of_nat (length args.2))).
  { unfold args. case_bool_decide; cbn [fst snd]; rewrite ?length_app; cbn [length]; split_and!;
      try apply Hhash; unfold is_u64; lia. }
  destruct args as [[fid alias] bytes]. destruct Hargs as (H1 & H2 & H3).
  destruct (put_grows fid alias _ bytes w Hok H1 H3 H2) as [Hok' Hg].
  destruct (put fid alias _ bytes w) as [[e|] w']; [by split_and!|]. split; [done|]. split; [done|]. by exists data.
Qed.

Lemma seed_all_service objects : ∀ w : W,
  svc_ok w →
  let '(out, w') := seed_all Hash objects w in
  svc_ok w' ∧ store_grows w w' ∧ match out with inl os => Forall2 hashed objects os | inr _ => True end.
Proof using Hhash.
  induction objects as [|o objects IH]; intros w Hok; cbn [seed_all]; [by split; [done|split; [apply store_grows_same|]]|].
  pose proof (seed_object_service o w Hok) as H. destruct (seed_object Hash o w) as [[o'|e] w1];
    destruct H as (Hok1 & Hg1 & H1); [|by split_and!].
  specialize (IH w1 Hok1). destruct (seed_all Hash objects w1) as [[os|e] w2]; destruct IH as (Hok2 & Hg2 & H2);
    split; [done| |done|]; split; [by eapply store_grows_trans|by constructor|by eapply store_grows_trans|done].
Qed.

(** The refused calls change nothing. *)
Lemma seed_refusals_service short objects (w : W) :
  svc_ok w → is_u64 short → Forall (λ o, is_u64 (o_FID o)) objects →
  let '(r, w') := seed_refusals short objects w in
  svc_ok w' ∧ (∀ f, store_of w' f = store_of w f) ∧ (r = None → store_of w short = None).
Proof.
  intros Hok Hu Ho. unfold seed_refusals.
  pose proof (put_service short 0 10 [x61; x62; x63] w Hok Hu ltac:(done) ltac:(done)) as H.
  destruct (put short 0 10 _ w) as [[e|] w1]; destruct H as [Hok1 H1]; [|by destruct H1 as (_ & ? & _)].
  destruct H1 as [H1|(_ & ? & _)]; [|done].
  pose proof (law_head short w1 Hok1) as H2. destruct (pb_Head short w1) as [[n|e2] w2];
    destruct H2 as (Hok2 & Hs2 & H2); (assert (Hs : ∀ f, store_of w2 f = store_of w f) by (intros f; by rewrite Hs2, H1)).
  { split; [done|]. by split. }
  assert (Hnone : store_of w short = None).
  { rewrite H1 in H2. destruct (store_of w short) as [l|]; [|done]. congruence. }
  destruct (code_is NotFound e2); cbn [negb]; [|by split]. destruct objects as [|o objects]; [by split|].
  apply Forall_cons in Ho as [Ho _].
  pose proof (put_service (o_FID o) 0 (u64 (o_Size o)) [] w2 Hok2 Ho (u64_range _) ltac:(done)) as H3.
  destruct (put (o_FID o) 0 _ [] w2) as [[e3|] w3]; destruct H3 as [Hok3 H3]; [|by destruct H3 as ((_ & ? & _) & _)].
  destruct H3 as [H3|((_ & ? & _) & _)]; [|done].
  assert (Hs3 : ∀ f, store_of w3 f = store_of w f) by (intros f; by rewrite H3, Hs).
  by destruct (code_is AlreadyExists e3); cbn [negb].
Qed.
End seed.

(** The calls before the mode matters. *)
Lemma preamble (w : W) :
  svc_ok w →
  svc_ok (pb_Bonnie (pb_Health w).2).2 ∧ ∀ f, store_of (pb_Bonnie (pb_Health w).2).2 f = store_of w f.
Proof.
  intros Hok. destruct (law_health w Hok) as [Hok1 Hs1]. destruct (law_bonnie _ Hok1) as [Hok2 Hs2].
  split; [done|]. intros f. by rewrite Hs2, Hs1.
Qed.

Lemma run_verify Hash HashString env (w : W) objects devices n :
  svc_ok w → se_dial env = None → (pb_Health w).1 = inl true → (pb_Bonnie (pb_Health w).2).1 = inl n →
  se_manifest env = Ok objects → se_pan env = Ok devices →
  let '(r, w') := run Hash HashString "verify" env w in
  svc_ok w' ∧ (∀ f, store_of w' f = store_of w f) ∧
  (r = None ↔ Forall (passes (se_open env) devices (store_of w)) objects).
Proof.
  intros Hok Hd Hh Hb Hm Hp. unfold run. rewrite Hd, Hm, Hp. destruct (preamble w Hok) as [Hok2 Hs2].
  destruct (pb_Health w) as [h w1]. cbn [fst snd] in *. subst h. destruct (pb_Bonnie w1) as [b w2]. cbn [fst snd] in *.
  subst b. cbn [negb]. pose proof (verify_objects_service (se_open env) devices objects w2 Hok2) as H.
  change (bool_decide ("verify"%string = "seed"%string)) with false.
  change (bool_decide ("verify"%string = "verify"%string)) with true. cbn [negb andb].
  destruct (verify_objects (se_open env) devices objects w2) as [r w3]. destruct H as (Hok3 & Hs3 & H).
  assert (Hs : ∀ f, store_of w3 f = store_of w f) by (intros f; by rewrite Hs3, Hs2).
  assert (Hf : r = None ↔ Forall (passes (se_open env) devices (store_of w)) objects).
  { rewrite H. split; intros Hf; (eapply Forall_impl; [exact Hf|]); intros o; by apply passes_ext. }
  destruct r; split; [done|by split|done|by split].
Qed.

(** What the seed program leaves. *)
Definition seeded (Hash : list byte → Z) (HashString : string → Z) (env : smoke_env) (w : W)
    '((r, w') : option cerror * W) : Prop :=
  svc_ok w' ∧ store_grows w w' ∧
  (r = None → ∃ objects devices,
    Forall2 (hashed Hash) (seed_objects (se_stamp env)) objects ∧ se_write env objects = None ∧
    se_pan env = Ok devices ∧ Forall (passes (se_open env) devices (store_of w')) objects ∧
    store_of w' (HashString (String.append "short:" (se_now env))) = None).

Lemma seeded_fails Hash HashString env w w' e :
  svc_ok w' → store_grows w w' → seeded Hash HashString env w (Some e, w').
Proof. by split; [|split]. Qed.
End service.

(** ** The devices of a pool *)

(** A working disk whose index has room. *)
Definition searchable (d : DeviceState) : Prop := ∃ gs, ready d gs ∧ room gs 1.

(** The index has a live record of the fid itself. *)
Definition in_index (d : DeviceState) (fid : Z) : Prop := ∃ gs, ready d gs ∧ fid ∈ live gs ≫= claims.

(** pan.json lists the disks of the daemon, and opening them gives what is on them. *)
Definition devices_of (open : string → res file) (devices : list PanDevice) (ds : list Disk) : Prop :=
  Forall2 (λ dev d, DevicePath dev = devicePath d ∧ open (DevicePath dev) = Ok (ds_file (d_state d))) devices ds.

Section count.
Context (open : string → res file) (o : object).

(** One device, by what the search on it finds. *)
Definition count_found (path : string) (r : res (Z * Z * Z * bool * bool)) (next : Z → res Z) (c : Z) : res Z :=
  match r with
  | Err e => Err e
  | Ok (_, _, _, found, _) =>
      if found then if negb (Bool.eqb (IsZramDevicePath path) (o_Zram o)) then Err (EMsg "wrong tier") else next (c + 1)
      else next c
  end.

Lemma bind_ok {A B} (f : A → res B) a : mbind f (Ok a) = f a.
Proof. done. Qed.

Lemma count_bind (r : res (Z * Z * Z * bool * bool)) path next c :
  ('(_, _, _, found, _) ← r;
   if found : bool then
     if negb (Bool.eqb (IsZramDevicePath path) (o_Zram o)) then Err (EMsg "wrong tier") else next (c + 1)
   else next c) = count_found path r next c.
Proof. by destruct r as [[[[[n a] m] found] jump]|e]. Qed.

Lemma count_cons dev devices c f :
  open (DevicePath dev) = Ok f →
  count_devices open (dev :: devices) o c =
    count_found (DevicePath dev) (FindLatestIndexEntry (o_FID o) f).1 (count_devices open devices o) c.
Proof.
  intros Hop. rewrite <- count_bind. unfold count_devices. fold (count_devices open). rewrite Hop, bind_ok. reflexivity.
Qed.

(** Disks that do not know the fid do not count. *)
Lemma count_none devices ds rest c :
  devices_of open devices ds →
  Forall (λ d, searchable (d_state d) ∧ confirmed (d_state d) !! o_FID o = None) ds →
  count_devices open (devices ++ rest) o c = count_devices open rest o c.
Proof.
  intros H. induction H as [|dev d devices ds [_ Hop] _ IH]; intros Hn; [done|].
  apply Forall_cons in Hn as [[(gs & Hr & Hroom) Hn] Hns]. cbn [app]. rewrite (count_cons _ _ _ _ Hop).
  rewrite (find_unnamed (d_state d) gs (o_FID o) Hr Hroom Hn). by apply IH.
Qed.

(** The one that knows it counts if its index has the fid and its tier is right. *)
Lemma count_here dev d :
  DevicePath dev = devicePath d → open (DevicePath dev) = Ok (ds_file (d_state d)) → searchable (d_state d) →
  count_devices open [dev] o 0 = Ok 1 ↔
    in_index (d_state d) (o_FID o) ∧ IsZramDevicePath (devicePath d) = o_Zram o.
Proof.
  intros Hpath Hop (gs & Hr & _). rewrite (count_cons _ _ _ _ Hop), Hpath.
  destruct (decide (o_FID o ∈ live gs ≫= claims)) as [Hin|Hout].
  - destruct (find_claimed (d_state d) gs (o_FID o) Hr Hin) as (n & a & m & j & ->). cbn [fst count_found].
    destruct (IsZramDevicePath (devicePath d)), (o_Zram o); cbn; split; try done; try (by intros [_ ?]); intros _;
      (split; [by exists gs|done]).
  - split.
    + destruct (find_unclaimed (d_state d) gs (o_FID o) Hr Hout) as [_ H]. by destruct H as [-> | ->].
    + intros [(gs' & Hr' & Hin) _]. exfalso.
      destruct (find_claimed (d_state d) gs' (o_FID o) Hr' Hin) as (n & a & m & j & E).
      destruct (find_unclaimed (d_state d) gs (o_FID o) Hr Hout) as [_ H]. rewrite E in H. by destruct H.
Qed.

Lemma count_pool devices s ops i d :
  PoolInv s ops → (∀ j x, disks s !! j = Some x → searchable (d_state x)) → devices_of open devices (disks s) →
  disks s !! i = Some d → is_Some (confirmed (d_state d) !! o_FID o) →
  count_devices open devices o 0 = Ok 1 ↔
    in_index (d_state d) (o_FID o) ∧ IsZramDevicePath (devicePath d) = o_Zram o.
Proof.
  intros HP Hsr Hdev Hd Hk. pose proof (list_elem_of_split_length _ _ _ Hd) as (ds1 & ds2 & E & Hi).
  assert (Hothers : ∀ j x, disks s !! j = Some x → j ≠ i → searchable (d_state x) ∧ confirmed (d_state x) !! o_FID o = None).
  { intros j x Hx Hne. split; [by eapply Hsr|]. apply eq_None_not_Some. intros Hx'.
    by apply Hne, (pi_unique _ _ HP j i x d (o_FID o)). }
  unfold devices_of in Hdev. rewrite E in Hdev.
  apply Forall2_app_inv_r in Hdev as (dv1 & rest & H1 & H2 & ->).
  apply Forall2_cons_inv_r in H2 as (dev & dv2 & [Hpath Hop] & H2 & ->).
  rewrite (count_none dv1 ds1 _ 0 H1).
  2:{ apply Forall_lookup. intros j x Hx. apply (Hothers j); [rewrite E; by apply lookup_app_l_Some|].
      apply lookup_lt_Some in Hx. lia. }
  rewrite <- (count_here dev d Hpath Hop) by (by eapply Hsr).
  assert (Hrest : ∀ c, count_devices open (dv2 ++ []) o c = Ok c).
  { intros c. rewrite (count_none dv2 ds2 [] c H2); [done|]. apply Forall_lookup. intros j x Hx.
    apply (Hothers (S (i + j))); [|lia]. rewrite E, lookup_app_r by lia.
    replace (S (i + j) - length ds1)%nat with (S j) by lia. done. }
  rewrite app_nil_r in Hrest. rewrite !(count_cons _ _ _ _ Hop).
  generalize (FindLatestIndexEntry (o_FID o) (ds_file (d_state d))).1. intros [[[[[n a] m] found] jump]|e]; [|done].
  cbn. by destruct found; [destruct (Bool.eqb _ _); cbn|]; rewrite ?Hrest.
Qed.
End count.

Lemma pool_contents_inv s k l :
  pool_contents s k = Some l → ∃ i d, disks s !! i = Some d ∧ contents (d_state d) k = Some l.
Proof.
  unfold pool_contents. induction (disks s) as [|x ds IH]; cbn; [done|].
  destruct (contents (d_state x) k) as [l'|] eqn:E; cbn; [intros [= ->]; by exists 0%nat, x|].
  intros (i & d & Hi & Hd)%IH. by exists (S i), d.
Qed.

Section loopback.
Context (Hash : list byte → Z) (HashString : string → Z).

#[local] Instance pool_client : BSOSClient loopback := loopback_client HashString.
#[local] Instance pool_service : PoolService loopback := loopback_service HashString.

(** C37: when the smoke test passes.  Against a daemon that works and reports itself healthy, with the
    devices of pan.json being its disks and room in their indexes, [vps-smoke -mode verify] changes
    nothing, and succeeds exactly when every object of the manifest, of at least 77 bytes, is stored
    with its payload, its own fid has a live record in the index of its disk, and that disk is of the
    tier the manifest says.  So an object that a trim has packed fails the test although the daemon
    serves it. *)
Theorem smoke_verify env objects devices (w : loopback) :
  loop_ok w → Server.Health (lb_server w) = true →
  (∀ i d, disks (lb_server w) !! i = Some d → searchable (d_state d)) →
  se_dial env = None → se_manifest env = Ok objects → se_pan env = Ok devices →
  devices_of (se_open env) devices (disks (lb_server w)) →
  let '(r, w') := run Hash HashString "verify" env w in
  loop_ok w' ∧ (∀ f, pool_contents (lb_server w') f = pool_contents (lb_server w) f) ∧
  (r = None ↔ ∀ o, o ∈ objects → 77 ≤ o_Size o ∧ ∃ l i d, payload o = Ok l ∧
     disks (lb_server w) !! i = Some d ∧ contents (d_state d) (o_FID o) = Some l ∧
     in_index (d_state d) (o_FID o) ∧ IsZramDevicePath (devicePath d) = o_Zram o).
Proof.
  intros Hok Hh Hsr Hd Hm Hp Hdev.
  pose proof (run_verify Hash HashString env w objects devices _ Hok Hd (f_equal inl Hh) eq_refl Hm Hp) as H.
  destruct (run Hash HashString "verify" env w) as [r w']. destruct H as (Hok' & Hs & H).
  split; [done|]. split; [done|]. rewrite H, Forall_forall. pose proof (lo_inv w Hok) as HP.
  assert (Hcount : ∀ o i d l, disks (lb_server w) !! i = Some d → contents (d_state d) (o_FID o) = Some l →
    count_devices (se_open env) devices o 0 = Ok 1 ↔
      in_index (d_state d) (o_FID o) ∧ IsZramDevicePath (devicePath d) = o_Zram o).
  { intros o i d l Hi Hl. eapply count_pool; [done..|]. apply contents_confirmed. by eexists. }
  apply forall_proper. intros o. apply forall_proper. intros _. unfold passes. split.
  - intros (H77 & l & Hl & Hst & Hc). split; [done|].
    destruct (pool_contents_inv (lb_server w) (o_FID o) l Hst) as (i & d & Hi & Hcd).
    exists l, i, d. split_and!; [done..| |]; by apply (Hcount o i d l).
  - intros (H77 & l & i & d & Hl & Hi & Hcd & Hin & Hz). split; [done|]. exists l. split; [done|].
    split; [by eapply pool_contents_at|]. by apply (Hcount o i d l).
Qed.
End loopback.

(** What a passed seed means.  Whatever the service and its outcome, [vps-smoke -mode seed] loses no
    object that was stored before.  When it reports success, the three objects it wrote to the manifest,
    under the hashes of their payloads, are each stored with exactly these bytes and registered on
    exactly one of the devices of pan.json, and the stream it cut short has left nothing behind. *)
Theorem seed_sound {W} `{!BSOSClient W} `{!PoolService W} Hash HashString env (w : W) :
  svc_ok w → (∀ l, is_u64 (Hash l)) → (∀ s, is_u64 (HashString s)) →
  seeded Hash HashString env w (run Hash HashString "seed" env w).
Proof.
  intros Hok Hh Hhs. unfold run. change (bool_decide ("seed"%string = "seed"%string)) with true. cbn [negb andb].
  destruct (law_health w Hok) as [Hok1 Hs1]. destruct (preamble w Hok) as [Hok2 Hs2].
  destruct (se_dial env); [by (apply seeded_fails; [|apply store_grows_same])|].
  destruct (pb_Health w) as [[[]|e] w1]; cbn [fst snd negb] in *; try by (apply seeded_fails; [|apply store_grows_same]).
  destruct (law_bonnie w1 Hok1) as [Hok2' Hs2']. apply store_grows_same in Hs2 as Hg2.
  destruct (pb_Bonnie w1) as [[n|e] w2]; cbn [fst snd] in *; [|by apply seeded_fails].
  pose proof (seed_all_service Hash Hh (seed_objects (se_stamp env)) w2 Hok2) as H.
  destruct (seed_all Hash _ w2) as [[os|e] w3]; destruct H as (Hok3 & Hg & Hos);
    apply (store_grows_trans _ _ _ Hg2) in Hg as Hg3; [|by apply seeded_fails].
  destruct (se_write env os) eqn:Ew; [by apply seeded_fails|].
  destruct (se_pan env) as [devices|e] eqn:Ep; [|by apply seeded_fails].
  pose proof (verify_objects_service (se_open env) devices os w3 Hok3) as H.
  destruct (verify_objects _ _ os w3) as [r w4]. destruct H as (Hok4 & Hs4 & Hv).
  assert (Hg4 : store_grows w w4) by (by eapply store_grows_trans, store_grows_same). destruct r; [by apply seeded_fails|].
  assert (Hu : Forall (λ o, is_u64 (o_FID o)) os).
  { eapply Forall2_Forall_r; [exact Hos|]. apply Forall_true. intros x y (l & _ & ->). apply Hh. }
  pose proof (seed_refusals_service (HashString (String.append "short:" (se_now env))) os w4 Hok4 (Hhs _) Hu) as H.
  destruct (seed_refusals _ os w4) as [r w5]. destruct H as (Hok5 & Hs5 & H5).
  split; [done|]. split; [by eapply store_grows_trans, store_grows_same|]. intros ->. exists os, devices.
  split; [done|]. split; [done|]. split; [done|]. split; [|by rewrite Hs5, H5].
  eapply Forall_impl; [by apply Hv|]. intros o. apply passes_ext. intros f. by rewrite Hs5, Hs4.
Qed.

(** ** A pool of one disk with one fixture *)
Definition demo_fixture : object := mkObject "small" 5 80 "t" false.
Definition demo_payload : list byte := match payload demo_fixture with Ok l => l | Err _ => [] end.

Lemma demo_stored :
  ∃ d, put_object 5 80 0 (NewReader demo_payload) demo_state = (Ok tt, d) ∧ history_ok d [].
Proof.
  destruct (put_object 5 80 0 (NewReader demo_payload) demo_state) as [r d] eqn:E.
  assert (Hr : r = Ok tt) by (change r with ((r, d).1); rewrite <- E; vm_compute; reflexivity).
  subst r. exists d. split; [done|].
  apply (steps_keep TrimDisk.demo_hash (λ _, 7) demo_cfg demo_hash_u64 (demo_state, []) (d, [])); [|apply demo_fresh].
  apply (put_object_steps TrimDisk.demo_hash (λ _, 7) demo_cfg demo_state [] 5 80 0 (NewReader demo_payload) d);
    [unfold is_u64; lia|lia|unfold is_u64; lia|unfold is_u64; lia| |exact E].
  apply Z.leb_le. vm_compute. reflexivity.
Qed.

Definition demo_smoke (d : DeviceState) : smoke_env :=
  mkSmokeEnv None "" "" (λ _, None) (Ok [demo_fixture]) (Ok [mkPanDevice "match" "dev" "0x7" 1 0]) (λ _, Ok (ds_file d)).

(** The fixture is found; had it not been in the index of its own, the test would have failed. *)
Lemma smoke_verify_witness :
  ∃ d, put_object 5 80 0 (NewReader demo_payload) demo_state = (Ok tt, d) ∧
    (run (BSOSClient0 := loopback_client (λ _, 0)) (λ _, 0) (λ _, 0) "verify" (demo_smoke d)
      (mkLoopback (one_disk d) Pool.demo_env demo_get_env (mkFanout (λ _, [0%nat]) (λ _, false)) 7)).1 = None.
Proof.
  destruct demo_stored as (d & E & Hok). exists d. split; [exact E|].
  assert (Dd : d = (put_object 5 80 0 (NewReader demo_payload) demo_state).2) by (by rewrite E).
  set (w := mkLoopback _ _ _ _ _). destruct (hi_log _ _ Hok) as (gs & Hr & Hdir).
  assert (Hir : index_room d) by (rewrite Dd; vm_compute; reflexivity).
  pose proof (trim_room_of d gs Hr Hir) as Hroom. unfold trim_room, chunk_entries in Hroom.
  assert (Hw : loop_ok w).
  { constructor.
    - exact (ti_pool _ _ (one_disk_TrimInv d Hok)).
    - intros [|i] x [= <-]. split; [apply Hr|]. split; apply Hr.
    - exact (lo_put demo_world demo_loop_ok).
    - exact (lo_get demo_world demo_loop_ok).
    - exact (lo_head demo_world demo_loop_ok).
    - reflexivity. }
  pose proof (smoke_verify (λ _, 0) (λ _, 0) (demo_smoke d) [demo_fixture] [mkPanDevice "match" "dev" "0x7" 1 0] w Hw) as H.
  destruct (run _ _ _ _ w) as [r w']. apply H; clear H.
  - cbn. rewrite Dd. vm_compute. reflexivity.
  - intros [|i] x [= <-]. exists gs. split; [exact Hr|]. unfold room, index_capacity. cbn [d_state]. lia.
  - reflexivity.
  - reflexivity.
  - reflexivity.
  - constructor; [by split|constructor].
  - intros o ->%list_elem_of_singleton. split; [by apply Z.leb_le|].
    exists demo_payload, 0%nat, (mkDisk d "dev"). split; [reflexivity|]. split; [reflexivity|].
    split; [cbn [d_state]; rewrite Dd; vm_compute; reflexivity|]. split; [|reflexivity]. exists gs. split; [exact Hr|].
    apply (direct_claimed d gs 5 (plain_ref 5 80) Hr); [rewrite Dd; vm_compute; reflexivity|reflexivity].
Defined.
