(* ===== verification/Cdc.v ===== *)
(** * Content-defined chunking (pkg/cdc/chunker.go, pkg/manifest/manifest.go, pkg/client/cdc.go)

    Uploading a stream as chunks with a pool of workers and a manifest object, and reading it back.
    The FastCDC algorithm is a library: [inner] is what its [Next] returns, call after call.  The
    protobuf encoding of a manifest is a pair of parameters.  The goroutines of [PutCDC] are a
    transition function over an explicit state, one action per channel operation or RPC, so that a
    list of actions is an interleaving. *)

From S2P Require Import Prelude Machine Loop Device DirectIO Reader Server Serve Client.
From Stdlib Require Import Strings.Byte.

(** ** Chunks *)
Record Options := mkOptions { MinSize : Z; TargetSize : Z; MaxSize : Z }.

Definition DefaultMinSize : Z := 4194304.
Definition DefaultTargetSize : Z := 16777216.
Definition DefaultMaxSize : Z := 33554432.
Definition DefaultOptions : Options := mkOptions DefaultMinSize DefaultTargetSize DefaultMaxSize.

Record Chunk := mkChunk { ch_FID : Z; ch_Offset : Z; ch_Size : Z; ch_Data : list byte }.

(** The calls still to come of the library's [Next]. *)
Definition inner : Type := list (list byte * option error).

Record Chunker := mkChunker { ck_inner : inner; ck_offset : Z }.

(** The sizes [NewChunker] uses and checks. *)
Definition chunker_options (opt : option Options) : res Options :=
  let positive n d := if 0 <? n then n else d in
  let opts := match opt with
              | Some o => mkOptions (positive (MinSize o) DefaultMinSize)
                            (positive (TargetSize o) DefaultTargetSize) (positive (MaxSize o) DefaultMaxSize)
              | None => DefaultOptions
              end in
  if (MinSize opts <=? 0) || (TargetSize opts <? MinSize opts) || (MaxSize opts <? TargetSize opts)
  then Err (EMsg "cdc: invalid chunker options") else Ok opts.

(** [fastcdc] is [chunkers.NewChunker] on the reader at hand. *)
Definition NewChunker (fastcdc : Options → res inner) (opt : option Options) : res Chunker :=
  opts ← chunker_options opt;
  i ← wrap_err "cdc: init fastcdc" (fastcdc opts);
  Ok (mkChunker i 0).

Section chunker.
Context (Hash : list byte → Z).

Definition Next : M Chunker Chunk := λ c,
  let '(buf, err, rest) := match ck_inner c with
                           | [] => ([], Some EEOF, [])
                           | (buf, err) :: rest => (buf, err, rest)
                           end in
  let c' := mkChunker rest (ck_offset c) in
  match err with
  | Some e => if negb (bool_decide (e = EEOF)) then (Err e, c') else
              match buf with
              | [] => (Err EEOF, c')
              | _ => (Ok (mkChunk (Hash buf) (ck_offset c) (Z.of_nat (length buf)) buf),
                      mkChunker rest (u64 (ck_offset c + Z.of_nat (length buf))))
              end
  | None =>
      match buf with
      | [] => (Err EEOF, c')
      | _ => (Ok (mkChunk (Hash buf) (ck_offset c) (Z.of_nat (length buf)) buf),
              mkChunker rest (u64 (ck_offset c + Z.of_nat (length buf))))
      end
  end.
End chunker.

(** ** Manifests *)
Record ChunkDescriptor := mkDesc {
  d_Fid : Z; d_TargetFid : Z; d_Offset : Z; d_Size : Z; d_JumpsTaken : Z
}.

Record FileManifest := mkManifest {
  m_Version : Z; m_TotalSize : Z; m_FullContentHash : Z; m_Filename : string; m_ChunkTargetSize : Z;
  m_Chunks : list ChunkDescriptor
}.

Definition MagicHeader : list byte := [x42; x53; x4d; x4e; x01].
Definition CurrentVersion : Z := 1.
Definition ErrInvalidMagic : error := EMsg "manifest: invalid magic header (not a BSOS FileManifest)".
Definition ErrUnsupportedVersion : error := EMsg "manifest: unsupported manifest version".

Definition IsManifest (data : list byte) : bool :=
  (Z.of_nat (length MagicHeader) <=? Z.of_nat (length data)) &&
  bool_decide (take (length MagicHeader) data = MagicHeader).

Section manifest.
Context (Marshal : FileManifest → res (list byte)) (Unmarshal : list byte → res FileManifest).

Definition Encode (m : option FileManifest) : res (list byte) :=
  match m with
  | None => Err (EMsg "manifest: cannot encode nil FileManifest")
  | Some m =>
      let m := if m_Version m =? 0
               then mkManifest CurrentVersion (m_TotalSize m) (m_FullContentHash m) (m_Filename m)
                      (m_ChunkTargetSize m) (m_Chunks m)
               else m in
      payload ← wrap_err "manifest: proto marshal" (Marshal m);
      Ok (MagicHeader ++ payload)
  end.

Definition Decode (data : list byte) : res FileManifest :=
  if negb (IsManifest data) then Err ErrInvalidMagic else
  m ← wrap_err "manifest: proto unmarshal" (Unmarshal (drop (length MagicHeader) data));
  if negb (m_Version m =? CurrentVersion) then Err (EWrap "version" ErrUnsupportedVersion) else Ok m.
End manifest.

(** ** Uploading *)
Record CDCOptions := mkCDC {
  o_Workers : Z; o_MinChunkSize : Z; o_TargetChunkSize : Z; o_MaxChunkSize : Z; o_Filename : string
}.

Definition cdc_options (opt : option CDCOptions) : CDCOptions :=
  let positive n d := if 0 <? n then n else d in
  match opt with
  | None => mkCDC 8 DefaultMinSize DefaultTargetSize DefaultMaxSize ""
  | Some o => mkCDC (positive (o_Workers o) 8) (positive (o_MinChunkSize o) DefaultMinSize)
                (positive (o_TargetChunkSize o) DefaultTargetSize)
                (positive (o_MaxChunkSize o) DefaultMaxSize) (o_Filename o)
  end.

Record CDCResult := mkCDCResult {
  r_ManifestFID : Z; r_TotalSize : Z; r_FullContentHash : Z; r_ChunkCount : Z;
  r_DeduplicatedCount : Z; r_UploadedCount : Z; r_Chunks : list ChunkDescriptor
}.

Record chunkResult := mkChunkResult { cr_desc : option ChunkDescriptor; cr_isDup : bool; cr_err : option cerror }.

(** The fid and the place; the target and the jumps of the result are not recorded. *)
Definition desc_of (c : Chunk) : ChunkDescriptor := mkDesc (ch_FID c) 0 (ch_Offset c) (ch_Size c) 0.

(** Where a worker is in [PutWithJumpRetry]: the direct put, or a jump code. *)
Inductive jump_phase := PDirect | PJump (code : Z).

(** Where a worker is: waiting for a task, about to make a call, about to send a result, returned. *)
Inductive worker :=
  | WIdle
  | WBusy (c : Chunk) (ph : jump_phase)
  | WSend (r : chunkResult)
  | WGone.

(** The variables the goroutines of [PutCDC] share; [u_hashed] is what the full hasher has been
    given. *)
Record upload (W : Type) := mkUpload {
  u_world : W;
  u_chunker : Chunker;
  u_closed : bool;                   (* taskCh is closed *)
  u_hashed : list byte;
  u_queue : list Chunk;              (* taskCh *)
  u_workers : list worker;
  u_resCh : list chunkResult;
  u_results : list ChunkDescriptor;
  u_dedup : Z;
  u_upload : Z;
  u_sliceErr : option error;
  u_firstErr : option cerror;
  u_parent : bool                    (* the caller's context has ended *)
}.
Arguments mkUpload {W} _ _ _ _ _ _ _ _ _ _ _ _ _.
Arguments u_world {W} _. Arguments u_chunker {W} _. Arguments u_closed {W} _. Arguments u_hashed {W} _.
Arguments u_queue {W} _. Arguments u_workers {W} _. Arguments u_resCh {W} _. Arguments u_results {W} _.
Arguments u_dedup {W} _. Arguments u_upload {W} _. Arguments u_sliceErr {W} _.
Arguments u_firstErr {W} _. Arguments u_parent {W} _.

(** [ctxWorker] is done: its parent is, or [cancelWorkers] was called. *)
Definition is_some {A} (o : option A) : bool := match o with Some _ => true | None => false end.
Definition cancelled {W} (s : upload W) : bool :=
  u_parent s || is_some (u_sliceErr s) || is_some (u_firstErr s).

(** One action of one goroutine. *)
Inductive action :=
  | ASlice                          (* the slicer cuts the next chunk and sends it, or ends *)
  | AStop                           (* the slicer sees the cancellation *)
  | ATake (i : nat)                 (* worker [i] receives from taskCh *)
  | ARpc (i : nat)                  (* worker [i] makes its next call *)
  | ARpcLost (i : nat) (eff : bool) (* ... and the cancellation takes its answer *)
  | ASend (i : nat)                 (* worker [i] sends its result *)
  | AExit (i : nat)                 (* worker [i] sees the cancellation instead *)
  | ACollect                        (* the collector receives a result *)
  | ACancel.                        (* the caller's context ends *)

Section upload.
Context {W : Type} `{!BSOSClient W}.
Context (Hash : list byte → Z) (chunkSize : Z) (capacity : nat).

(** The call of a phase, and what [PutWithJumpRetry] does with its answer. *)
Definition jump_call (data : list byte) (ph : jump_phase) (w : W) : option cerror * W :=
  match ph with
  | PDirect => Put chunkSize (Hash data) (Z.of_nat (length data)) 0 (NewReader data) w
  | PJump code =>
      let jumpData := jump_data data code in
      Put chunkSize (Hash jumpData) (Z.of_nat (length jumpData)) (Hash data) (NewReader jumpData) w
  end.

Definition jump_next (data : list byte) (ph : jump_phase) (err : option cerror) :
    jump_phase + (JumpResult * option cerror) :=
  let fid := Hash data in
  match ph with
  | PDirect =>
      match err with
      | None => inr (mkJump fid fid 0 false, None)
      | Some e => if negb (IsConflict e) then inr (mkJump fid 0 0 false, Some e)
                  else if isIdempotentConflict e then inr (mkJump fid fid 0 true, None)
                  else inl (PJump 1)
      end
  | PJump code =>
      let jumpFID := Hash (jump_data data code) in
      match err with
      | None => inr (mkJump fid jumpFID code false, None)
      | Some e => if negb (IsConflict e) then inr (mkJump fid jumpFID code false, Some e)
                  else if MaxJumpCode <=? code then inr (mkJump fid 0 MaxJumpCode false, Some ErrJumpExhausted)
                  else inl (PJump (code + 1))
      end
  end.

(** The result a worker sends for a finished chunk. *)
Definition result_of (c : Chunk) (out : JumpResult * option cerror) : chunkResult :=
  match out with
  | (_, Some e) => mkChunkResult None false (Some e)
  | (j, None) => mkChunkResult (Some (desc_of c)) (j_IsDuplicate j) None
  end.

Definition set_worker (s : upload W) (i : nat) (x : worker) : upload W :=
  mkUpload (u_world s) (u_chunker s) (u_closed s) (u_hashed s) (u_queue s) (<[i := x]> (u_workers s))
    (u_resCh s) (u_results s) (u_dedup s) (u_upload s) (u_sliceErr s) (u_firstErr s) (u_parent s).
Definition set_world (s : upload W) (w : W) : upload W :=
  mkUpload w (u_chunker s) (u_closed s) (u_hashed s) (u_queue s) (u_workers s)
    (u_resCh s) (u_results s) (u_dedup s) (u_upload s) (u_sliceErr s) (u_firstErr s) (u_parent s).
Definition set_queue (s : upload W) (q : list Chunk) : upload W :=
  mkUpload (u_world s) (u_chunker s) (u_closed s) (u_hashed s) q (u_workers s)
    (u_resCh s) (u_results s) (u_dedup s) (u_upload s) (u_sliceErr s) (u_firstErr s) (u_parent s).
Definition set_resCh (s : upload W) (l : list chunkResult) : upload W :=
  mkUpload (u_world s) (u_chunker s) (u_closed s) (u_hashed s) (u_queue s) (u_workers s)
    l (u_results s) (u_dedup s) (u_upload s) (u_sliceErr s) (u_firstErr s) (u_parent s).
Definition close_tasks (s : upload W) (ck : Chunker) (sliceErr : option error) : upload W :=
  mkUpload (u_world s) ck true (u_hashed s) (u_queue s) (u_workers s)
    (u_resCh s) (u_results s) (u_dedup s) (u_upload s) sliceErr (u_firstErr s) (u_parent s).

(** The slicer's loop body. *)
Definition slice_step (s : upload W) : option (upload W) :=
  if u_closed s then None else
  match Next Hash (u_chunker s) with
  | (Err e, ck) => Some (close_tasks s ck (if bool_decide (e = EEOF) then u_sliceErr s else Some e))
  | (Ok c, ck) =>
      if (length (u_queue s) <? capacity)%nat then
        Some (mkUpload (u_world s) ck false (u_hashed s ++ ch_Data c) (u_queue s ++ [c]) (u_workers s)
                (u_resCh s) (u_results s) (u_dedup s) (u_upload s) (u_sliceErr s) (u_firstErr s)
                (u_parent s))
      else None
  end.

(** A worker's receive from taskCh, with the test of the context after it. *)
Definition take_step (i : nat) (s : upload W) : option (upload W) :=
  match u_queue s with
  | c :: queue =>
      Some (set_worker (set_queue s queue) i (if cancelled s then WGone else WBusy c PDirect))
  | [] => if u_closed s then Some (set_worker s i WGone) else None
  end.

(** A worker's next call. *)
Definition rpc_step (i : nat) (c : Chunk) (ph : jump_phase) (s : upload W) : upload W :=
  let '(err, w) := jump_call (ch_Data c) ph (u_world s) in
  set_worker (set_world s w) i
    match jump_next (ch_Data c) ph err with
    | inl ph => WBusy c ph
    | inr out => WSend (result_of c out)
    end.

(** The collector's loop body. *)
Definition collect_step (s : upload W) : option (upload W) :=
  match u_resCh s with
  | [] => None
  | r :: resCh =>
      let firstErr := match cr_err r, u_firstErr s with
                      | Some e, None => Some e
                      | _, o => o
                      end in
      let '(results, dedup, upload) :=
        match cr_desc r with
        | Some desc => (u_results s ++ [desc],
                        if cr_isDup r then u_dedup s + 1 else u_dedup s,
                        if cr_isDup r then u_upload s else u_upload s + 1)
        | None => (u_results s, u_dedup s, u_upload s)
        end in
      Some (mkUpload (u_world s) (u_chunker s) (u_closed s) (u_hashed s) (u_queue s) (u_workers s)
              resCh results dedup upload (u_sliceErr s) firstErr (u_parent s))
  end.

Definition cdc_step (a : action) (s : upload W) : option (upload W) :=
  match a with
  | ASlice => slice_step s
  | AStop => if u_closed s || negb (cancelled s) then None
             else Some (close_tasks s (u_chunker s) (u_sliceErr s))
  | ATake i => match u_workers s !! i with Some WIdle => take_step i s | _ => None end
  | ARpc i => match u_workers s !! i with
              | Some (WBusy c ph) => Some (rpc_step i c ph s)
              | _ => None
              end
  | ARpcLost i eff =>
      match u_workers s !! i with
      | Some (WBusy c ph) =>
          if negb (cancelled s) then None else
          let w := if eff : bool then (jump_call (ch_Data c) ph (u_world s)).2 else u_world s in
          Some (set_worker (set_world s w) i
                  (WSend (mkChunkResult None false (Some (CStatus (mkStatus ContextEnded "canceled" None))))))
      | _ => None
      end
  | ASend i =>
      match u_workers s !! i with
      | Some (WSend r) =>
          if (length (u_resCh s) <? capacity)%nat
          then Some (set_worker (set_resCh s (u_resCh s ++ [r])) i
                       (match cr_err r with Some _ => WGone | None => WIdle end))
          else None
      | _ => None
      end
  | AExit i =>
      match u_workers s !! i with
      | Some (WSend _) => if cancelled s then Some (set_worker s i WGone) else None
      | _ => None
      end
  | ACollect => collect_step s
  | ACancel =>
      if u_parent s then None else
      Some (mkUpload (u_world s) (u_chunker s) (u_closed s) (u_hashed s) (u_queue s) (u_workers s)
              (u_resCh s) (u_results s) (u_dedup s) (u_upload s) (u_sliceErr s) (u_firstErr s) true)
  end.

Fixpoint run_actions (sched : list action) (s : upload W) : option (upload W) :=
  match sched with
  | [] => Some s
  | a :: sched => s' ← cdc_step a s; run_actions sched s'
  end.

(** The collector's loop is over: every worker has returned and resCh is drained. *)
Definition gone (x : worker) : bool := match x with WGone => true | _ => false end.
Definition finished (s : upload W) : bool :=
  forallb gone (u_workers s) && match u_resCh s with [] => true | _ => false end.

Definition offset_le (a b : ChunkDescriptor) : Prop := d_Offset a ≤ d_Offset b.
#[export] Instance offset_le_dec a b : Decision (offset_le a b) := Z.le_dec _ _.

Section finish.
Context (Marshal : FileManifest → res (list byte)).

(** From the end of the collector's loop on.  A call under the caller's context fails once that has
    ended. *)
Definition finish_cdc (opts : CDCOptions) (s : upload W) : (CDCResult + cerror) * W :=
  let w := u_world s in
  match u_sliceErr s with
  | Some e => (inr (CError (EWrap "cdc slice error" e)), w)
  | None =>
      match u_firstErr s with
      | Some e => (inr e, w)
      | None =>
          let results := merge_sort offset_le (u_results s) in
          let actualTotalSize := foldl (λ n desc, u64 (n + d_Size desc)) 0 results in
          let fullContentHash := Hash (u_hashed s) in
          let m := mkManifest CurrentVersion actualTotalSize fullContentHash (o_Filename opts)
                     (u64 (o_TargetChunkSize opts)) results in
          match Encode Marshal (Some m) with
          | Err e => (inr (CError (EWrap "encode manifest" e)), w)
          | Ok manifestBytes =>
              if u_parent s then (inr (CStatus (mkStatus ContextEnded "canceled" None)), w) else
              match PutAtomic Hash chunkSize manifestBytes None w with
              | ((_, Some e), w) => (inr e, w)
              | ((j, None), w) =>
                  (inl (mkCDCResult (j_FID j) actualTotalSize fullContentHash
                          (Z.of_nat (length results)) (u_dedup s) (u_upload s) results), w)
              end
          end
      end
  end.
End finish.
End upload.

(** [PutCDC]: the state when the goroutines start. *)
Definition start_cdc {W} (opts : CDCOptions) (ck : Chunker) (w : W) : upload W :=
  mkUpload w ck false [] [] (replicate (Z.to_nat (o_Workers opts)) WIdle) [] [] 0 0 None None false.

Section cdc.
Context {W : Type} `{!BSOSClient W}.
Context (Hash : list byte → Z) (chunkSize : Z).
Context (Marshal : FileManifest → res (list byte)) (Unmarshal : list byte → res FileManifest).

(** [None]: the actions are not those of a complete run. *)
Definition PutCDC (fastcdc : Options → res inner) (opt : option CDCOptions) (sched : list action) (w : W) :
    option ((CDCResult + cerror) * W) :=
  let opts := cdc_options opt in
  match NewChunker fastcdc (Some (mkOptions (o_MinChunkSize opts) (o_TargetChunkSize opts)
          (o_MaxChunkSize opts))) with
  | Err e => Some (inr (CError (EWrap "init chunker" e)), w)
  | Ok ck =>
      s ← run_actions Hash chunkSize (Z.to_nat (o_Workers opts * 2)) sched (start_cdc opts ck w);
      if finished s then Some (finish_cdc Hash chunkSize Marshal opts s) else None
  end.

Definition PutFileCDC (lf : local_file) (name : string) (fastcdc : list byte * error → Options → res inner)
    (opt : option CDCOptions) (sched : list action) (w : W) : option ((CDCResult + cerror) * W) :=
  match lf_stat lf with
  | Err e => Some (inr (CError (EWrap "stat file" e)), w)
  | Ok (size, isDir) =>
      if isDir : bool then Some (inr (CError (EMsg "is a directory")), w) else
      if size =? 0 then Some (inr (CError (EMsg "empty file not allowed")), w) else
      match lf_open lf with
      | Err e => Some (inr (CError (EWrap "open file" e)), w)
      | Ok content =>
          let opts := default (mkCDC 0 0 0 0 "") opt in
          let opts := if bool_decide (o_Filename opts = EmptyString)
                      then mkCDC (o_Workers opts) (o_MinChunkSize opts) (o_TargetChunkSize opts)
                             (o_MaxChunkSize opts) name
                      else opts in
          PutCDC (fastcdc content) (Some opts) sched w
      end
  end.

(** ** Reading back *)
Definition InspectManifest (manifestFID : Z) (w : W) : (FileManifest + cerror) * W :=
  match GetBytes manifestFID None w with
  | (inr e, w) => (inr e, w)
  | (inl data, w) => (match Decode Unmarshal data with Ok m => inl m | Err e => inr (CError e) end, w)
  end.

(** The range of a [GetCDC]; [None] when it is empty. *)
Definition cdc_range (optRange : option (Z * Z)) (total : Z) : option (Z * Z) :=
  match optRange with
  | Some (rangeStart, rangeEnd) =>
      let rangeEnd := if (rangeEnd =? 0) || (total <? rangeEnd) then total else rangeEnd in
      if rangeEnd <=? rangeStart then None else Some (rangeStart, rangeEnd)
  | None => Some (0, total)
  end.

Section cdc_writer.
Context {X : Type} (Write : list byte → X → (Z * option error) * X).

Fixpoint get_chunks (rangeStart rangeEnd : Z) (chunks : list ChunkDescriptor) (x : X) (w : W) :
    option cerror * X * W :=
  match chunks with
  | [] => (None, x, w)
  | ch :: chunks =>
      let chunkStart := d_Offset ch in
      let chunkEnd := u64 (d_Offset ch + d_Size ch) in
      if (chunkEnd <=? rangeStart) || (rangeEnd <=? chunkStart)
      then get_chunks rangeStart rangeEnd chunks x w else
      match GetBytes (d_Fid ch) None w with
      | (inr e, w) => (Some e, x, w)
      | (inl chunkData, w) =>
          let sliceStart := if chunkStart <? rangeStart then u64 (rangeStart - chunkStart) else 0 in
          let sliceEnd := if rangeEnd <? chunkEnd then u64 (rangeEnd - chunkStart) else d_Size ch in
          if (sliceStart <? sliceEnd) && (sliceEnd <=? Z.of_nat (length chunkData)) then
            let '((_, werr), x) := Write (slice chunkData sliceStart sliceEnd) x in
            match werr with
            | Some e => (Some (CError (EWrap "write chunk output" e)), x, w)
            | None => get_chunks rangeStart rangeEnd chunks x w
            end
          else get_chunks rangeStart rangeEnd chunks x w
      end
  end.

Definition GetCDC (manifestFID : Z) (optRange : option (Z * Z)) (x : X) (w : W) : option cerror * X * W :=
  match InspectManifest manifestFID w with
  | (inr e, w) => (Some e, x, w)
  | (inl m, w) =>
      match cdc_range optRange (m_TotalSize m) with
      | None => (None, x, w)
      | Some (rangeStart, rangeEnd) => get_chunks rangeStart rangeEnd (m_Chunks m) x w
      end
  end.

Definition GetAuto (fid : Z) (optRange : option (Z * Z)) (x : X) (w : W) : option cerror * X * W :=
  let '(probe, w) := GetBytes fid (Some (0, 5)) w in
  match probe with
  | inl probe => if IsManifest probe then GetCDC fid optRange x w else
                 let '((_, _, err), x, w) := Get Write fid optRange x w in (err, x, w)
  | inr _ => let '((_, _, err), x, w) := Get Write fid optRange x w in (err, x, w)
  end.
End cdc_writer.
End cdc.
