(* ===== verification/CdcRun.v ===== *)
(** * Interleavings of PutCDC

    Whatever the interleaving of the slicer, the workers and the collector: it ends, it cannot block,
    and when it ends well the manifest lists the chunks of the stream in order, each of them stored;
    reading it back gives the stream. *)

From S2P Require Import Prelude Machine Loop Device DirectIO DiskStore Reader Server Pool Serve.
From S2P Require Import Client Service Gate Config MultiDisk ServerService Cdc.
From Stdlib Require Import Strings.Byte.

(** ** Termination *)
Section termination.
Context {W : Type} `{!BSOSClient W}.
Context (Hash : list byte → Z) (chunkSize : Z) (capacity : nat).

(** The calls a phase may still need. *)
Definition calls_left (ph : jump_phase) : nat :=
  match ph with PDirect => 256 | PJump code => Z.to_nat (256 - code) end.

Definition worker_measure (x : worker) : nat :=
  match x with WIdle => 1 | WBusy _ ph => 4 + calls_left ph | WSend _ => 3 | WGone => 0 end%nat.

Fixpoint workers_measure (ws : list worker) : nat :=
  match ws with [] => 0%nat | x :: ws => (worker_measure x + workers_measure ws)%nat end.

(** The fields of an updated state. *)
Ltac up := cbn [u_world u_chunker u_closed u_hashed u_queue u_workers u_resCh u_results u_dedup u_upload
  u_sliceErr u_firstErr u_parent set_worker set_world set_queue set_resCh close_tasks worker_measure workers_measure
  length] in *.

(** A bound on the actions left. *)
Definition measure (s : upload W) : nat :=
  ((if u_closed s then 0 else 1 + 262 * length (ck_inner (u_chunker s))) + 261 * length (u_queue s) +
   workers_measure (u_workers s) + length (u_resCh s) + (if u_parent s then 0 else 1))%nat.

Lemma workers_measure_insert ws i x y :
  ws !! i = Some x →
  (workers_measure (<[i := y]> ws) + worker_measure x = workers_measure ws + worker_measure y)%nat.
Proof.
  revert i. induction ws as [|z ws IH]; intros [|i]; [done|done| |].
  - intros [= ->]. cbn. lia.
  - intros H. change (<[S i := y]> (z :: ws)) with (z :: <[i := y]> ws). cbn [workers_measure].
    specialize (IH i H). lia.
Qed.

Lemma jump_next_calls data ph err ph' :
  jump_next Hash data ph err = inl ph' → (calls_left ph' < calls_left ph)%nat.
Proof.
  unfold jump_next. destruct ph as [|code]; destruct err as [e|]; try done.
  - destruct (negb (IsConflict e)); [done|]. destruct (isIdempotentConflict e); [done|].
    intros [= <-]. cbn. lia.
  - destruct (negb (IsConflict e)); [done|]. unfold MaxJumpCode. destruct (Z.leb_spec 255 code); [done|].
    intros [= <-]. cbn. lia.
Qed.

Lemma Next_inner ck c ck' :
  Next Hash ck = (Ok c, ck') → S (length (ck_inner ck')) = length (ck_inner ck).
Proof.
  unfold Next. destruct (ck_inner ck) as [|[buf err] rest]; cbn; [done|].
  destruct err as [e|]; [destruct (negb _); [done|]|]; destruct buf; try done; by intros [= <- <-].
Qed.

(** Every action uses up some of the measure. *)
Lemma step_measure a (s s' : upload W) :
  cdc_step Hash chunkSize capacity a s = Some s' → (measure s' < measure s)%nat.
Proof.
  unfold measure. destruct a as [| |i|i|i eff|i|i| |]; cbn [cdc_step].
  - unfold slice_step. destruct (u_closed s) eqn:Ec; [done|].
    destruct (Next Hash (u_chunker s)) as [[c|e] ck] eqn:En; [|intros [= <-]; up; lia].
    destruct (_ <? _)%nat; [|done]. intros [= <-]. up. rewrite length_app. up.
    apply Next_inner in En. lia.
  - destruct (u_closed s) eqn:Ec; [done|]. cbn [orb]. destruct (negb (cancelled s)); [done|].
    intros [= <-]. up. lia.
  - destruct (u_workers s !! i) as [[]|] eqn:Ei; try done. unfold take_step.
    destruct (u_queue s) as [|c queue] eqn:Eq.
    + destruct (u_closed s) eqn:Ec; [|done]. intros [= <-]. up. rewrite Ec, Eq.
      pose proof (workers_measure_insert _ _ _ WGone Ei). up. lia.
    + intros [= <-]. up. destruct (cancelled s).
      * pose proof (workers_measure_insert _ _ _ WGone Ei). up. lia.
      * pose proof (workers_measure_insert _ _ _ (WBusy c PDirect) Ei). up. cbn [calls_left] in *. lia.
  - destruct (u_workers s !! i) as [[|c ph| |]|] eqn:Ei; try done. intros [= <-]. unfold rpc_step.
    destruct (jump_call Hash chunkSize (ch_Data c) ph (u_world s)) as [err w]. up.
    destruct (jump_next Hash (ch_Data c) ph err) as [ph'|out] eqn:En.
    + apply jump_next_calls in En. pose proof (workers_measure_insert _ _ _ (WBusy c ph') Ei).
      up. lia.
    + pose proof (workers_measure_insert _ _ _ (WSend (result_of c out)) Ei). up. lia.
  - destruct (u_workers s !! i) as [[|c ph| |]|] eqn:Ei; try done. destruct (negb (cancelled s)); [done|].
    intros [= <-]. up.
    match goal with |- context [<[i := ?y]> _] => pose proof (workers_measure_insert _ _ _ y Ei) end.
    up. lia.
  - destruct (u_workers s !! i) as [[| |r|]|] eqn:Ei; try done. destruct (_ <? _)%nat; [|done].
    intros [= <-]. up. rewrite length_app. up.
    match goal with |- context [<[i := ?y]> _] => pose proof (workers_measure_insert _ _ _ y Ei) as H end.
    destruct (cr_err r); up; lia.
  - destruct (u_workers s !! i) as [[| |r|]|] eqn:Ei; try done. destruct (cancelled s); [|done].
    intros [= <-]. up. pose proof (workers_measure_insert _ _ _ WGone Ei). up. lia.
  - unfold collect_step. destruct (u_resCh s) as [|r resCh] eqn:Er; [done|].
    destruct (cr_desc r) as [desc|]; intros [= <-]; up; lia.
  - destruct (u_parent s) eqn:Ep; [done|]. intros [= <-]. up. lia.
Qed.

Lemma run_measure sched (s s' : upload W) :
  run_actions Hash chunkSize capacity sched s = Some s' → (measure s' + length sched ≤ measure s)%nat.
Proof.
  revert s. induction sched as [|a sched IH]; intros s; cbn; [intros [= <-]; lia|].
  destruct (cdc_step Hash chunkSize capacity a s) as [s1|] eqn:E; cbn; [|done]. intros H%IH.
  apply step_measure in E. lia.
Qed.

(** While the collector waits, some goroutine can move without waiting for the context to end. *)
Lemma step_progress (s : upload W) :
  (0 < capacity)%nat → finished s = false →
  ∃ a s', a ≠ ACancel ∧ cdc_step Hash chunkSize capacity a s = Some s'.
Proof.
  intros Hcap Hf. destruct (u_resCh s) as [|r resCh] eqn:Er.
  2:{ exists ACollect. cbn. unfold collect_step. rewrite Er. destruct (cr_desc r); by eexists. }
  unfold finished in Hf. rewrite Er, andb_true_r in Hf.
  assert (∃ i x, u_workers s !! i = Some x ∧ gone x = false) as (i & x & Hi & Hx).
  { clear -Hf. induction (u_workers s) as [|x ws IH]; [done|]. cbn in Hf.
    destruct (gone x) eqn:E; [|by exists 0%nat, x]. destruct (IH Hf) as (i & y & ? & ?). by exists (S i), y. }
  destruct x as [|c ph|r|]; [| | |done].
  - destruct (u_queue s) as [|c queue] eqn:Eq.
    + destruct (u_closed s) eqn:Ec.
      * exists (ATake i). cbn. rewrite Hi. unfold take_step. rewrite Eq, Ec. by eexists.
      * exists ASlice. cbn [cdc_step]. unfold slice_step. rewrite Ec.
        destruct (Next Hash (u_chunker s)) as [[c|e] ck]; [|by eexists]. rewrite Eq. cbn [length].
        rewrite (proj2 (Nat.ltb_lt 0 capacity)) by done. by eexists.
    + exists (ATake i). cbn. rewrite Hi. unfold take_step. rewrite Eq. by eexists.
  - exists (ARpc i). cbn. rewrite Hi. by eexists.
  - exists (ASend i). cbn [cdc_step]. rewrite Hi, Er. cbn [length].
    rewrite (proj2 (Nat.ltb_lt 0 capacity)) by done. by eexists.
Qed.

Lemma run_completes (s : upload W) :
  (0 < capacity)%nat → ∃ sched s', ACancel ∉ sched ∧
    run_actions Hash chunkSize capacity sched s = Some s' ∧ finished s' = true.
Proof.
  intros Hcap. remember (measure s) as n eqn:En. revert s En.
  induction n as [n IH] using lt_wf_ind. intros s ->. destruct (finished s) eqn:Ef.
  { exists [], s. split; [apply not_elem_of_nil|done]. }
  destruct (step_progress s Hcap Ef) as (a & s1 & Ha & Hs). pose proof (step_measure _ _ _ Hs) as Hm.
  destruct (IH (measure s1) Hm s1 eq_refl) as (sched & s' & Hc & Hrun & Hfin).
  exists (a :: sched), s'. split; [|split; [|done]].
  - intros [E|Hin]%elem_of_cons; [by apply Ha|by apply Hc].
  - cbn. by rewrite Hs.
Qed.
End termination.

(** A worker that is not interrupted makes exactly the calls of [PutWithJumpRetry]. *)
Section worker_run.
Context {W : Type} `{!BSOSClient W}.
Context (Hash : list byte → Z) (chunkSize : Z).

Fixpoint run_jump (fuel : nat) (data : list byte) (ph : jump_phase) (w : W) :
    option ((JumpResult * option cerror) * W) :=
  match fuel with
  | O => None
  | S fuel =>
      let '(err, w) := jump_call Hash chunkSize data ph w in
      match jump_next Hash data ph err with
      | inl ph => run_jump fuel data ph w
      | inr out => Some (out, w)
      end
  end.

Lemma run_jump_codes n data code w :
  1 ≤ code → Z.of_nat n = 256 - code → (0 < n)%nat →
  run_jump n data (PJump code) w =
    Some (try_jumps Hash chunkSize data (Hash data) MaxJumpCode (seqZ code (256 - code)) w).
Proof.
  revert code w. induction n as [|n IH]; intros code w Hc Hn Hpos; [lia|].
  rewrite seqZ_cons by lia. cbn [run_jump try_jumps jump_call jump_next]. unfold ComputeFID.
  destruct (Client.Put chunkSize _ _ _ _ w) as [[e|] w']; [|done].
  destruct (negb (IsConflict e)); [done|]. unfold MaxJumpCode in *.
  destruct (Z.leb_spec 255 code) as [Hle|Hlt].
  - assert (code = 255) as -> by lia. done.
  - rewrite IH by lia. do 3 f_equal; lia.
Qed.

Lemma run_jump_eq data w :
  run_jump 256 data PDirect w = Some (PutWithJumpRetry Hash chunkSize data None w).
Proof.
  cut (∀ n, Z.of_nat n = 255 →
    run_jump (S n) data PDirect w = Some (PutWithJumpRetry Hash chunkSize data None w)); [intros H; by apply H|].
  intros n Hn. cbn [run_jump jump_call jump_next]. unfold PutWithJumpRetry, ComputeFID.
  destruct (Client.Put chunkSize _ _ _ _ w) as [[e|] w']; [|done].
  destruct (negb (IsConflict e)); [done|]. destruct (isIdempotentConflict e); [done|].
  rewrite run_jump_codes by lia. done.
Qed.
End worker_run.

(** ** The chunks of a stream *)

(** What repeated calls of [Next] give, and how they end. *)
Fixpoint cut (Hash : list byte → Z) (i : inner) (off : Z) : list Chunk * error :=
  match i with
  | [] => ([], EEOF)
  | (buf, err) :: i =>
      match err, buf with
      | Some e, [] => ([], e)
      | Some e, _ =>
          if bool_decide (e = EEOF)
          then let '(cs, e) := cut Hash i (u64 (off + Z.of_nat (length buf))) in
               (mkChunk (Hash buf) off (Z.of_nat (length buf)) buf :: cs, e)
          else ([], e)
      | None, [] => ([], EEOF)
      | None, _ =>
          let '(cs, e) := cut Hash i (u64 (off + Z.of_nat (length buf))) in
          (mkChunk (Hash buf) off (Z.of_nat (length buf)) buf :: cs, e)
      end
  end.

Lemma Next_cut Hash ck :
  match Next Hash ck with
  | (Ok c, ck') => cut Hash (ck_inner ck) (ck_offset ck) =
      (c :: (cut Hash (ck_inner ck') (ck_offset ck')).1, (cut Hash (ck_inner ck') (ck_offset ck')).2)
  | (Err e, _) => cut Hash (ck_inner ck) (ck_offset ck) = ([], e)
  end.
Proof.
  unfold Next. destruct ck as [i off]. cbn [ck_inner ck_offset]. destruct i as [|[buf err] i]; [done|].
  cbn [cut]. destruct err as [e|].
  - case_bool_decide as He; cbn [negb].
    + subst. destruct buf; [done|]. cbn [ck_inner ck_offset]. by destruct (cut Hash i _).
    + destruct buf; done.
  - destruct buf; [done|]. cbn [ck_inner ck_offset]. by destruct (cut Hash i _).
Qed.

(** Chunks one after the other from an offset. *)
Fixpoint consecutive (Hash : list byte → Z) (off : Z) (cs : list Chunk) : Prop :=
  match cs with
  | [] => True
  | c :: cs => ch_Offset c = off ∧ ch_Size c = Z.of_nat (length (ch_Data c)) ∧ 0 < ch_Size c ∧
      ch_FID c = Hash (ch_Data c) ∧ consecutive Hash (off + ch_Size c) cs
  end.

Definition data_of (cs : list Chunk) : list byte := concat (ch_Data <$> cs).

Lemma cut_consecutive Hash i off cs e :
  cut Hash i off = (cs, e) → 0 ≤ off → off + Z.of_nat (length (data_of cs)) < 2 ^ 64 →
  consecutive Hash off cs.
Proof.
  revert off cs e. induction i as [|[buf err] i IH]; intros off cs e H Hoff Hlen; [by injection H as <- <-|].
  assert (Hgo : ∀ b bs, buf = b :: bs →
    (let '(cs, e) := cut Hash i (u64 (off + Z.of_nat (length buf))) in
     (mkChunk (Hash buf) off (Z.of_nat (length buf)) buf :: cs, e)) = (cs, e) → consecutive Hash off cs).
  { intros b bs Eb Hc. destruct (cut Hash i _) as [cs' e'] eqn:Ec. injection Hc as <- <-.
    unfold data_of in Hlen. cbn [fmap list_fmap concat ch_Data] in Hlen. rewrite length_app in Hlen.
    cbn [consecutive ch_Offset ch_Size ch_Data ch_FID]. split_and!; try done; [subst; cbn; lia|].
    rewrite u64_small in Ec by (split; lia). eapply IH; [exact Ec|lia|]. unfold data_of. lia. }
  cbn [cut] in H. destruct err as [e'|], buf as [|b bs]; try (by injection H as <- <-).
  - case_bool_decide; [by eapply Hgo|by injection H as <- <-].
  - by eapply Hgo.
Qed.

Lemma consecutive_bounds Hash off cs :
  consecutive Hash off cs → ∀ c, c ∈ cs → off ≤ ch_Offset c ∧
    ch_Offset c + ch_Size c ≤ off + Z.of_nat (length (data_of cs)).
Proof.
  revert off. induction cs as [|c cs IH]; intros off H x Hx; [by apply not_elem_of_nil in Hx|].
  destruct H as (Ho & Hs & Hp & _ & H). unfold data_of. cbn [fmap list_fmap concat]. rewrite length_app.
  apply elem_of_cons in Hx as [->|Hx]; [lia|]. specialize (IH _ H x Hx). unfold data_of in IH. lia.
Qed.

Lemma consecutive_sorted Hash off cs :
  consecutive Hash off cs → StronglySorted (λ a b, d_Offset a < d_Offset b) (desc_of <$> cs).
Proof.
  revert off. induction cs as [|c cs IH]; intros off H; [constructor|].
  destruct H as (Ho & Hs & Hp & _ & H). cbn. constructor; [by eapply IH|].
  apply Forall_forall. intros d (x & -> & Hx)%list_elem_of_fmap.
  pose proof (consecutive_bounds _ _ _ H x Hx). cbn. lia.
Qed.

#[export] Instance offset_le_total : Total offset_le.
Proof. intros a b. unfold offset_le. lia. Qed.
#[export] Instance offset_le_trans : Transitive offset_le.
Proof. intros a b c. unfold offset_le. lia. Qed.

Lemma sort_descriptors Hash off cs l :
  consecutive Hash off cs → l ≡ₚ desc_of <$> cs → merge_sort offset_le l = desc_of <$> cs.
Proof.
  intros Hc Hp. pose proof (consecutive_sorted _ _ _ Hc) as Hs.
  assert (Hinj : ∀ a b, a ∈ desc_of <$> cs → b ∈ desc_of <$> cs → d_Offset a = d_Offset b → a = b).
  { revert Hs. generalize (desc_of <$> cs) as ds. clear. induction 1 as [|x ds Hs IH Hx].
    { by intros ? ? ?%not_elem_of_nil. }
    rewrite Forall_forall in Hx.
    intros a b [->|Ha]%elem_of_cons [->|Hb]%elem_of_cons E; auto; exfalso.
    - apply Hx in Hb. lia.
    - apply Hx in Ha. lia. }
  apply StronglySorted_unique_strong with offset_le.
  - intros a b. rewrite merge_sort_Permutation, Hp. unfold offset_le. intros. apply Hinj; [done..|lia].
  - apply StronglySorted_merge_sort; apply _.
  - clear -Hs. induction Hs as [|x ds Hs IH Hx]; constructor; [done|].
    eapply Forall_impl; [exact Hx|]. unfold offset_le. intros. lia.
  - by rewrite merge_sort_Permutation.
Qed.

Lemma total_size Hash off cs n :
  consecutive Hash off cs → 0 ≤ n → n + Z.of_nat (length (data_of cs)) < 2 ^ 64 →
  foldl (λ n desc, u64 (n + d_Size desc)) n (desc_of <$> cs) = n + Z.of_nat (length (data_of cs)).
Proof.
  revert off n. induction cs as [|c cs IH]; intros off n H Hn Hlt; [cbn; lia|].
  destruct H as (_ & Hs & Hp & _ & H). unfold data_of in *. cbn [fmap list_fmap concat foldl] in *.
  rewrite length_app in *. cbn [desc_of d_Size]. rewrite u64_small by lia. rewrite (IH _ _ H); lia.
Qed.

(** A cancellation is final. *)
Lemma cancelled_stays {W : Type} `{!BSOSClient W} Hash chunkSize capacity a (s s' : upload W) :
  cdc_step Hash chunkSize capacity a s = Some s' → cancelled s = true → cancelled s' = true.
Proof.
  assert (Hf : ∀ s' : upload W, (u_parent s = true → u_parent s' = true) →
    (is_some (u_sliceErr s) = true → is_some (u_sliceErr s') = true) →
    (is_some (u_firstErr s) = true → is_some (u_firstErr s') = true) →
    cancelled s = true → cancelled s' = true).
  { unfold cancelled. intros s1 H1 H2 H3. destruct (u_parent s); [by rewrite H1|]. cbn [orb].
    destruct (is_some (u_sliceErr s)); [rewrite H2 by done; by rewrite orb_true_r|]. cbn [orb].
    intros H. rewrite H3 by done. by rewrite orb_true_r. }
  destruct a as [| |i|i|i eff|i|i| |]; cbn [cdc_step]; intros Hs; apply Hf; clear Hf.
  all: try (revert Hs; repeat first [case_match|progress unfold slice_step, take_step, rpc_step, collect_step];
    try done; intros [= <-]; cbn; try done; try (by case_match); fail).
Qed.

(** ** Calls for one content *)

(** The contents a run writes: chunks and their manifest.  A hash is free of collisions between these
    and what is put for them. *)
Definition hash_sound (Hash : list byte → Z) (P : list byte → Prop) : Prop :=
  (∀ l, is_u64 (Hash l)) ∧
  (∀ l, P l → Hash l ≠ 0 ∧ Z.of_nat (length l) < 2 ^ 63) ∧
  (∀ l x, P l → (P x ∨ ∃ y b, P y ∧ x = y ++ [b]) → Hash x = Hash l → x = l).

Section service.
Context {W : Type} `{!BSOSClient W} `{!PoolService W}.
Context (Hash : list byte → Z) (chunkSize : Z) (P : list byte → Prop).
Context (Hchunk : 0 < chunkSize) (Hsound : hash_sound Hash P).
(** No other client is writing. *)
Context (Hidle : ∀ (w : W) f, svc_ok w → ¬ busy w f).

(** Under the hash of a content there is nothing else. *)
Definition addressed (w : W) : Prop := ∀ l x, P l → store_of w (Hash l) = Some x → x = l.

(** What calls for the content [data] leave behind. *)
Record kept (data : list byte) (w w' : W) : Prop := {
  k_ok : svc_ok w';
  k_mono f l : store_of w f = Some l → store_of w' f = Some l;
  k_addr : addressed w → addressed w'
}.

Lemma kept_trans data w w1 w2 : kept data w w1 → kept data w1 w2 → kept data w w2.
Proof using. intros [] []. split; auto. Qed.

Lemma kept_same data w w' : svc_ok w' → (∀ f, store_of w' f = store_of w f) → kept data w w'.
Proof using.
  intros Hok Hs. split; [done|intros f l; by rewrite Hs|].
  intros Ha l x Hl. rewrite Hs. by apply Ha.
Qed.

(** A put of [data] under its hash, or of [data] and a code with an alias for it. *)
Lemma kept_put data l al w w' :
  svc_ok w' → P data → (al = 0 ∧ l = data ∨ al = Hash data ∧ ∃ b, l = data ++ [b]) →
  fresh_put (Hash l) l al (store_of w) → (∀ f, store_of w' f = store_put (Hash l) l al (store_of w) f) →
  kept data w w'.
Proof using Hsound.
  intros Hok Hd Hl (Hn & _ & Ha) Hs. destruct Hsound as (_ & _ & Hinj).
  split; [done| |].
  - intros f x Hf. rewrite Hs. unfold store_put.
    rewrite decide_False; [|intros [-> Hne]; destruct (Ha Hne) as (_ & ? & _); congruence].
    rewrite decide_False by congruence. done.
  - intros Haddr y x Hy. rewrite Hs. unfold store_put.
    assert (Hput : P l ∨ ∃ z b, P z ∧ l = z ++ [b]).
    { destruct Hl as [[_ ->]|[_ [b ->]]]; [by left|right; by exists data, b]. }
    case_decide as H1; [|case_decide as H2].
    + intros [= <-]. destruct Hl as [[-> _]|[-> [b ->]]]; [lia|]. destruct H1 as [H1 _].
      rewrite length_app, Nat.add_sub, take_app_length.
      apply (Hinj y data Hy); [by left|congruence].
    + intros [= <-]. by apply (Hinj y l Hy).
    + by apply Haddr.
Qed.

(** One call of a worker. *)
Lemma jump_call_outcome data ph w :
  svc_ok w → P data →
  let '(err, w') := jump_call Hash chunkSize data ph w in
  kept data w w' ∧ ∀ j, jump_next Hash data ph err = inr (j, None) → is_Some (store_of w' (Hash data)).
Proof using Hchunk Hsound Hidle.
  intros Hok Hd. pose proof Hsound as (Hhash & HP & _). destruct (HP data Hd) as [Hnz Hlen].
  assert (Hgo : ∀ l al, (al = 0 ∧ l = data ∨ al = Hash data ∧ ∃ b, l = data ++ [b]) →
    let '(err, w') := Client.Put chunkSize (Hash l) (Z.of_nat (length l)) al (NewReader l) w in
    kept data w w' ∧
    match err with
    | None => is_Some (store_of w' (Hash data))
    | Some e => isIdempotentConflict e = true → ∃ f, (f = Hash l ∨ f = al ∧ al ≠ 0) ∧ is_Some (store_of w' f)
    end).
  { intros l al Hl.
    assert (Hal : is_u64 al) by (destruct Hl as [[-> _]|[-> _]]; [unfold is_u64; lia|apply Hhash]).
    assert (Hll : is_u64 (Z.of_nat (length l))).
    { unfold is_u64. destruct Hl as [[_ ->]|[_ [b ->]]]; rewrite ?length_app; cbn; lia. }
    pose proof (Put_service chunkSize Hchunk (Hash l) (Z.of_nat (length l)) al (NewReader l) w Hok
      (Hhash l) Hll Hal) as Hput.
    destruct (Client.Put chunkSize _ _ _ _ w) as [[e|] w']; unfold put_outcome, refused, registered in Hput.
    - destruct Hput as [(Hok' & Hs & Hid)|(Hok' & Hnc & Hfr & _ & Hs)].
      + split; [by apply kept_same|].
        intros He. destruct (Hid He) as (f & Hf & [Hsome|Hb]); [by exists f|by apply Hidle in Hb].
      + rewrite rest_NewReader, take_whole in *. split; [by eapply kept_put|].
        intros He. unfold isIdempotentConflict in He. by rewrite Hnc in He.
    - rewrite rest_NewReader, take_whole in Hput. destruct Hput as (Hok' & Hfr & _ & Hs).
      split; [by eapply kept_put|]. rewrite Hs. unfold store_put.
      destruct Hl as [[-> ->]|[-> _]]; repeat case_decide; naive_solver. }
  destruct ph as [|code]; cbn [jump_call jump_next].
  - specialize (Hgo data 0 ltac:(by left)).
    destruct (Client.Put chunkSize _ _ _ _ w) as [[e|] w']; destruct Hgo as [Hk Hr]; (split; [done|]); intros j Hj.
    + destruct (negb (IsConflict e)); [done|]. destruct (isIdempotentConflict e) eqn:Ei; [|done].
      destruct (Hr eq_refl) as (f & [->|[_ []]] & Hsome); done.
    + done.
  - specialize (Hgo (jump_data data code) (Hash data) ltac:(right; split; [done|by eexists])).
    destruct (Client.Put chunkSize _ _ _ _ w) as [[e|] w']; destruct Hgo as [Hk Hr]; (split; [done|]); intros j Hj.
    + destruct (negb (IsConflict e)); [done|]. by destruct (MaxJumpCode <=? code).
    + done.
Qed.

Lemma jump_next_fid data ph err j e : jump_next Hash data ph err = inr (j, e) → j_FID j = Hash data.
Proof using. unfold jump_next. intros H. repeat (case_match; simplify_eq; try done). Qed.

(** The calls of one content, from a phase on. *)
Lemma run_jump_outcome n data ph w j err w' :
  run_jump Hash chunkSize n data ph w = Some ((j, err), w') → svc_ok w → P data →
  kept data w w' ∧ (err = None → is_Some (store_of w' (Hash data)) ∧ j_FID j = Hash data).
Proof using Hchunk Hsound Hidle.
  revert ph w. induction n as [|n IH]; intros ph w Hr Hok Hd; [done|]. cbn [run_jump] in Hr.
  pose proof (jump_call_outcome data ph w Hok Hd) as Ho.
  destruct (jump_call Hash chunkSize data ph w) as [e w1]. destruct Ho as [Hk Hj].
  destruct (jump_next Hash data ph e) as [ph'|[j' e']] eqn:En.
  - destruct (IH ph' w1 Hr (k_ok _ _ _ Hk) Hd) as [Hk' ?]. split; [by eapply kept_trans|done].
  - injection Hr as -> -> ->. split; [done|]. intros ->. split; [by eapply Hj|by eapply jump_next_fid].
Qed.

(** ** The invariant of a run that has not been cancelled *)
Context (capacity : nat) (w0 : W) (all : list Chunk) (Hall : ∀ c, c ∈ all → P (ch_Data c)).

Definition worker_desc (x : worker) : option ChunkDescriptor :=
  match x with WBusy c _ => Some (desc_of c) | WSend r => cr_desc r | _ => None end.
Definition sent_desc (x : worker) : option ChunkDescriptor :=
  match x with WSend r => cr_desc r | _ => None end.

(** A failure no one has collected yet. *)
Definition error_pending (s : upload W) : Prop :=
  (∃ i r, u_workers s !! i = Some (WSend r) ∧ cr_err r ≠ None) ∨ ∃ r, r ∈ u_resCh s ∧ cr_err r ≠ None.

(** Where the chunks that were cut are. *)
Definition accounted (s : upload W) : list ChunkDescriptor :=
  u_results s ++ omap cr_desc (u_resCh s) ++ omap worker_desc (u_workers s) ++ (desc_of <$> u_queue s).
Definition uploaded (s : upload W) : list ChunkDescriptor :=
  u_results s ++ omap cr_desc (u_resCh s) ++ omap sent_desc (u_workers s).

Record CInv (s : upload W) : Prop := {
  ci_ok : svc_ok (u_world s);
  ci_mono f l : store_of w0 f = Some l → store_of (u_world s) f = Some l;
  ci_addr : addressed (u_world s);
  ci_cut : ∃ done rest, all = done ++ rest ∧ u_hashed s = data_of done ∧
    (if u_closed s then rest = []
     else cut Hash (ck_inner (u_chunker s)) (ck_offset (u_chunker s)) = (rest, EEOF)) ∧
    (error_pending s ∨ desc_of <$> done ≡ₚ accounted s);
  ci_queue c : c ∈ u_queue s → c ∈ all;
  ci_busy i c ph : u_workers s !! i = Some (WBusy c ph) → c ∈ all;
  ci_stored d : d ∈ uploaded s →
    ∃ c, c ∈ all ∧ d = desc_of c ∧ is_Some (store_of (u_world s) (Hash (ch_Data c)));
  ci_gone i : u_workers s !! i = Some WGone → error_pending s ∨ (u_closed s = true ∧ u_queue s = [])
}.

Lemma insert_perm (ws : list worker) i x :
  ws !! i = Some x → ∃ l, ws ≡ₚ x :: l ∧ ∀ y, <[i := y]> ws ≡ₚ y :: l.
Proof using.
  intros H. exists (take i ws ++ drop (S i) ws). split.
  - rewrite <- (take_drop_middle ws i x H) at 1. by rewrite Permutation_middle.
  - intros y. rewrite insert_take_drop by (by eapply lookup_lt_Some). by rewrite Permutation_middle.
Qed.

Lemma omap_insert {B} (f : worker → option B) (ws : list worker) i x :
  ws !! i = Some x →
  ∃ l, omap f ws ≡ₚ option_list (f x) ++ l ∧ ∀ y, omap f (<[i := y]> ws) ≡ₚ option_list (f y) ++ l.
Proof using.
  intros H. destruct (insert_perm ws i x H) as (l & Hl & Hi). exists (omap f l).
  split; [|intros y]; [rewrite Hl|rewrite (Hi y)]; cbn; [destruct (f x)|destruct (f y)]; done.
Qed.

(** The fields of an updated state. *)
Ltac up := cbn [u_world u_chunker u_closed u_hashed u_queue u_workers u_resCh u_results u_dedup u_upload
  u_sliceErr u_firstErr u_parent set_worker set_world set_queue set_resCh close_tasks] in *.

(** A worker that changes without losing an error. *)
Lemma pending_worker (s s' : upload W) i x y :
  u_workers s !! i = Some x → u_workers s' = <[i := y]> (u_workers s) → u_resCh s' = u_resCh s →
  (∀ r, x ≠ WSend r) → error_pending s → error_pending s'.
Proof using.
  intros Hi Hw Hr Hx [(k & r & Hk & He)|H]; [left|right; by rewrite Hr].
  exists k, r. rewrite Hw. split; [|done]. rewrite list_lookup_insert_ne; [done|]. intros ->.
  rewrite Hi in Hk. injection Hk as ->. by destruct (Hx r).
Qed.

Lemma inv_slice (s s' : upload W) :
  slice_step Hash capacity s = Some s' → cancelled s' = false → CInv s → CInv s'.
Proof using Hchunk Hsound Hidle Hall.
  intros Hs Hc [Hok Hm Had (done & rest & Ha & Hh & Hcut & Hp) Hq Hb Hst Hg]. unfold slice_step in Hs.
  destruct (u_closed s) eqn:Ecl; [done|]. pose proof (Next_cut Hash (u_chunker s)) as Hn.
  destruct (Next Hash (u_chunker s)) as [[c|e] ck].
  - destruct (_ <? _)%nat; [|done]. injection Hs as <-. rewrite Hn in Hcut. injection Hcut as <- Hcut.
    split; up; try done.
    + exists (done ++ [c]), (cut Hash (ck_inner ck) (ck_offset ck)).1. split_and!.
      * by rewrite Ha, <- app_assoc.
      * unfold data_of in *. rewrite Hh, fmap_app, concat_app. cbn. by rewrite app_nil_r.
      * destruct (cut Hash (ck_inner ck) (ck_offset ck)). cbn in *. by subst.
      * destruct Hp as [Hp|Hp]; [by left|right]. unfold accounted in *. up.
        rewrite !fmap_app, Hp, <- !app_assoc. done.
    + intros c' [H| ->%list_elem_of_singleton]%elem_of_app; [by apply Hq|].
      rewrite Ha. apply elem_of_app. right. by left.
    + intros i Hi. destruct (Hg i Hi) as [|[? ?]]; [by left|done].
  - injection Hs as <-. rewrite Hn in Hcut. injection Hcut as <- ->. rewrite bool_decide_true by done.
    split; up; try done.
    + exists done, []. done.
    + intros i Hi. destruct (Hg i Hi) as [|[? ?]]; [by left|done].
Qed.

Lemma inv_take i (s s' : upload W) :
  u_workers s !! i = Some WIdle → take_step i s = Some s' → cancelled s = false → CInv s → CInv s'.
Proof using Hchunk Hsound Hidle Hall.
  intros Hi Hs Hc [Hok Hm Had (done & rest & Ha & Hh & Hcut & Hp) Hq Hb Hst Hg]. unfold take_step in Hs.
  pose proof (lookup_lt_Some _ _ _ Hi) as Hlt.
  destruct (omap_insert worker_desc _ _ _ Hi) as (l1 & Hl1 & Hl1').
  destruct (omap_insert sent_desc _ _ _ Hi) as (l2 & Hl2 & Hl2').
  cbn [worker_desc sent_desc option_list app] in *.
  destruct (u_queue s) as [|c queue] eqn:Eq.
  - destruct (u_closed s) eqn:Ecl; [|done]. injection Hs as <-.
    set (s' := set_worker s i WGone).
    assert (Hpe : error_pending s → error_pending s') by (by apply (pending_worker s s' i WIdle WGone)).
    subst s'. split; up; try done.
    + exists done, rest. rewrite Ecl. split_and!; try done. destruct Hp as [Hp|Hp]; [by left; apply Hpe|right].
      unfold accounted in *. up. by rewrite (Hl1' WGone), Hp, Hl1.
    + by rewrite Eq.
    + intros k c ph [(-> & ? & _)|(_ & Hk)]%list_lookup_insert_Some; [done|by eapply Hb].
    + intros d Hd. apply Hst. unfold uploaded in *. up. by rewrite (Hl2' WGone), <- Hl2 in Hd.
    + intros k Hk. right. by rewrite Ecl.
  - rewrite Hc in Hs. injection Hs as <-. set (s' := set_worker (set_queue s queue) i (WBusy c PDirect)).
    assert (Hpe : error_pending s → error_pending s') by (by apply (pending_worker s s' i WIdle (WBusy c PDirect))).
    subst s'. split; up; try done.
    + exists done, rest. split_and!; try done. destruct Hp as [Hp|Hp]; [by left; apply Hpe|right].
      unfold accounted in *. up. rewrite (Hl1' (WBusy c PDirect)), Hp, Hl1, Eq. cbn.
      by rewrite Permutation_middle.
    + intros x Hx. apply Hq. by right.
    + intros k x ph [(-> & [= <- <-] & _)|(_ & Hk)]%list_lookup_insert_Some; [apply Hq; by left|by eapply Hb].
    + intros d Hd. apply Hst. unfold uploaded in *. up. by rewrite (Hl2' (WBusy c PDirect)), <- Hl2 in Hd.
    + intros k [(-> & ? & _)|(_ & Hk)]%list_lookup_insert_Some; [done|].
      destruct (Hg k Hk) as [|[_ ?]]; [left; by apply Hpe|done].
Qed.

Lemma inv_rpc i c ph (s : upload W) :
  u_workers s !! i = Some (WBusy c ph) → CInv s → CInv (rpc_step Hash chunkSize i c ph s).
Proof using Hchunk Hsound Hidle Hall.
  intros Hi [Hok Hm Had (done & rest & Ha & Hh & Hcut & Hp) Hq Hb Hst Hg].
  pose proof (Hb i c ph Hi) as Hin.
  pose proof (lookup_lt_Some _ _ _ Hi) as Hlt.
  pose proof (jump_call_outcome (ch_Data c) ph (u_world s) Hok (Hall c Hin)) as Ho. unfold rpc_step.
  destruct (jump_call Hash chunkSize (ch_Data c) ph (u_world s)) as [err w]. destruct Ho as [[Hok' Hm' Had'] Hj].
  destruct (omap_insert worker_desc _ _ _ Hi) as (l1 & Hl1 & Hl1').
  destruct (omap_insert sent_desc _ _ _ Hi) as (l2 & Hl2 & Hl2').
  cbn [worker_desc sent_desc option_list app] in *.
  set (y := match jump_next Hash (ch_Data c) ph err with
            | inl ph' => WBusy c ph' | inr out => WSend (result_of c out) end).
  set (s' := set_worker (set_world s w) i y).
  assert (Hpe : error_pending s → error_pending s') by (by apply (pending_worker s s' i (WBusy c ph) y)).
  assert (Hy : error_pending s' ∨ worker_desc y = Some (desc_of c)).
  { unfold y. destruct (jump_next Hash (ch_Data c) ph err) as [ph'|[j [e|]]] eqn:En; [by right| |by right].
    left. left. exists i, (mkChunkResult None false (Some e)). split; [|done].
    unfold s'. up. by rewrite list_lookup_insert_eq. }
  assert (Hys : ∀ d, sent_desc y = Some d → d = desc_of c ∧ is_Some (store_of w (Hash (ch_Data c)))).
  { unfold y. destruct (jump_next Hash (ch_Data c) ph err) as [ph'|[j [e|]]] eqn:En; try done.
    intros d [= <-]. split; [done|]. by eapply Hj. }
  assert (Hyg : y ≠ WGone) by (unfold y; by destruct (jump_next _ _ _ _)).
  split; try done.
  - unfold s'. up. intros f l Hf. by apply Hm', Hm.
  - by apply Had'.
  - exists done, rest. split_and!; try done. destruct Hp as [Hp|Hp]; [by left; apply Hpe|].
    destruct Hy as [Hy|Hy]; [by left|right].
    unfold accounted, s' in *. up. by rewrite (Hl1' y), Hy, Hp, Hl1.
  - unfold s'. up. intros k x ph' [(-> & Hx & _)|(_ & Hk)]%list_lookup_insert_Some; [|by eapply Hb].
    unfold y in Hx. destruct (jump_next _ _ _ _); [|done]. injection Hx as <- <-. done.
  - intros d Hd. unfold uploaded, s' in *. up. rewrite (Hl2' y) in Hd.
    assert (d = desc_of c ∧ is_Some (store_of w (Hash (ch_Data c))) ∨
      d ∈ u_results s ++ omap cr_desc (u_resCh s) ++ omap sent_desc (u_workers s)) as [[-> ?]|Hd'].
    { rewrite !elem_of_app. apply elem_of_app in Hd as [?|Hd]; [auto|]. apply elem_of_app in Hd as [?|Hd]; [auto|].
      apply elem_of_app in Hd as [Hd|?].
      - left. destruct (sent_desc y) as [d'|] eqn:Ed; [|by apply not_elem_of_nil in Hd].
        apply list_elem_of_singleton in Hd as ->. by apply Hys.
      - right. right. right. by rewrite Hl2. }
    + by exists c.
    + destruct (Hst d Hd') as (x & ? & ? & [l Hl]). exists x. split_and!; try done. exists l. by apply Hm'.
  - unfold s'. up. intros k [(-> & Hx & _)|(_ & Hk)]%list_lookup_insert_Some; [done|].
    destruct (Hg k Hk) as [|?]; [left; by apply Hpe|by right].
Qed.

Lemma inv_send i r (s : upload W) :
  u_workers s !! i = Some (WSend r) → CInv s →
  CInv (set_worker (set_resCh s (u_resCh s ++ [r])) i (match cr_err r with Some _ => WGone | None => WIdle end)).
Proof using Hchunk Hsound Hidle Hall.
  intros Hi [Hok Hm Had (done & rest & Ha & Hh & Hcut & Hp) Hq Hb Hst Hg].
  pose proof (lookup_lt_Some _ _ _ Hi) as Hlt.
  destruct (omap_insert worker_desc _ _ _ Hi) as (l1 & Hl1 & Hl1').
  destruct (omap_insert sent_desc _ _ _ Hi) as (l2 & Hl2 & Hl2').
  cbn [worker_desc sent_desc] in *.
  set (y := match cr_err r with Some _ => WGone | None => WIdle end).
  assert (Hyd : worker_desc y = None ∧ sent_desc y = None) by (unfold y; by destruct (cr_err r)).
  set (s' := set_worker (set_resCh s (u_resCh s ++ [r])) i y).
  assert (Hpe : error_pending s → error_pending s').
  { unfold s'. intros [(k & r' & Hk & He)|(r' & Hr' & He)].
    - destruct (decide (k = i)) as [->|Hne].
      + right. exists r'. rewrite Hi in Hk. injection Hk as ->. up. split; [|done].
        apply elem_of_app. right. by left.
      + left. exists k, r'. up. by rewrite list_lookup_insert_ne.
    - right. exists r'. up. split; [|done]. apply elem_of_app. by left. }
  split; try done.
  - exists done, rest. split_and!; try done. destruct Hp as [Hp|Hp]; [by left; apply Hpe|right].
    unfold accounted, s' in *. up. rewrite (Hl1' y), (proj1 Hyd), Hp, Hl1, omap_app. cbn [option_list app].
    rewrite <- !app_assoc. do 2 f_equiv. cbn. by destruct (cr_desc r).
  - unfold s'. up. intros k x ph [(-> & Hx & _)|(_ & Hk)]%list_lookup_insert_Some; [|by eapply Hb].
    unfold y in Hx. by destruct (cr_err r).
  - intros d Hd. apply Hst. unfold uploaded, s' in *. up.
    rewrite (Hl2' y), (proj2 Hyd), omap_app, <- !app_assoc in Hd. rewrite Hl2.
    assert (E : option_list (cr_desc r) = omap cr_desc [r]) by (cbn; by destruct (cr_desc r)).
    rewrite E. exact Hd.
  - unfold s'. up. intros k [(-> & Hx & _)|(_ & Hk)]%list_lookup_insert_Some.
    + left. right. exists r. split; [|by unfold y in Hx; destruct (cr_err r)]. up.
      apply elem_of_app. right. by left.
    + destruct (Hg k Hk) as [|?]; [left; by apply Hpe|by right].
Qed.

Lemma inv_collect (s s' : upload W) :
  collect_step s = Some s' → cancelled s' = false → CInv s → CInv s'.
Proof using Hchunk Hsound Hidle Hall.
  intros Hs Hc [Hok Hm Had (done & rest & Ha & Hh & Hcut & Hp) Hq Hb Hst Hg]. unfold collect_step in Hs.
  destruct (u_resCh s) as [|r resCh] eqn:Er; [done|].
  assert (Hr : cr_err r = None).
  { destruct (cr_err r) as [e|] eqn:Ee; [exfalso|done].
    destruct (cr_desc r); injection Hs as <-; unfold cancelled in Hc; up; destruct (u_firstErr s);
      cbn in Hc; by rewrite orb_true_r in Hc. }
  assert (Hpe : ∀ s', u_workers s' = u_workers s → u_resCh s' = resCh → error_pending s → error_pending s').
  { clear -Er Hr. intros s' Hw Hrc [(k & r' & Hk & He)|(r' & Hr' & He)].
    - left. exists k, r'. by rewrite Hw.
    - right. exists r'. rewrite Hrc. rewrite Er in Hr'. apply elem_of_cons in Hr' as [->|]; done. }
  rewrite Hr in Hs.
  assert (Hs' : u_world s' = u_world s ∧ u_chunker s' = u_chunker s ∧ u_closed s' = u_closed s ∧
    u_hashed s' = u_hashed s ∧ u_queue s' = u_queue s ∧ u_workers s' = u_workers s ∧ u_resCh s' = resCh ∧
    u_results s' = u_results s ++ option_list (cr_desc r)).
  { destruct (cr_desc r); injection Hs as <-; up; by rewrite ?app_nil_r. }
  clear Hs. destruct Hs' as (Ew & Eck & Ecl & Eh & Eq & Ews & Erc & Ers).
  specialize (Hpe s' Ews Erc).
  assert (Hmv : omap cr_desc (u_resCh s) = option_list (cr_desc r) ++ omap cr_desc resCh).
  { rewrite Er. cbn. by destruct (cr_desc r). }
  split; rewrite ?Ew, ?Eck, ?Ecl, ?Eh, ?Eq, ?Ews; try done.
  - exists done, rest. split_and!; try done. destruct Hp as [Hp|Hp]; [by left; apply Hpe|right].
    unfold accounted in *. by rewrite Hp, Ers, Erc, Ews, Eq, Hmv, <- !app_assoc.
  - intros d Hd. apply Hst. unfold uploaded in *. by rewrite Ers, Erc, Ews, <- !app_assoc in Hd; rewrite Hmv, <- !app_assoc.
  - intros i Hi. destruct (Hg i Hi); auto.
Qed.

Lemma inv_step a (s s' : upload W) :
  cdc_step Hash chunkSize capacity a s = Some s' → cancelled s' = false →
  cancelled s = false ∧ (CInv s → CInv s').
Proof using Hchunk Hsound Hidle Hall.
  intros Hs Hc'. assert (Hc : cancelled s = false).
  { destruct (cancelled s) eqn:Hc; [exfalso|done]. eapply cancelled_stays in Hs; [|done]. congruence. }
  split; [done|]. intros Hinv. destruct a as [| |i|i|i eff|i|i| |]; cbn [cdc_step] in Hs.
  - by eapply inv_slice.
  - rewrite Hc in Hs. by rewrite orb_true_r in Hs.
  - destruct (u_workers s !! i) as [[]|] eqn:Ei; try done. by eapply inv_take.
  - destruct (u_workers s !! i) as [[|c ph| |]|] eqn:Ei; try done. injection Hs as <-. by apply inv_rpc.
  - destruct (u_workers s !! i) as [[|c ph| |]|] eqn:Ei; try done. by rewrite Hc in Hs.
  - destruct (u_workers s !! i) as [[| |r|]|] eqn:Ei; try done. destruct (_ <? _)%nat; [|done].
    injection Hs as <-. by apply inv_send.
  - destruct (u_workers s !! i) as [[| |r|]|] eqn:Ei; try done. by rewrite Hc in Hs.
  - by eapply inv_collect.
  - destruct (u_parent s); [done|]. injection Hs as <-. done.
Qed.
End service.
