(* ===== verification/CdcRoundtrip.v ===== *)
(** * Uploading with PutCDC and reading back with GetCDC

    The results of the previous file put together: every schedule of [PutCDC] ends, and when it ends
    well, [GetCDC] and [GetAuto] on the fid it returns give the stream back, or any range of it. *)

From S2P Require Import Prelude Machine Loop Device DirectIO DiskStore Reader Server Pool Serve.
From S2P Require Import Client Service Gate Config MultiDisk ServerService Cdc CdcRun.
From Stdlib Require Import Strings.Byte.

(** ** The end of a run *)
Section run.
Context {W : Type} `{!BSOSClient W}.
Context (Hash : list byte → Z) (chunkSize : Z) (capacity : nat).

Lemma run_app sched1 sched2 (s : upload W) :
  run_actions Hash chunkSize capacity (sched1 ++ sched2) s =
  s1 ← run_actions Hash chunkSize capacity sched1 s; run_actions Hash chunkSize capacity sched2 s1.
Proof.
  revert s. induction sched1 as [|a sched1 IH]; intros s; cbn; [done|].
  destruct (cdc_step Hash chunkSize capacity a s); cbn; [by apply IH|done].
Qed.

(** What every action keeps: the number of workers, and one count per collected chunk. *)
Definition counted (n : nat) (s : upload W) : Prop :=
  length (u_workers s) = n ∧ u_dedup s + u_upload s = Z.of_nat (length (u_results s)).

Lemma step_counted n a (s s' : upload W) :
  cdc_step Hash chunkSize capacity a s = Some s' → counted n s → counted n s'.
Proof.
  unfold counted. intros Hs [Hw Hc].
  destruct a; cbn [cdc_step] in Hs; unfold slice_step, take_step, rpc_step, collect_step in Hs;
    repeat (case_match; simplify_eq; try done); cbn in *;
    rewrite ?length_insert, ?length_app; cbn; (split; [done|lia]).
Qed.

Lemma run_counted n sched (s s' : upload W) :
  run_actions Hash chunkSize capacity sched s = Some s' → counted n s → counted n s'.
Proof.
  revert s. induction sched as [|a sched IH]; intros s; cbn; [by intros [= <-]|].
  destruct (cdc_step Hash chunkSize capacity a s) as [s1|] eqn:E; cbn; [|done]. intros Hr Hc.
  eapply IH; [exact Hr|]. by eapply step_counted.
Qed.
End run.

Section upload.
Context {W : Type} `{!BSOSClient W} `{!PoolService W}.
Context (Hash : list byte → Z) (chunkSize : Z) (P : list byte → Prop).
Context (Hchunk : 0 < chunkSize) (Hsound : hash_sound Hash P).
Context (Hidle : ∀ (w : W) f, svc_ok w → ¬ busy w f).
Context (capacity : nat) (w0 : W) (all : list Chunk) (Hall : ∀ c, c ∈ all → P (ch_Data c)).

Lemma run_inv sched (s s' : upload W) :
  run_actions Hash chunkSize capacity sched s = Some s' → cancelled s' = false →
  CInv Hash P w0 all s → CInv Hash P w0 all s'.
Proof.
  intros Hr Hc. enough (cancelled s = false ∧ (CInv Hash P w0 all s → CInv Hash P w0 all s')) by naive_solver.
  revert s Hr. induction sched as [|a sched IH]; intros s; cbn; [by intros [= ->]|].
  destruct (cdc_step Hash chunkSize capacity a s) as [s1|] eqn:E; cbn; [|done]. intros [Hc1 Hi]%IH.
  destruct (inv_step Hash chunkSize P Hchunk Hsound Hidle capacity w0 all Hall a s s1 E Hc1) as [Hc0 Hi0].
  auto.
Qed.

Lemma start_CInv opts ck :
  svc_ok w0 → addressed Hash P w0 → cut Hash (ck_inner ck) (ck_offset ck) = (all, EEOF) →
  CInv Hash P w0 all (start_cdc opts ck w0).
Proof.
  intros Hok Ha Hcut.
  assert (Hw : ∀ i x, u_workers (start_cdc opts ck w0) !! i = Some x → x = WIdle)
    by (intros i x [-> _]%lookup_replicate; done).
  assert (Hd : ∀ f : worker → option ChunkDescriptor, f WIdle = None →
    omap f (u_workers (start_cdc opts ck w0)) = []).
  { intros f Hf. cbn. clear -Hf. induction (Z.to_nat (o_Workers opts)) as [|n IH]; cbn; [done|by rewrite Hf]. }
  split; try done.
  - exists [], all. split_and!; try done. right. unfold accounted. by rewrite Hd.
  - intros c Hc. by apply not_elem_of_nil in Hc.
  - by intros i c ph H%Hw.
  - unfold uploaded. rewrite Hd by done. by intros d H%not_elem_of_nil.
  - by intros i H%Hw.
Qed.

Lemma finished_gone (s : upload W) :
  finished s = true → u_resCh s = [] ∧ ∀ i x, u_workers s !! i = Some x → x = WGone.
Proof.
  unfold finished. intros [Hg Hr]%andb_prop. split; [by destruct (u_resCh s)|].
  intros i x Hi. rewrite forallb_forall in Hg. specialize (Hg x). destruct x; try done;
    (discriminate Hg; apply list_elem_of_In; by eapply list_elem_of_lookup_2).
Qed.

(** A run that ends without a failure has stored every chunk. *)
Lemma finished_done (s : upload W) off :
  CInv Hash P w0 all s → finished s = true → u_workers s ≠ [] → consecutive Hash off all →
  u_hashed s = data_of all ∧ u_results s ≡ₚ desc_of <$> all ∧
  ∀ c, c ∈ all → store_of (u_world s) (ch_FID c) = Some (ch_Data c).
Proof.
  intros [Hok Hm Had (dn & rest & Ha & Hh & Hcut & Hp) Hq Hb Hst Hg] Hf Hne Hcs.
  apply finished_gone in Hf as [Hr Hw].
  assert (Hnp : ¬ error_pending s).
  { intros [(i & r & Hi & _)|(r & Hi & _)]; [by apply Hw in Hi|]. rewrite Hr in Hi. by apply not_elem_of_nil in Hi. }
  destruct (u_workers s) as [|x ws] eqn:Ews; [done|].
  assert (x = WGone) as -> by (by apply (Hw 0%nat)).
  destruct (Hg 0%nat) as [|[Ecl Eq]]; [done|done|]. rewrite Ecl in Hcut. subst rest.
  rewrite app_nil_r in Ha. subst dn. destruct Hp as [|Hp]; [done|].
  assert (Hsd : ∀ f : worker → option ChunkDescriptor, f WGone = None → omap f (u_workers s) = []).
  { intros f Hf. rewrite Ews. clear -Hw Hf. induction (WGone :: ws) as [|y l IH] in Hw |- *; [done|].
    assert (y = WGone) as -> by (by apply (Hw 0%nat)). cbn. rewrite Hf. apply IH. intros i z Hz.
    by apply (Hw (S i)). }
  unfold accounted in Hp. rewrite Hr, Eq, Hsd in Hp by done. cbn in Hp. rewrite app_nil_r in Hp.
  split; [done|]. split; [done|]. intros c Hc.
  assert (Hf : ∀ x, x ∈ all → ch_FID x = Hash (ch_Data x)).
  { clear -Hcs. revert off Hcs. induction all as [|y l IH]; intros off Hcs x Hx; [by apply not_elem_of_nil in Hx|].
    destruct Hcs as (_ & _ & _ & ? & Hcs). apply elem_of_cons in Hx as [->|Hx]; [done|by eapply IH]. }
  destruct (Hst (desc_of c)) as (c' & Hc' & E & [l Hl]).
  { unfold uploaded. rewrite Hr, Hsd by done. cbn. rewrite app_nil_r, <- Hp.
    apply list_elem_of_fmap. by exists c. }
  injection E as E _ _. rewrite (Hf c), (Hf c') in E by done. rewrite (Hf c) by done.
  rewrite <- E in Hl. rewrite Hl. f_equal. by apply Had; [apply Hall|].
Qed.
End upload.

(** ** Reading the chunks *)
Lemma slice_concat (l1 l2 : list byte) s t :
  0 ≤ s →
  slice (l1 ++ l2) s t =
    slice l1 s (Z.min t (Z.of_nat (length l1))) ++
    slice l2 (Z.max s (Z.of_nat (length l1)) - Z.of_nat (length l1)) (t - Z.of_nat (length l1)).
Proof.
  intros Hs. unfold slice. rewrite drop_app, take_app, length_drop. f_equal.
  - destruct (Z.le_gt_cases t (Z.of_nat (length l1))).
    + by rewrite Z.min_l.
    + rewrite !take_ge by (rewrite length_drop; lia). done.
  - f_equal; [lia|]. f_equal. lia.
Qed.

Lemma slice_empty (l : list byte) s t : t ≤ s → slice l s t = [].
Proof. intros H. unfold slice. by replace (Z.to_nat (t - s)) with 0%nat by lia. Qed.

Section read.
Context {W : Type} `{!BSOSClient W} `{!PoolService W}.
Context (Hash : list byte → Z).

(** The part of the chunks from [off] on that a range selects. *)
Definition selected (cs : list Chunk) (off a b : Z) : list byte :=
  slice (data_of cs) (Z.max a off - off) (Z.min b (off + Z.of_nat (length (data_of cs))) - off).

Lemma selected_cons c cs off a b :
  selected (c :: cs) off a b =
    slice (ch_Data c) (Z.max a off - off) (Z.min b (off + Z.of_nat (length (ch_Data c))) - off) ++
    selected cs (off + Z.of_nat (length (ch_Data c))) a b.
Proof.
  unfold selected, data_of. cbn [fmap list_fmap concat]. fold (data_of cs).
  set (n := Z.of_nat (length (ch_Data c))). set (m := Z.of_nat (length (data_of cs))).
  rewrite slice_concat by lia. rewrite length_app, Nat2Z.inj_add. fold n m. f_equal; f_equal; lia.
Qed.

(** A descriptor that says where the chunk is, whatever it says of its target. *)
Definition describes (g : Chunk → ChunkDescriptor) : Prop :=
  ∀ c, d_Fid (g c) = ch_FID c ∧ d_Offset (g c) = ch_Offset c ∧ d_Size (g c) = ch_Size c.

Lemma desc_of_describes : describes desc_of.
Proof. done. Qed.

Lemma get_chunks_selected g cs off a b x w :
  describes g → svc_ok w → consecutive Hash off cs → 0 ≤ off → off + Z.of_nat (length (data_of cs)) < 2 ^ 64 →
  0 ≤ a < b → b < 2 ^ 64 → (∀ c, c ∈ cs → store_of w (ch_FID c) = Some (ch_Data c)) →
  let '((err, y), w') := get_chunks buffer_write a b (g <$> cs) x w in
  svc_ok w' ∧ (∀ f, store_of w' f = store_of w f) ∧ err = None ∧ y = x ++ selected cs off a b.
Proof.
  intros Hg. revert off x w. induction cs as [|c cs IH]; intros off x w Hok Hcs Hoff Hlen Hab Hb Hst.
  { cbn. split_and!; try done. unfold selected. cbn. rewrite slice_empty by lia. by rewrite app_nil_r. }
  destruct Hcs as (Ho & Hs & Hpos & _ & Hcs). pose proof (selected_cons c cs off a b) as Hsel.
  unfold data_of in Hlen. cbn [fmap list_fmap concat] in Hlen. rewrite length_app in Hlen.
  fold (data_of cs) in Hlen. set (n := Z.of_nat (length (ch_Data c))) in *.
  assert (Hst' : ∀ c', c' ∈ cs → store_of w (ch_FID c') = Some (ch_Data c')) by (intros; apply Hst; by right).
  rewrite Hs in Hcs.
  destruct (Hg c) as (Eg1 & Eg2 & Eg3). cbn [fmap list_fmap get_chunks]. rewrite Eg1, Eg2, Eg3, Ho, Hs. fold n.
  rewrite (u64_small (off + n)) by lia.
  destruct (Z.leb_spec (off + n) a) as [H1|H1]; [|destruct (Z.leb_spec b off) as [H2|H2]]; cbn [orb].
  1,2: rewrite Hsel, slice_empty by lia; by apply (IH (off + n)); try lia.
  pose proof (GetBytes_whole (ch_FID c) w Hok) as Hget. rewrite (Hst c ltac:(by left)) in Hget.
  destruct (GetBytes (ch_FID c) None w) as [out w1]. destruct Hget as (Hok1 & Hs1 & ->).
  set (ss := if off <? a then u64 (a - off) else 0). set (se := if b <? off + n then u64 (b - off) else n).
  assert (Hss : ss = Z.max a off - off).
  { unfold ss. destruct (Z.ltb_spec off a); [rewrite u64_small by lia|]; lia. }
  assert (Hse : se = Z.min b (off + n) - off).
  { unfold se. destruct (Z.ltb_spec b (off + n)); [rewrite u64_small by lia|]; lia. }
  fold n. rewrite (proj2 (Z.ltb_lt ss se)) by lia. rewrite (proj2 (Z.leb_le se n)) by lia. cbn [andb].
  unfold buffer_write at 1.
  pose proof (IH (off + n) (x ++ slice (ch_Data c) ss se) w1 Hok1 Hcs ltac:(lia) ltac:(lia) Hab Hb) as H.
  destruct (get_chunks _ _ _ _ _ w1) as [[err y] w'].
  destruct H as (? & Hs' & ? & ->); [intros c' Hc'; rewrite Hs1; by apply Hst'|].
  split_and!; try done.
  - intros f. by rewrite Hs', Hs1.
  - rewrite Hsel, Hss, Hse. by rewrite app_assoc.
Qed.

Lemma selected_all cs a b :
  b ≤ Z.of_nat (length (data_of cs)) → 0 ≤ a → selected cs 0 a b = slice (data_of cs) a b.
Proof. intros Hb Ha. unfold selected. f_equal; lia. Qed.

Lemma cdc_range_bounds r total a b :
  range_u64 r → 0 < total → cdc_range r total = Some (a, b) → 0 ≤ a < b ∧ b ≤ total.
Proof.
  intros Hr Ht. unfold cdc_range. destruct r as [[s e]|]; [|intros [= <- <-]; lia].
  destruct Hr as [Hs He]. unfold is_u64 in *. set (e' := if _ : bool then total else e).
  assert (e' ≤ total).
  { unfold e'. destruct (Z.eqb_spec e 0); [cbn; lia|]. destruct (Z.ltb_spec total e); cbn; lia. }
  destruct (Z.leb_spec e' s); intros [= <- <-]. lia.
Qed.
End read.

(** ** The theorems *)
Definition manifest_of (opts : CDCOptions) (r : CDCResult) : FileManifest :=
  mkManifest CurrentVersion (r_TotalSize r) (r_FullContentHash r) (o_Filename opts)
    (u64 (o_TargetChunkSize opts)) (r_Chunks r).

(** The manifest of the chunks of a stream. *)
Definition manifest_for (Hash : list byte → Z) (opts : CDCOptions) (cs : list Chunk) : FileManifest :=
  mkManifest CurrentVersion (Z.of_nat (length (data_of cs))) (Hash (data_of cs)) (o_Filename opts)
    (u64 (o_TargetChunkSize opts)) (desc_of <$> cs).

(** What an upload of these chunks puts: their bytes, and the manifest. *)
Definition run_contents (Hash : list byte → Z) (Marshal : FileManifest → res (list byte)) (opts : CDCOptions)
    (cs : list Chunk) : list (list byte) :=
  (ch_Data <$> cs) ++ match Encode Marshal (Some (manifest_for Hash opts cs)) with Ok mb => [mb] | Err _ => [] end.

Definition slicer_options (opts : CDCOptions) : option Options :=
  Some (mkOptions (o_MinChunkSize opts) (o_TargetChunkSize opts) (o_MaxChunkSize opts)).

(** What a range of a stream gives. *)
Definition cdc_slice (optRange : option (Z * Z)) (data : list byte) : list byte :=
  match cdc_range optRange (Z.of_nat (length data)) with
  | Some (a, b) => slice data a b
  | None => []
  end.

Lemma IsManifest_app l : IsManifest (MagicHeader ++ l) = true.
Proof.
  unfold IsManifest. rewrite bool_decide_true by done. rewrite andb_true_r. apply Z.leb_le.
  rewrite length_app. lia.
Qed.

Lemma Encode_Decode Marshal Unmarshal m mb :
  (∀ m l, Marshal m = Ok l → Unmarshal l = Ok m) → m_Version m = CurrentVersion →
  Encode Marshal (Some m) = Ok mb → Decode Unmarshal mb = Ok m ∧ ∃ l, Marshal m = Ok l ∧ mb = MagicHeader ++ l.
Proof.
  intros Hmu Hv. unfold Encode. rewrite Hv. cbn [Z.eqb CurrentVersion]. unfold CurrentVersion in *. cbn [Z.eqb].
  destruct (Marshal m) as [l|e] eqn:Em; cbn [wrap_err mbind res_bind]; [|done]. intros E. assert (mb = MagicHeader ++ l) as -> by congruence.
  split; [|by exists l]. unfold Decode. rewrite IsManifest_app. cbn [negb].
  change (drop (length MagicHeader) (MagicHeader ++ l)) with l.
  rewrite (Hmu m l Em). cbn [wrap_err mbind res_bind]. rewrite Hv. done.
Qed.

Section upload_theorems.
Context {W : Type} `{!BSOSClient W} `{!PoolService W}.

(** A successful upload: the chunks and the manifest are stored. *)
Lemma PutCDC_outcome Hash chunkSize Marshal fastcdc opt sched ck cs (w : W) r w' :
  let opts := cdc_options opt in
  let P l := l ∈ run_contents Hash Marshal opts cs in
  0 < chunkSize → hash_sound Hash P → (∀ (w : W) f, svc_ok w → ¬ busy w f) →
  NewChunker fastcdc (slicer_options opts) = Ok ck → cut Hash (ck_inner ck) (ck_offset ck) = (cs, EEOF) →
  Z.of_nat (length (data_of cs)) < 2 ^ 64 → svc_ok w → addressed Hash P w →
  PutCDC Hash chunkSize Marshal fastcdc opt sched w = Some (inl r, w') →
  manifest_of opts r = manifest_for Hash opts cs ∧ consecutive Hash 0 cs ∧
  r_ChunkCount r = Z.of_nat (length cs) ∧ r_DeduplicatedCount r + r_UploadedCount r = r_ChunkCount r ∧
  ∃ mb, Encode Marshal (Some (manifest_for Hash opts cs)) = Ok mb ∧ r_ManifestFID r = Hash mb ∧
    svc_ok w' ∧ (∀ f l, store_of w f = Some l → store_of w' f = Some l) ∧
    store_of w' (r_ManifestFID r) = Some mb ∧
    ∀ c, c ∈ cs → store_of w' (ch_FID c) = Some (ch_Data c).
Proof.
  intros opts P Hchunk Hsound Hidle Ek Ec Hlen Hok Ha Hput. unfold PutCDC in Hput. fold opts in Hput.
  unfold slicer_options in Ek. rewrite Ek in Hput.
  assert (Eo : ck_offset ck = 0).
  { unfold NewChunker in Ek. destruct (chunker_options _); [|done]. cbn in Ek. destruct (fastcdc _); [|done].
    by injection Ek as <-. }
  assert (HP : ∀ c, c ∈ cs → P (ch_Data c)).
  { intros c Hc. unfold P, run_contents. apply elem_of_app. left. by apply list_elem_of_fmap_2. }
  assert (Hcs : consecutive Hash 0 cs) by (rewrite Eo in Ec; by eapply cut_consecutive; [exact Ec|lia|lia]).
  destruct (run_actions _ _ _ _ _) as [s|] eqn:Er; [|done]. cbn [mbind option_bind] in Hput.
  destruct (finished s) eqn:Ef; [|done]. injection Hput as Hput.
  assert (Hws : 0 < o_Workers opts).
  { clear. unfold opts, cdc_options. destruct opt as [o'|]; cbn; [|lia]. destruct (Z.ltb_spec 0 (o_Workers o')); lia. }
  pose proof (run_counted _ _ _ (Z.to_nat (o_Workers opts)) _ _ _ Er
    ltac:(split; [apply length_replicate|done])) as [Hnw Hcount].
  unfold finish_cdc in Hput. destruct (u_sliceErr s) eqn:E1; [done|]. destruct (u_firstErr s) eqn:E2; [done|].
  destruct (Encode Marshal _) as [mb|] eqn:Em; [|done]. destruct (u_parent s) eqn:E3; [done|].
  assert (Hc : cancelled s = false) by (unfold cancelled; by rewrite E1, E2, E3).
  pose proof (run_inv Hash chunkSize P Hchunk Hsound Hidle _ w cs HP _ _ _ Er Hc
    (start_CInv Hash P w cs opts ck Hok Ha Ec)) as Hinv.
  destruct (finished_done Hash P w cs HP s 0 Hinv Ef) as (Hh & Hp & Hst); [|done|].
  { intros E. rewrite E in Hnw. cbn in Hnw. lia. }
  pose proof (sort_descriptors _ _ _ _ Hcs Hp) as Hsort.
  unfold PutAtomic in Hput. destruct (MaxAtomicPayloadSize <? _); [done|].
  pose proof (run_jump_eq Hash chunkSize mb (u_world s)) as Hj.
  destruct (PutWithJumpRetry Hash chunkSize mb None (u_world s)) as [[j [e|]] w1] eqn:Ep; [done|].
  injection Hput as <- <-. unfold manifest_of. cbn [r_TotalSize r_FullContentHash r_Chunks r_ChunkCount
    r_DeduplicatedCount r_UploadedCount r_ManifestFID].
  rewrite Hsort in Em |- *. rewrite (total_size _ _ _ _ Hcs) in Em |- * by lia. rewrite Hh in *.
  change (mkManifest _ _ _ _ _ _) with (manifest_for Hash opts cs) in Em |- *.
  assert (Hmp : P mb) by (unfold P, run_contents; rewrite Em; apply elem_of_app; right; by left).
  destruct (run_jump_outcome Hash chunkSize P Hchunk Hsound Hidle 256 mb PDirect _ _ _ _ Hj
    (ci_ok _ _ _ _ _ Hinv) Hmp) as [[Hok' Hm' Had'] Hres].
  destruct (Hres eq_refl) as [[l Hl] Hfid]. specialize (Had' (ci_addr _ _ _ _ _ Hinv)).
  split_and!; [done|done|by rewrite length_fmap|rewrite Hcount, <- Hsort, merge_sort_Permutation; done|].
  exists mb. split_and!; try done.
  - intros f x Hf. by apply Hm', (ci_mono _ _ _ _ _ Hinv).
  - rewrite Hfid, Hl. f_equal. by apply Had'.
  - intros c Hc'. by apply Hm', Hst.
Qed.

(** Reading through a stored manifest whose chunks are stored. *)
Lemma GetCDC_outcome Hash Unmarshal g fid mb m cs optRange x (w : W) :
  describes g → svc_ok w → store_of w fid = Some mb → Decode Unmarshal mb = Ok m → consecutive Hash 0 cs →
  m_Chunks m = g <$> cs → m_TotalSize m = Z.of_nat (length (data_of cs)) →
  Z.of_nat (length (data_of cs)) < 2 ^ 64 →
  (∀ c, c ∈ cs → store_of w (ch_FID c) = Some (ch_Data c)) → range_u64 optRange →
  let '((err, y), w') := GetCDC Unmarshal buffer_write fid optRange x w in
  err = None ∧ y = x ++ cdc_slice optRange (data_of cs) ∧ ∀ f, store_of w' f = store_of w f.
Proof.
  intros Hgd Hok Hfid Hdec Hcs Hch Hts Hlen Hst Hr. unfold GetCDC, InspectManifest.
  pose proof (GetBytes_whole fid w Hok) as Hg. rewrite Hfid in Hg.
  destruct (GetBytes fid None w) as [out w1]. destruct Hg as (Hok1 & Hs1 & ->). rewrite Hdec.
  unfold cdc_slice. rewrite Hts. set (n := Z.of_nat (length (data_of cs))) in *.
  destruct (cdc_range optRange n) as [[a b]|] eqn:Er.
  2:{ split; [done|]. split; [by rewrite app_nil_r|done]. }
  rewrite Hch. destruct cs as [|c cs].
  { cbn. split; [done|]. split; [|done]. unfold slice. by rewrite drop_nil, take_nil, app_nil_r. }
  assert (Hn : 0 < n).
  { destruct Hcs as (_ & Hs & Hpos & _). unfold n, data_of. cbn. rewrite length_app. lia. }
  destruct (cdc_range_bounds _ _ _ _ Hr Hn Er) as [Hab Hb].
  pose proof (get_chunks_selected Hash g (c :: cs) 0 a b x w1 Hgd Hok1 Hcs ltac:(lia) ltac:(lia) Hab ltac:(lia)
    ltac:(intros c' Hc'; rewrite Hs1; by apply Hst)) as H.
  destruct (get_chunks _ _ _ _ _ _) as [[err y] w2]. destruct H as (_ & Hs2 & -> & ->).
  rewrite selected_all by lia. split_and!; try done. intros f. by rewrite Hs2.
Qed.

Lemma GetAuto_manifest Unmarshal fid l optRange x (w : W) :
  svc_ok w → store_of w fid = Some (MagicHeader ++ l) →
  ∃ w1, svc_ok w1 ∧ (∀ f, store_of w1 f = store_of w f) ∧
    GetAuto Unmarshal buffer_write fid optRange x w = GetCDC Unmarshal buffer_write fid optRange x w1.
Proof.
  intros Hok Hs. pose proof (GetBytes_service fid (Some (0, 5)) w Hok ltac:(split; unfold is_u64; lia)) as Hg.
  unfold GetAuto. destruct (GetBytes fid _ w) as [out w1]. destruct Hg as (Hok1 & Hs1 & Hg). rewrite Hs in Hg.
  exists w1. split; [done|]. split; [done|].
  assert (E : range_of (Some (0, 5)) (Z.of_nat (length (MagicHeader ++ l))) = Some (0, 5)).
  { unfold range_of, get_range. cbn [gq_has_range gq_range_start gq_range_end request Z.eqb orb].
    rewrite length_app. destruct (Z.ltb_spec (Z.of_nat (length MagicHeader + length l)) 5) as [H|H]; [|done].
    change (length MagicHeader) with 5%nat in H. lia. }
  rewrite E in Hg. rewrite Hg.
  assert (IsManifest (slice (MagicHeader ++ l) 0 5) = true) as ->; [|done].
  change (slice (MagicHeader ++ l) 0 5) with (MagicHeader ++ []). apply IsManifest_app.
Qed.

(** C7: what [PutCDC] uploads, [GetCDC] and [GetAuto] read back.  For any interleaving of the slicer,
    the workers and the collector, and any way the library cuts the stream into chunks: when the upload
    succeeds, its result lists and counts every chunk once, its total size and hash are those of the
    stream, nothing that was stored has changed, and reading the fid it returns, directly or through
    [GetAuto], writes the range that was asked for of exactly the bytes that were uploaded.  This is
    conditional on three things.  No other client's call is in flight: a fid that is only reserved by
    another put counts as a duplicate, and that put may still be aborted.  The hash is free of collisions,
    and not 0, on the finitely many contents of this upload, which are the chunks, their manifest, and
    those bytes with a jump code appended.  And under those hashes the pool held, before the upload,
    nothing but these contents.  The protobuf decoder inverts the encoder, and the stream is shorter than
    2^64 bytes. *)
Theorem cdc_roundtrip Hash chunkSize Marshal Unmarshal fastcdc opt sched ck cs (w : W) r w' :
  let opts := cdc_options opt in
  let content l := l ∈ run_contents Hash Marshal opts cs in
  let data := data_of cs in
  0 < chunkSize → (∀ (w : W) f, svc_ok w → ¬ busy w f) →
  hash_sound Hash content → addressed Hash content w →
  (∀ m l, Marshal m = Ok l → Unmarshal l = Ok m) →
  NewChunker fastcdc (slicer_options opts) = Ok ck → cut Hash (ck_inner ck) (ck_offset ck) = (cs, EEOF) →
  Z.of_nat (length data) < 2 ^ 64 → svc_ok w →
  PutCDC Hash chunkSize Marshal fastcdc opt sched w = Some (inl r, w') →
  r_TotalSize r = Z.of_nat (length data) ∧ r_FullContentHash r = Hash data ∧ r_Chunks r = desc_of <$> cs ∧
  r_DeduplicatedCount r + r_UploadedCount r = Z.of_nat (length cs) ∧
  (∀ f l, store_of w f = Some l → store_of w' f = Some l) ∧
  ∀ optRange x, range_u64 optRange →
    (GetCDC Unmarshal buffer_write (r_ManifestFID r) optRange x w').1 = (None, x ++ cdc_slice optRange data) ∧
    (GetAuto Unmarshal buffer_write (r_ManifestFID r) optRange x w').1 = (None, x ++ cdc_slice optRange data).
Proof.
  intros opts content data Hchunk Hidle Hsound Ha Hmu Ek Ec Hlen Hok Hput.
  destruct (PutCDC_outcome Hash chunkSize Marshal fastcdc opt sched ck cs w r w' Hchunk Hsound Hidle Ek Ec Hlen Hok Ha Hput)
    as (Hman & Hcs & Hcnt & Hsum & mb & Hen & _ & Hok' & Hm & Hfid & Hst).
  pose proof (f_equal m_TotalSize Hman) as Hts. pose proof (f_equal m_FullContentHash Hman) as Hh.
  pose proof (f_equal m_Chunks Hman) as Hch. cbn [manifest_of manifest_for m_TotalSize m_FullContentHash m_Chunks] in *.
  split_and!; try done; [by rewrite Hsum|].
  destruct (Encode_Decode Marshal Unmarshal (manifest_for Hash opts cs) mb Hmu eq_refl Hen) as (Hdec & l & _ & Hl).
  intros optRange x Hr. split.
  - pose proof (GetCDC_outcome Hash Unmarshal desc_of _ mb _ cs optRange x w' desc_of_describes Hok' Hfid Hdec Hcs eq_refl eq_refl Hlen Hst Hr) as H.
    destruct (GetCDC _ _ _ _ _ w') as [[err y] w1]. by destruct H as (-> & -> & _).
  - rewrite Hl in Hfid. destruct (GetAuto_manifest Unmarshal _ l optRange x w' Hok' Hfid) as (w1 & Hok1 & Hs1 & ->).
    pose proof (GetCDC_outcome Hash Unmarshal desc_of (r_ManifestFID r) mb _ cs optRange x w1 desc_of_describes Hok1
      ltac:(by rewrite Hs1, Hfid, Hl) Hdec Hcs eq_refl eq_refl Hlen ltac:(intros c Hc; rewrite Hs1; by apply Hst) Hr) as H.
    destruct (GetCDC _ _ _ _ _ w1) as [[err y] w2]. by destruct H as (-> & -> & _).
Qed.
End upload_theorems.

(** C10: [PutCDC] always returns.  Whatever the service, the cuts and the cancellations: no schedule of
    its goroutines is longer than 262 actions per chunk, one per worker and two; wherever a run has got
    to, it can be completed by actions of its own goroutines alone, without the caller's context ending,
    so no goroutine is left blocked on a channel; and the complete run has a result. *)
Theorem put_cdc_terminates {W} `{!BSOSClient W} Hash chunkSize Marshal fastcdc opt (w : W) ck :
  let opts := cdc_options opt in
  let capacity := Z.to_nat (o_Workers opts * 2) in
  NewChunker fastcdc (slicer_options opts) = Ok ck →
  ∀ sched s, run_actions Hash chunkSize capacity sched (start_cdc opts ck w) = Some s →
    Z.of_nat (length sched) ≤ 262 * Z.of_nat (length (ck_inner ck)) + o_Workers opts + 2 ∧
    ∃ sched' out, ACancel ∉ sched' ∧
      PutCDC Hash chunkSize Marshal fastcdc opt (sched ++ sched') w = Some out.
Proof.
  intros opts capacity Hck sched s Hr. unfold slicer_options in Hck.
  assert (Hws : 0 < o_Workers opts).
  { clear. unfold opts, cdc_options. destruct opt as [o|]; cbn; [|lia]. destruct (Z.ltb_spec 0 (o_Workers o)); lia. }
  split.
  - pose proof (run_measure _ _ _ _ _ _ Hr) as Hm.
    assert (E : measure (start_cdc opts ck w) =
      (1 + 262 * length (ck_inner ck) + Z.to_nat (o_Workers opts) + 1)%nat).
    { unfold measure, start_cdc. cbn [u_closed u_chunker u_queue u_workers u_resCh u_parent length].
      assert (Hwm : ∀ n, workers_measure (replicate n WIdle) = n)
        by (induction n as [|n IH]; cbn; [done|by rewrite IH]).
      rewrite Hwm. lia. }
    lia.
  - destruct (run_completes Hash chunkSize capacity s ltac:(unfold capacity; lia)) as (sched' & s' & Hnc & Hr' & Hf).
    exists sched'. eexists. split; [exact Hnc|]. unfold PutCDC. fold opts. rewrite Hck. fold capacity.
    rewrite run_app, Hr. cbn [mbind option_bind]. rewrite Hr'. cbn [mbind option_bind]. by rewrite Hf.
Qed.

(** ** A concrete upload *)
Definition demo_cuts : inner := [(replicate 6 x41, None); (replicate 4 x42, None); ([], Some EEOF)].
Definition demo_fastcdc (_ : Options) : res inner := Ok demo_cuts.
Definition demo_opt : option CDCOptions := Some (mkCDC 2 0 0 0 "f").
Definition demo_schedule : list action :=
  [ASlice; ATake 0; ASlice; ATake 1; ARpc 1; ASlice; ASend 1; ARpc 0; ATake 1; ASend 0; ACollect; ATake 0; ACollect].
Definition demo_manifest : FileManifest :=
  mkManifest 1 10 11 "f" DefaultTargetSize [mkDesc 7 0 0 6 0; mkDesc 5 0 6 4 0].
#[export] Instance desc_eq_dec : EqDecision ChunkDescriptor.
Proof. solve_decision. Defined.
#[export] Instance manifest_eq_dec : EqDecision FileManifest.
Proof. solve_decision. Defined.
Definition demo_marshal (m : FileManifest) : res (list byte) :=
  if decide (m = demo_manifest) then Ok (replicate 8 x43) else Err (EMsg "other").
Definition demo_unmarshal (_ : list byte) : res FileManifest := Ok demo_manifest.

Definition demo_ck : Chunker := mkChunker demo_cuts 0.
Definition demo_chunks : list Chunk := [mkChunk 7 0 6 (replicate 6 x41); mkChunk 5 6 4 (replicate 4 x42)].
Definition demo_result : CDCResult := mkCDCResult 14 10 11 2 0 2 [mkDesc 7 0 0 6 0; mkDesc 5 0 6 4 0].

Definition demo_contents (l : list byte) : Prop :=
  l ∈ [replicate 6 x41; replicate 4 x42; MagicHeader ++ replicate 8 x43].

Lemma demo_contents_cases l :
  demo_contents l → l = replicate 6 x41 ∨ l = replicate 4 x42 ∨ l = MagicHeader ++ replicate 8 x43.
Proof. unfold demo_contents. rewrite !elem_of_cons, elem_of_nil. naive_solver. Qed.

Lemma demo_sound : hash_sound demo_hash demo_contents.
Proof.
  split; [intros l; apply u64_range|]. split; [by intros l [->|[->| ->]]%demo_contents_cases|].
  intros l x Hl%demo_contents_cases Hx.
  destruct Hx as [[->|[->| ->]]%demo_contents_cases|(y & b & [->|[->| ->]]%demo_contents_cases & ->)];
    destruct Hl as [->|[->| ->]]; try done; intros H; vm_compute in H; discriminate H.
Qed.

Lemma demo_addressed : addressed demo_hash demo_contents demo_world.
Proof. intros l x [->|[->| ->]]%demo_contents_cases Hs; vm_compute in Hs; discriminate Hs. Qed.

Lemma cdc_roundtrip_witness :
  ∃ w', PutCDC demo_hash 4 demo_marshal demo_fastcdc demo_opt demo_schedule demo_world = Some (inl demo_result, w') ∧
    (GetAuto demo_unmarshal buffer_write (r_ManifestFID demo_result) (Some (4, 8)) [] w').1 =
      (None, [x41; x41; x42; x42]).
Proof.
  pose (out := PutCDC demo_hash 4 demo_marshal demo_fastcdc demo_opt demo_schedule demo_world).
  assert (E : option_map fst out = Some (inl demo_result)) by (vm_compute; reflexivity).
  assert (∃ w', out = Some (inl demo_result, w')) as [w' Hput].
  { destruct out as [[r w']|]; cbn in E; [|discriminate E]. injection E as ->. by exists w'. }
  exists w'. split; [exact Hput|].
  assert (Ec : run_contents demo_hash demo_marshal (cdc_options demo_opt) demo_chunks =
    [replicate 6 x41; replicate 4 x42; MagicHeader ++ replicate 8 x43]) by (vm_compute; reflexivity).
  pose proof (cdc_roundtrip demo_hash 4 demo_marshal demo_unmarshal demo_fastcdc demo_opt
    demo_schedule demo_ck demo_chunks demo_world demo_result w') as H. cbv zeta in H. rewrite Ec in H.
  destruct H as (_ & _ & _ & _ & _ & H).
  - reflexivity.
  - intros v f _ [].
  - exact demo_sound.
  - exact demo_addressed.
  - intros m l. unfold demo_marshal, demo_unmarshal. case_decide as Hm; [subst; reflexivity|discriminate].
  - reflexivity.
  - vm_compute. reflexivity.
  - reflexivity.
  - exact demo_loop_ok.
  - exact Hput.
  - destruct (H (Some (4, 8)) [] ltac:(split; unfold is_u64; lia)) as [_ Hr]. exact Hr.
Defined.

Lemma put_cdc_terminates_witness :
  ∃ sched out, ACancel ∉ sched ∧ PutCDC demo_hash 4 demo_marshal demo_fastcdc demo_opt
    ([ASlice; ACancel; ATake 1] ++ sched) demo_world = Some out.
Proof.
  pose (ck := mkChunker demo_cuts 0).
  pose (run := run_actions demo_hash 4 4 [ASlice; ACancel; ATake 1] (start_cdc (cdc_options demo_opt) ck demo_world)).
  assert (E : is_some run = true) by (vm_compute; reflexivity).
  destruct run as [s|] eqn:Er; [|discriminate E].
  destruct (put_cdc_terminates demo_hash 4 demo_marshal demo_fastcdc demo_opt demo_world ck eq_refl
    [ASlice; ACancel; ATake 1] s Er) as (_ & sched & out & H).
  exists sched, out. exact H.
Defined.
