(* ===== verification/Upload.v ===== *)
(** * Uploading through the gateway (cmd/bsos/upload.go)

    [runUpload] hashes and cuts the input on the client, asks the HTTP gateway which objects it has, and
    posts the others, then the manifest.  The gateway is the class [Gateway], one function from a request
    to a status, about which nothing is assumed: it is not in the repository.  [upload_complete]: what an
    upload that reports success has asked and been answered.  [upload_total]: the loop over the chunks
    ends.  [net/url]'s parser, the FastCDC library and protobuf are parameters. *)

From S2P Require Import Prelude Machine Device Layout DirectIO DiskStore Reader Server Serve Client Service.
From S2P Require Import Text Path Config Flag Snapshot ServerService Cdc CdcRun CdcRoundtrip.
From Stdlib Require Import Strings.Byte Ascii.

(** ** Requests *)
Record http_request := mkHttp { rq_method : string; rq_url : string; rq_fid : string; rq_body : list byte }.

Class Gateway (W : Type) := { http_do : http_request → W → res Z * W }.

(** ["0x%016x"] *)
Definition fid_hex (fid : Z) : string := str (chars "0x" ++ hex_encode (rev (le_bytes 8 fid))).

(** [fmt.Sprintf] of a url. *)
Definition url_of (parts : list string) : string := str (concat (chars <$> parts)).

(** [url.QueryEscape]. *)
Definition unreserved (n : Z) : bool :=
  (48 <=? n) && (n <=? 57) || (65 <=? n) && (n <=? 90) || (97 <=? n) && (n <=? 122) ||
  (n =? 45) || (n =? 95) || (n =? 46) || (n =? 126).
Definition QueryEscape (s : string) : string :=
  str (chars s ≫= λ c,
    if unreserved (code c) then [c] else if code c =? 32 then [ascii_of_N 43] else
    [ascii_of_N 37; hex_char (code c / 16); hex_char (code c `mod` 16)]).

(** [strings.TrimRight(s, "/")]. *)
Definition trim_slashes (s : string) : string := str (reverse (strip_slashes (reverse (chars s)))).

(** ** Options *)
Record uploadOptions := mkUploadOpts {
  up_ticket : string; up_gateway : string; up_json : bool; up_atomic : bool; up_cdc : bool; up_timeout : Z
}.
Definition uploadOptions0 : uploadOptions := mkUploadOpts "" "" false false false (600 * 1000000000).

Definition set_ticket (s : string) (o : uploadOptions) : uploadOptions :=
  mkUploadOpts s (up_gateway o) (up_json o) (up_atomic o) (up_cdc o) (up_timeout o).
Definition upload_flags : flag_set uploadOptions := [
  ("ticket", StringVar set_ticket);
  ("u", StringVar set_ticket);
  ("gateway", StringVar (λ s o, mkUploadOpts (up_ticket o) s (up_json o) (up_atomic o) (up_cdc o) (up_timeout o)));
  ("json", BoolVar (λ b o, mkUploadOpts (up_ticket o) (up_gateway o) b (up_atomic o) (up_cdc o) (up_timeout o)));
  ("atomic", BoolVar (λ b o, mkUploadOpts (up_ticket o) (up_gateway o) (up_json o) b (up_cdc o) (up_timeout o)));
  ("cdc", BoolVar (λ b o, mkUploadOpts (up_ticket o) (up_gateway o) (up_json o) (up_atomic o) b (up_timeout o)));
  ("timeout", DurationVar (λ d o, mkUploadOpts (up_ticket o) (up_gateway o) (up_json o) (up_atomic o) (up_cdc o) d))]%string.

(** The environment: two variables, standard input and the file that is named. *)
Record upload_env := mkUploadEnv {
  ue_ticket : string; ue_gateway : string; ue_stdin : res (list byte); ue_file : string → res (list byte)
}.

Definition default_gateway : string := "https://edwins-arsenal-mcp.cambian.art".

(** The gateway and the ticket; [url_parse] gives the scheme, the host and the query's ticket. *)
Definition resolve_target (url_parse : string → res (string * string * string)) (env : upload_env)
    (gatewayURL rawTicket : string) : res (string * string) :=
  '(targetGateway, ticket) ←
    (if HasPrefix rawTicket "http://" || HasPrefix rawTicket "https://" then
       '(scheme, host, ticketParam) ← url_parse rawTicket;
       Ok (String.append scheme (String.append "://" host),
           if bool_decide (ticketParam = EmptyString) then rawTicket else ticketParam)
     else Ok (gatewayURL, rawTicket));
  let targetGateway :=
    if bool_decide (targetGateway = EmptyString) then
      if bool_decide (ue_gateway env = EmptyString) then default_gateway else trim_slashes (ue_gateway env)
    else targetGateway in
  Ok (trim_slashes targetGateway, ticket).

Record UploadResult := mkUploadResult {
  ur_Status : string; ur_FID : string; ur_Size : Z; ur_Instant : bool; ur_ChunksCount : Z; ur_Message : string
}.

Section upload.
Context {W : Type} `{!Gateway W}.
Context (Hash : list byte → Z) (Marshal : FileManifest → res (list byte)).
Context (url_parse : string → res (string * string * string)).

(** ** The calls *)
Definition check_request (targetGateway ticket : string) (fid : Z) : http_request :=
  mkHttp "HEAD" (url_of [targetGateway; "/api/bsos/check/"%string; fid_hex fid; "?ticket="%string; QueryEscape ticket])
    "" [].

Definition checkExists (targetGateway ticket : string) (fid : Z) (w : W) : res bool * W :=
  match http_do (check_request targetGateway ticket fid) w with
  | (Err e, w) => (Err e, w)
  | (Ok status, w) =>
      (if status =? 200 then Ok true else
       if status =? 404 then Ok false else
       if (status =? 401) || (status =? 403) then Err (EMsg "ticket rejected or expired") else
       Ok false, w)
  end.

Definition upload_request (targetGateway ticket : string) (fid : Z) (payload : list byte) (isManifest : bool) :
    http_request :=
  mkHttp "POST" (url_of [targetGateway; "/api/bsos/upload?ticket="%string; QueryEscape ticket; "&fid="%string; fid_hex fid;
      "&size="%string; str (FormatUint (Z.of_nat (length payload)));
      if isManifest then "&manifest=true"%string else EmptyString])
    (fid_hex fid) payload.

Definition uploadPayload (targetGateway ticket : string) (fid : Z) (payload : list byte) (isManifest : bool) (w : W) :
    option error * W :=
  match http_do (upload_request targetGateway ticket fid payload isManifest) w with
  | (Err e, w) => (Some e, w)
  | (Ok status, w) =>
      (if negb (status =? 200) && negb (status =? 201) then Some (EMsg "upload failed") else None, w)
  end.

(** ** The two tracks *)
Definition upload_atomic (targetGateway ticket : string) (data : list byte) (w : W) : Z * option UploadResult * W :=
  let fid := Hash data in
  let size := Z.of_nat (length data) in
  match checkExists targetGateway ticket fid w with
  | (Err _, w) => (1, None, w)
  | (Ok true, w) =>
      (0, Some (mkUploadResult "deduplicated" (fid_hex fid) size true 0
                  "Instant upload (content already exists on BSOS)"), w)
  | (Ok false, w) =>
      match uploadPayload targetGateway ticket fid data false w with
      | (Some _, w) => (1, None, w)
      | (None, w) => (0, Some (mkUploadResult "success" (fid_hex fid) size false 0 ""), w)
      end
  end.

(** The loop over the chunks: the descriptors, or [None] when it fails.  [n] bounds the calls of [Next]. *)
Fixpoint upload_chunks (n : nat) (targetGateway ticket : string) (ck : Chunker) (offset : Z)
    (descs : list ChunkDescriptor) (w : W) : option (option (list ChunkDescriptor) * W) :=
  match n with
  | O => None
  | S n =>
      match Next Hash ck with
      | (Err e, _) => Some (if bool_decide (e = EEOF) then Some descs else None, w)
      | (Ok chunk, ck) =>
          let again w := upload_chunks n targetGateway ticket ck (u64 (offset + ch_Size chunk))
                           (descs ++ [mkDesc (ch_FID chunk) (ch_FID chunk) offset (ch_Size chunk) 0]) w in
          match checkExists targetGateway ticket (ch_FID chunk) w with
          | (Err _, w) => Some (None, w)
          | (Ok true, w) => again w
          | (Ok false, w) =>
              match uploadPayload targetGateway ticket (ch_FID chunk) (ch_Data chunk) false w with
              | (Some _, w) => Some (None, w)
              | (None, w) => again w
              end
          end
      end
  end.

Definition upload_manifest_of (data : list byte) (descs : list ChunkDescriptor) : FileManifest :=
  mkManifest 1 (Z.of_nat (length data)) (Hash data) "" DefaultTargetSize descs.

Definition upload_cdc (fastcdc : Options → res inner) (targetGateway ticket : string) (data : list byte) (w : W) :
    option (Z * option UploadResult * W) :=
  match NewChunker fastcdc (Some (mkOptions DefaultMinSize DefaultTargetSize DefaultMaxSize)) with
  | Err _ => Some (1, None, w)
  | Ok ck =>
      match upload_chunks (S (length (ck_inner ck))) targetGateway ticket ck 0 [] w with
      | None => None
      | Some (None, w) => Some (1, None, w)
      | Some (Some descs, w) =>
          match Encode Marshal (Some (upload_manifest_of data descs)) with
          | Err _ => Some (1, None, w)
          | Ok manifestBytes =>
              let rootFid := Hash manifestBytes in
              match uploadPayload targetGateway ticket rootFid manifestBytes true w with
              | (Some _, w) => Some (1, None, w)
              | (None, w) =>
                  Some (0, Some (mkUploadResult "success" (fid_hex rootFid) (Z.of_nat (length data)) false
                                   (Z.of_nat (length descs)) ""), w)
              end
          end
      end
  end.

Definition raw_ticket (env : upload_env) (opts : uploadOptions) : string :=
  let rawTicket := TrimSpace (up_ticket opts) in
  if bool_decide (rawTicket = EmptyString) then ue_ticket env else rawTicket.

Definition upload_input (env : upload_env) (rest : list string) : res (list byte) :=
  match rest with
  | [] => ue_stdin env
  | filePath :: _ => if bool_decide (filePath = "-"%string) then ue_stdin env else ue_file env filePath
  end.

Definition goes_atomic (opts : uploadOptions) (data : list byte) : bool :=
  negb (up_cdc opts) && (Z.of_nat (length data) <=? 16777216) || up_atomic opts.

(** The exit code and what is printed; [fastcdc] is the library on the input. *)
Definition runUpload (fastcdc : list byte → Options → res inner) (env : upload_env) (args : list string) (w : W) :
    option (Z * option UploadResult * W) :=
  match Parse upload_flags args uploadOptions0 with
  | Err e => Some (if bool_decide (e = ErrHelp) then 0 else 2, None, w)
  | Ok (opts, rest) =>
      let rawTicket := raw_ticket env opts in
      if bool_decide (rawTicket = EmptyString) then Some (2, None, w) else
      match resolve_target url_parse env (up_gateway opts) rawTicket with
      | Err _ => Some (2, None, w)
      | Ok (targetGateway, ticket) =>
          match upload_input env rest with
          | Err _ => Some (1, None, w)
          | Ok inputData =>
              if goes_atomic opts inputData then Some (upload_atomic targetGateway ticket inputData w)
              else upload_cdc (fastcdc inputData) targetGateway ticket inputData w
          end
      end
  end.
End upload.

(** ** The loop ends *)
Section outcome.
Context {W : Type} `{!Gateway W}.
Context (Hash : list byte → Z).

Lemma Next_Ok ck c ck' :
  Next Hash ck = (Ok c, ck') →
  ch_FID c = Hash (ch_Data c) ∧ ch_Offset c = ck_offset ck ∧ ck_offset ck' = u64 (ck_offset ck + ch_Size c).
Proof. unfold Next. intros H. repeat (case_match; simplify_eq/=); done. Qed.

Lemma upload_chunks_total n gw t ck off descs (w : W) :
  (length (ck_inner ck) < n)%nat → upload_chunks Hash n gw t ck off descs w ≠ None.
Proof.
  revert ck off descs w. induction n as [|n IH]; intros ck off descs w Hn; [lia|]. cbn [upload_chunks].
  destruct (Next Hash ck) as [[c|e] ck'] eqn:En; [|done].
  pose proof (Next_inner Hash ck c ck' En) as Hi.
  destruct (checkExists gw t (ch_FID c) w) as [[[]|e] w1]; [apply IH; lia| |done].
  destruct (uploadPayload gw t (ch_FID c) (ch_Data c) false w1) as [[e|] w2]; [done|apply IH; lia].
Qed.
End outcome.

(** An upload always ends, whatever the arguments, the answers of the gateway and the way the library
    cuts the input. *)
Theorem upload_total {W} `{!Gateway W} Hash Marshal url_parse fastcdc env args (w : W) :
  runUpload Hash Marshal url_parse fastcdc env args w ≠ None.
Proof.
  unfold runUpload. destruct (Parse _ _ _) as [[opts rest]|]; [|done]. cbv zeta. case_bool_decide; [done|].
  destruct (resolve_target _ _ _ _) as [[gw t]|]; [|done].
  destruct (upload_input env rest) as [data|]; [|done].
  destruct (goes_atomic opts data); [done|]. unfold upload_cdc.
  destruct (NewChunker _ _) as [ck|]; [|done].
  pose proof (upload_chunks_total Hash (S (length (ck_inner ck))) gw t ck 0 [] w ltac:(lia)) as Hlaw.
  destruct (upload_chunks _ _ _ _ _ _ _ w) as [[[descs|] w1]|]; [|done|done].
  destruct (Encode _ _) as [mb|]; [|done]. by destruct (uploadPayload _ _ _ _ _ _) as [[e|] w2].
Qed.

(** ** What a successful upload has been told *)

(** The requests made from a state of the gateway, with their answers. *)
Inductive exchanges {W} `{!Gateway W} : W → list (http_request * res Z) → W → Prop :=
  | ex_nil w : exchanges w [] w
  | ex_cons w rq r w1 tr w2 : http_do rq w = (r, w1) → exchanges w1 tr w2 → exchanges w ((rq, r) :: tr) w2.

Definition acknowledged (r : res Z) : bool := match r with Ok s => (s =? 200) || (s =? 201) | Err _ => false end.

(** The gateway has the object: it says so, or it has acknowledged the bytes. *)
Inductive confirmed_by (gw t : string) (fid : Z) (payload : list byte) : list (http_request * res Z) → Prop :=
  | by_check : confirmed_by gw t fid payload [(check_request gw t fid, Ok 200)]
  | by_upload s r : s ≠ 200 ∧ s ≠ 401 ∧ s ≠ 403 → acknowledged r = true →
      confirmed_by gw t fid payload [(check_request gw t fid, Ok s); (upload_request gw t fid payload false, r)].

(** The descriptor an upload lists: the chunk is its own target, without jumps. *)
Definition upload_desc (c : Chunk) : ChunkDescriptor := mkDesc (ch_FID c) (ch_FID c) (ch_Offset c) (ch_Size c) 0.

Section exchanges.
Context {W : Type} `{!Gateway W} (Hash : list byte → Z).

Lemma exchanges_app (w : W) tr1 w1 tr2 w2 :
  exchanges w tr1 w1 → exchanges w1 tr2 w2 → exchanges w (tr1 ++ tr2) w2.
Proof. induction 1 as [|w rq r w1 tr w' H _ IH]; [done|]. intros H2. econstructor; [exact H|]. by apply IH. Qed.

Lemma checkExists_exchange gw t fid (w : W) b w' :
  checkExists gw t fid w = (Ok b, w') →
  ∃ s, exchanges w [(check_request gw t fid, Ok s)] w' ∧ if b : bool then s = 200 else s ≠ 200 ∧ s ≠ 401 ∧ s ≠ 403.
Proof.
  unfold checkExists. destruct (http_do _ w) as [[s|e] w1] eqn:E; [|done]. intros [= Es <-]. exists s.
  split; [econstructor; [exact E|constructor]|].
  destruct (Z.eqb_spec s 200); [by injection Es as <-|]. destruct (Z.eqb_spec s 404).
  - injection Es as <-. lia.
  - destruct (Z.eqb_spec s 401), (Z.eqb_spec s 403); cbn in Es; try done. injection Es as <-. lia.
Qed.

Lemma uploadPayload_exchange gw t fid payload m (w : W) w' :
  uploadPayload gw t fid payload m w = (None, w') →
  ∃ r, exchanges w [(upload_request gw t fid payload m, r)] w' ∧ acknowledged r = true.
Proof.
  unfold uploadPayload. destruct (http_do _ w) as [[s|e] w1] eqn:E; [|done]. intros [= Es <-]. exists (Ok s).
  split; [econstructor; [exact E|constructor]|]. cbn. by destruct (s =? 200), (s =? 201).
Qed.

Lemma upload_chunks_exchanges n gw t ck off descs (w : W) out w' :
  ck_offset ck = off → upload_chunks Hash n gw t ck off descs w = Some (Some out, w') →
  ∃ cs trs, cut Hash (ck_inner ck) off = (cs, EEOF) ∧ out = descs ++ (upload_desc <$> cs) ∧
    Forall2 (λ c tr, confirmed_by gw t (ch_FID c) (ch_Data c) tr) cs trs ∧ exchanges w (concat trs) w'.
Proof.
  revert ck off descs w. induction n as [|n IH]; intros ck off descs w Hoff E; [done|].
  cbn [upload_chunks] in E. pose proof (Next_cut Hash ck) as Hcut. rewrite Hoff in Hcut.
  destruct (Next Hash ck) as [[c|e] ck'] eqn:En.
  2: { case_bool_decide; [|done]. injection E as <- <-. subst e. exists [], [].
       rewrite Hcut, app_nil_r. split_and!; constructor. }
  destruct (Next_Ok _ _ _ _ En) as (Hfid & Hco & Hck'). rewrite Hoff in Hco, Hck'.
  assert (Hgo : ∀ w1 tr, confirmed_by gw t (ch_FID c) (ch_Data c) tr → exchanges w tr w1 →
    upload_chunks Hash n gw t ck' (u64 (off + ch_Size c))
      (descs ++ [mkDesc (ch_FID c) (ch_FID c) off (ch_Size c) 0]) w1 = Some (Some out, w') →
    ∃ cs trs, cut Hash (ck_inner ck) off = (cs, EEOF) ∧ out = descs ++ (upload_desc <$> cs) ∧
      Forall2 (λ c tr, confirmed_by gw t (ch_FID c) (ch_Data c) tr) cs trs ∧ exchanges w (concat trs) w').
  { intros w1 tr Htr Hx E1. apply IH in E1 as (cs & trs & Ec & -> & Hf & Hx'); [|done].
    exists (c :: cs), (tr :: trs). rewrite Hcut, Hck', Ec. split_and!; [done| |by constructor|].
    - rewrite fmap_cons, <- app_assoc. unfold upload_desc at 2. by rewrite Hco.
    - by eapply exchanges_app. }
  destruct (checkExists gw t (ch_FID c) w) as [[b|e] w1] eqn:Ech; [|done].
  apply checkExists_exchange in Ech as (s & Hx & Hs). destruct b.
  - subst s. by eapply Hgo; [constructor|exact Hx|].
  - destruct (uploadPayload _ _ _ _ _ w1) as [[e|] w2] eqn:Eu; [done|].
    apply uploadPayload_exchange in Eu as (r & Hx2 & Hr).
    eapply Hgo; [by eapply by_upload| |exact E]. by eapply (exchanges_app _ [_] _ [_]).
Qed.

Lemma upload_atomic_exchanges gw t data (w : W) code r w' :
  upload_atomic Hash gw t data w = (code, Some r, w') →
  ∃ tr, exchanges w tr w' ∧ confirmed_by gw t (Hash data) data tr ∧ ur_FID r = fid_hex (Hash data).
Proof.
  unfold upload_atomic. destruct (checkExists _ _ _ w) as [[[]|e] w1] eqn:Ech; [| |done];
    apply checkExists_exchange in Ech as (s & Hx & Hs).
  - intros [= <- <- <-]. subst s. by eexists; split_and!; [exact Hx|constructor|].
  - destruct (uploadPayload _ _ _ _ _ w1) as [[e|] w2] eqn:Eu; [done|]. intros [= <- <- <-].
    apply uploadPayload_exchange in Eu as (a & Hx2 & Ha).
    exists [(check_request gw t (Hash data), Ok s); (upload_request gw t (Hash data) data false, a)].
    split_and!; [by eapply (exchanges_app _ [_] _ [_])|by eapply by_upload|done].
Qed.
End exchanges.

(** What the manifest of an upload is for a reader: any pool that holds the manifest and the chunks gives
    the input back. *)
Lemma upload_manifest_readable {V} `{!BSOSClient V} `{!PoolService V} Hash Marshal Unmarshal data cs mb (p : V) :
  (∀ m l, Marshal m = Ok l → Unmarshal l = Ok m) → Z.of_nat (length data) < 2 ^ 64 → data_of cs = data →
  consecutive Hash 0 cs → Encode Marshal (Some (upload_manifest_of Hash data (upload_desc <$> cs))) = Ok mb →
  svc_ok p → store_of p (Hash mb) = Some mb → (∀ c, c ∈ cs → store_of p (ch_FID c) = Some (ch_Data c)) →
  ∀ optRange x, range_u64 optRange →
    (GetAuto Unmarshal buffer_write (Hash mb) optRange x p).1 = (None, x ++ cdc_slice optRange data).
Proof.
  intros Hmu Hlen <- Hcs Em Hok Hs Hst optRange x Hr.
  destruct (Encode_Decode Marshal Unmarshal (upload_manifest_of Hash (data_of cs) (upload_desc <$> cs)) mb Hmu eq_refl Em)
    as (Hdec & l & _ & Hmb).
  rewrite Hmb in Hs at 2. destruct (GetAuto_manifest Unmarshal _ l optRange x p Hok Hs) as (w3 & Hok3 & Hs3 & ->).
  pose proof (GetCDC_outcome Hash Unmarshal upload_desc (Hash mb) mb _ cs optRange x w3 ltac:(done) Hok3
    ltac:(by rewrite Hs3, Hs, Hmb) Hdec Hcs eq_refl eq_refl Hlen ltac:(intros c Hc; rewrite Hs3; by apply Hst) Hr) as Hget.
  destruct (GetCDC _ _ _ _ _ w3) as [[err y] w4]. by destruct Hget as (-> & -> & _).
Qed.

(** C9: what [bsos upload] has done when it exits with 0 and prints a fid, whatever gateway it talks to.
    On the atomic track it has asked for the hash of the input, and was either told 200, or posted the
    whole input under that fid and was answered 200 or 201; the fid is that hash.  On the other track it
    has done the same for every chunk in the order of the input, and then posted one manifest, answered
    200 or 201, whose fid it prints; the chunks are consecutive and together the input, and the manifest
    lists each with its fid as its target, no jumps, its offset and its size.  Nothing else was sent.  Any
    pool that has come to hold the manifest and the chunks under their fids gives a client that reads the
    printed fid any range of the input.  The library is assumed to cut the input into pieces that together
    are the input, and the protobuf decoder to invert the encoder. *)
Theorem upload_complete {W} `{!Gateway W} {V} `{!BSOSClient V} `{!PoolService V}
    Hash Marshal Unmarshal url_parse fastcdc env args opts rest gw t data (w : W) r w' :
  (∀ m l, Marshal m = Ok l → Unmarshal l = Ok m) → Z.of_nat (length data) < 2 ^ 64 →
  (∀ o i cs, fastcdc data o = Ok i → cut Hash i 0 = (cs, EEOF) → data_of cs = data) →
  Parse upload_flags args uploadOptions0 = Ok (opts, rest) → upload_input env rest = Ok data →
  resolve_target url_parse env (up_gateway opts) (raw_ticket env opts) = Ok (gw, t) →
  runUpload Hash Marshal url_parse fastcdc env args w = Some (0, Some r, w') →
  ∃ tr, exchanges w tr w' ∧
  if goes_atomic opts data then confirmed_by gw t (Hash data) data tr ∧ ur_FID r = fid_hex (Hash data)
  else ∃ cs trs mb ack,
    data_of cs = data ∧ consecutive Hash 0 cs ∧
    Forall2 (λ c tr, confirmed_by gw t (ch_FID c) (ch_Data c) tr) cs trs ∧
    Encode Marshal (Some (upload_manifest_of Hash data (upload_desc <$> cs))) = Ok mb ∧
    tr = concat trs ++ [(upload_request gw t (Hash mb) mb true, ack)] ∧ acknowledged ack = true ∧
    ur_FID r = fid_hex (Hash mb) ∧ ur_ChunksCount r = Z.of_nat (length cs) ∧
    ∀ p : V, svc_ok p → store_of p (Hash mb) = Some mb →
      (∀ c, c ∈ cs → store_of p (ch_FID c) = Some (ch_Data c)) → ∀ optRange x, range_u64 optRange →
      (GetAuto Unmarshal buffer_write (Hash mb) optRange x p).1 = (None, x ++ cdc_slice optRange data).
Proof.
  intros Hmu Hlen Hcut Hp Hin Ht. unfold runUpload. rewrite Hp, Ht, Hin. cbv zeta.
  case_bool_decide; [done|]. destruct (goes_atomic opts data); intros E.
  { injection E as E. apply upload_atomic_exchanges in E as (tr & ? & ? & ?). by exists tr. }
  unfold upload_cdc in E. destruct (NewChunker _ _) as [ck|] eqn:Ek; [|done].
  unfold NewChunker in Ek. destruct (chunker_options _) as [o|]; [|done]. cbn in Ek.
  destruct (fastcdc data o) as [i|] eqn:Ei; [|done]. injection Ek as <-. cbn [ck_inner] in E.
  destruct (upload_chunks _ _ _ _ _ _ _ w) as [[[descs|] w1]|] eqn:Ec; [|done..].
  apply upload_chunks_exchanges in Ec as (cs & trs & Ecs & -> & Hf & Hx); [|done]. cbn [ck_inner app] in *.
  specialize (Hcut o i cs Ei Ecs).
  assert (Hcs : consecutive Hash 0 cs) by (eapply cut_consecutive; [exact Ecs|lia|rewrite Hcut; lia]).
  destruct (Encode Marshal _) as [mb|] eqn:Em; [|done].
  destruct (uploadPayload _ _ _ mb true w1) as [[e|] w2] eqn:Eu; [done|]. injection E as <- <-.
  apply uploadPayload_exchange in Eu as (ack & Hx2 & Hack). eexists. split; [by eapply exchanges_app|].
  exists cs, trs, mb, ack. split_and!; try done.
  - cbn. by rewrite length_fmap.
  - intros p Hok Hs Hst. by eapply upload_manifest_readable.
Qed.

(** *** The printed fid *)
Lemma fid_hex_chars fid : chars (fid_hex fid) = chars "0x" ++ hex_encode (rev (le_bytes 8 fid)).
Proof. apply chars_str. Qed.

(** *** An upload in two chunks

    To a gateway that has nothing and takes everything; its state is the list of the requests. *)
Definition demo_upload_env : upload_env :=
  mkUploadEnv "" "http://gw/" (Ok (replicate 6 x41 ++ replicate 4 x42)) (λ _, Err ErrNotExist).
Definition demo_upload_manifest : FileManifest :=
  mkManifest 1 10 11 "" DefaultTargetSize [mkDesc 7 7 0 6 0; mkDesc 5 5 6 4 0].
Definition demo_upload_marshal (m : FileManifest) : res (list byte) :=
  if decide (m = demo_upload_manifest) then Ok (replicate 8 x43) else Err (EMsg "other").
Definition demo_upload_unmarshal (_ : list byte) : res FileManifest := Ok demo_upload_manifest.
Definition demo_gateway : Gateway (list http_request) :=
  {| http_do rq w := (Ok (if bool_decide (rq_method rq = "HEAD"%string) then 404 else 201), w ++ [rq]) |}.
Definition demo_upload : option (Z * option UploadResult * list http_request) :=
  runUpload (Gateway0 := demo_gateway) demo_hash demo_upload_marshal (λ _, Err syntax_error) (λ _, demo_fastcdc)
    demo_upload_env ["--cdc"; "-u=T"; "-"]%string [].
Definition demo_uploaded : UploadResult :=
  mkUploadResult "success" "0x000000000000000e" 10 false 2 "".

Example demo_upload_requests :
  option_map (λ out, map rq_method out.2) demo_upload = Some ["HEAD"; "POST"; "HEAD"; "POST"; "POST"]%string.
Proof. vm_compute. reflexivity. Qed.

Lemma upload_complete_witness :
  ∃ w', demo_upload = Some (0, Some demo_uploaded, w') ∧
    ∃ cs mb, data_of cs = replicate 6 x41 ++ replicate 4 x42 ∧ ur_FID demo_uploaded = fid_hex (demo_hash mb) ∧
      Encode demo_upload_marshal (Some (upload_manifest_of demo_hash (data_of cs) (upload_desc <$> cs))) = Ok mb.
Proof.
  assert (E : option_map fst demo_upload = Some (0, Some demo_uploaded)) by (vm_compute; reflexivity).
  destruct demo_upload as [[[code r] w']|] eqn:Eu; cbn in E; [|discriminate E]. injection E as -> ->.
  exists w'. split; [reflexivity|].
  destruct (upload_complete (Gateway0 := demo_gateway) (V := loopback)
    demo_hash demo_upload_marshal demo_upload_unmarshal (λ _, Err syntax_error) (λ _, demo_fastcdc)
    demo_upload_env ["--cdc"; "-u=T"; "-"]%string (mkUploadOpts "T" "" false false true (600 * 1000000000)) ["-"%string]
    "http://gw" "T" (replicate 6 x41 ++ replicate 4 x42) [] demo_uploaded w')
    as (tr & _ & cs & trs & mb & ack & Hd & _ & _ & Hm & _ & _ & Hf & _).
  - intros m l. unfold demo_upload_marshal, demo_upload_unmarshal. case_decide as Hm; [subst; reflexivity|discriminate].
  - reflexivity.
  - intros o i cs [= <-] Ec. vm_compute in Ec. injection Ec as <-. reflexivity.
  - reflexivity.
  - reflexivity.
  - reflexivity.
  - exact Eu.
  - exists cs, mb. split; [exact Hd|]. split; [exact Hf|]. rewrite Hd. exact Hm.
Defined.
