(* ===== verification/Cli.v ===== *)
(** * The client commands of bsos (cmd/bsos/ops.go and main.go)

    [put], [get], [head], [bonnie], [health] and [manifest inspect] over the Go client, from their
    arguments to the exit code and what is printed, and the dispatch of [main].  What is printed is a value,
    not its text; [dial] is [client.New], and the deadlines of the contexts are part of the service.
    [put_get_commands]: what [bsos put] reports stored, [bsos get] with the printed fid writes out. *)

From S2P Require Import Prelude Machine Device Layout DirectIO DiskStore Reader Server Serve Client Service.
From S2P Require Import Text Path Config Flag Find Snapshot ServerService Cdc CdcRun CdcRoundtrip Upload.
From Stdlib Require Import Strings.Byte Ascii.

Definition defaultAddr (env_addr : string) : string :=
  if bool_decide (env_addr = EmptyString) then "127.0.0.1:9090" else env_addr.

(** ** [put] *)
Record putOptions := mkPut {
  po_addr : string; po_json : bool; po_noJump : bool; po_maxJumps : Z; po_atomic : bool; po_cdc : bool;
  po_workers : Z; po_minChunk : Z; po_targetChunk : Z; po_maxChunk : Z; po_timeout : Z
}.
Definition putOptions0 (env_addr : string) : putOptions :=
  mkPut (defaultAddr env_addr) false false MaxJumpCode false false 8 DefaultMinSize DefaultTargetSize DefaultMaxSize
    (600 * 1000000000).

Definition put_flags : flag_set putOptions := [
  ("addr", StringVar (λ x '(mkPut a j n m at_ c w mi ta ma ti), mkPut x j n m at_ c w mi ta ma ti));
  ("json", BoolVar (λ x '(mkPut a j n m at_ c w mi ta ma ti), mkPut a x n m at_ c w mi ta ma ti));
  ("no-jump", BoolVar (λ x '(mkPut a j n m at_ c w mi ta ma ti), mkPut a j x m at_ c w mi ta ma ti));
  ("max-jumps", IntVar (λ x '(mkPut a j n m at_ c w mi ta ma ti), mkPut a j n x at_ c w mi ta ma ti));
  ("atomic", BoolVar (λ x '(mkPut a j n m at_ c w mi ta ma ti), mkPut a j n m x c w mi ta ma ti));
  ("cdc", BoolVar (λ x '(mkPut a j n m at_ c w mi ta ma ti), mkPut a j n m at_ x w mi ta ma ti));
  ("workers", IntVar (λ x '(mkPut a j n m at_ c w mi ta ma ti), mkPut a j n m at_ c x mi ta ma ti));
  ("min-chunk", IntVar (λ x '(mkPut a j n m at_ c w mi ta ma ti), mkPut a j n m at_ c w x ta ma ti));
  ("target-chunk", IntVar (λ x '(mkPut a j n m at_ c w mi ta ma ti), mkPut a j n m at_ c w mi x ma ti));
  ("max-chunk", IntVar (λ x '(mkPut a j n m at_ c w mi ta ma ti), mkPut a j n m at_ c w mi ta x ti));
  ("timeout", DurationVar (λ x '(mkPut a j n m at_ c w mi ta ma ti), mkPut a j n m at_ c w mi ta ma x))]%string.

(** What a [put] prints: the result of one of the two tracks, as JSON or not. *)
Inductive put_printed :=
  | PrintedCDC (json : bool) (r : CDCResult)
  | PrintedAtomic (json : bool) (j : JumpResult) (totalSize : Z).

(** The fid a reader is given. *)
Definition printed_fid (p : put_printed) : Z :=
  match p with PrintedCDC _ r => r_ManifestFID r | PrintedAtomic _ j _ => j_FID j end.

(** The exit code of a usage error. *)
Definition usage_code (e : error) : Z := if bool_decide (e = ErrHelp) then 0 else 2.

Record getOptions := mkGet { go_addr : string; go_range : string; go_timeout : Z }.
Definition getOptions0 (env_addr : string) : getOptions := mkGet (defaultAddr env_addr) "" (300 * 1000000000).
Definition get_flags : flag_set getOptions := [
  ("addr", StringVar (λ x o, mkGet x (go_range o) (go_timeout o)));
  ("range", StringVar (λ x o, mkGet (go_addr o) x (go_timeout o)));
  ("timeout", DurationVar (λ x o, mkGet (go_addr o) (go_range o) x))]%string.

(** [-range start-end] *)
Definition parse_range (rangeStr : string) : res (option (Z * Z)) :=
  if bool_decide (rangeStr = EmptyString) then Ok None else
  match Split rangeStr 45 with
  | [a; b] =>
      start_ ← ParseUint (TrimSpace a) 10;
      end_ ← (if bool_decide (TrimSpace b = EmptyString) then Ok 0 else ParseUint (TrimSpace b) 10);
      Ok (Some (start_, end_))
  | _ => Err (EMsg "invalid range format")
  end.

(** [head], [bonnie], [health] and [manifest inspect]: the address, a switch and the timeout. *)
Record askOptions := mkAsk { ao_addr : string; ao_switch : bool; ao_timeout : Z }.
Definition askOptions0 (env_addr : string) (seconds : Z) : askOptions :=
  mkAsk (defaultAddr env_addr) false (seconds * 1000000000).
Definition ask_flags (switch : string) : flag_set askOptions := [
  ("addr"%string, StringVar (λ x o, mkAsk x (ao_switch o) (ao_timeout o)));
  (switch, BoolVar (λ x o, mkAsk (ao_addr o) x (ao_timeout o)));
  ("timeout"%string, DurationVar (λ x o, mkAsk (ao_addr o) (ao_switch o) x))].

(** [uint64(1) << p] *)
Definition pow2 (p : Z) : Z := if 64 <=? p then 0 else 2 ^ p.

Section commands.
Context {W : Type} `{!BSOSClient W}.
Context (Hash : list byte → Z) (chunkSize : Z).
Context (Marshal : FileManifest → res (list byte)) (Unmarshal : list byte → res FileManifest).
Context (dial : string → option error) (env_addr : string).

Definition put_cdc_opts (o : putOptions) : CDCOptions :=
  mkCDC (po_workers o) (po_minChunk o) (po_targetChunk o) (po_maxChunk o) "".

Definition too_large (o : putOptions) (totalSize : Z) : bool := po_atomic o && (MaxAtomicPayloadSize <? totalSize).
Definition use_cdc (o : putOptions) (totalSize : Z) : bool :=
  po_cdc o || (negb (po_atomic o) && (MaxAtomicPayloadSize <? totalSize)).

(** The end of the chunked track. *)
Definition print_cdc (o : putOptions) (out : option ((CDCResult + cerror) * W)) : option (Z * option put_printed * W) :=
  match out with
  | None => None
  | Some (inr _, w) => Some (1, None, w)
  | Some (inl r, w) => Some (0, Some (PrintedCDC (po_json o) r), w)
  end.

(** The end of the other one. *)
Definition print_put (o : putOptions) (totalSize : Z) (out : (Z * option cerror) * W) : Z * option put_printed * W :=
  match out with
  | ((_, Some _), w) => (1, None, w)
  | ((fid, None), w) => (0, Some (PrintedAtomic (po_json o) (mkJump fid fid 0 false) totalSize), w)
  end.
Definition print_jump (o : putOptions) (totalSize : Z) (out : (JumpResult * option cerror) * W) : Z * option put_printed * W :=
  match out with
  | ((_, Some _), w) => (1, None, w)
  | ((j, None), w) => (0, Some (PrintedAtomic (po_json o) j totalSize), w)
  end.

(** [bsos put file]; [fastcdc] is the library on what is read, [sched] the interleaving. *)
Definition put_file (o : putOptions) (lf : local_file) (name : string)
    (fastcdc : list byte * error → Options → res inner) (sched : list action) (w : W) :
    option (Z * option put_printed * W) :=
  match lf_stat lf with
  | Err _ => Some (1, None, w)
  | Ok (size, isDir) =>
      if isDir : bool then Some (1, None, w) else
      if size =? 0 then Some (1, None, w) else
      if too_large o size then Some (1, None, w) else
      if use_cdc o size then
        print_cdc o (PutFileCDC Hash chunkSize Marshal lf name fastcdc (Some (put_cdc_opts o)) sched w)
      else if po_noJump o then Some (print_put o size (PutFile Hash chunkSize lf w))
      else Some (print_jump o size (PutFileWithJumpRetry Hash chunkSize lf (Some (po_maxJumps o)) w))
  end.

(** [bsos put -] *)
Definition put_stdin (o : putOptions) (stdin : res (list byte))
    (fastcdc : list byte * error → Options → res inner) (sched : list action) (w : W) :
    option (Z * option put_printed * W) :=
  match stdin with
  | Err _ => Some (1, None, w)
  | Ok data =>
      let totalSize := Z.of_nat (length data) in
      if totalSize =? 0 then Some (1, None, w) else
      if too_large o totalSize then Some (1, None, w) else
      if use_cdc o totalSize then
        print_cdc o (PutCDC Hash chunkSize Marshal (fastcdc (data, EEOF)) (Some (put_cdc_opts o)) sched w)
      else if po_noJump o then Some (print_put o totalSize (PutBytes Hash chunkSize data w))
      else Some (print_jump o totalSize (PutWithJumpRetry Hash chunkSize data (Some (po_maxJumps o)) w))
  end.

(** [file] is the file of a path, with the base name [PutFileCDC] records. *)
Definition runPut (file : string → local_file) (stdin : res (list byte))
    (fastcdc : list byte * error → Options → res inner) (sched : list action) (args : list string) (w : W) :
    option (Z * option put_printed * W) :=
  match Parse put_flags args (putOptions0 env_addr) with
  | Err e => Some (usage_code e, None, w)
  | Ok (o, rest) =>
      if po_atomic o && po_cdc o then Some (2, None, w) else
      match dial (po_addr o) with
      | Some _ => Some (1, None, w)
      | None =>
          match rest with
          | filePath :: _ =>
              if bool_decide (filePath = "-"%string) then put_stdin o stdin fastcdc sched w
              else put_file o (file filePath) (Base filePath) fastcdc sched w
          | [] => put_stdin o stdin fastcdc sched w
          end
      end
  end.

(** ** [get] *)

(** Standard output, or the file that [create] truncates; [Write] writes to either. *)
Definition runGet {X : Type} (create : string → option error) (Write : option string → list byte → X → (Z * option error) * X)
    (args : list string) (x : X) (w : W) : Z * X * W :=
  match Parse get_flags args (getOptions0 env_addr) with
  | Err e => (usage_code e, x, w)
  | Ok (o, []) => (2, x, w)
  | Ok (o, fidStr :: rest) =>
      match ParseUint fidStr 0 with
      | Err _ => (2, x, w)
      | Ok fid =>
          match parse_range (go_range o) with
          | Err _ => (2, x, w)
          | Ok optRange =>
              let out := match rest with
                         | path :: _ => if bool_decide (path = "-"%string) then None else Some path
                         | [] => None
                         end in
              match (match out with Some path => create path | None => None end) with
              | Some _ => (1, x, w)
              | None =>
                  match dial (go_addr o) with
                  | Some _ => (1, x, w)
                  | None =>
                      match GetAuto Unmarshal (Write out) fid optRange x w with
                      | (Some _, x, w) => (1, x, w)
                      | (None, x, w) => (0, x, w)
                      end
                  end
              end
          end
      end
  end.

(** ** The questions *)

(** The common course: flags, address, call. *)
Definition ask {A : Type} (switch : string) (seconds : Z) (args : list string)
    (call : askOptions → list string → W → Z * option A * W) (w : W) : Z * option A * W :=
  match Parse (ask_flags switch) args (askOptions0 env_addr seconds) with
  | Err e => (usage_code e, None, w)
  | Ok (o, rest) => call o rest w
  end.

Definition with_fid {A : Type} (o : askOptions) (rest : list string) (w : W)
    (call : Z → W → Z * option A * W) : Z * option A * W :=
  match rest with
  | [] => (2, None, w)
  | fidStr :: _ =>
      match ParseUint fidStr 0 with
      | Err _ => (2, None, w)
      | Ok fid => match dial (ao_addr o) with Some _ => (1, None, w) | None => call fid w end
      end
  end.

Definition answer {A B : Type} (f : A → Z * option B) (out : (A + cerror) * W) : Z * option B * W :=
  match out with
  | (inr _, w) => (1, None, w)
  | (inl a, w) => (f a, w)
  end.

(** The fid and the size. *)
Definition runHead (args : list string) (w : W) : Z * option (Z * Z) * W :=
  ask "json" 10 args (λ o rest w, with_fid o rest w (λ fid w,
    answer (λ size, (0, Some (fid, size))) (Client.Head fid w))) w.

(** The power and the bytes. *)
Definition runBonnie (args : list string) (w : W) : Z * option (Z * Z) * W :=
  ask "json" 10 args (λ o _ w,
    match dial (ao_addr o) with
    | Some _ => (1, None, w)
    | None => answer (λ p, (0, Some (p, pow2 p))) (Client.Bonnie w)
    end) w.

(** Whether "OK" or "DEGRADED" is printed, unless quiet. *)
Definition runHealth (args : list string) (w : W) : Z * option bool * W :=
  ask "quiet" 5 args (λ o _ w,
    match dial (ao_addr o) with
    | Some _ => (1, None, w)
    | None => answer (λ ok : bool, (if ok then 0 else 1, if ao_switch o then None else Some ok)) (Client.Health w)
    end) w.

Definition runManifestInspect (args : list string) (w : W) : Z * option (Z * FileManifest) * W :=
  ask "json" 10 args (λ o rest w, with_fid o rest w (λ fid w,
    answer (λ m, (0, Some (fid, m))) (InspectManifest Unmarshal fid w))) w.

Definition is_help (s : string) : bool := bool_decide (s ∈ ["-h"; "--help"; "help"]%string).

Definition runManifest (args : list string) (w : W) : Z * option (Z * FileManifest) * W :=
  match args with
  | [] => (2, None, w)
  | a :: rest =>
      if bool_decide (a = "inspect"%string) then runManifestInspect rest w
      else (if is_help a then 0 else 2, None, w)
  end.
End commands.

(** ** [main]

    The command to run with the rest of the arguments, or the exit code. *)
Inductive command := Upload | Put | Get | Manifest | Head | Bonnie | Health
  | BlkInit | BlkFind | BlkInfo | BlkIndexBackup | BlkIndexRestore | BlkIndexCompact | BlkPackedScrub
  | ZramCreate | ZramFlush | ZramLoad.

Fixpoint find_command (names : list (string * command)) (a : string) : option command :=
  match names with
  | [] => None
  | (n, c) :: names => if bool_decide (a = n) then Some c else find_command names a
  end.

Definition dispatch (names : list (string * command)) (args : list string) : command * list string + Z :=
  match args with
  | [] => inr 2
  | a :: rest =>
      match find_command names a with
      | Some c => inl (c, rest)
      | None => inr (if is_help a then 0 else 2)
      end
  end.

Definition runZram : list string → command * list string + Z :=
  dispatch [("create", ZramCreate); ("flush", ZramFlush); ("load", ZramLoad)]%string.
Definition runBlk : list string → command * list string + Z :=
  dispatch [("init", BlkInit); ("find", BlkFind); ("info", BlkInfo); ("index-backup", BlkIndexBackup);
            ("index-restore", BlkIndexRestore); ("index-compact", BlkIndexCompact); ("packed-scrub", BlkPackedScrub)]%string.

(** [os.Args] after the program's name. *)
Definition bsos_main (args : list string) : command * list string + Z :=
  match args with
  | a :: rest =>
      if bool_decide (a = "blk"%string) then runBlk rest
      else if bool_decide (a = "zram"%string) then runZram rest
      else dispatch [("upload", Upload); ("put", Put); ("get", Get); ("manifest", Manifest); ("head", Head);
                     ("bonnie", Bonnie); ("health", Health)]%string args
  | [] => inr 2
  end.

(** ** The printed fid *)
Lemma nibble_char_digit d :
  0 ≤ d < 16 → digit_val (nibble_char d) = Some d ∧ code (nibble_char d) ≠ 95.
Proof.
  intros Hd. assert (H : d ∈ seqZ 0 16) by (apply elem_of_seqZ; lia). revert d Hd H.
  assert (Hall : Forall (λ d, digit_val (nibble_char d) = Some d ∧ code (nibble_char d) ≠ 95) (seqZ 0 16)).
  { repeat (constructor; [split; by vm_compute|]). constructor. }
  intros d _ H. rewrite Forall_forall in Hall. by apply Hall.
Qed.

Lemma le_val_app l1 l2 : le_val (l1 ++ l2) = le_val l1 + 256 ^ Z.of_nat (length l1) * le_val l2.
Proof.
  induction l1 as [|b l1 IH]; [cbn; lia|]. cbn [app le_val length]. rewrite IH, Nat2Z.inj_succ, Z.pow_succ_r by lia. lia.
Qed.

Lemma parse_hex_encode bs n u :
  0 ≤ n → n * 256 ^ Z.of_nat (length bs) + le_val (rev bs) < 2 ^ 64 →
  parse_digits 16 true (hex_encode bs) n u = Ok (n * 256 ^ Z.of_nat (length bs) + le_val (rev bs), u).
Proof.
  revert n. induction bs as [|b bs IH]; intros n Hn Hlt.
  { cbn. f_equal. f_equal. lia. }
  cbn [rev length] in *. rewrite Nat2Z.inj_succ, Z.pow_succ_r, le_val_app, length_rev in * by lia. cbn [le_val] in *.
  destruct (byte_nibbles b) as [H1 H2]. pose proof (Z.div_mod (byte_val b) 16 ltac:(lia)) as Hdm.
  pose proof (le_val_range (rev bs)) as Hr. rewrite length_rev in Hr.
  assert (Hp : 1 ≤ 256 ^ Z.of_nat (length bs)) by (pose proof (Z.pow_pos_nonneg 256 (Z.of_nat (length bs))); lia).
  unfold hex_encode. rewrite bind_cons. cbn [app parse_digits]. fold (hex_encode bs).
  destruct (nibble_char_digit _ H1) as [D1 C1]. destruct (nibble_char_digit _ H2) as [D2 C2].
  rewrite (proj2 (Z.eqb_neq _ _) C1), (proj2 (Z.eqb_neq _ _) C2). cbn [andb]. rewrite D1, D2.
  rewrite !(proj2 (Z.leb_gt 16 _)) by lia.
  assert (Hn2 : (n * 16 + byte_val b / 16) * 16 + byte_val b `mod` 16 = n * 256 + byte_val b) by lia.
  assert (n * 256 + byte_val b < 2 ^ 64) by nia.
  rewrite (proj2 (Z.leb_gt (2 ^ 64) (n * 16 + byte_val b / 16))) by lia. cbv zeta. rewrite Hn2.
  rewrite (proj2 (Z.leb_gt (2 ^ 64) (n * 256 + byte_val b))) by lia.
  rewrite IH by nia. f_equal. f_equal. lia.
Qed.

(** A printed fid is read back. *)
Lemma parse_printed_fid fid : is_u64 fid → ParseUint (fid_hex fid) 0 = Ok fid.
Proof.
  intros [H0 H1]. unfold ParseUint. rewrite fid_hex_chars. set (bs := rev (le_bytes 8 fid)).
  assert (Hlen : length bs = 8%nat) by (unfold bs; by rewrite length_rev, length_le_bytes).
  assert (Hval : le_val (rev bs) = fid) by (unfold bs; rewrite rev_involutive, le_val_bytes_small; lia).
  rewrite bool_decide_eq_false_2 by done. change (0 =? 0) with true. cbn match.
  assert (Hb : base_prefix (chars "0x" ++ hex_encode bs) = (16, hex_encode bs)) by (by destruct bs).
  rewrite Hb, parse_hex_encode; rewrite ?Hval; [|lia|rewrite Hlen; cbn; lia]. done.
Qed.

(** ** What is put can be got *)
Section readback.
Context {W : Type} `{!BSOSClient W} `{!PoolService W}.
Context (Hash : list byte → Z) (chunkSize : Z) (P : list byte → Prop).
Context (Hchunk : 0 < chunkSize) (Hsound : hash_sound Hash P).
Context (Hidle : ∀ (w : W) f, svc_ok w → ¬ busy w f).

Lemma jump_stored data opts w j w' :
  svc_ok w → addressed Hash P w → P data →
  PutWithJumpRetry Hash chunkSize data opts w = ((j, None), w') →
  svc_ok w' ∧ j_FID j = Hash data ∧ store_of w' (Hash data) = Some data.
Proof using Hchunk Hsound Hidle.
  intros Hok Ha HP E. destruct Hsound as (Hu & Hz & _). destruct (Hz data HP) as [Hnz Hlen].
  pose proof (PutWithJumpRetry_outcome Hash chunkSize Hchunk Hu data opts w Hok Hlen) as H. rewrite E in H.
  destruct H as [Hok' Hj]. split; [done|]. split; [apply Hj|].
  destruct (j_IsDuplicate j) eqn:Ed; [|eapply jumped_readable; [exact Hj|done|by left]].
  destruct Hj as [_ Hj]. rewrite Ed in Hj. destruct Hj as (_ & _ & Hs & [[l Hl]|Hb]); [|by apply Hidle in Hb].
  rewrite Hl. f_equal. apply Ha; [done|]. by rewrite <- Hs.
Qed.

Lemma put_bytes_stored data w fid w' :
  svc_ok w → P data → PutBytes Hash chunkSize data w = ((fid, None), w') →
  svc_ok w' ∧ fid = Hash data ∧ store_of w' (Hash data) = Some data.
Proof using Hchunk Hsound.
  intros Hok HP. destruct Hsound as (Hu & Hz & _). destruct (Hz data HP) as [Hnz Hlen]. unfold PutBytes, ComputeFID.
  pose proof (Put_service chunkSize Hchunk (Hash data) (Z.of_nat (length data)) 0 (NewReader data) w Hok (Hu data)
    ltac:(unfold is_u64; lia) ltac:(unfold is_u64; lia)) as H.
  destruct (Client.Put _ _ _ _ _ w) as [[e|] w1]; [done|]. intros [= <- <-].
  unfold put_outcome, registered in H. rewrite rest_NewReader, take_whole in H. destruct H as (Hok' & _ & _ & Hs). split_and!; try done.
  rewrite Hs. unfold store_put. rewrite decide_False by (by intros [_ ?]). by rewrite decide_True.
Qed.

(** A plain object. *)
Lemma GetAuto_plain Unmarshal fid l w :
  svc_ok w → store_of w fid = Some l → IsManifest l = false →
  (GetAuto Unmarshal buffer_write fid None [] w).1 = (None, l).
Proof using.
  intros Hok Hs Hm. pose proof (GetBytes_service fid (Some (0, 5)) w Hok ltac:(split; unfold is_u64; lia)) as Hg.
  unfold GetAuto. destruct (GetBytes fid _ w) as [out w1]. destruct Hg as (Hok1 & Hs1 & Hg). rewrite Hs in Hg.
  assert (Hget : (let '((_, _, err), x, w) := Client.Get buffer_write fid None [] w1 in (err, x, w)).1 = (None, l)).
  { pose proof (Get_service fid None w1 Hok1 I) as H. destruct (Client.Get _ _ _ _ w1) as [[[[total wr] err] x] w2].
    destruct H as (_ & _ & H). rewrite Hs1, Hs in H.
    change (range_of None (Z.of_nat (length l))) with (Some (0, Z.of_nat (length l))) in H. cbn iota beta in H.
    rewrite slice_whole in H. by destruct H as (-> & _ & -> & _). }
  destruct out as [probe|e]; [|exact Hget].
  assert (Hp : IsManifest probe = false); [|by rewrite Hp].
  unfold range_of, get_range in Hg. cbn [gq_has_range gq_range_start gq_range_end request Z.eqb orb] in Hg.
  destruct (Z.ltb_spec (Z.of_nat (length l)) 5) as [Hl|Hl].
  - rewrite (proj2 (Z.ltb_ge _ _)) in Hg by lia. injection Hg as ->. by rewrite slice_whole.
  - change (5 <? 0) with false in Hg. injection Hg as ->. unfold IsManifest in *.
    rewrite (proj2 (Z.leb_le _ _)) in Hm by (cbn; lia). cbn [andb] in Hm.
    change (slice l 0 5) with (take 5 (drop 0 l)). rewrite drop_0.
    change (length MagicHeader) with 5%nat in *. rewrite take_take, Nat.min_id, Hm. apply andb_false_r.
Qed.

End readback.

Section put_get.
Context {W : Type} `{!BSOSClient W} `{!PoolService W}.
Context (Hash : list byte → Z) (chunkSize : Z) (Hchunk : 0 < chunkSize).
Context (Hidle : ∀ (w : W) f, svc_ok w → ¬ busy w f).
Context (Marshal : FileManifest → res (list byte)) (Unmarshal : list byte → res FileManifest).
Context (Hmu : ∀ m l, Marshal m = Ok l → Unmarshal l = Ok m).

(** An object cut into chunks. *)
Lemma put_cdc_readable fastcdc opt sched ck cs (w : W) r w' :
  let content l := l ∈ run_contents Hash Marshal (cdc_options opt) cs in
  hash_sound Hash content → addressed Hash content w →
  NewChunker fastcdc (slicer_options (cdc_options opt)) = Ok ck →
  cut Hash (ck_inner ck) (ck_offset ck) = (cs, EEOF) → Z.of_nat (length (data_of cs)) < 2 ^ 64 → svc_ok w →
  PutCDC Hash chunkSize Marshal fastcdc opt sched w = Some (inl r, w') →
  is_u64 (r_ManifestFID r) ∧ (GetAuto Unmarshal buffer_write (r_ManifestFID r) None [] w').1 = (None, data_of cs).
Proof using Hchunk Hidle Hmu.
  intros content Hsound Ha Ek Ec Hlen Hok Hput.
  destruct (PutCDC_outcome Hash chunkSize Marshal fastcdc opt sched ck cs w r w' Hchunk Hsound Hidle Ek Ec Hlen Hok Ha Hput)
    as (_ & Hcs & _ & _ & mb & Hen & Hfh & Hok' & _ & Hfid & Hst).
  split; [rewrite Hfh; apply Hsound|].
  destruct (Encode_Decode Marshal Unmarshal (manifest_for Hash (cdc_options opt) cs) mb Hmu eq_refl Hen) as (Hdec & l & _ & Hl).
  rewrite Hl in Hfid. destruct (GetAuto_manifest Unmarshal _ l None [] w' Hok' Hfid) as (w1 & Hok1 & Hs1 & ->).
  pose proof (GetCDC_outcome Hash Unmarshal desc_of (r_ManifestFID r) mb _ cs None [] w1 desc_of_describes Hok1
    ltac:(by rewrite Hs1, Hfid, Hl) Hdec Hcs eq_refl eq_refl Hlen ltac:(intros c Hc; rewrite Hs1; by apply Hst) I) as H.
  destruct (GetCDC _ _ _ _ _ w1) as [[err y] w2]. destruct H as (-> & -> & _). cbn [fst]. f_equal.
  unfold cdc_slice, cdc_range. apply slice_whole.
Qed.

(** What a [bsos put] of [data] stores: the chunks and the manifest, or the object. *)
Definition put_contents (o : putOptions) (cs : list Chunk) (data : list byte) : list (list byte) :=
  if use_cdc o (Z.of_nat (length data)) then run_contents Hash Marshal (cdc_options (Some (put_cdc_opts o))) cs
  else [data].

Lemma put_stdin_readable o fastcdc sched ck cs data (w : W) printed w' :
  let content l := l ∈ put_contents o cs data in
  hash_sound Hash content → addressed Hash content w → Z.of_nat (length data) < 2 ^ 63 → svc_ok w →
  (if use_cdc o (Z.of_nat (length data)) then
     NewChunker (fastcdc (data, EEOF)) (slicer_options (cdc_options (Some (put_cdc_opts o)))) = Ok ck ∧
     cut Hash (ck_inner ck) (ck_offset ck) = (cs, EEOF) ∧ data_of cs = data
   else IsManifest data = false) →
  put_stdin Hash chunkSize Marshal o (Ok data) fastcdc sched w = Some (0, Some printed, w') →
  is_u64 (printed_fid printed) ∧ (GetAuto Unmarshal buffer_write (printed_fid printed) None [] w').1 = (None, data).
Proof using Hchunk Hidle Hmu.
  cbv zeta. intros Hsound Ha Hlen Hok Hroute Hs. unfold put_contents in *.
  unfold put_stdin in Hs. destruct (_ =? 0); [done|]. destruct (too_large o _); [done|].
  destruct (use_cdc o _).
  { destruct Hroute as (Ek & Ec & <-).
    destruct (PutCDC _ _ _ _ _ _ w) as [[[r|e] w1]|] eqn:E; [|done..]. injection Hs as <- <-.
    eapply put_cdc_readable; [exact Hsound|exact Ha|exact Ek|exact Ec|lia|exact Hok|exact E]. }
  assert (Hplain : ∀ fid, svc_ok w' → fid = Hash data → store_of w' (Hash data) = Some data →
    is_u64 fid ∧ (GetAuto Unmarshal buffer_write fid None [] w').1 = (None, data)).
  { intros fid Hok' -> Hst. split; [apply Hsound|]. by apply GetAuto_plain. }
  assert (HP : data ∈ [data]) by by left.
  destruct (po_noJump o).
  - destruct (PutBytes Hash chunkSize data w) as [[fid [e|]] w1] eqn:E; [done|]. injection Hs as <- <-.
    eapply put_bytes_stored in E as (H1 & H2 & H3); [by apply Hplain|exact Hchunk|exact Hsound|done..].
  - destruct (PutWithJumpRetry Hash chunkSize data _ w) as [[j [e|]] w1] eqn:E; [done|]. injection Hs as <- <-.
    eapply jump_stored in E as (H1 & H2 & H3); [by apply Hplain|exact Hchunk|exact Hsound|exact Hidle|done..].
Qed.

End put_get.

(** *** A put in two chunks, and a get *)
Definition demo_put_manifest : FileManifest :=
  mkManifest 1 10 11 "" DefaultTargetSize [mkDesc 7 0 0 6 0; mkDesc 5 0 6 4 0].
Definition demo_put_marshal (m : FileManifest) : res (list byte) :=
  if decide (m = demo_put_manifest) then Ok (replicate 8 x43) else Err (EMsg "other").
Definition demo_put_unmarshal (_ : list byte) : res FileManifest := Ok demo_put_manifest.
Definition demo_put_args : list string := ["-cdc"; "--workers"; "2"; "-"]%string.
#[local] Notation demo_put_file := (λ _ : string, mkLocal (Err ErrNotExist) (Err ErrNotExist) None).
#[local] Notation demo_put :=
  (runPut demo_hash 4 demo_put_marshal (λ _, None) "" demo_put_file
    (Ok (replicate 6 x41 ++ replicate 4 x42)) (λ _, demo_fastcdc) demo_schedule demo_put_args demo_world).

