(* ===== verification/Daemon.v ===== *)
(** * The daemon's main function (cmd/bsosd/main.go)

    From the command line to the exit status: the flags, which override the configuration file one by
    one, the start of the server, and what is left when serving ends.  The values given as flags are
    not checked the way [LoadConfig] checks those of the file.  How [Serve], [Close], the signals and
    the trim scheduler interleave is in [Lifecycle]. *)

From S2P Require Import Prelude Machine Float Text Path Config Flag MultiDisk Reader Server.
From Stdlib Require Import QArith.
#[local] Open Scope Z_scope.

(** The flags, with [None] for one that was not given: [flag.Visit] visits only the others. *)
Record daemonFlags := mkDaemonFlags {
  configPath : string;
  panFlag : option string;
  grpcListenFlag : option string;
  maxPutFlag : option string;
  smallFilePow2Flag : option Z;
  chdTargetPFlag : option f64;
  zramSnapshotDirFlag : option string;
  trimIntervalFlag : option Z
}.
Definition daemonFlags0 : daemonFlags := mkDaemonFlags "" None None None None None None None.

Definition flagSet : flag_set daemonFlags := [
  ("config", StringVar (λ s o, mkDaemonFlags s (panFlag o) (grpcListenFlag o) (maxPutFlag o)
     (smallFilePow2Flag o) (chdTargetPFlag o) (zramSnapshotDirFlag o) (trimIntervalFlag o)));
  ("pan", StringVar (λ s o, mkDaemonFlags (configPath o) (Some s) (grpcListenFlag o) (maxPutFlag o)
     (smallFilePow2Flag o) (chdTargetPFlag o) (zramSnapshotDirFlag o) (trimIntervalFlag o)));
  ("grpc-listen", StringVar (λ s o, mkDaemonFlags (configPath o) (panFlag o) (Some s) (maxPutFlag o)
     (smallFilePow2Flag o) (chdTargetPFlag o) (zramSnapshotDirFlag o) (trimIntervalFlag o)));
  ("max-put", StringVar (λ s o, mkDaemonFlags (configPath o) (panFlag o) (grpcListenFlag o) (Some s)
     (smallFilePow2Flag o) (chdTargetPFlag o) (zramSnapshotDirFlag o) (trimIntervalFlag o)));
  ("small-file-pow2", IntVar (λ n o, mkDaemonFlags (configPath o) (panFlag o) (grpcListenFlag o) (maxPutFlag o)
     (Some n) (chdTargetPFlag o) (zramSnapshotDirFlag o) (trimIntervalFlag o)));
  ("chd-target-p", Float64Var (λ x o, mkDaemonFlags (configPath o) (panFlag o) (grpcListenFlag o) (maxPutFlag o)
     (smallFilePow2Flag o) (Some x) (zramSnapshotDirFlag o) (trimIntervalFlag o)));
  ("zram-snapshot-dir", StringVar (λ s o, mkDaemonFlags (configPath o) (panFlag o) (grpcListenFlag o) (maxPutFlag o)
     (smallFilePow2Flag o) (chdTargetPFlag o) (Some s) (trimIntervalFlag o)));
  ("trim-interval", DurationVar (λ d o, mkDaemonFlags (configPath o) (panFlag o) (grpcListenFlag o) (maxPutFlag o)
     (smallFilePow2Flag o) (chdTargetPFlag o) (zramSnapshotDirFlag o) (Some d)))]%string.

(** The function [flag.Visit] runs on each flag that was given, on all of them. *)
Definition override (o : daemonFlags) (cfg : Config) : res Config :=
  size ← match maxPutFlag o with
         | Some s => wrap_err "invalid -max-put" (ParseSize s)
         | None => Ok (MaxPutBytes cfg)
         end;
  Ok {|
    PanPath := default (PanPath cfg) (panFlag o);
    GRPCListen := default (GRPCListen cfg) (grpcListenFlag o);
    MaxPutBytes := size;
    ReservationStallTimeout := ReservationStallTimeout cfg;
    PoolGateFanoutTimeout := PoolGateFanoutTimeout cfg;
    WriteDispatchConcurrency := WriteDispatchConcurrency cfg;
    SmallFilePow2 := default (SmallFilePow2 cfg) (smallFilePow2Flag o);
    ChdTargetP := default (ChdTargetP cfg) (chdTargetPFlag o);
    ZramSnapshotDir := default (ZramSnapshotDir cfg) (zramSnapshotDirFlag o);
    TrimInterval := default (TrimInterval cfg) (trimIntervalFlag o);
    TrimMinThresholdBytes := TrimMinThresholdBytes cfg;
    TrimMaxThresholdBytes := TrimMaxThresholdBytes cfg;
    TrimMinFileCount := TrimMinFileCount cfg;
    TrimThresholdRatio := TrimThresholdRatio cfg;
    TrimTempDir := TrimTempDir cfg
  |}.

(** What comes before the server: an exit status or the configuration.  [home] is the home directory
    and [file] what reading and decoding the file at a path gives. *)
Definition daemon_config (home : option string) (file : string → res fileConfig) (args : list string) :
    Z + Config :=
  match Parse flagSet args daemonFlags0 with
  | Err e => inl (if bool_decide (e = ErrHelp) then 0 else 2)
  | Ok (o, _) =>
      let cfg := if bool_decide (configPath o = EmptyString) then Ok DefaultConfig
                 else decoded ← file (configPath o); LoadConfig home decoded in
      match (cfg ← cfg; override o cfg) with
      | Err _ => inl 1
      | Ok cfg => inr cfg
      end
  end.

(** The exit status of the process, when it is not forced to exit: [serve] is what [Serve] returns
    for the configured address.  A failure exits in [log.Fatalf], without running the deferred
    [Close]. *)
Definition daemon_main (home : option string) (file : string → res fileConfig) (args : list string)
    (newServer : Config → res Server) (serve : Server → string → option error) : Z :=
  match daemon_config home file args with
  | inl code => code
  | inr cfg =>
      match newServer cfg with
      | Err _ => 1
      | Ok srv => match serve srv (GRPCListen cfg) with Some _ => 1 | None => 0 end
      end
  end.

(** ** Properties *)

(** The value of a flag in a list of arguments of the form [-name=value]. *)
Fixpoint given (name : string) (args : list (string * string)) : option string :=
  match args with
  | [] => None
  | (n, v) :: args => match given name args with
                      | Some w => Some w
                      | None => if bool_decide (n = name) then Some v else None
                      end
  end.

Definition flag_arg (p : string * string) : string :=
  String.append "-" (String.append p.1 (String.append "=" p.2)).

Definition names : list string :=
  ["config"; "pan"; "grpc-listen"; "max-put"; "small-file-pow2"; "chd-target-p"; "zram-snapshot-dir";
   "trim-interval"]%string.

Lemma tokenize_flag_arg n v : n ∈ names → tokenize (flag_arg (n, v)) = Named n (Some v).
Proof.
  intros Hn. assert (E : str (chars v) = v) by (apply chars_inj, chars_str).
  unfold names in Hn. repeat (apply elem_of_cons in Hn as [->|Hn]; [rewrite <- E at 2; reflexivity|]).
  by apply not_elem_of_nil in Hn.
Qed.

(** A field of the options after the arguments: the last value given, parsed, or what it was. *)
Definition field {A} (parse : string → res A) (v : option string) (old new : option A) : Prop :=
  match v with
  | Some s => ∃ a, parse s = Ok a ∧ new = Some a
  | None => new = old
  end.

Lemma field_plain (v new : option string) : field Ok v None new → new = v.
Proof. unfold field. destruct v; [intros (? & [= <-] & ->)|]; done. Qed.

Lemma field_default {A} (parse : string → res A) v base new :
  field parse v None new → field parse v (Some base) (Some (default base new)).
Proof. unfold field. destruct v; [intros (a & E & ->); by exists a|by intros ->]. Qed.

Record parsed (l : list (string * string)) (o o' : daemonFlags) : Prop := {
  pa_config : configPath o' = default (configPath o) (given "config" l);
  pa_pan : field Ok (given "pan" l) (panFlag o) (panFlag o');
  pa_listen : field Ok (given "grpc-listen" l) (grpcListenFlag o) (grpcListenFlag o');
  pa_maxPut : field Ok (given "max-put" l) (maxPutFlag o) (maxPutFlag o');
  pa_pow2 : field ParseInt (given "small-file-pow2" l) (smallFilePow2Flag o) (smallFilePow2Flag o');
  pa_target : field ParseFloat (given "chd-target-p" l) (chdTargetPFlag o) (chdTargetPFlag o');
  pa_snapshots : field Ok (given "zram-snapshot-dir" l) (zramSnapshotDirFlag o) (zramSnapshotDirFlag o');
  pa_interval : field ParseDuration (given "trim-interval" l) (trimIntervalFlag o) (trimIntervalFlag o')
}.

Lemma field_cons {A} (parse : string → res A) name n v l old mid new :
  field parse (if bool_decide (n = name) then Some v else None) old mid →
  field parse (given name l) mid new → field parse (given name ((n, v) :: l)) old new.
Proof.
  unfold field. cbn [given]. destruct (given name l); [done|]. intros H ->. by destruct (bool_decide _).
Qed.

Lemma parsed_cons n v l o o1 o' :
  parsed [(n, v)] o o1 → parsed l o1 o' → parsed ((n, v) :: l) o o'.
Proof.
  intros [H1 H2 H3 H4 H5 H6 H7 H8] [K1 K2 K3 K4 K5 K6 K7 K8]; constructor;
    try (eapply field_cons; [eassumption|eassumption]).
  rewrite K1. cbn [given] in *. destruct (given "config" l); [done|]. exact H1.
Qed.

Ltac given_flag :=
  match goal with
  | |- context [bool_decide ?P] =>
      first [rewrite (bool_decide_eq_true_2 P) by done | rewrite (bool_decide_eq_false_2 P) by done]
  end.

(** A value the type of its flag refuses. *)
Definition bad_value (p : string * string) : bool :=
  if bool_decide (p.1 = "small-file-pow2"%string) then negb (is_ok (ParseInt p.2)) else
  if bool_decide (p.1 = "chd-target-p"%string) then negb (is_ok (ParseFloat p.2)) else
  if bool_decide (p.1 = "trim-interval"%string) then negb (is_ok (ParseDuration p.2)) else false.

Lemma Parse_flag_args l : ∀ o, Forall (λ p, p.1 ∈ names) l →
  match Parse flagSet (flag_arg <$> l) o with
  | Ok (o', rest) => existsb bad_value l = false ∧ parsed l o o'
  | Err e => existsb bad_value l = true ∧ e ≠ ErrHelp
  end.
Proof.
  induction l as [|[n v] l IH]; intros o Hl; [by split; [|constructor]|].
  apply Forall_cons in Hl as [Hn Hl]. change (flag_arg <$> (n, v) :: l) with (flag_arg (n, v) :: (flag_arg <$> l)).
  cbn [Parse]. rewrite tokenize_flag_arg by done.
  assert (Hstep : ∃ f, find_flag flagSet n = Some f ∧ isBool f = false ∧
    match set_flag f v o with
    | Ok o1 => bad_value (n, v) = false ∧ parsed [(n, v)] o o1
    | Err e => bad_value (n, v) = true ∧ e ≠ ErrHelp
    end).
  { unfold names in Hn. cbn [fst] in Hn.
    repeat (apply elem_of_cons in Hn as [->|Hn]; [eexists; split; [reflexivity|split; [reflexivity|]]|]);
      [..|by apply not_elem_of_nil in Hn];
      unfold set_flag; cbn [Set_ StringVar IntVar Float64Var DurationVar];
      try match goal with |- context [?p v ≫= _] => destruct (p v) eqn:E; cbn [mbind res_bind] end;
      (split; [unfold bad_value; cbn [fst snd]; repeat given_flag; by rewrite ?E|try done]);
      constructor; cbn; unfold field; given_flag; rewrite ?E; eauto. }
  destruct Hstep as (f & -> & -> & Hset). cbn [existsb].
  destruct (set_flag f v o) as [o1|e]; cbn [mbind res_bind]; destruct Hset as [-> Hset]; [|done].
  specialize (IH o1 Hl). destruct (Parse flagSet (flag_arg <$> l) o1) as [[o' rest]|e]; [|done].
  destruct IH as [-> IH]. split; [done|]. by eapply parsed_cons.
Qed.

(** What the flag [-config] loads. *)
Definition loaded (home : option string) (file : string → res fileConfig) (l : list (string * string)) : res Config :=
  let path := default ""%string (given "config" l) in
  if bool_decide (path = EmptyString) then Ok DefaultConfig else decoded ← file path; LoadConfig home decoded.

(** Which settings the daemon runs with.  Given flags of the form [-name=value] in any order and
    number, it exits with status 2 when a value does not parse, with status 1 when the configuration
    file cannot be read, decoded or validated, or the last [-max-put] is no size, and otherwise runs
    with the file's settings, or the defaults when no [-config] or an empty one was given, each one
    replaced by the last flag given for it; the other settings have no flag. *)
Theorem daemon_config_flags home file l :
  Forall (λ p, p.1 ∈ names) l →
  match daemon_config home file (flag_arg <$> l) with
  | inl code =>
      if existsb bad_value l then code = 2
      else code = 1 ∧ (is_ok (loaded home file l) = false ∨
                       ∃ s, given "max-put" l = Some s ∧ is_ok (ParseSize s) = false)
  | inr cfg => existsb bad_value l = false ∧ ∃ base, loaded home file l = Ok base ∧
      PanPath cfg = default (PanPath base) (given "pan" l) ∧
      GRPCListen cfg = default (GRPCListen base) (given "grpc-listen" l) ∧
      field ParseSize (given "max-put" l) (Some (MaxPutBytes base)) (Some (MaxPutBytes cfg)) ∧
      field ParseInt (given "small-file-pow2" l) (Some (SmallFilePow2 base)) (Some (SmallFilePow2 cfg)) ∧
      field ParseFloat (given "chd-target-p" l) (Some (ChdTargetP base)) (Some (ChdTargetP cfg)) ∧
      ZramSnapshotDir cfg = default (ZramSnapshotDir base) (given "zram-snapshot-dir" l) ∧
      field ParseDuration (given "trim-interval" l) (Some (TrimInterval base)) (Some (TrimInterval cfg)) ∧
      ReservationStallTimeout cfg = ReservationStallTimeout base ∧
      PoolGateFanoutTimeout cfg = PoolGateFanoutTimeout base ∧
      WriteDispatchConcurrency cfg = WriteDispatchConcurrency base ∧
      TrimMinThresholdBytes cfg = TrimMinThresholdBytes base ∧
      TrimMaxThresholdBytes cfg = TrimMaxThresholdBytes base ∧
      TrimMinFileCount cfg = TrimMinFileCount base ∧ TrimThresholdRatio cfg = TrimThresholdRatio base ∧
      TrimTempDir cfg = TrimTempDir base
  end.
Proof.
  intros Hl. unfold daemon_config. pose proof (Parse_flag_args l daemonFlags0 Hl) as H.
  destruct (Parse _ _ _) as [[o rest]|e]; destruct H as [-> H]; [|by rewrite bool_decide_eq_false_2].
  destruct H as [Hc Hp Hg Hm H2 Ht Hz Hi]. cbn [configPath daemonFlags0] in Hc. rewrite Hc. fold (loaded home file l).
  destruct (loaded home file l) as [base|e]; cbn [mbind res_bind]; [|by split; [|left]].
  apply field_plain in Hp, Hg, Hm, Hz. unfold override. rewrite Hm.
  assert (Hsize : match (match given "max-put" l with
                         | Some s => wrap_err "invalid -max-put" (ParseSize s)
                         | None => Ok (MaxPutBytes base) end) with
    | Ok size => field ParseSize (given "max-put" l) (Some (MaxPutBytes base)) (Some size)
    | Err _ => ∃ s, given "max-put" l = Some s ∧ is_ok (ParseSize s) = false end).
  { unfold field. destruct (given "max-put" l) as [s|]; [|done].
    destruct (ParseSize s) eqn:Es; cbn; exists s + eexists; by rewrite ?Es. }
  destruct (match given "max-put" l with Some _ => _ | None => _ end) as [size|e]; cbn [mbind res_bind];
    [|split; [done|by right]].
  split; [done|]. exists base. cbn. rewrite Hp, Hg, Hz. split_and!; try done; by apply field_default.
Qed.

Definition no_settings : fileConfig :=
  mkFileConfig "" "" "" None None None None None "" "" None "" "" None None "".

Lemma daemon_config_flags_witness :
  ∃ cfg, daemon_config None (λ _, Ok no_settings) (flag_arg <$>
      [("max-put", "1KB"); ("config", "c.toml"); ("max-put", "2MB"); ("trim-interval", "90s")]%string) = inr cfg ∧
    MaxPutBytes cfg = 2097152 ∧ TrimInterval cfg = 90 * Second ∧ SmallFilePow2 cfg = 6.
Proof.
  set (l := [("max-put", "1KB"); ("config", "c.toml"); ("max-put", "2MB"); ("trim-interval", "90s")]%string).
  assert (Hl : Forall (λ p, p.1 ∈ names) l).
  { unfold l, names. repeat constructor; cbn; rewrite !elem_of_cons; tauto. }
  pose proof (daemon_config_flags None (λ _, Ok no_settings) l Hl) as H.
  destruct (daemon_config None (λ _, Ok no_settings) (flag_arg <$> l)) as [code|cfg] eqn:E.
  { vm_compute in E. discriminate E. }
  exists cfg. split; [reflexivity|]. destruct H as (_ & base & Eb & _ & _ & Hm & H2 & _ & _ & Hi & _).
  assert (Hbase : SmallFilePow2 base = 6).
  { vm_compute in Eb. injection Eb as <-. reflexivity. }
  destruct Hm as (m & Em & [= ->]). destruct Hi as (i & Ei & [= ->]). cbn in H2. injection H2 as ->.
  vm_compute in Em, Ei. injection Em as <-. injection Ei as <-. split_and!; [reflexivity|reflexivity|exact Hbase].
Defined.

(** The flags are not checked as the file is.  The values [LoadConfig] refuses in a file are taken
    from the command line: a success probability of 7, a negative small-file exponent, a negative trim
    interval; and the directory named [empty], which the usage text says disables the snapshots, is the
    one the server would restore from. *)
Theorem flags_bypass_checks :
  ∃ cfg, daemon_config None (λ _, Err ENotFound)
      ["-chd-target-p=7"; "-small-file-pow2"; "-3"; "-trim-interval=-1s"; "-zram-snapshot-dir=empty"]%string = inr cfg ∧
    (∃ q, ChdTargetP cfg = F64 q ∧ q == 7)%Q ∧ SmallFilePow2 cfg = -3 ∧ TrimInterval cfg = - Second ∧
    ZramSnapshotDir cfg = "empty"%string ∧
    is_ok (LoadConfig None (mkFileConfig "" "" "" None None None None (Some (F64 7)) "" "" None "" "" None None "")) = false ∧
    is_ok (LoadConfig None (mkFileConfig "" "" "" None None None (Some (-3)) None "" "" None "" "" None None "")) = false ∧
    is_ok (LoadConfig None (mkFileConfig "" "" "" None None None None None "" "-1s" None "" "" None None "")) = false.
Proof.
  eexists. split; [vm_compute; reflexivity|]. cbn [ChdTargetP SmallFilePow2 TrimInterval ZramSnapshotDir].
  split; [by eexists|]. by split_and!.
Qed.
