(* ===== verification/Lifecycle.v ===== *)
(** * Serving, stopping and the goroutines around it (internal/daemon/server.go, cmd/bsosd/main.go)

    The process after [NewServer]: the main goroutine, which serves and then closes the server; the one
    that waits for a signal and closes it; the one that waits for a second signal and exits; the trim
    scheduler; and the handlers of the gRPC library.  Their steps interleave at the channel, the
    mutexes, the [sync.Once] and the calls into the library, which is the class [GrpcServer]: what the
    theorems use of it is what its documentation says of [Serve] and [GracefulStop]. *)

From S2P Require Import Prelude.

(** ** The gRPC library *)
Inductive grpc_event :=
  | ServeBegin            (* [Serve] starts accepting *)
  | CallBegin             (* a handler starts *)
  | CallEnd               (* a handler ends *)
  | StopBegin             (* [GracefulStop] is called *)
  | StopReturn            (* and returns *)
  | ServeReturn (ok : bool).

#[export] Instance grpc_event_eq_dec : EqDecision grpc_event.
Proof. solve_decision. Defined.

Class GrpcServer := {
  grpc : Type;
  grpc_new : grpc;
  grpc_step : grpc → grpc_event → grpc → Prop;
  grpc_stopped : grpc → bool;   (* [GracefulStop] was called *)
  grpc_pending : grpc → nat     (* the handlers that run *)
}.

(** The documented behaviour: [GracefulStop] stops the server from accepting calls and blocks until
    all pending ones are finished; [Serve] accepts calls and returns no error only after a stop. *)
Class GrpcLaws `{GrpcServer} := {
  grpc_new_idle : grpc_stopped grpc_new = false ∧ grpc_pending grpc_new = 0%nat;
  grpc_stop_begin g g' : grpc_step g StopBegin g' → grpc_stopped g' = true;
  grpc_stop_return g g' : grpc_step g StopReturn g' → grpc_pending g = 0%nat;
  grpc_refuses g g' : grpc_step g CallBegin g' → grpc_stopped g = false;
  grpc_stays g ev g' : grpc_step g ev g' → grpc_stopped g = true → grpc_stopped g' = true;
  grpc_no_call g ev g' : grpc_step g ev g' → ev ≠ CallBegin → (grpc_pending g' ≤ grpc_pending g)%nat;
  grpc_serve_ok g g' : grpc_step g (ServeReturn true) g' → grpc_stopped g = true;
  grpc_can_serve g : grpc_stopped g = false → ∃ g', grpc_step g ServeBegin g';
  grpc_can_stop g : ∃ g', grpc_step g StopBegin g';
  grpc_can_return g : grpc_stopped g = true → grpc_pending g = 0%nat →
    (∃ g', grpc_step g StopReturn g') ∧ ∃ g', grpc_step g (ServeReturn true) g'
}.

Section lifecycle.
Context `{GrpcServer}.

(** ** [Server.Close]

    Two goroutines may run it.  [close_pc] is where one of them is: before the [sync.Once], inside it
    (reading [grpcServer], before and inside [GracefulStop]), closing the disks one by one, or at the
    end with the first error. *)
Inductive close_pc :=
  | CEnter
  | CRead
  | CStop
  | CWait
  | CDisk (i : nat) (firstErr : option error)
  | CReturn (firstErr : option error).

Inductive once_state := Fresh | Running | Done.

Record shared := mkShared {
  stopCh : bool;            (* closed *)
  closeOnce : once_state;
  grpcServer : option grpc;
  closed : list bool        (* the disks whose file was closed *)
}.

Definition set_once (o : once_state) (s : shared) : shared := mkShared (stopCh s) o (grpcServer s) (closed s).
Definition set_grpc (g : grpc) (s : shared) : shared := mkShared (stopCh s) (closeOnce s) (Some g) (closed s).
Definition close_file (i : nat) (s : shared) : shared :=
  mkShared (stopCh s) (closeOnce s) (grpcServer s) (<[i := true]> (closed s)).

Definition first_error (firstErr err : option error) : option error :=
  match firstErr with Some _ => firstErr | None => err end.

Inductive close_step : close_pc → shared → close_pc → shared → Prop :=
  | close_enter s :
      closeOnce s = Fresh → close_step CEnter s CRead (mkShared true Running (grpcServer s) (closed s))
  | close_again s : closeOnce s = Done → close_step CEnter s (CDisk 0 None) s
  | close_read_nil s : grpcServer s = None → close_step CRead s (CDisk 0 None) (set_once Done s)
  | close_read s g : grpcServer s = Some g → close_step CRead s CStop s
  | close_stop s g g' :
      grpcServer s = Some g → grpc_step g StopBegin g' → close_step CStop s CWait (set_grpc g' s)
  | close_stopped s g g' :
      grpcServer s = Some g → grpc_step g StopReturn g' →
      close_step CWait s (CDisk 0 None) (set_once Done (set_grpc g' s))
  | close_disk s i e err :
      (i < length (closed s))%nat → close_step (CDisk i e) s (CDisk (S i) (first_error e err)) (close_file i s)
  | close_end s i e : i = length (closed s) → close_step (CDisk i e) s (CReturn e) s.

(** ** The process *)
Inductive main_pc := MListen | MPublish | MServe | MServing | MClose (c : close_pc).
Inductive watch_pc := WWait | WClose (c : close_pc).
Inductive sched_pc := SOff | SSelect | STrim (i : nat) | SDone.

Record process := mkProcess {
  p_main : main_pc;
  p_watch : watch_pc;
  p_force : bool;        (* the goroutine of the second signal is waiting *)
  p_sched : sched_pc;
  p_signal : bool;       (* a signal is in the channel *)
  p_shared : shared;
  p_exit : option Z
}.

Definition set_main (m : main_pc) (s : shared) (p : process) : process :=
  mkProcess m (p_watch p) (p_force p) (p_sched p) (p_signal p) s (p_exit p).
Definition set_watch (w : watch_pc) (s : shared) (p : process) : process :=
  mkProcess (p_main p) w (p_force p) (p_sched p) (p_signal p) s (p_exit p).
Definition set_sched (t : sched_pc) (p : process) : process :=
  mkProcess (p_main p) (p_watch p) (p_force p) t (p_signal p) (p_shared p) (p_exit p).
Definition exit_with (code : Z) (p : process) : process :=
  mkProcess (p_main p) (p_watch p) (p_force p) (p_sched p) (p_signal p) (p_shared p) (Some code).

(** [Server.Serve], and what [main] makes of its result. *)
Inductive serve_step : process → process → Prop :=
  | serve_listen_fails p : p_main p = MListen → serve_step p (exit_with 1 p)
  | serve_listen p : p_main p = MListen → serve_step p (set_main MPublish (p_shared p) p)
  | serve_publish p :
      p_main p = MPublish → serve_step p (set_main MServe (set_grpc grpc_new (p_shared p)) p)
  | serve_begin p g g' :
      p_main p = MServe → grpcServer (p_shared p) = Some g → grpc_step g ServeBegin g' →
      serve_step p (set_main MServing (set_grpc g' (p_shared p)) p)
  | serve_stopped p g :
      p_main p = MServe → grpcServer (p_shared p) = Some g → grpc_stopped g = true →
      serve_step p (exit_with 1 p)
  | serve_fails p g g' :
      p_main p = MServing → grpcServer (p_shared p) = Some g → grpc_step g (ServeReturn false) g' →
      serve_step p (exit_with 1 p)
  | serve_returns p g g' :
      p_main p = MServing → grpcServer (p_shared p) = Some g → grpc_step g (ServeReturn true) g' →
      serve_step p (set_main (MClose CEnter) (set_grpc g' (p_shared p)) p).

(** The main goroutine: it serves, and then runs the deferred [Close]. *)
Inductive main_step : process → process → Prop :=
  | main_serve p p' : serve_step p p' → main_step p p'
  | main_close p c c' s :
      p_main p = MClose c → close_step c (p_shared p) c' s → main_step p (set_main (MClose c') s p)
  | main_return p e : p_main p = MClose (CReturn e) → main_step p (exit_with 0 p).

(** The goroutine of the first signal, which starts that of the second one and closes the server. *)
Inductive watch_step : process → process → Prop :=
  | watch_signal p :
      p_watch p = WWait → p_signal p = true →
      watch_step p (mkProcess (p_main p) (WClose CEnter) true (p_sched p) false (p_shared p) (p_exit p))
  | watch_close p c c' s :
      p_watch p = WClose c → close_step c (p_shared p) c' s → watch_step p (set_watch (WClose c') s p).

Inductive force_step : process → process → Prop :=
  | force_exit p : p_force p = true → p_signal p = true → force_step p (exit_with 1 p).

(** The trim scheduler; a select with both channels ready takes either. *)
Inductive sched_step : process → process → Prop :=
  | sched_tick p : p_sched p = SSelect → sched_step p (set_sched (STrim 0) p)
  | sched_trim p i :
      p_sched p = STrim i → (i < length (closed (p_shared p)))%nat → sched_step p (set_sched (STrim (S i)) p)
  | sched_loop p : p_sched p = STrim (length (closed (p_shared p))) → sched_step p (set_sched SSelect p)
  | sched_stop p : p_sched p = SSelect → stopCh (p_shared p) = true → sched_step p (set_sched SDone p).

(** A signal arrives, which is dropped when one is in the channel; a handler starts or ends. *)
Inductive world_step : process → process → Prop :=
  | world_signal p :
      world_step p (mkProcess (p_main p) (p_watch p) (p_force p) (p_sched p) true (p_shared p) (p_exit p))
  | world_call p g ev g' :
      grpcServer (p_shared p) = Some g → ev = CallBegin ∨ ev = CallEnd → grpc_step g ev g' →
      world_step p (mkProcess (p_main p) (p_watch p) (p_force p) (p_sched p) (p_signal p)
                      (set_grpc g' (p_shared p)) (p_exit p)).

Inductive who := Main | Watch | Force | Sched | World.

Definition proc_step (w : who) : process → process → Prop :=
  match w with
  | Main => main_step | Watch => watch_step | Force => force_step | Sched => sched_step | World => world_step
  end.

(** No step is taken once the process has exited. *)
Definition step (p p' : process) : Prop := p_exit p = None ∧ ∃ w, proc_step w p p'.

(** When [main] calls [Serve], after [signal.Notify], with [n] disks. *)
Definition started (n : nat) (trims : bool) : process :=
  mkProcess MListen WWait false (if trims then SSelect else SOff) false
    (mkShared false Fresh None (replicate n false)) None.

(** After [Serve] has stored the gRPC server, and before any signal. *)
Definition published (p : process) : Prop :=
  (p_main p = MServe ∨ p_main p = MServing) ∧ p_watch p = WWait ∧ p_exit p = None ∧
  closeOnce (p_shared p) = Fresh ∧ is_Some (grpcServer (p_shared p)) ∧ true ∉ closed (p_shared p).

(** ** Invariant of a process whose server was published *)
Definition runner (c : close_pc) : bool := match c with CRead | CStop | CWait => true | _ => false end.

Definition all_closed (s : shared) (n : nat) : Prop := ∀ j, (j < n)%nat → closed s !! j = Some true.

Definition close_ok (c : close_pc) (s : shared) : Prop :=
  match c with
  | CEnter => True
  | CRead | CStop => closeOnce s = Running
  | CWait => closeOnce s = Running ∧ ∃ g, grpcServer s = Some g ∧ grpc_stopped g = true
  | CDisk i _ => closeOnce s = Done ∧ (i ≤ length (closed s))%nat ∧ all_closed s i
  | CReturn _ => closeOnce s = Done ∧ all_closed s (length (closed s))
  end.

Definition drained (g : grpc) : Prop := grpc_stopped g = true ∧ grpc_pending g = 0%nat.

Record shared_ok (s : shared) : Prop := {
  so_grpc : ∃ g, grpcServer s = Some g ∧ (closeOnce s = Done → drained g);
  so_closed : true ∈ closed s → closeOnce s = Done
}.

(** What no step undoes. *)
Record later (s s' : shared) : Prop := {
  lt_once : closeOnce s = Done → closeOnce s' = Done;
  lt_length : length (closed s') = length (closed s);
  lt_closed i : closed s !! i = Some true → closed s' !! i = Some true;
  lt_stopped g : grpcServer s = Some g → grpc_stopped g = true →
    ∃ g', grpcServer s' = Some g' ∧ grpc_stopped g' = true
}.

Lemma close_ok_later c s s' :
  close_ok c s → later s s' → (runner c = true → closeOnce s' = closeOnce s) → close_ok c s'.
Proof.
  intros Hc [H1 H2 H3 H4] Hr. destruct c; cbn in *; unfold all_closed in *; try done;
    try (rewrite Hr by done; done).
  - destruct Hc as [Ho (g & Hg & Hs)]. rewrite Hr by done. split; [done|]. by apply (H4 g).
  - destruct Hc as (Ho & Hi & Hall). rewrite H2. split_and!; auto.
  - destruct Hc as [Ho Hall]. rewrite H2. split; auto.
Qed.

Context `{!GrpcLaws}.

(** A step of the library on the server. *)
Lemma grpc_event_ok s g ev g' :
  shared_ok s → grpcServer s = Some g → grpc_step g ev g' → shared_ok (set_grpc g' s) ∧ later s (set_grpc g' s).
Proof.
  intros [(g0 & E0 & Hd) Hcl] Hg Hs. rewrite Hg in E0. injection E0 as <-. split.
  - split; [|done]. exists g'. split; [done|]. cbn. intros Ho. destruct (Hd Ho) as [Hst Hp].
    split; [by eapply grpc_stays|]. assert (ev ≠ CallBegin) by (intros ->; apply grpc_refuses in Hs; congruence).
    pose proof (grpc_no_call _ _ _ Hs ltac:(done)). lia.
  - split; cbn; try done. intros g1 E1 Hst. exists g'. split; [done|]. rewrite Hg in E1. injection E1 as <-.
    by eapply grpc_stays.
Qed.

(** A step of [Close]. *)
Lemma close_step_ok c s c' s' :
  shared_ok s → close_ok c s → close_step c s c' s' →
  shared_ok s' ∧ close_ok c' s' ∧ later s s' ∧
  (closeOnce s' = closeOnce s ∧ runner c' = runner c ∨
   closeOnce s = Fresh ∧ closeOnce s' = Running ∧ runner c = false ∧ runner c' = true ∨
   runner c = true ∧ runner c' = false ∧ closeOnce s' = Done).
Proof.
  intros Hs Hc Hst. pose proof Hs as [(g & Hg & Hd) Hcl].
  destruct Hst as [s Ho|s Ho|s Hn|s g1 Hg1|s g1 g' Hg1 Hev|s g1 g' Hg1 Hev|s i e err Hi|s i e Hi]; cbn in Hc.
  - split; [|split; [done|split; [by split; cbn; [congruence|..|intros g1 E; exists g1]|by right; left]]].
    split; cbn; [by exists g|]. intros Ht. specialize (Hcl Ht). congruence.
  - split; [done|]. split; [|split; [by split; cbn; eauto|by left]]. split; [done|]. split; [lia|]. intros j Hj. lia.
  - congruence.
  - split; [done|]. split; [done|]. split; [by split; cbn; eauto|by left].
  - destruct (grpc_event_ok s g1 _ g' Hs Hg1 Hev) as [Hs' Hl]. split; [done|]. split; [|split; [done|by left]].
    split; [done|]. exists g'. split; [done|]. by eapply grpc_stop_begin.
  - destruct Hc as [Ho (g2 & Hg2 & Hst)]. rewrite Hg1 in Hg2. injection Hg2 as <-.
    destruct (grpc_event_ok s g1 _ g' Hs Hg1 Hev) as [_ [_ Hl2 Hl3 Hl4]].
    assert (Hdr : drained g').
    { split; [by eapply grpc_stays|]. pose proof (grpc_no_call _ _ _ Hev ltac:(done)).
      pose proof (grpc_stop_return _ _ Hev). lia. }
    split; [by split; cbn; [exists g'|]|]. split; [cbn; split; [done|split; [lia|intros j Hj; lia]]|].
    split; [by split|by right; right].
  - destruct Hc as (Ho & Hle & Hall).
    assert (Hl : later s (close_file i s)).
    { split; cbn; [done|by rewrite length_insert| |eauto]. intros j Hj. destruct (decide (j = i)) as [->|Hne].
      - by apply list_lookup_insert_eq.
      - by rewrite list_lookup_insert_ne. }
    split; [by split; cbn; [exists g|]|]. split; [|split; [done|by left]]. cbn. split; [done|].
    rewrite length_insert. split; [lia|]. intros j Hj. unfold close_file. cbn [closed]. destruct (decide (j = i)) as [->|Hne].
    + by apply list_lookup_insert_eq.
    + rewrite list_lookup_insert_ne by done. apply Hall. lia.
  - destruct Hc as (Ho & _ & Hall). subst i. split; [done|]. split; [done|]. split; [by split; cbn; eauto|by left].
Qed.

(** Where the two goroutines are in [Close]; one that has not called it is before it. *)
Definition main_at (p : process) : close_pc := match p_main p with MClose c => c | _ => CEnter end.
Definition watch_at (p : process) : close_pc := match p_watch p with WClose c => c | WWait => CEnter end.

(** One of them is inside the [sync.Once] exactly when it runs. *)
Definition one_runner (c1 c2 : close_pc) (s : shared) : Prop :=
  (closeOnce s = Running ↔ runner c1 = true ∨ runner c2 = true) ∧ (runner c1 && runner c2 = false).

Record good (p : process) : Prop := {
  go_shared : shared_ok (p_shared p);
  go_main : close_ok (main_at p) (p_shared p);
  go_watch : close_ok (watch_at p) (p_shared p);
  go_runner : one_runner (main_at p) (watch_at p) (p_shared p);
  go_pc : p_main p ≠ MListen ∧ p_main p ≠ MPublish;
  go_stopped c : p_main p = MClose c → ∃ g, grpcServer (p_shared p) = Some g ∧ grpc_stopped g = true;
  go_exit : p_exit p = Some 0 → all_closed (p_shared p) (length (closed (p_shared p)))
}.

Lemma one_runner_sym c1 c2 s : one_runner c1 c2 s → one_runner c2 c1 s.
Proof. intros [H1 H2]. split; [rewrite H1; tauto|by rewrite andb_comm]. Qed.

Lemma close_pair c1 c2 s c s' :
  shared_ok s → close_ok c1 s → close_ok c2 s → one_runner c1 c2 s → close_step c1 s c s' →
  shared_ok s' ∧ close_ok c s' ∧ close_ok c2 s' ∧ one_runner c c2 s' ∧ later s s'.
Proof.
  intros Hs H1 H2 [Hr Hn] Hst. destruct (close_step_ok c1 s c s' Hs H1 Hst) as (Hs' & Hc & Hl & Ho).
  split; [done|]. split; [done|]. assert (Hc2 : runner c2 = true → closeOnce s' = closeOnce s).
  { intros E. destruct Ho as [[? _]|[(Ef & _)|(E1 & _)]]; [done| |rewrite E1, E in Hn; done].
    rewrite (proj2 Hr) in Ef by (by right). done. }
  split; [by eapply close_ok_later|]. split; [|done]. unfold one_runner.
  destruct Ho as [[-> ->]|[(Ef & Er & E1 & E2)|(E1 & E2 & Ed)]].
  - by split.
  - destruct (runner c2) eqn:E; [rewrite (proj2 Hr) in Ef by (by right); done|].
    split; [|by rewrite andb_false_r]. rewrite Er, E2. tauto.
  - rewrite E1 in Hn. cbn in Hn. split; [|by rewrite E2]. rewrite Ed, E2, Hn. split; [done|by intros [|]].
Qed.

Lemma one_runner_grpc c1 c2 g s : one_runner c1 c2 s → one_runner c1 c2 (set_grpc g s).
Proof. done. Qed.

(** A step of the library keeps all of it. *)
Lemma good_grpc p g ev g' m :
  good p → grpcServer (p_shared p) = Some g → grpc_step g ev g' → p_exit p = None →
  main_at (set_main m (set_grpc g' (p_shared p)) p) = main_at p → m ≠ MListen → m ≠ MPublish →
  (∀ c, m = MClose c → grpc_stopped g' = true) →
  good (set_main m (set_grpc g' (p_shared p)) p).
Proof.
  intros [Hs Hm Hw Hr Hpc Hst Hx] Hg Hev He Hat H1 H2 Hc.
  destruct (grpc_event_ok _ g ev g' Hs Hg Hev) as [Hs' Hl]. constructor; try done.
  - rewrite Hat. by eapply close_ok_later.
  - by eapply close_ok_later.
  - rewrite Hat. by apply one_runner_grpc.
  - intros c E. exists g'. split; [done|]. by eapply Hc.
Qed.

Lemma good_same p p' :
  good p → p_shared p' = p_shared p → main_at p' = main_at p → watch_at p' = watch_at p → p_main p' = p_main p →
  (p_exit p' = Some 0 → p_exit p = Some 0) → good p'.
Proof.
  intros [Hs Hm Hw Hr Hpc Hst Hx] E1 E2 E3 E4 E5. constructor; rewrite ?E1, ?E2, ?E3, ?E4; try done. auto.
Qed.

Lemma good_step w p p' : good p → p_exit p = None → proc_step w p p' → good p'.
Proof.
  intros Hg He Hst. pose proof Hg as [Hs Hm Hw Hr Hpc Hstp Hx]. destruct w; [
    destruct Hst as [q q' [p E|p E|p E|p g g' E E1 E2|p g E E1 E2|p g g' E E1 E2|p g g' E E1 E2]|p c c' s E Hcl|p e E]
    |destruct Hst as [p E E1|p c c' s E Hcl]|destruct Hst as [p E E1]|destruct Hst as [p E|p i E Hi|p E|p E E1]
    |destruct Hst as [p|p g ev g' E1 Hev E2]].
  1-3: exfalso; tauto.
  - eapply good_grpc; try done. unfold main_at. by rewrite E.
  - by apply (good_same p).
  - by apply (good_same p).
  - eapply good_grpc; try done.
    + unfold main_at. by rewrite E.
    + intros c [= <-]. by eapply grpc_stays, grpc_serve_ok.
  - unfold main_at in Hm, Hr. rewrite E in Hm, Hr.
    destruct (close_pair _ _ _ _ _ Hs Hm Hw Hr Hcl) as (Hs' & Hc' & Hw' & Hr' & Hl). constructor; try done.
    + intros c1 _. destruct (Hstp c E) as (g & Hgr & Hgs). by apply (lt_stopped _ _ Hl g).
    + cbn. congruence.
  - constructor; try done. intros _. unfold main_at in Hm. rewrite E in Hm. apply Hm.
  - constructor; try done. unfold watch_at in Hr. by rewrite E in Hr.
  - unfold watch_at in Hw, Hr. rewrite E in Hw, Hr.
    destruct (close_pair _ _ _ _ _ Hs Hw Hm (one_runner_sym _ _ _ Hr) Hcl) as (Hs' & Hc' & Hw' & Hr' & Hl).
    constructor; try done.
    + by apply one_runner_sym.
    + intros c1 E1. destruct (Hstp c1 E1) as (g & Hgr & Hgs). by apply (lt_stopped _ _ Hl g).
    + cbn. congruence.
  - by apply (good_same p).
  - by apply (good_same p).
  - by apply (good_same p).
  - by apply (good_same p).
  - by apply (good_same p).
  - by apply (good_same p).
  - eapply (good_same (set_main (p_main p) (set_grpc g' (p_shared p)) p)); try done.
    apply (good_grpc p g ev); try done; try apply Hpc. intros c E. destruct (Hstp c E) as (g0 & Hg0 & Hs0).
    rewrite E1 in Hg0. injection Hg0 as <-. by eapply grpc_stays.
Qed.

Lemma published_good p : published p → good p.
Proof.
  intros (Hm & Hw & He & Ho & [g Hg] & Hcl). constructor.
  - split; [|done]. exists g. split; [done|]. congruence.
  - unfold main_at. by destruct Hm as [->| ->].
  - unfold watch_at. by rewrite Hw.
  - unfold one_runner, main_at, watch_at. rewrite Hw, Ho. split; [split; [done|]|by destruct Hm as [->| ->]].
    by destruct Hm as [->| ->]; intros [|].
  - by destruct Hm as [->| ->].
  - by destruct Hm as [->| ->].
  - congruence.
Qed.

Lemma reachable_good p p' : good p → rtc step p p' → good p'.
Proof. intros Hg. induction 1 as [p|p1 p2 p3 [He (w & Hs)] _ IH]; [done|]. apply IH. by eapply good_step. Qed.

(** ** Progress *)

(** The steps the two goroutines still take. *)
Definition close_left (c : close_pc) (n : nat) : nat :=
  match c with
  | CEnter => n + 5 | CRead => n + 4 | CStop => n + 3 | CWait => n + 2
  | CDisk i _ => S (n - i)
  | CReturn _ => 0
  end.
Definition main_left (m : main_pc) (n : nat) : nat :=
  match m with
  | MListen => n + 10 | MPublish => n + 9 | MServe => n + 8 | MServing => n + 7
  | MClose c => S (close_left c n)
  end.
Definition watch_left (w : watch_pc) (n : nat) : nat :=
  match w with WWait => n + 7 | WClose c => close_left c n end.
Definition left (p : process) : nat :=
  match p_exit p with
  | Some _ => 0
  | None => let n := length (closed (p_shared p)) in main_left (p_main p) n + watch_left (p_watch p) n
  end.

Definition closing (w : who) : bool := match w with Main | Watch => true | _ => false end.

Lemma close_step_left c s c' s' :
  close_step c s c' s' → length (closed s') = length (closed s) ∧
  (close_left c' (length (closed s)) < close_left c (length (closed s)))%nat.
Proof using.
  destruct 1; cbn; rewrite ?length_insert; split; lia || done.
Qed.

Lemma step_left w p p' :
  p_exit p = None → proc_step w p p' → (left p' + (if closing w then 1 else 0) ≤ left p)%nat.
Proof using.
  intros He Hst. unfold left. rewrite He. destruct w; [
    destruct Hst as [q q' [p E|p E|p E|p g g' E E1 E2|p g E E1 E2|p g g' E E1 E2|p g g' E E1 E2]|p c c' s E Hcl|p e E]
    |destruct Hst as [p E E1|p c c' s E Hcl]|destruct Hst as [p E E1]|destruct Hst as [p E|p i E Hi|p E|p E E1]
    |destruct Hst as [p|p g ev g' E1 Hev E2]];
    try apply close_step_left in Hcl as [Hl Hlt]; cbn; rewrite ?He, ?E, ?Hl; cbn; try rewrite He; cbn; try lia.
Qed.

Lemma good_length p p' : rtc step p p' → length (closed (p_shared p')) = length (closed (p_shared p)).
Proof using.
  induction 1 as [p|p1 p2 p3 [He (w & Hs)] _ IH]; [done|]. rewrite IH.
  destruct w; [destruct Hs as [q q' [| | | | | |]|q c c' s _ Hcl|]|destruct Hs as [|q c c' s _ Hcl]
    |destruct Hs|destruct Hs|destruct Hs]; try done; by apply close_step_left in Hcl as [? _].
Qed.

(** A goroutine in [Close] can go on, unless it waits for the other one at the [sync.Once]. *)
Lemma close_enabled c s :
  shared_ok s → close_ok c s → (∀ g, grpcServer s = Some g → grpc_pending g = 0%nat) →
  (∃ c' s', close_step c s c' s') ∨ c = CEnter ∧ closeOnce s = Running ∨ ∃ e, c = CReturn e.
Proof.
  intros [(g & Hg & _) _] Hc Hp. destruct c as [| | | |i e|e]; cbn in Hc.
  - destruct (closeOnce s) eqn:E; [left; eexists _, _; by apply close_enter|by right; left|].
    left. eexists _, _. by apply close_again.
  - left. eexists _, _. by eapply close_read.
  - left. destruct (grpc_can_stop g) as [g' Hev]. eexists _, _. by eapply close_stop.
  - left. destruct Hc as [_ (g1 & Hg1 & Hst)]. destruct (grpc_can_return g1 Hst (Hp g1 Hg1)) as [[g' Hev] _].
    eexists _, _. by eapply close_stopped.
  - left. destruct Hc as (_ & Hi & _). destruct (decide (i = length (closed s))) as [->|Hne].
    + eexists _, _. by apply close_end.
    + eexists _, _. apply (close_disk s i e None). lia.
  - right; right. by exists e.
Qed.

Lemma shutdown_enabled p :
  good p → p_watch p ≠ WWait → (∀ g, grpcServer (p_shared p) = Some g → grpc_pending g = 0%nat) →
  ∃ w p', closing w = true ∧ proc_step w p p'.
Proof.
  intros [Hs Hm Hw [Hr Hn] [Hpc1 Hpc2] Hst _] Hne Hp.
  destruct (p_watch p) as [|c] eqn:Ew; [done|]. unfold watch_at in *. rewrite Ew in *.
  assert (Hwatch : ∀ c' s', close_step c (p_shared p) c' s' → ∃ w p', closing w = true ∧ proc_step w p p').
  { intros c' s' H'. exists Watch. eexists. split; [done|]. by eapply watch_close. }
  destruct (close_enabled c _ Hs Hw Hp) as [(c' & s' & Hcs)|Hblocked]; [by eapply Hwatch|].
  pose proof Hs as [(g & Hg & Hdr) _].
  destruct (p_main p) as [| | | |cm] eqn:Em; unfold main_at in *; rewrite Em in *; try done.
  - exists Main. destruct (grpc_stopped g) eqn:Eg.
    + eexists. split; [done|]. by eapply main_serve, serve_stopped.
    + destruct (grpc_can_serve g Eg) as [g' Hev]. eexists. split; [done|]. by eapply main_serve, serve_begin.
  - destruct Hblocked as [[-> Ho]|[e ->]].
    + exfalso. apply Hr in Ho. cbn in Ho. by destruct Ho.
    + destruct Hw as [Ho _]. destruct (Hdr Ho) as [Hg1 Hg2]. destruct (grpc_can_return g Hg1 Hg2) as [_ [g' Hev]].
      exists Main. eexists. split; [done|]. by eapply main_serve, serve_returns.
  - destruct (close_enabled cm _ Hs Hm Hp) as [(c' & s' & Hcs)|[[-> Ho]|[e ->]]].
    + exists Main. eexists. split; [done|]. by eapply main_close.
    + exfalso. apply Hr in Ho. cbn in Ho. destruct Hblocked as [[-> _]|[e ->]]; by destruct Ho.
    + exists Main. eexists. split; [done|]. by eapply main_return.
Qed.

(** ** Properties *)

(** C17: a graceful shutdown.  When the gRPC server was published before the first signal, no disk is
    closed while a handler runs and no handler starts once one is, whatever the interleaving of the
    goroutines, of the handlers and of any number of signals; and the process exits with status 0
    only after every disk was closed. *)
Theorem drained_shutdown p p' :
  published p → rtc step p p' →
  (true ∈ closed (p_shared p') → ∃ g, grpcServer (p_shared p') = Some g ∧ grpc_pending g = 0%nat ∧
     ∀ g', ¬ grpc_step g CallBegin g') ∧
  (p_exit p' = Some 0 → Forall (λ b, b = true) (closed (p_shared p'))).
Proof.
  intros Hpub Hr. pose proof (reachable_good p p' (published_good p Hpub) Hr) as [[(g & Hg & Hd) Hcl] _ _ _ _ _ Hx].
  split.
  - intros Ht. destruct (Hd (Hcl Ht)) as [H1 H2]. exists g. split; [done|]. split; [done|].
    intros g' Hev%grpc_refuses. congruence.
  - intros E. specialize (Hx E). apply Forall_lookup. intros i b Hb.
    rewrite Hx in Hb by (by eapply lookup_lt_Some). by injection Hb.
Qed.

End lifecycle.

(** ** A gRPC server *)
Record simple := mkSimple { sg_stopped : bool; sg_pending : nat }.

Definition simple_event (g : simple) (ev : grpc_event) : option simple :=
  match ev with
  | ServeBegin => if sg_stopped g then None else Some g
  | CallBegin => if sg_stopped g then None else Some (mkSimple false (S (sg_pending g)))
  | CallEnd => match sg_pending g with O => None | S n => Some (mkSimple (sg_stopped g) n) end
  | StopBegin => Some (mkSimple true (sg_pending g))
  | StopReturn | ServeReturn true =>
      if sg_stopped g && bool_decide (sg_pending g = 0%nat) then Some g else None
  | ServeReturn false => if sg_stopped g then None else Some g
  end.

#[export] Instance simple_grpc : GrpcServer := {
  grpc := simple;
  grpc_new := mkSimple false 0;
  grpc_step g ev g' := simple_event g ev = Some g';
  grpc_stopped := sg_stopped;
  grpc_pending := sg_pending
}.

#[export] Instance simple_laws : GrpcLaws.
Proof.
  constructor; cbn; try done.
  - by intros g g' [= <-].
  - intros [[] n] g'; cbn; [|done]. by case_bool_decide.
  - by intros [[] n] g'.
  - intros [[] n] [| | | | |[]] g' Hs Ht; cbn in *; try done; repeat case_match; by simplify_eq.
  - intros [[] n] [| | | | |[]] g' Hs Hne; cbn in *; try done; repeat case_match; simplify_eq; cbn; lia.
  - by intros [[] n] g'.
  - intros [[] n]; cbn; [done|]. by eexists.
  - intros g. by eexists.
  - intros [[] n]; cbn; [|done]. intros _ ->. cbn. split; by eexists.
Qed.

(** An executable scheduler over it, for closes that do not fail. *)
Definition close_next (c : close_pc) (s : shared) : option (close_pc * shared) :=
  match c with
  | CEnter => match closeOnce s with
              | Fresh => Some (CRead, mkShared true Running (grpcServer s) (closed s))
              | Running => None
              | Done => Some (CDisk 0 None, s)
              end
  | CRead => match grpcServer s with
             | None => Some (CDisk 0 None, set_once Done s)
             | Some _ => Some (CStop, s)
             end
  | CStop => g ← grpcServer s; g' ← simple_event g StopBegin; Some (CWait, set_grpc g' s)
  | CWait => g ← grpcServer s; g' ← simple_event g StopReturn; Some (CDisk 0 None, set_once Done (set_grpc g' s))
  | CDisk i e => if decide (i < length (closed s))%nat then Some (CDisk (S i) e, close_file i s)
                 else if decide (i = length (closed s)) then Some (CReturn e, s) else None
  | CReturn _ => None
  end.

Inductive action := AMain | AWatch | ATick | ASignal | ACall (ev : grpc_event).

Definition perform (a : action) (p : process) : option process :=
  match a with
  | AMain =>
      match p_main p with
      | MListen => Some (set_main MPublish (p_shared p) p)
      | MPublish => Some (set_main MServe (set_grpc grpc_new (p_shared p)) p)
      | MServe => g ← grpcServer (p_shared p); g' ← simple_event g ServeBegin;
                  Some (set_main MServing (set_grpc g' (p_shared p)) p)
      | MServing => g ← grpcServer (p_shared p); g' ← simple_event g (ServeReturn true);
                    Some (set_main (MClose CEnter) (set_grpc g' (p_shared p)) p)
      | MClose (CReturn _) => Some (exit_with 0 p)
      | MClose c => '(c', s) ← close_next c (p_shared p); Some (set_main (MClose c') s p)
      end
  | AWatch =>
      match p_watch p with
      | WWait => if p_signal p
                 then Some (mkProcess (p_main p) (WClose CEnter) true (p_sched p) false (p_shared p) (p_exit p))
                 else None
      | WClose c => '(c', s) ← close_next c (p_shared p); Some (set_watch (WClose c') s p)
      end
  | ATick => match p_sched p with SSelect => Some (set_sched (STrim 0) p) | _ => None end
  | ASignal => Some (mkProcess (p_main p) (p_watch p) (p_force p) (p_sched p) true (p_shared p) (p_exit p))
  | ACall ev =>
      if decide (ev = CallBegin ∨ ev = CallEnd) then
        g ← grpcServer (p_shared p); g' ← simple_event g ev;
        Some (mkProcess (p_main p) (p_watch p) (p_force p) (p_sched p) (p_signal p) (set_grpc g' (p_shared p)) (p_exit p))
      else None
  end.

Fixpoint perform_all (l : list action) (p : process) : option process :=
  match l with
  | [] => Some p
  | a :: l => match p_exit p with Some _ => None | None => p' ← perform a p; perform_all l p' end
  end.

Lemma close_next_step c s c' s' : close_next c s = Some (c', s') → close_step c s c' s'.
Proof.
  destruct c as [| | | |i e|e]; cbn [close_next].
  - destruct (closeOnce s) eqn:E; [| |]; intros [= <- <-]; [by apply close_enter|by apply close_again].
  - destruct (grpcServer s) as [g|] eqn:E; intros [= <- <-]; [by apply (close_read s g)|by apply close_read_nil].
  - intros (g & Hg & (g' & Hev & [= <- <-])%bind_Some)%bind_Some. by apply (close_stop s g g').
  - intros (g & Hg & (g' & Hev & [= <- <-])%bind_Some)%bind_Some. by apply (close_stopped s g g').
  - destruct (decide _) as [Hi|Hi]; [|].
    { intros [= <- <-]. destruct e as [e|]; [by apply (close_disk s i (Some e) None)|by apply (close_disk s i None None)]. }
    destruct (decide _) as [Hn|]; intros [= <- <-]. by apply close_end.
  - done.
Qed.

Lemma perform_step a p p' : perform a p = Some p' → ∃ w, proc_step w p p'.
Proof.
  assert (Hmain : ∀ c, p_main p = MClose c →
    ('(c', s) ← close_next c (p_shared p); Some (set_main (MClose c') s p)) = Some p' → ∃ w, proc_step w p p').
  { intros c E ([c' s] & Hc%close_next_step & [= <-])%bind_Some. exists Main. by eapply main_close. }
  destruct a as [| | | |ev]; cbn [perform].
  - destruct (p_main p) as [| | | |c] eqn:E.
    + intros [= <-]. exists Main. by apply main_serve, serve_listen.
    + intros [= <-]. exists Main. by apply main_serve, (@serve_publish simple_grpc p).
    + intros (g & Hg & (g' & Hev & [= <-])%bind_Some)%bind_Some. exists Main. by apply main_serve, (serve_begin p g g').
    + intros (g & Hg & (g' & Hev & [= <-])%bind_Some)%bind_Some. exists Main. by apply main_serve, (serve_returns p g g').
    + destruct c as [| | | |i e|e]; try by apply (Hmain _ eq_refl).
      intros [= <-]. exists Main. by apply (main_return p e).
  - destruct (p_watch p) as [|c] eqn:E.
    + destruct (p_signal p) eqn:Es; intros [= <-]. exists Watch. by apply watch_signal.
    + intros ([c' s] & Hc%close_next_step & [= <-])%bind_Some. exists Watch. by eapply watch_close.
  - destruct (p_sched p) eqn:E; intros [= <-]. exists Sched. by apply sched_tick.
  - intros [= <-]. exists World. apply world_signal.
  - destruct (decide _) as [Hev|]; [|done]. intros (g & Hg & (g' & Hs & [= <-])%bind_Some)%bind_Some.
    exists World. by apply (world_call p g ev g').
Qed.

Lemma perform_all_steps l p p' : perform_all l p = Some p' → rtc step p p'.
Proof.
  revert p. induction l as [|a l IH]; cbn [perform_all]; intros p; [intros [= <-]; constructor|].
  destruct (p_exit p) eqn:E; [done|]. intros (q & Hq & Hl)%bind_Some.
  eapply rtc_l; [split; [exact E|by eapply perform_step]|by apply IH].
Qed.

Definition serving_one : process :=
  mkProcess MServe WWait false SSelect false (mkShared false Fresh (Some (mkSimple false 0)) [false]) None.

Lemma serving_one_published : published serving_one.
Proof.
  unfold published, serving_one. cbn. split_and!; try done; [by left|].
  intros H%list_elem_of_singleton. done.
Qed.

(** A call is served, a signal comes, the call ends, and the process exits. *)
Definition exited_one : process :=
  mkProcess (MClose (CReturn None)) (WClose (CReturn None)) true SSelect false
    (mkShared true Done (Some (mkSimple true 0)) [true]) (Some 0).

Lemma serving_one_runs : rtc step serving_one exited_one.
Proof.
  by apply (perform_all_steps [AMain; ACall CallBegin; ASignal; AWatch; AWatch; AWatch; AWatch; ACall CallEnd; AWatch;
    AMain; AMain; AWatch; AWatch; AMain; AMain; AMain]).
Qed.

Lemma drained_shutdown_witness :
  Forall (λ b, b = true) (closed (p_shared exited_one)) ∧
  ∃ g, grpcServer (p_shared exited_one) = Some g ∧ grpc_pending g = 0%nat.
Proof.
  destruct (drained_shutdown serving_one exited_one serving_one_published serving_one_runs) as [H1 H2]. split.
  - exact (H2 eq_refl).
  - destruct (H1 ltac:(by left)) as (g & Hg & Hp & _). exists g. split; [exact Hg|exact Hp].
Defined.

(** In the middle of the shutdown, with no call left. *)
Definition stopping_one : process :=
  mkProcess MServing (WClose CWait) true SSelect false
    (mkShared true Running (Some (mkSimple true 0)) [false]) None.


(** C40: two races of the shutdown.  A signal that comes before [Serve] has stored the gRPC server finds
    none to stop and closes the disks; [main] then starts serving, calls are handled, and trims start,
    on closed files, and since the [sync.Once] is done no later [Close] will ever stop the server.
    And [Close] does not wait for the trim scheduler: a process that was serving exits with status 0 in
    the middle of a trim, on disks that were closed under it. *)
Theorem shutdown_races :
  (∃ p, rtc step (started 1 true) p ∧ p_exit p = None ∧ p_main p = MServing ∧ closed (p_shared p) = [true] ∧
     p_watch p = WClose (CReturn None) ∧ closeOnce (p_shared p) = Done ∧ p_sched p = STrim 0 ∧
     ∃ g, grpcServer (p_shared p) = Some g ∧ grpc_stopped g = false ∧ grpc_pending g = 1%nat) ∧
  ∃ p p', published p ∧ rtc step p p' ∧ p_exit p' = Some 0 ∧ p_sched p' = STrim 0 ∧ closed (p_shared p') = [true].
Proof.
  split.
  - exists (mkProcess MServing (WClose (CReturn None)) true (STrim 0) false
      (mkShared true Done (Some (mkSimple false 1 : @grpc simple_grpc)) [true]) None).
    split; [|by split_and!; try done; eexists].
    by apply (perform_all_steps [AMain; ASignal; AWatch; AWatch; AWatch; AWatch; AWatch; AMain; AMain;
      ACall CallBegin; ATick]).
  - exists serving_one, (mkProcess (MClose (CReturn None)) (WClose (CReturn None)) true (STrim 0) false
      (mkShared true Done (Some (mkSimple true 0 : @grpc simple_grpc)) [true]) (Some 0)).
    split; [exact serving_one_published|]. split; [|by split_and!].
    by apply (perform_all_steps [AMain; ATick; ASignal; AWatch; AWatch; AWatch; AWatch; AWatch;
      AMain; AMain; AWatch; AWatch; AMain; AMain; AMain]).
Qed.
