(* ===== verification/BlkCli.v ===== *)
(** * The index commands from their command line (internal/blk, cmd/bsos/main.go)

    The arguments of [bsos blk index-backup], [index-restore] and [packed-scrub], in front of the
    bodies modelled in [Backup] and [PackedScrub]; and a backup taken and restored by the two command
    lines a user types. *)

From S2P Require Import Prelude Machine Loop Device Layout IndexScan PackedTable Interval Replay DirectIO.
From S2P Require Import DeviceState DeviceInv DeviceOps DiskStore Text Path Config Compact CompactRun Backup.
From S2P Require Import PackedScrub Flag Client Cli.
From Stdlib Require Import Strings.Byte.

(** ** index-backup *)
Record backupOptions := mkBackupOptions { bo_panPath : string; bo_diskID : string }.

Definition backupFlagSet : flag_set backupOptions := [
  ("pan", StringVar (λ s o, mkBackupOptions s (bo_diskID o)));
  ("disk", StringVar (λ s o, mkBackupOptions (bo_panPath o) s))]%string.

(** [pan] is [pan.Read] of the file at a path. *)
Definition index_backup_command (args : list string) (pan : string → res (list PanDevice)) (root : bool)
    (timestamp : string) (od : PanDevice → os_device) (mkdir : option error) (create : string → res file) :
    Z * list (string * file) :=
  match Parse backupFlagSet args (mkBackupOptions "pan.json" "") with
  | Ok (opts, []) => RunIndexBackup (pan (bo_panPath opts)) (bo_diskID opts) root timestamp od mkdir create
  | _ => (backupExitBadArgs, [])
  end.

(** ** index-restore *)
Definition restoreFlagSet : flag_set restoreOptions := [
  ("file", StringVar (λ s o, mkRestore s (ro_force o) (ro_yes o)));
  ("force", BoolVar (λ b o, mkRestore (ro_file o) b (ro_yes o)));
  ("yes", BoolVar (λ b o, mkRestore (ro_file o) (ro_force o) b))]%string.

(** [open] opens the backup, [dev] is the device behind a path. *)
Definition index_restore_command (args : list string) (open : string → res file) (root : bool)
    (dev : string → os_device) (line : string) : Z * option file :=
  match Parse restoreFlagSet args (mkRestore "" false false) with
  | Ok (opts, [devicePath]) => RunIndexRestore opts (open (ro_file opts)) root (dev devicePath) line
  | _ => (restoreExitBadArgs, None)
  end.

(** ** packed-scrub *)
Record scrubArgs := mkScrubArgs { sa_panPath : string; sa_opts : packedScrubOptions }.

Definition scrubFlagSet : flag_set scrubArgs := [
  ("pan", StringVar (λ s o, mkScrubArgs s (sa_opts o)));
  ("disk", StringVar (λ s o, mkScrubArgs (sa_panPath o) (mkScrubOptions s (so_fix (sa_opts o)) (so_yes (sa_opts o)))));
  ("fix", BoolVar (λ b o, mkScrubArgs (sa_panPath o) (mkScrubOptions (so_diskID (sa_opts o)) b (so_yes (sa_opts o)))));
  ("yes", BoolVar (λ b o, mkScrubArgs (sa_panPath o) (mkScrubOptions (so_diskID (sa_opts o)) (so_fix (sa_opts o)) b)))]%string.

Definition packed_scrub_command (args : list string) (pan : string → res (list PanDevice)) (root : bool)
    (os : PanDevice → scrub_os) : res Z * list (PanDevice * option file) :=
  match Parse scrubFlagSet args (mkScrubArgs "pan.json" (mkScrubOptions "" false false)) with
  | Ok (opts, []) => RunPackedScrub (sa_opts opts) (pan (sa_panPath opts)) root os
  | _ => (Ok packedScrubExitBadArgs, [])
  end.

(** ** Properties *)
Lemma tokenize_equals name v s :
  name ∈ ["-pan="; "-file="]%string → s = String.append name v →
  tokenize s = Named (if bool_decide (name = "-pan="%string) then "pan" else "file")%string (Some v).
Proof.
  intros Hn ->. assert (E : str (chars v) = v) by (apply chars_inj, chars_str).
  repeat (apply elem_of_cons in Hn as [->|Hn]; [rewrite <- E at 2; reflexivity|]).
  by apply not_elem_of_nil in Hn.
Qed.

Lemma restore_args file devicePath :
  tokenize devicePath = NoFlag →
  Parse restoreFlagSet [String.append "-file=" file; "-yes"%string; devicePath] (mkRestore "" false false) =
    Ok (mkRestore file false true, [devicePath]).
Proof.
  intros Hdev. cbn [Parse]. rewrite (tokenize_equals "-file=" file), Hdev by (done || (right; by left)). reflexivity.
Qed.

(** Whatever a command line does, without exactly one device argument [index-restore] opens nothing,
    and with an argument left over neither do the other two. *)
Lemma restore_needs_device args open root dev line :
  match Parse restoreFlagSet args (mkRestore "" false false) with Ok (_, [_]) => False | _ => True end →
  index_restore_command args open root dev line = (restoreExitBadArgs, None).
Proof. unfold index_restore_command. destruct (Parse _ _ _) as [[opts [|a [|b l]]]|]; done. Qed.

(** C20: a backup and its restore, as they are typed.  On a disk without faults, [bsos blk index-backup
    -pan=P], where P lists the disk, exits with status 0 and writes one file; later, when the extents
    of the objects of the backup still hold their bytes, [bsos blk index-restore -file=F -yes DEVICE]
    with that file exits with status 0 and leaves a device that opens with exactly the objects of the
    backup, each with its bytes. *)
Theorem backup_restore_commands s od dev f2 od2 panPath timestamp file devicePath line direct :
  Inv s → indexErr s = None → f_faults (ds_file s) = [] →
  opens (od dev) (ds_file s) (diskBytes s) → Status dev = "match"%string →
  ParseDiskID (DiskID dev) = Ok (diskID s) →
  opens (od2 devicePath) f2 (diskBytes s) → f_faults f2 = [] → f_size f2 = diskBytes s → f_grow f2 = false →
  header_valid (diskID s) (f_data f2) →
  (∀ iv a, iv ∈ intervals s → ext_addr iv a → f_data f2 a = f_data (ds_file s) a) →
  TrimSpace file ≠ EmptyString → tokenize devicePath = NoFlag →
  ∃ restArgs path bak restArgs2 f3 s',
    bsos_main ["blk"; "index-backup"; String.append "-pan=" panPath]%string = inl (BlkIndexBackup, restArgs) ∧
    index_backup_command restArgs (λ p, if bool_decide (p = panPath) then Ok [dev] else Err ENotFound) true
      timestamp od None (λ _, Ok new_file) = (backupExitOK, [(path, bak)]) ∧
    bsos_main ["blk"; "index-restore"; String.append "-file=" file; "-yes"; devicePath]%string =
      inl (BlkIndexRestore, restArgs2) ∧
    index_restore_command restArgs2 (λ p, if bool_decide (p = file) then Ok bak else Err ENotFound) true od2 line =
      (restoreExitOK, Some f3) ∧
    OpenDevice (clean f3) (diskBytes s) direct (diskID s) = (Ok s', clean f3) ∧
    Inv s' ∧ confirmed s' = confirmed s ∧ ∀ k, contents s' k = contents s k.
Proof.
  intros Hs He Hf Ho Hst Hid Ho2 Hf2 Hs2 Hg2 Hv2 Hext Hfile Hdev.
  destruct (backup_restore_roundtrip s (od dev) dev f2 (od2 devicePath) (mkRestore file false true) line direct
    Hs He Hf Ho Hid Ho2 Hf2 Hs2 Hg2 Hv2 Hext Hfile eq_refl) as (bak & f3 & s' & Hb & Hr & Hop & Hi & Hc & _ & Hk).
  exists [String.append "-pan=" panPath], (backup_path dev timestamp "nbss_index_backup"), bak,
    [String.append "-file=" file; "-yes"%string; devicePath], f3, s'.
  split; [reflexivity|]. split.
  { unfold index_backup_command. cbn [Parse].
    rewrite (tokenize_equals "-pan=" panPath) by (done || by left). rewrite bool_decide_eq_true_2 by done.
    cbn [find_flag backupFlagSet]. rewrite bool_decide_eq_true_2 by done. cbn [isBool StringVar].
    unfold set_flag. cbn [Set_ StringVar mbind res_bind bo_panPath bo_diskID]. rewrite bool_decide_eq_true_2 by done.
    unfold RunIndexBackup. rewrite (bool_decide_eq_true_2 (TrimSpace "" = EmptyString)) by done.
    cbn [backup_devices]. rewrite Hst. rewrite (bool_decide_eq_true_2 ("match" = "match")%string) by done.
    rewrite andb_false_r. fold BackupDeviceIndexToPath. by rewrite Hb. }
  split; [reflexivity|]. split; [|by split_and!].
  unfold index_restore_command. rewrite restore_args by done. cbn [ro_file]. by rewrite bool_decide_eq_true_2.
Qed.

Lemma backup_restore_commands_witness :
  ∃ rest path bak rest2 f3,
    index_backup_command rest (λ p, if bool_decide (p = "pan.json"%string) then Ok [mkPanDevice "match" "d" "0x7" 2 0]
      else Err ENotFound) true "t" (λ _, demo_os (ds_file demo_state)) None (λ _, Ok new_file) =
      (backupExitOK, [(path, bak)]) ∧
    index_restore_command rest2 (λ p, if bool_decide (p = "b"%string) then Ok bak else Err ENotFound) true
      (λ _, demo_os demo_later) "" = (restoreExitOK, Some f3).
Proof.
  destruct (backup_restore_commands demo_state (λ _, demo_os (ds_file demo_state)) (mkPanDevice "match" "d" "0x7" 2 0)
    demo_later (λ _, demo_os demo_later) "pan.json" "t" "b" "/dev/d" "" true demo_Inv eq_refl eq_refl)
    as (rest & path & bak & rest2 & f3 & s' & _ & H1 & _ & H2 & _).
  - by split_and!.
  - reflexivity.
  - reflexivity.
  - by split_and!.
  - reflexivity.
  - reflexivity.
  - reflexivity.
  - eapply header_valid_ext; [|exact (i_header _ demo_Inv)]. intros a Ha. unfold demo_later.
    rewrite f_data_write. apply upd_out. unfold buf_of. cbn [blen]. llia.
  - intros iv a Hiv. by apply not_elem_of_nil in Hiv.
  - vm_compute. discriminate.
  - reflexivity.
  - exists rest, path, bak, rest2, f3. split; [exact H1|exact H2].
Defined.
